(* ===== verification/_CoqProject ===== *)
-Q . S2P
Prelude.v
Prog.v
Consts.v
Types.v
Machine.v
Samples.v
Submission.v
SubmissionSpec.v
Ops.v
OpsSpec.v
Files.v
Concurrency.v
Progress.v
Barrier.v
Isolation.v
Completion.v
CompletionSpec.v
SearchSpec.v
RunLoop.v
RunLoopSpec.v
Ledger.v
RunLoopBound.v
Answers.v
Calls.v
BlockingSpec.v
Completer.v
Submitter.v
Register.v
Setup.v
SetupSpec.v
Stopping.v
FileIO.v
FileIOSpec.v
Rely.v
CompleterRely.v
RingFile.v
Cp.v
CpSpec.v
CpMain.v
FileModel.v
Standalone.v
StandaloneSpec.v
Bulk.v
BulkMain.v
Bug9.v
Hello.v
Conn.v
ConnSpec.v
ConnPool.v
Listener.v
ListenerSpec.v
Accepting.v
Net.v
