(* ===== verification/Prelude.v ===== *)
(** * iouring-go: verification development

    The library under src/ drives Linux io_uring from Go.  A [Ring] owns two
    queues in memory it shares with the kernel.  Clients claim an entry of the
    submission queue, fill it in and publish it ([SubmitEntry] and its
    callback, the [Prepare] functions); [Enter] hands the entries to the
    kernel; completions come back in the completion queue and are handed to
    the waiting clients by a goroutine ([Ring.run], [onEntry]) or looked up
    ([EntryBy], [getCqe]).  Two more goroutines move the head of the completion
    queue (the completer) and batch submissions (the submitter).  On top are
    file I/O, network connections and a listener, registration of files and
    buffers, and setup and teardown.  The examples under src/examples and
    src/tests use the library to copy and write files and to serve HTTP; one of
    them drives a ring without it.

    ** How the program is modelled

    Go code over shared memory is a [prog] (Prog.v): a tree of atomic actions on
    a memory, with panics, and [Starve] where a spin loop or a blocked channel
    operation has used up its fuel.  The same text is executed alone ([runs]),
    among other goroutines as an arbitrary environment ([run], and the invariant
    rules [safe] and [returns]), and in pools that interleave action by action
    ([pstep], with the token logic [can]).  Goroutines that loop around a select
    are step relations: [lstep] (Ring.run), [cstep] (completer.run), [bstep]
    (submitter.run); inside a branch they are programs and move one action at a
    time.  [sstep] is the system of clients, completion goroutine and kernel, and
    [sys_run] executes a schedule of it.  [wp] (Rely.v) verifies a client against
    the completer goroutine: what the client guarantees and the goroutine relies
    on, and the other way round, so that results hold for every interleaving of
    the two ([fstep]).

    Integers are [Z] with Go's conversions written out ([u32], [i32], [u64],
    [i64]).  The pointers of the queues are the values they point to; addresses
    of buffers are numbers; channels are their contents with their capacity.
    The kernel is a parameter, the class [Kernel] (Machine.v): its answer to a
    system call after a history of calls, what a call does to buffers and files
    ([Store]), and what io_uring_enter does to these and to the fields of the
    rings the kernel owns.  The theorems hold for every kernel, or for those with
    a documented behaviour that they name ([mmap_ok], [posts], [handles],
    [params_ok], [serves], [opens]); concrete kernels are in Samples.v and beside the
    witnesses.  Parameters too are the allocator of buffers, which may return any
    address, and the contents of mapped memory when a ring is set up.

    ** Files, and the source they model

    - Prelude.v, Prog.v: integers, slices, errors; programs and their rules.
    - Consts.v: consts.go.  Types.v: the structures of types.go with their memory
      layout, [Reset], [IsZero], [Advance], and well-formed queues.
    - Machine.v: [Ring] of ring.go and the other records, the memory, the kernel,
      and atomic loads, stores and compare-and-swaps on the queues.  Samples.v:
      concrete memories and kernels for the witnesses.
    - Submission.v: [enterLock], [enterUnlock], [completeWrite] (types.go),
      [SubmitEntry] with its callback [ready], [ID], [Ring.Enter] and the
      accessors (ring.go), [Enter] (uring_enter.go).  SubmissionSpec.v: what the
      kernel takes from a sequence of submissions, alternating (each request as
      it was filled in, in order, for ever) and batched (the first one
      repeatedly); how many entries the kernel counts after a batch, given that
      the tail is a masked position; positions lost while the ring is entered; the
      barrier; the call [Enter] makes; distinct identifiers.
    - Ops.v: ops.go and utils.go, the 21 [Prepare] functions, [Ring.complete] and
      the blocking operations.  OpsSpec.v: every [Prepare] function against a
      table of encodings, up to the kernel.  BlockingSpec.v: the results of the
      blocking operations, and of [Splice].
    - Concurrency.v: pools of clients that prepare requests and enter: mutual
      exclusion of io_uring_enter, consecutive claims, and no panics but those of
      empty buffers, for every interleaving with every kernel.  Progress.v: clients that prepare requests are
      never left spinning, with a logic that charges every failed compare-and-swap
      to a change by another client.  Isolation.v: they do not write each other's
      entries, with tokens that own the positions a client has claimed.  Barrier.v:
      the barrier of [Enter] does not wait for the clients that are writing.
    - Files.v: reads and writes of files by the kernel, and what the examples use
      of the package os.
    - Completion.v: [EntryBy] (types.go), [getCqe] and [onEntry] (ring.go).
      CompletionSpec.v: [onEntry] refines a fold over the circular window; which
      requests it completes, when it drains the queue, how the head moves, what a
      full queue does to it, and two ways in which the head goes wrong.
      SearchSpec.v: [EntryBy] and [getCqe], alone and among changes of the queue.
    - RunLoop.v: [Ring.run].  RunLoopSpec.v: it keeps polling while requests are
      in flight; a client of [complete] gets its answer; a schedule that blocks
      the goroutine for ever, and one in which a client gets the answer of
      another request.  Ledger.v: counting the messages of a channel against the
      programs that send and receive them.  RunLoopBound.v: with at most two calls
      of [complete] the goroutine does not block.  Answers.v: calls of [complete]
      that all begin before the first one ends get the answers of their own
      requests, in every interleaving, with a proof logic for requests that pass
      between clients, goroutine and pool.  Calls.v: an execution of a client that
      calls blocking operations one after the other, from their arguments to their
      results.
    - Completer.v: completer.go; the head moves exactly over the handled
      positions, in any order of arrival, and wrongly when one arrives twice.
    - Submitter.v: submitter.go; no request waits without a timer while enter
      does not fail; it is stuck after one failure; stopping it while idle.
    - Register.v: register.go; results of the register calls (never an error, whatever
      the kernel answers), offsets of the file registry, what unregistering leaves
      behind.
    - Setup.v: uring_setup.go, ring_option.go, and [New], [Stop], [closeSq],
      [closeCq] of ring.go.  SetupSpec.v: [Reset] of a queue, slices
      inside their mappings, errors of [MmapRing] and [New] and what they leave open,
      a well-formed ring from [New] and its accessors, the calls of [Stop].
      Stopping.v: the goroutine of [Ring.run] outlives [Stop].
    - FileIO.v: read_writer.go, [FileReadWriter] of ring.go and the interface of
      consts.go.  FileIOSpec.v: a read or write from its entry to its result, the
      file offset, [Seek].
    - Rely.v, CompleterRely.v: clients and the completer goroutine; completions
      that are handed in in order are acknowledged in order, and all of them.
      RingFile.v: [Read], [Write], [ReadAt], [WriteAt] and [Close] of a ring file
      on a ring at rest, beside the completer, with a kernel that serves requests.
      FileModel.v: abstract files, and that sequences of calls on ring files
      refine sequences of calls on them.
    - Cp.v: examples/cp, both programs.  CpSpec.v: the loop copies, against what it
      needs of a file (the class [Copying]), which ring files and files of the
      package os provide.  CpMain.v: the program on the ring ends and copies; it
      agrees with the other in every interleaving; what a short write does.
    - Standalone.v: examples/standalone.  StandaloneSpec.v: the layout of the
      structures in both programs, the two versions of [MmapRing], and that the
      program reads back what it wrote.
    - Bulk.v: [send] and [sendMessage] of examples/bulk-socket; a reader of chunks
      reads back what is sent, and who gets it.  BulkMain.v: its [main], the message
      as JSON, the handler of the endpoint and the check of the clients; what a round
      of [send] puts on the sockets and what their clients make of it; what happens
      without a ring.  Bug9.v: tests/bug-9.go.  Hello.v:
      examples/write up to its last statement.  Net.v: examples/net with its
      handler; the HTTP server is a parameter.
    - Conn.v: ring_conn.go.  ConnSpec.v: the result of a write, and a wait that
      blocks for good.  ConnPool.v: how many calls on a connection can succeed, in
      every interleaving.
    - Listener.v: conn.go, with [SockoptListener]; the file system, the resolver
      and the addresses of peers are parameters.  ListenerSpec.v: what a walk of the
      listener takes and acknowledges, that it accepts again from a completion it
      handled and does not recognise the polls it arms; the order in which
      connections are accepted; the calls that open a socket, on success and on
      errors, and which address is bound.  Accepting.v: the goroutine of a listener and the callers of
      [Accept], in every interleaving: each connection is handed over once.

    ** What the kernel is taken to do

    [kernel_take] is which entry the kernel takes, the one at its head; how many it
    takes is what it is asked for, up to the difference of tail and head
    ([sq_count]).  A batch shorter than the ring is always counted in full, so the
    theorems about batches are about such a kernel; a batch of the size of the ring
    may be counted as nothing.  [serves] is a kernel that takes the entry it is
    asked for when tail and head differ, transfers, and posts the completion: its
    reads may be short, its writes are complete, stat reports the length of the
    file.  It posts without looking for room in the completion queue, which the
    theorems about ring files give it: at least three entries more than the channel
    of the completer has places, and [New] makes that channel with 512.  So these
    theorems are about rings with at least 1024 completion entries.  [handles] is a
    kernel that completes the entry it is asked for with a result of its choice.

    ** Bounds and fuel

    Queues have a number of entries that is a power of two up to 2^31
    ([pow2_size]), as the kernel makes them; counters run freely modulo 2^32.
    Fuel bounds the rounds of the loops that wait for somebody else (the barrier,
    the compare-and-swap loops, full or empty channels, searches that start over).
    Theorems about a quiet ring say that one round is enough ([S fuel] for every
    [fuel]); theorems about interference hold for every fuel; where a loop does
    not end, the theorem says it uses up any fuel.  Among clients that prepare
    requests, one more attempt than three for each of their calls is enough
    (Progress.v).  The copy loops are bounded by
    the rounds [rounds]; one more than the bytes of the file is enough, as a read
    that is not at the end returns at least one byte.  Loops over slices and the
    loop of the completer are bounded by the data, and need no other bound.

    ** Not modelled

    The router, the encoder of events and the event client of examples/bulk-socket
    and the HTTP server of examples/net are other packages; they are parameters, or
    given by the results of the calls.  Parsing of flags is not modelled: the values
    of the flags are arguments.  The last statement of examples/write does not
    compile against the library.
    Time is not modelled: sleeps have no effect and a running timer may expire at
    any moment.  The contents of buffers are those of files and of the copy programs;
    elsewhere entries carry addresses and lengths.  Unmapped memory is not
    represented, so an access after [Stop] is a nil queue.  A copy of a completion
    entry is one action, where Go may read its words one by one.  The pool of
    request objects is a stack, where sync.Pool may return any object it holds, or
    a new one.  The mutexes of [closeSq] and [closeCq] are not modelled: the two
    functions are programs of several actions, and pools interleave them as if there
    were none, so that what holds in every interleaving here holds in those of Go. *)

From stdpp Require Import base numbers list gmap strings.
From Stdlib Require Import ZArith Lia.

(** The proofs state arithmetic on [Z]; [nat] is used for fuel and lengths. *)
Global Open Scope Z_scope.

(** ** Machine integers *)

(** Conversion of an unbounded integer to an unsigned or a signed (two's
    complement) integer of [w] bits: Go's conversions [uint32(x)],
    [int32(x)], ... and the wrap-around of its arithmetic. *)
Definition uwrap (w x : Z) : Z := x mod 2 ^ w.
Definition swrap (w x : Z) : Z := (x + 2 ^ (w - 1)) mod 2 ^ w - 2 ^ (w - 1).

Abbreviation u8 := (uwrap 8).
Abbreviation u16 := (uwrap 16).
Abbreviation u32 := (uwrap 32).
Abbreviation u64 := (uwrap 64).
Abbreviation i32 := (swrap 32).
Abbreviation i64 := (swrap 64).

Definition is_uint (w x : Z) : Prop := 0 <= x < 2 ^ w.
Definition is_sint (w x : Z) : Prop := - 2 ^ (w - 1) <= x < 2 ^ (w - 1).

Abbreviation is_u32 := (is_uint 32).
Abbreviation is_u64 := (is_uint 64).
Abbreviation is_i32 := (is_sint 32).
Abbreviation is_i64 := (is_sint 64).

#[global] Instance is_uint_dec w x : Decision (is_uint w x).
Proof. unfold is_uint. apply _. Defined.
#[global] Instance is_sint_dec w x : Decision (is_sint w x).
Proof. unfold is_sint. apply _. Defined.

Create HintDb ints.

Lemma uwrap_range w x : 0 <= w -> is_uint w (uwrap w x).
Proof. intros ?. unfold is_uint, uwrap. apply Z.mod_pos_bound. lia. Qed.

Lemma uwrap_id w x : is_uint w x -> uwrap w x = x.
Proof. unfold is_uint, uwrap. intros. by apply Z.mod_small. Qed.

Lemma uwrap_nonneg w x : 0 <= w -> 0 <= uwrap w x.
Proof. intros ?. by apply uwrap_range. Qed.

Lemma uwrap_idemp w x : 0 <= w -> uwrap w (uwrap w x) = uwrap w x.
Proof. intros. by apply uwrap_id, uwrap_range. Qed.

Lemma uwrap_add_l w x y : uwrap w (uwrap w x + y) = uwrap w (x + y).
Proof. unfold uwrap. apply Zplus_mod_idemp_l. Qed.

Lemma uwrap_add_r w x y : uwrap w (x + uwrap w y) = uwrap w (x + y).
Proof. unfold uwrap. apply Zplus_mod_idemp_r. Qed.

Lemma uwrap_sub_l w x y : uwrap w (uwrap w x - y) = uwrap w (x - y).
Proof. unfold uwrap. apply Zminus_mod_idemp_l. Qed.

Lemma uwrap_sub_r w x y : uwrap w (x - uwrap w y) = uwrap w (x - y).
Proof. unfold uwrap. apply Zminus_mod_idemp_r. Qed.

Lemma swrap_range w x : 0 < w -> is_sint w (swrap w x).
Proof.
  intros ?. unfold is_sint, swrap.
  assert (2 ^ w = 2 * 2 ^ (w - 1)) as Hw.
  { rewrite <- Z.pow_succ_r by lia. f_equal. lia. }
  pose proof (Z.mod_pos_bound (x + 2 ^ (w - 1)) (2 ^ w)) as Hb.
  assert (0 < 2 ^ (w - 1)) by (apply Z.pow_pos_nonneg; lia). lia.
Qed.

Lemma swrap_id w x : 0 < w -> is_sint w x -> swrap w x = x.
Proof.
  intros ? [? ?]. unfold swrap.
  assert (2 ^ w = 2 * 2 ^ (w - 1)) as Hw.
  { rewrite <- Z.pow_succ_r by lia. f_equal. lia. }
  rewrite Z.mod_small by lia. lia.
Qed.

Lemma swrap_uwrap w x : swrap w (uwrap w x) = swrap w x.
Proof. unfold swrap, uwrap. by rewrite Zplus_mod_idemp_l. Qed.

Lemma swrap_sub_l w x y : swrap w (swrap w x - y) = swrap w (x - y).
Proof.
  unfold swrap. f_equal. set (h := 2 ^ (w - 1)).
  replace ((x + h) mod 2 ^ w - h - y + h) with ((x + h) mod 2 ^ w - y) by lia.
  rewrite Zminus_mod_idemp_l. f_equal. lia.
Qed.

#[export] Hint Resolve uwrap_range uwrap_nonneg swrap_range : ints.
#[export] Hint Extern 1 (_ <= _) => lia : ints.
#[export] Hint Extern 1 (_ < _) => lia : ints.

(** ** Ring masks *)

(** [x & mask] for the mask [2^k - 1] of a ring of [2^k] entries. *)
Definition pow2_size (n : Z) : Prop := exists k, 0 <= k <= 31 /\ n = 2 ^ k.

Lemma pow2_size_pos n : pow2_size n -> 0 < n.
Proof. intros (k & ? & ->). lia. Qed.

Lemma pow2_size_divide n : pow2_size n -> (n | 2 ^ 32).
Proof.
  intros (k & ? & ->). exists (2 ^ (32 - k)). rewrite <- Z.pow_add_r by lia.
  f_equal. lia.
Qed.

Lemma pow2_size_u32 n : pow2_size n -> n <= 2 ^ 31.
Proof. intros (k & ? & ->). apply Z.pow_le_mono_r; lia. Qed.

Lemma land_mask n x : pow2_size n -> Z.land x (n - 1) = x mod n.
Proof.
  intros (k & ? & ->). rewrite <- Z.land_ones by lia. f_equal.
  rewrite Z.ones_equiv. lia.
Qed.

Lemma land_mask_range n x : pow2_size n -> 0 <= Z.land x (n - 1) < n.
Proof.
  intros H. rewrite land_mask by done.
  apply Z.mod_pos_bound. by apply pow2_size_pos.
Qed.

(** Reducing modulo 2^32 first does not change the position in the ring. *)
Lemma u32_mod n x : pow2_size n -> u32 x mod n = x mod n.
Proof. intros H. unfold uwrap. apply Z.mod_mod_divide. by apply pow2_size_divide. Qed.

(** [(x mod n) + 1] and [x + 1] are the same position. *)
Lemma mod_succ_mod n x : (x mod n + 1) mod n = (x + 1) mod n.
Proof. apply Zplus_mod_idemp_l. Qed.

(** ** Slices *)

(** Go slices are indexed by machine integers; an access out of range is a
    runtime panic, so reads and writes are partial. *)
Definition slice_get {A} (l : list A) (i : Z) : option A :=
  if bool_decide (0 <= i) then l !! Z.to_nat i else None.

Definition slice_set {A} (l : list A) (i : Z) (x : A) : option (list A) :=
  if bool_decide (0 <= i < Z.of_nat (length l))
  then Some (<[Z.to_nat i := x]> l) else None.

Definition len {A} (l : list A) : Z := Z.of_nat (length l).

Lemma slice_get_in {A} (l : list A) i :
  0 <= i < len l -> is_Some (slice_get l i).
Proof.
  unfold len. intros. unfold slice_get. rewrite bool_decide_true by lia.
  apply lookup_lt_is_Some. lia.
Qed.

Lemma slice_get_out {A} (l : list A) i :
  len l <= i -> slice_get l i = None.
Proof.
  unfold len. intros. unfold slice_get. rewrite bool_decide_true by lia.
  apply lookup_ge_None. lia.
Qed.

Lemma slice_get_Some {A} (l : list A) i x :
  slice_get l i = Some x -> 0 <= i < len l /\ l !! Z.to_nat i = Some x.
Proof.
  unfold slice_get, len. case_bool_decide; [|done]. intros Hx.
  split; [|done]. apply lookup_lt_Some in Hx. lia.
Qed.

Lemma slice_set_in {A} (l : list A) i x :
  0 <= i < len l -> slice_set l i x = Some (<[Z.to_nat i := x]> l).
Proof. unfold len. intros. unfold slice_set. by rewrite bool_decide_true. Qed.

Lemma slice_get_insert_eq {A} (l : list A) i x :
  0 <= i < len l -> slice_get (<[Z.to_nat i := x]> l) i = Some x.
Proof.
  unfold len. intros. unfold slice_get. rewrite bool_decide_true by lia.
  apply list_lookup_insert_eq. lia.
Qed.

Lemma slice_get_insert_ne {A} (l : list A) i j x :
  0 <= i -> i <> j -> slice_get (<[Z.to_nat i := x]> l) j = slice_get l j.
Proof.
  intros. unfold slice_get. case_bool_decide; [|done].
  apply list_lookup_insert_ne. lia.
Qed.

Lemma slice_set_alter {A} (l : list A) i x f :
  slice_get l i = Some x -> slice_set l i (f x) = Some (alter f (Z.to_nat i) l).
Proof.
  intros [Hi Hx]%slice_get_Some. rewrite slice_set_in by done. f_equal.
  rewrite list_insert_alter. by apply list_alter_ext; [naive_solver|].
Qed.

Lemma slice_get_alter_eq {A} (l : list A) i x f :
  slice_get l i = Some x -> slice_get (alter f (Z.to_nat i) l) i = Some (f x).
Proof.
  intros [Hi Hx]%slice_get_Some. unfold slice_get. rewrite bool_decide_true by lia.
  by rewrite list_lookup_alter_eq, Hx.
Qed.

Lemma slice_get_alter_ne {A} (l : list A) i j f :
  0 <= i -> i <> j -> slice_get (alter f (Z.to_nat i) l) j = slice_get l j.
Proof.
  intros. unfold slice_get. case_bool_decide; [|done].
  apply list_lookup_alter_ne. lia.
Qed.

Lemma len_alter {A} (l : list A) (i : nat) f : len (alter f i l) = len l.
Proof. unfold len. by rewrite length_alter. Qed.

Lemma len_insert {A} (l : list A) (i : nat) x : len (<[i := x]> l) = len l.
Proof. unfold len. by rewrite length_insert. Qed.

Lemma len_nonneg {A} (l : list A) : 0 <= len l.
Proof. unfold len. lia. Qed.

Lemma len_app {A} (l k : list A) : len (l ++ k) = len l + len k.
Proof. unfold len. rewrite length_app. lia. Qed.

Create HintDb slices.
Create Rewrite HintDb slices.
#[export] Hint Rewrite @len_insert @len_alter @len_app @length_insert : slices.
#[export] Hint Resolve slice_get_in len_nonneg : slices.

Lemma seqZ_0_S (k : nat) :
  seqZ 0 (Z.of_nat (S k)) = 0 :: (Z.add 1 <$> seqZ 0 (Z.of_nat k)).
Proof.
  rewrite Nat2Z.inj_succ, seqZ_cons by lia. rewrite Z.pred_succ, fmap_add_seqZ. done.
Qed.

(** ** Go errors *)

(** The [error] values the package returns: system call numbers, its own
    sentinel values, formatted messages and wrapped errors. *)
Inductive error :=
| Errno (n : Z)
| ErrEntryNotFound
| errCQEMissing
| errRingUnavailable
| EOF
| ErrMsg (s : string)
| WrapErr (e : error) (s : string).

#[global] Instance error_eq_dec : EqDecision error.
Proof. solve_decision. Defined.

(** A nil [error] is [None]. *)
Abbreviation err := (option error).

(** ** Tactics *)

(** Splits the hypotheses that are conjunctions or existentials and the
    equalities between constructors. *)
Ltac split_hyps := repeat match goal with
  | H : _ /\ _ |- _ => destruct H
  | H : exists _, _ |- _ => destruct H
  | H : Some _ = Some _ |- _ => injection H as H
  | H : (_, _) = (_, _) |- _ => injection H as H
  end.

(** ** Lists *)

(** A list of choices, one for each element. *)
Lemma list_choice {A B} (P : nat -> A -> B -> Prop) (l : list A) :
  (forall i x, l !! i = Some x -> exists y, P i x y) ->
  exists ys, length ys = length l /\
    forall i x y, l !! i = Some x -> ys !! i = Some y -> P i x y.
Proof.
  revert P. induction l as [|a l IH]; intros P H; [by exists []|].
  destruct (H 0%nat a eq_refl) as [y Hy].
  destruct (IH (fun i => P (S i)) (fun i x Hx => H (S i) x Hx)) as (ys & Hlen & Hys).
  exists (y :: ys). split; [by cbn; rewrite Hlen|].
  intros [|i] x z Hx Hz; [by simplify_eq/=|]. by apply (Hys i).
Qed.
