(* ===== verification/Prog.v ===== *)
(** * Goroutines over a shared memory

    The package is written with atomic loads, stores and compare-and-swaps on
    memory it shares with the kernel and between goroutines.  A goroutine is a
    [prog]: a tree of actions on the shared memory, each atomic.  One program
    text has two meanings here: [run] executes it to the end while an
    environment changes the memory between its actions, and [pstep] interleaves
    a pool of goroutines.  [safe] is for a program among others that keep an
    invariant.  [can] is a small program logic for pools: every
    goroutine owns a token, every action keeps an invariant between the memory
    and the sum of all the tokens. *)

From stdpp Require Import base list relations strings.
From Stdlib Require Import Lia.
From S2P Require Import Prelude.

(** ** Programs *)

(** [Step] is one atomic action, [Panic] a Go panic; [Starve] is a spin loop
    (or a blocked channel operation) that has used up its fuel. *)
Inductive prog (Mem A : Type) : Type :=
| Ret (a : A)
| Step (X : Type) (f : Mem -> X * Mem) (k : X -> prog Mem A)
| Panic (msg : string)
| Starve.
Arguments Ret {Mem A} _.
Arguments Step {Mem A} X _ _.
Arguments Panic {Mem A} _.
Arguments Starve {Mem A}.

Fixpoint prog_bind {Mem A B} (k : A -> prog Mem B) (p : prog Mem A) : prog Mem B :=
  match p with
  | Ret a => k a
  | Step X f g => Step X f (fun x => prog_bind k (g x))
  | Panic s => Panic s
  | Starve => Starve
  end.

#[global] Instance prog_mret {Mem} : MRet (prog Mem) := fun A a => Ret a.
#[global] Instance prog_mbind {Mem} : MBind (prog Mem) := fun A B => prog_bind.

(** One action that returns a value and changes the memory. *)
Definition act {Mem A} (f : Mem -> A * Mem) : prog Mem A := Step A f Ret.

(** One action that reads. *)
Definition load {Mem A} (f : Mem -> A) : prog Mem A := act (fun m => (f m, m)).

(** One action that writes. *)
Definition store {Mem} (f : Mem -> Mem) : prog Mem unit := act (fun m => (tt, f m)).

(** An action that may be a runtime panic (nil dereference, index out of
    range). *)
Definition try_act {Mem A} (msg : string) (f : Mem -> option (A * Mem)) : prog Mem A :=
  Step (option A)
    (fun m => match f m with Some (a, m') => (Some a, m') | None => (None, m) end)
    (fun o => match o with Some a => Ret a | None => Panic msg end).

Definition try_load {Mem A} (msg : string) (f : Mem -> option A) : prog Mem A :=
  try_act msg (fun m => match f m with Some a => Some (a, m) | None => None end).

Definition try_store {Mem} (msg : string) (f : Mem -> option Mem) : prog Mem unit :=
  try_act msg (fun m => match f m with Some m' => Some (tt, m') | None => None end).

(** ** Execution with interference *)

Inductive outcome (Mem A : Type) : Type :=
| Done (a : A) (m : Mem) (n : nat)
| Panicked (msg : string) (m : Mem)
| Starved (m : Mem).
Arguments Done {Mem A} _ _ _.
Arguments Panicked {Mem A} _ _.
Arguments Starved {Mem A} _.

(** [env n] is what the other goroutines and the kernel do to the memory just
    before the [n]-th action. *)
Fixpoint run {Mem A} (env : nat -> Mem -> Mem) (p : prog Mem A) (n : nat) (m : Mem)
  : outcome Mem A :=
  match p with
  | Ret a => Done a m n
  | Step X f k => let '(x, m') := f (env n m) in run env (k x) (S n) m'
  | Panic s => Panicked s m
  | Starve => Starved m
  end.

(** No interference. *)
Definition quiet {Mem} (n : nat) (m : Mem) : Mem := m.

(** The sequential result: the value and the memory, or how it failed. *)
Definition exec {Mem A} (p : prog Mem A) (m : Mem) : outcome Mem A := run quiet p 0 m.

(** [p] without interference returns [a] and leaves [m']. *)
Definition runs {Mem A} (p : prog Mem A) (m : Mem) (a : A) (m' : Mem) : Prop :=
  forall n, exists n', run quiet p n m = Done a m' n'.

Section Run.
Context {Mem : Type}.
Implicit Types (m : Mem) (env : nat -> Mem -> Mem).

Lemma run_bind {A B} env (p : prog Mem A) (k : A -> prog Mem B) n m :
  run env (p ≫= k) n m =
  match run env p n m with
  | Done a m' n' => run env (k a) n' m'
  | Panicked s m' => Panicked s m'
  | Starved m' => Starved m'
  end.
Proof.
  revert n m. induction p as [a|X f g IH|s|]; intros n m; try done.
  cbn. destruct (f (env n m)) as [x m']. apply IH.
Qed.

Lemma run_act {A} env (f : Mem -> A * Mem) n m :
  run env (act f) n m = Done (f (env n m)).1 (f (env n m)).2 (S n).
Proof. cbn. by destruct (f (env n m)). Qed.

Lemma run_load {A} env (f : Mem -> A) n m :
  run env (load f) n m = Done (f (env n m)) (env n m) (S n).
Proof. done. Qed.

Lemma run_store env (f : Mem -> Mem) n m :
  run env (store f) n m = Done tt (f (env n m)) (S n).
Proof. done. Qed.

Lemma run_try_act {A} env s (f : Mem -> option (A * Mem)) n m :
  run env (try_act s f) n m =
  match f (env n m) with
  | Some (a, m') => Done a m' (S n)
  | None => Panicked s (env n m)
  end.
Proof. cbn. by destruct (f (env n m)) as [[]|]. Qed.

Lemma run_try_load {A} env s (f : Mem -> option A) n m :
  run env (try_load s f) n m =
  match f (env n m) with
  | Some a => Done a (env n m) (S n)
  | None => Panicked s (env n m)
  end.
Proof. unfold try_load. rewrite run_try_act. by destruct (f (env n m)). Qed.

Lemma run_try_store env s (f : Mem -> option Mem) n m :
  run env (try_store s f) n m =
  match f (env n m) with
  | Some m' => Done tt m' (S n)
  | None => Panicked s (env n m)
  end.
Proof. unfold try_store. rewrite run_try_act. by destruct (f (env n m)). Qed.

Lemma runs_ret {A} (a : A) m : runs (Ret a) m a m.
Proof. intros n. by exists n. Qed.

Lemma runs_bind {A B} (p : prog Mem A) (k : A -> prog Mem B) m a m' b m'' :
  runs p m a m' -> runs (k a) m' b m'' -> runs (p ≫= k) m b m''.
Proof.
  intros Hp Hk n. destruct (Hp n) as [n1 H1]. destruct (Hk n1) as [n2 H2].
  exists n2. by rewrite run_bind, H1.
Qed.

(** A result that is passed on, after a sequence. *)
Lemma runs_bind_map {A B C} (p : prog Mem A) (k : A -> prog Mem B) (f : B -> C) m b m' :
  runs (p ≫= k) m b m' -> runs (p ≫= fun a => k a ≫= fun b => Ret (f b)) m (f b) m'.
Proof.
  intros H n. destruct (H n) as [n' E]. exists n'. rewrite run_bind in E. rewrite run_bind.
  destruct (run quiet p n m) as [a m1 n1| |]; [|done|done]. by rewrite run_bind, E.
Qed.

Lemma runs_act {A} (f : Mem -> A * Mem) m a m' :
  f m = (a, m') -> runs (act f) m a m'.
Proof. intros H n. exists (S n). cbn. unfold quiet. by rewrite H. Qed.

Lemma runs_load {A} (f : Mem -> A) m a : f m = a -> runs (load f) m a m.
Proof. intros <-. by apply runs_act. Qed.

Lemma runs_store (f : Mem -> Mem) m m' : f m = m' -> runs (store f) m tt m'.
Proof. intros <-. by apply runs_act. Qed.

Lemma runs_try_act {A} s (f : Mem -> option (A * Mem)) m a m' :
  f m = Some (a, m') -> runs (try_act s f) m a m'.
Proof. intros H n. exists (S n). cbn. unfold quiet. by rewrite H. Qed.

Lemma runs_try_load {A} s (f : Mem -> option A) m a :
  f m = Some a -> runs (try_load s f) m a m.
Proof. intros H. apply runs_try_act. by rewrite H. Qed.

Lemma runs_try_store s (f : Mem -> option Mem) m m' :
  f m = Some m' -> runs (try_store s f) m tt m'.
Proof. intros H. apply runs_try_act. by rewrite H. Qed.

Lemma runs_exec {A} (p : prog Mem A) m a m' :
  runs p m a m' -> exists n, exec p m = Done a m' n.
Proof. intros H. apply H. Qed.

(** The memory at the end of a sequential execution. *)
Definition mem_after {A} (p : prog Mem A) m : Mem :=
  match exec p m with Done _ m' _ | Panicked _ m' | Starved m' => m' end.

(** An execution that can be computed. *)
Lemma exec_runs {A} (p : prog Mem A) m a :
  match exec p m with Done b _ _ => b = a | _ => False end -> runs p m a (mem_after p m).
Proof.
  unfold mem_after, exec. intros H n. revert H. generalize 0%nat as n0.
  revert n m. induction p as [b|X f k IH|s|]; intros n m n0 H; cbn in *; [by subst; eauto| |done|done].
  unfold quiet in *. destruct (f m) as [x m']. by apply IH.
Qed.

(** Without interference the numbers of the actions do not matter. *)
Lemma run_runs {A} (p : prog Mem A) n m a m' n' :
  run quiet p n m = Done a m' n' -> runs p m a m'.
Proof.
  intros H n2. revert n m n2 H. induction p as [b|X f k IH|s|]; intros n m n2 H; cbn in *; [| |done|done].
  - injection H as <- <- <-. eauto.
  - unfold quiet in *. destruct (f m) as [x m1]. by eapply IH.
Qed.

(** The rest of a sequence whose first part is known. *)
Lemma runs_bind_inv {A B} (p : prog Mem A) (k : A -> prog Mem B) m a m' b m'' :
  runs (p ≫= k) m b m'' -> runs p m a m' -> runs (k a) m' b m''.
Proof.
  intros H Hp. destruct (Hp 0%nat) as [i Ei], (H 0%nat) as [n' E]. rewrite run_bind, Ei in E.
  by eapply run_runs.
Qed.

Lemma runs_eq {A} (p : prog Mem A) m a m' a' m'' :
  runs p m a m' -> a = a' -> m' = m'' -> runs p m a' m''.
Proof. by intros H <- <-. Qed.

(** An environment that is quiet during a program does not change its run. *)
Lemma run_quiet_prefix {A} (p : prog Mem A) env n m a m' n' :
  run quiet p n m = Done a m' n' -> (forall k x, (k < n')%nat -> env k x = x) ->
  run env p n m = Done a m' n' /\ (n <= n')%nat.
Proof.
  revert n m. induction p as [b|X f k IH|s|]; intros n m H Henv; cbn in H; try done.
  - injection H as <- <- <-. done.
  - unfold quiet in H at 1. destruct (f m) as [x m1] eqn:E.
    destruct (IH x (S n) m1 H Henv) as [H1 Hle]. cbn.
    rewrite Henv, E by lia. split; [done|lia].
Qed.

(** A program has at most one sequential result. *)
Lemma runs_det {A} (p : prog Mem A) m a m' b m'' :
  runs p m a m' -> runs p m b m'' -> a = b /\ m' = m''.
Proof.
  intros H1 H2. destruct (H1 0%nat) as [? E1], (H2 0%nat) as [? E2].
  rewrite E1 in E2. by injection E2 as -> -> _.
Qed.

(** ** Pools of goroutines *)

Definition pool : Type := list (prog Mem unit) * Mem.

(** One step of a pool: some goroutine performs its next action, or the kernel
    (any relation [K]) changes the memory. *)
Inductive pstep (K : Mem -> Mem -> Prop) : pool -> pool -> Prop :=
| pstep_thread i ps m X f k x m' :
    ps !! i = Some (Step X f k) ->
    f m = (x, m') ->
    pstep K (ps, m) (<[i := k x]> ps, m')
| pstep_kernel ps m m' :
    K m m' ->
    pstep K (ps, m) (ps, m').

Lemma psteps_length K c c' : rtc (pstep K) c c' -> length c'.1 = length c.1.
Proof.
  induction 1 as [|c1 c2 c3 Hst _ IH]; [done|]. rewrite IH.
  destruct Hst; cbn; [by rewrite length_insert|done].
Qed.

(** A goroutine that stands still where it would panic. *)
Fixpoint mute {A} (p : prog Mem A) : prog Mem A :=
  match p with
  | Step X f k => Step X f (fun x => mute (k x))
  | Panic _ => Starve
  | p => p
  end.
Definition muted {A} (b : bool) (p : prog Mem A) : prog Mem A := if b then mute p else p.

(** The goroutines of a pool move as before when some of them stand still instead
    of panicking. *)
Lemma psteps_muted K bs c c' :
  length bs = length c.1 -> rtc (pstep K) c c' ->
  rtc (pstep K) (zip_with muted bs c.1, c.2) (zip_with muted bs c'.1, c'.2).
Proof.
  intros Hl Hr. revert Hl. induction Hr as [|c1 c2 c3 Hst _ IH]; intros Hl; [done|]. eapply rtc_l.
  2: { apply IH. destruct Hst; cbn in *; [by rewrite length_insert|done]. }
  destruct Hst as [i ps m X f k x m' Hi Hf|ps m m' Hk]; cbn in *; [|by constructor].
  destruct (lookup_lt_is_Some_2 bs i) as [b Hb]; [rewrite Hl; by eapply lookup_lt_Some|].
  rewrite <- (list_insert_id bs i b Hb) at 2. rewrite <- insert_zip_with.
  apply (pstep_thread K i _ m X f (fun y => muted b (k y)) x m'); [|done]. rewrite lookup_zip_with, Hb. cbn. rewrite Hi. by destruct b.
Qed.

(** A goroutine that is scheduled alone performs its sequential run. *)
Lemma pool_runs K i ps (p : prog Mem unit) m m' :
  ps !! i = Some p -> runs p m tt m' ->
  rtc (pstep K) (ps, m) (<[i := Ret tt]> ps, m').
Proof.
  intros Hi Hr. destruct (Hr 0%nat) as [n' H]. clear Hr. revert H.
  generalize 0%nat as n. revert ps m Hi.
  induction p as [[]|X f k IH|s|]; intros ps m Hi n H; cbn in H; try done.
  - injection H as -> <-. by rewrite list_insert_id.
  - unfold quiet in H at 1. destruct (f m) as [x m1] eqn:E.
    eapply rtc_l; [by eapply pstep_thread|].
    rewrite <- (list_insert_insert_eq ps i (Ret tt) (k x)).
    apply (IH x _ _) with (n := S n); [|done].
    apply list_lookup_insert_eq. by eapply lookup_lt_Some.
Qed.

Lemma pool_panics K i ps (p : prog Mem unit) m s m' :
  ps !! i = Some p -> exec p m = Panicked s m' ->
  rtc (pstep K) (ps, m) (<[i := Panic s]> ps, m').
Proof.
  unfold exec. generalize 0%nat as n. intros n Hi H. revert n ps m Hi H.
  induction p as [[]|X f k IH|e|]; intros n ps m Hi H; cbn in H; try done.
  - unfold quiet in H at 1. destruct (f m) as [x m1] eqn:E.
    eapply rtc_l; [by eapply pstep_thread|].
    rewrite <- (list_insert_insert_eq ps i (Panic s) (k x)).
    eapply (IH x); [apply list_lookup_insert_eq; by eapply lookup_lt_Some|exact H].
  - injection H as -> <-. by rewrite list_insert_id.
Qed.

(** The next part of a goroutine, in any context. *)
Lemma pool_next {A B} K (C : prog Mem B -> prog Mem unit) (p : prog Mem A) (k : A -> prog Mem B)
    i ps m a m' c :
  (forall X f g, C (Step X f g) = Step X f (fun x => C (g x))) -> (i < length ps)%nat -> runs p m a m' ->
  rtc (pstep K) (<[i := C (k a)]> ps, m') c -> rtc (pstep K) (<[i := C (p ≫= k)]> ps, m) c.
Proof.
  intros HC Hi Hr Hc. destruct (Hr 0%nat) as [n' H]. clear Hr. revert H.
  generalize 0%nat as n. revert m.
  induction p as [b|X f g IH|s|]; intros m n H; cbn in H; try done.
  - by injection H as -> -> <-.
  - unfold quiet in H at 1. destruct (f m) as [x m1] eqn:E.
    eapply rtc_l.
    + eapply (pstep_thread K i _ m X f (fun x => C (g x ≫= k)) x m1); [|done].
      rewrite list_lookup_insert_eq by done. f_equal. apply HC.
    + rewrite list_insert_insert_eq. by apply (IH x m1 (S n)).
Qed.
End Run.

(** The lemmas that execute the primitive actions. *)
Create HintDb runs.
#[export] Hint Resolve runs_ret runs_act runs_load runs_store runs_try_act
  runs_try_load runs_try_store : runs.

(** Runs the next action of a program whose continuation is a bind. *)
Ltac run_step := eapply runs_bind; [solve [eauto with runs]|cbn beta iota].

(** ** Execution within an invariant *)

Section Rely.
Context {Mem : Type} (I : Mem -> Prop).

(** [safe p Q]: whatever the others do to the memory within [I], [p] keeps [I],
    does not panic, and returns a value that satisfies [Q]. *)
Fixpoint safe {A} (p : prog Mem A) (Q : A -> Prop) : Prop :=
  match p with
  | Ret a => Q a
  | Step X f k => forall m, I m -> I (snd (f m)) /\ safe (k (fst (f m))) Q
  | Panic _ => False
  | Starve => True
  end.

Lemma safe_mono {A} (p : prog Mem A) (Q R : A -> Prop) :
  safe p Q -> (forall a, Q a -> R a) -> safe p R.
Proof.
  intros Hp HQ. induction p as [a|X f k IH|s|]; cbn in *; auto.
  intros m Hm. destruct (Hp m Hm) as [? ?]. eauto.
Qed.

Lemma safe_bind {A B} (p : prog Mem A) (k : A -> prog Mem B) Q R :
  safe p Q -> (forall a, Q a -> safe (k a) R) -> safe (p ≫= k) R.
Proof.
  intros Hp HQ. induction p as [a|X f g IH|s|]; cbn in *; auto.
  intros m Hm. destruct (Hp m Hm) as [? ?]. eauto.
Qed.

Lemma safe_load {A} (f : Mem -> A) (Q : A -> Prop) :
  (forall m, I m -> Q (f m)) -> safe (load f) Q.
Proof. intros H m Hm. cbn. auto. Qed.

Lemma safe_try_act {A} s (f : Mem -> option (A * Mem)) (Q : A -> Prop) :
  (forall m, I m -> exists a m', f m = Some (a, m') /\ I m' /\ Q a) -> safe (try_act s f) Q.
Proof. intros H m Hm. destruct (H m Hm) as (a & m' & E & ? & ?). cbn. by rewrite E. Qed.

Lemma safe_try_load {A} s (f : Mem -> option A) (Q : A -> Prop) :
  (forall m, I m -> exists a, f m = Some a /\ Q a) -> safe (try_load s f) Q.
Proof.
  intros H. apply safe_try_act. intros m Hm. destruct (H m Hm) as (a & -> & ?). eauto.
Qed.

(** A safe program, run among others that keep the invariant. *)
Lemma safe_run {A} env (p : prog Mem A) (Q : A -> Prop) n m :
  (forall n m, I m -> I (env n m)) -> I m -> safe p Q ->
  match run env p n m with
  | Done a m' _ => Q a /\ I m'
  | Panicked _ _ => False
  | Starved m' => I m'
  end.
Proof.
  intros He. revert n m. induction p as [a|X f k IH|s|]; intros n m Hm Hp; cbn in *; auto.
  destruct (Hp (env n m)) as [HI Hk]; [auto|].
  destruct (f (env n m)) as [x m']. cbn in *. by apply IH.
Qed.
End Rely.

(** [returns p Q]: every value [p] can return satisfies [Q]. *)
Fixpoint returns {Mem A} (p : prog Mem A) (Q : A -> Prop) : Prop :=
  match p with
  | Ret a => Q a
  | Step X f k => forall m, returns (k (fst (f m))) Q
  | _ => True
  end.

Lemma returns_bind {Mem A B} (p : prog Mem A) (k : A -> prog Mem B) Q R :
  returns p Q -> (forall a, Q a -> returns (k a) R) -> returns (p ≫= k) R.
Proof. intros Hp HQ. induction p as [a|X f g IH|s|]; cbn in *; auto. Qed.

Lemma returns_true {Mem A} (p : prog Mem A) : returns p (fun _ => True).
Proof. induction p; cbn; auto. Qed.

(** ** A program logic for pools *)

Section Logic.
Context {Mem T : Type} (op : T -> T -> T) (unit_tok : T).
Context `{!Assoc (=) op} `{!Comm (=) op}.
(** What one goroutine may own, and the greatest number of goroutines. *)
Context (valid : T -> Prop) (N : nat).
(** The invariant between the sum of all the tokens and the memory. *)
Context (I : T -> Mem -> Prop).

Definition total (ts : list T) : T := foldr op unit_tok ts.

(** What the other goroutines may own together. *)
Definition frame (o : T) : Prop :=
  exists ts, (length ts < N)%nat /\ Forall valid ts /\ o = total ts.

(** [can t p Q]: a goroutine that owns [t] can execute [p], whatever the others
    do within the invariant, without a panic, and returns a value and a token
    that satisfy [Q]. *)
Fixpoint can {A} (t : T) (p : prog Mem A) (Q : A -> T -> Prop) : Prop :=
  match p with
  | Ret a => Q a t
  | Step X f k => forall o m, frame o -> I (op t o) m ->
      exists t', valid t' /\ I (op t' o) (snd (f m)) /\ can t' (k (fst (f m))) Q
  | Panic _ => False
  | Starve => True
  end.

Lemma can_mono {A} t (p : prog Mem A) (Q R : A -> T -> Prop) :
  can t p Q -> (forall a t', Q a t' -> R a t') -> can t p R.
Proof.
  intros Hp HQ. revert t Hp. induction p as [a|X f k IH|s|]; intros t Hp; cbn in *; auto.
  intros o m Ho Hm. destruct (Hp o m Ho Hm) as (t' & ? & ? & ?). eauto.
Qed.

Lemma can_bind {A B} t (p : prog Mem A) (k : A -> prog Mem B) Q R :
  can t p Q -> (forall a t', Q a t' -> can t' (k a) R) -> can t (p ≫= k) R.
Proof.
  intros Hp HQ. revert t Hp. induction p as [a|X f g IH|s|]; intros t Hp; cbn in *; auto.
  intros o m Ho Hm. destruct (Hp o m Ho Hm) as (t' & ? & ? & ?). exists t'.
  split_and!; [done..|]. by apply IH.
Qed.

Lemma can_muted {A} b t (p : prog Mem A) (Q : A -> T -> Prop) : can t p Q -> can t (muted b p) Q.
Proof.
  destruct b; [|done]. revert t. induction p as [a|X f k IH|s|]; intros t Hp; cbn in *; [done| |done|done].
  intros o m Ho Hm. destruct (Hp o m Ho Hm) as (t' & ? & ? & ?). exists t'. split_and!; [done..|]. by apply IH.
Qed.

Lemma can_muted_bind {A B} b t (p : prog Mem A) (k : A -> prog Mem B) Q R :
  can t (muted b p) Q -> (forall a t', Q a t' -> can t' (muted b (k a)) R) -> can t (muted b (p ≫= k)) R.
Proof.
  destruct b; [|apply can_bind]. cbn [muted].
  intros Hp HQ. revert t Hp. induction p as [a|X f g IH|s|]; intros t Hp; cbn in *; auto.
  intros o m Ho Hm. destruct (Hp o m Ho Hm) as (t' & ? & ? & ?). exists t'.
  split_and!; [done..|]. by apply IH.
Qed.

(** Every goroutine can execute the rest of its program; the [i]-th one returns
    with a token that satisfies [Qs i]. *)
Definition pool_with (Qs : nat -> unit -> T -> Prop) (c : pool) : Prop :=
  (length c.1 <= N)%nat /\
  exists ts, length ts = length c.1 /\
    (forall i p t, c.1 !! i = Some p -> ts !! i = Some t -> valid t /\ can t p (Qs i)) /\
    I (total ts) c.2.

Definition pool_ok (c : pool) : Prop :=
  (length c.1 <= N)%nat /\
  exists ts, Forall2 (fun p t => valid t /\ can t p (fun _ _ => True)) c.1 ts /\
             I (total ts) c.2.

Lemma pool_ok_with c : pool_ok c <-> pool_with (fun _ _ _ => True) c.
Proof.
  unfold pool_ok, pool_with. setoid_rewrite Forall2_same_length_lookup.
  split; intros (? & ts & H); (split; [done|]); exists ts; [destruct H as [[]]|destruct H as (? & ? & ?)];
    by split_and!.
Qed.

Lemma total_cons t ts : total (t :: ts) = op t (total ts).
Proof. done. Qed.

Lemma total_delete (ts : list T) i t :
  ts !! i = Some t -> total ts = op t (total (delete i ts)).
Proof.
  revert i. induction ts as [|t0 ts IH]; intros [|i] H; try done.
  - by injection H as ->.
  - change (delete (S i) (t0 :: ts)) with (t0 :: delete i ts).
    rewrite !total_cons, (IH i H), !(assoc_L op). by rewrite (comm_L op t0 t).
Qed.

Lemma total_insert (ts : list T) i t t' :
  ts !! i = Some t -> total (<[i := t']> ts) = op t' (total (delete i ts)).
Proof.
  revert i. induction ts as [|t0 ts IH]; intros [|i] H; try done.
  change (delete (S i) (t0 :: ts)) with (t0 :: delete i ts).
  change (<[S i := t']> (t0 :: ts)) with (t0 :: <[i := t']> ts).
  rewrite !total_cons, (IH i H), !(assoc_L op). by rewrite (comm_L op t0 t').
Qed.

Lemma frame_delete (ts : list T) i t :
  (length ts <= N)%nat -> Forall valid ts -> ts !! i = Some t ->
  frame (total (delete i ts)).
Proof.
  intros HN Hv Hi. exists (delete i ts). split_and!; [|by apply Forall_delete|done].
  rewrite length_delete by eauto. apply lookup_lt_Some in Hi. lia.
Qed.

(** Every step of a pool keeps it well formed. *)
Lemma pstep_with K Qs c c' :
  (forall t m m', K m m' -> I t m -> I t m') ->
  pool_with Qs c -> pstep K c c' -> pool_with Qs c'.
Proof.
  intros HK [HN (ts & Hlen & H2 & HI)].
  destruct 1 as [i ps m X f k x m' Hi Hf|ps m m' Hk]; cbn in *.
  2: { split; [done|]. exists ts. eauto. }
  destruct (lookup_lt_is_Some_2 ts i) as [t Ht]; [rewrite Hlen; by eapply lookup_lt_Some|].
  destruct (H2 i _ t Hi Ht) as [Hv Hc].
  assert (Forall valid ts) as Hvs.
  { apply Forall_lookup_2. intros j tj Hj.
    destruct (lookup_lt_is_Some_2 ps j) as [p Hp]; [rewrite <- Hlen; by eapply lookup_lt_Some|].
    by apply (H2 j p tj). }
  destruct (Hc (total (delete i ts)) m) as (t' & Hv' & HI' & Hc').
  - apply (frame_delete _ _ t); [lia|done..].
  - by rewrite <- total_delete.
  - rewrite Hf in HI', Hc'. cbn in *. split; [cbn; by rewrite length_insert|].
    exists (<[i := t']> ts). cbn. rewrite !length_insert, (total_insert _ _ t) by done.
    split_and!; [done| |done]. intros j p tj Hj Htj. destruct (decide (i = j)) as [<-|Hne].
    + rewrite list_lookup_insert_eq in Hj by (by eapply lookup_lt_Some).
      rewrite list_lookup_insert_eq in Htj by (by eapply lookup_lt_Some). by simplify_eq.
    + rewrite list_lookup_insert_ne in Hj by done. rewrite list_lookup_insert_ne in Htj by done.
      by eapply H2.
Qed.

Lemma psteps_with K Qs c c' :
  (forall t m m', K m m' -> I t m -> I t m') ->
  pool_with Qs c -> rtc (pstep K) c c' -> pool_with Qs c'.
Proof. intros HK Hc. induction 1; eauto using pstep_with. Qed.

Lemma psteps_ok K c c' :
  (forall t m m', K m m' -> I t m -> I t m') ->
  pool_ok c -> rtc (pstep K) c c' -> pool_ok c'.
Proof. intros HK. rewrite !pool_ok_with. by apply psteps_with. Qed.

Lemma pool_ok_no_panic c i s : pool_ok c -> c.1 !! i <> Some (Panic s).
Proof.
  intros [_ (ts & H2 & _)] Hi.
  by destruct (Forall2_lookup_l _ _ _ _ _ H2 Hi) as (t & _ & _ & []).
Qed.
End Logic.

(** Simplification stops at the primitive actions. *)
#[global] Arguments prog_bind : simpl never.
#[global] Arguments act : simpl never.
#[global] Arguments load : simpl never.
#[global] Arguments store : simpl never.
#[global] Arguments try_act : simpl never.
#[global] Arguments try_load : simpl never.
#[global] Arguments try_store : simpl never.
