(* ===== verification/Consts.v ===== *)
(** * Constants (consts.go)

    The operation codes, the feature, queue, enter and registration flags, and
    the mmap offsets of the io_uring interface as the package declares them. *)

From stdpp Require Import base list.
From Stdlib Require Import ZArith Lia.
From S2P Require Import Prelude.

(** ** Operation codes *)

(** [Opcode] is a [uint8] enumerated with [iota]. *)
Inductive Opcode :=
| Nop | Readv | Writev | Fsync | ReadFixed | WriteFixed | PollAdd | PollRemove
| SyncFileRange | SendMsg | RecvMsg | Timeout | TimeoutRemove | Accept
| AsyncCancel | LinkTimeout | Connect | Fallocate | OpenAt | Close
| FilesUpdate | Statx | Read | Write | Fadvise | Madvise | Send | Recv
| Openat2 | EpollCtl | Splice | ProvideBuffers | RemoveBuffers.

#[global] Instance Opcode_eq_dec : EqDecision Opcode.
Proof. solve_decision. Defined.

(** The numbers [iota] gives. *)
Definition opcode_num (o : Opcode) : Z :=
  match o with
  | Nop => 0 | Readv => 1 | Writev => 2 | Fsync => 3 | ReadFixed => 4
  | WriteFixed => 5 | PollAdd => 6 | PollRemove => 7 | SyncFileRange => 8
  | SendMsg => 9 | RecvMsg => 10 | Timeout => 11 | TimeoutRemove => 12
  | Accept => 13 | AsyncCancel => 14 | LinkTimeout => 15 | Connect => 16
  | Fallocate => 17 | OpenAt => 18 | Close => 19 | FilesUpdate => 20
  | Statx => 21 | Read => 22 | Write => 23 | Fadvise => 24 | Madvise => 25
  | Send => 26 | Recv => 27 | Openat2 => 28 | EpollCtl => 29 | Splice => 30
  | ProvideBuffers => 31 | RemoveBuffers => 32
  end.

(** ** System call numbers *)
Definition SetupSyscall : Z := 425.
Definition EnterSyscall : Z := 426.
Definition RegisterSyscall : Z := 427.

(** ** Features reported by setup *)
Definition FeatSingleMmap : Z := Z.shiftl 1 0.
Definition FeatNoDrop : Z := Z.shiftl 1 1.
Definition FeatSubmitStable : Z := Z.shiftl 1 2.
Definition FeatRwCurPos : Z := Z.shiftl 1 3.
Definition FeatCurPersonality : Z := Z.shiftl 1 4.

(** ** Flags of a submission entry *)
Definition SqeFixedFileBit : Z := 0.
Definition SqeIoDrainBit : Z := 1.
Definition SqeIoLinkBit : Z := 2.
Definition SqeIoHardlinkBit : Z := 3.
Definition SqeAsyncBit : Z := 4.
Definition SqeBufferSelectBit : Z := 5.
Definition SqeFixedFile : Z := Z.shiftl 1 SqeFixedFileBit.
Definition SqeIoDrain : Z := Z.shiftl 1 SqeIoDrainBit.
Definition SqeIoLink : Z := Z.shiftl 1 SqeIoLinkBit.
Definition SqeIoHardlink : Z := Z.shiftl 1 SqeIoHardlinkBit.
Definition SqeAsync : Z := Z.shiftl 1 SqeAsyncBit.
Definition SqeBufferSelect : Z := Z.shiftl 1 SqeBufferSelectBit.

(** ** io_uring_setup flags *)
Definition SetupIOPoll : Z := Z.shiftl 1 0.
Definition SetupSQPoll : Z := Z.shiftl 1 1.
Definition SetupSQAFF : Z := Z.shiftl 1 2.
Definition SetupCqSize : Z := Z.shiftl 1 3.
Definition SetupClamp : Z := Z.shiftl 1 4.
Definition SetupAttachWq : Z := Z.shiftl 1 5.

(** ** Probe and fsync flags *)
Definition OpSupported : Z := Z.shiftl 1 0.
Definition FsyncDatasync : Z := Z.shiftl 1 0.

(** ** mmap offsets *)
Definition SqRingOffset : Z := 0.
Definition CqRingOffset : Z := 0x8000000.
Definition SqeRingOffset : Z := 0x10000000.

(** ** Submission queue flags *)
Definition SqNeedWakeup : Z := Z.shiftl 1 0.
Definition SqCqOverflow : Z := Z.shiftl 1 1.

(** ** io_uring_enter flags *)
Definition EnterGetEvents : Z := Z.shiftl 1 0.
Definition EnterSqWakeup : Z := Z.shiftl 1 1.

(** ** io_uring_register operations *)
Definition RegRegisterBuffers : Z := 0.
Definition RegUnregisterBuffers : Z := 1.
Definition RegRegisterFiles : Z := 2.
Definition RegUnregisterFiles : Z := 3.
Definition RegRegisterEventFd : Z := 4.
Definition RegUnregisterEventfd : Z := 5.
Definition RegRegisterFilesUpdate : Z := 6.
Definition RegRegisterEventFdAsync : Z := 7.
Definition RegRegisterProbe : Z := 8.
Definition RegRegisterPersonality : Z := 9.
Definition RegUnregisterPersonality : Z := 10.

(** ** Constants of types.go and conn.go *)
Definition CqSeenFlag : Z := 1.
Definition POLLIN : Z := 0x1.
Definition POLLPRI : Z := 0x2.
Definition POLLOUT : Z := 0x4.
Definition POLLERR : Z := 0x8.
Definition POLLHUP : Z := 0x10.
Definition POLLNVAL : Z := 0x20.
Definition SOReuseport : Z := 0x0F.
Definition TCPFastopen : Z := 0x17.

Lemma opcode_num_inj o o' : opcode_num o = opcode_num o' -> o = o'.
Proof. by destruct o, o'. Qed.

Lemma opcode_num_u8 o : is_uint 8 (opcode_num o).
Proof. unfold is_uint. by destruct o. Qed.

(** The flags of one field are its lowest bits, in the order of the declarations:
    they can be combined with [|] and tested with [&]. *)
Definition flag_groups : list (list Z) :=
  [[FeatSingleMmap; FeatNoDrop; FeatSubmitStable; FeatRwCurPos; FeatCurPersonality];
   [SqeFixedFile; SqeIoDrain; SqeIoLink; SqeIoHardlink; SqeAsync; SqeBufferSelect];
   [SetupIOPoll; SetupSQPoll; SetupSQAFF; SetupCqSize; SetupClamp; SetupAttachWq];
   [SqNeedWakeup; SqCqOverflow]; [EnterGetEvents; EnterSqWakeup]; [OpSupported]; [FsyncDatasync]].

Lemma flags_disjoint g i j f f' v :
  In g flag_groups -> g !! i = Some f -> g !! j = Some f' -> i <> j ->
  negb (Z.land (Z.lor v f') f =? 0) = negb (Z.land v f =? 0).
Proof.
  intros Hg Hi Hj Hij. rewrite Z.land_lor_distr_l.
  replace (Z.land f' f) with 0; [by rewrite Z.lor_0_r|].
  repeat (destruct Hg as [<-|Hg]); [..|done];
    repeat (destruct i as [|i]; [injection Hi as <-|]); try done;
    repeat (destruct j as [|j]; [injection Hj as <-|]); (reflexivity || congruence || done).
Qed.
