(* ===== verification/Types.v ===== *)
(** * Data types (types.go)

    The structures shared with the kernel, their memory layout, and the
    operations of types.go that need no shared memory. *)

From stdpp Require Import base list.
From Stdlib Require Import ZArith Lia.
From S2P Require Import Prelude Consts.

(** ** Structures *)

(** [SQRingOffset]: where the kernel put the parts of the submission ring. *)
Record SQRingOffset_t := mkSQOff {
  so_Head : Z;
  so_Tail : Z;
  so_RingMask : Z;
  so_Entries : Z;
  so_Flags : Z;
  so_Dropped : Z;
  so_Array : Z;
  so_Resv1 : Z;
  so_Resv2 : Z
}.

(** [CQRingOffset]: the same for the completion ring. *)
Record CQRingOffset_t := mkCQOff {
  co_Head : Z;
  co_Tail : Z;
  co_RingMask : Z;
  co_Entries : Z;
  co_Overflow : Z;
  co_Cqes : Z;
  co_Flags : Z;
  co_Resv : list Z
}.

(** [Params] configures a ring; setup fills in the sizes and the offsets. *)
Record Params := mkParams {
  p_SqEntries : Z;
  p_CqEntries : Z;
  p_Flags : Z;
  p_SqThreadCPU : Z;
  p_SqThreadIdle : Z;
  p_Features : Z;
  p_WqFD : Z;
  p_Resv : list Z;
  p_SqOffset : SQRingOffset_t;
  p_CqOffset : CQRingOffset_t
}.

(** [SubmitEntry] (submission queue entry). *)
Record SubmitEntry_t := mkSQE {
  sqe_Opcode : Opcode;
  sqe_Flags : Z;
  sqe_Ioprio : Z;
  sqe_Fd : Z;
  sqe_Offset : Z;
  sqe_Addr : Z;
  sqe_Len : Z;
  sqe_UFlags : Z;
  sqe_UserData : Z;
  sqe_Anon0 : list Z
}.

Definition set_sqe_Opcode (v : Opcode) (r : SubmitEntry_t) : SubmitEntry_t :=
  mkSQE v (sqe_Flags r) (sqe_Ioprio r) (sqe_Fd r) (sqe_Offset r) (sqe_Addr r) (sqe_Len r) (sqe_UFlags r) (sqe_UserData r) (sqe_Anon0 r).
Definition set_sqe_Flags (v : Z) (r : SubmitEntry_t) : SubmitEntry_t :=
  mkSQE (sqe_Opcode r) v (sqe_Ioprio r) (sqe_Fd r) (sqe_Offset r) (sqe_Addr r) (sqe_Len r) (sqe_UFlags r) (sqe_UserData r) (sqe_Anon0 r).
Definition set_sqe_Ioprio (v : Z) (r : SubmitEntry_t) : SubmitEntry_t :=
  mkSQE (sqe_Opcode r) (sqe_Flags r) v (sqe_Fd r) (sqe_Offset r) (sqe_Addr r) (sqe_Len r) (sqe_UFlags r) (sqe_UserData r) (sqe_Anon0 r).
Definition set_sqe_Fd (v : Z) (r : SubmitEntry_t) : SubmitEntry_t :=
  mkSQE (sqe_Opcode r) (sqe_Flags r) (sqe_Ioprio r) v (sqe_Offset r) (sqe_Addr r) (sqe_Len r) (sqe_UFlags r) (sqe_UserData r) (sqe_Anon0 r).
Definition set_sqe_Offset (v : Z) (r : SubmitEntry_t) : SubmitEntry_t :=
  mkSQE (sqe_Opcode r) (sqe_Flags r) (sqe_Ioprio r) (sqe_Fd r) v (sqe_Addr r) (sqe_Len r) (sqe_UFlags r) (sqe_UserData r) (sqe_Anon0 r).
Definition set_sqe_Addr (v : Z) (r : SubmitEntry_t) : SubmitEntry_t :=
  mkSQE (sqe_Opcode r) (sqe_Flags r) (sqe_Ioprio r) (sqe_Fd r) (sqe_Offset r) v (sqe_Len r) (sqe_UFlags r) (sqe_UserData r) (sqe_Anon0 r).
Definition set_sqe_Len (v : Z) (r : SubmitEntry_t) : SubmitEntry_t :=
  mkSQE (sqe_Opcode r) (sqe_Flags r) (sqe_Ioprio r) (sqe_Fd r) (sqe_Offset r) (sqe_Addr r) v (sqe_UFlags r) (sqe_UserData r) (sqe_Anon0 r).
Definition set_sqe_UFlags (v : Z) (r : SubmitEntry_t) : SubmitEntry_t :=
  mkSQE (sqe_Opcode r) (sqe_Flags r) (sqe_Ioprio r) (sqe_Fd r) (sqe_Offset r) (sqe_Addr r) (sqe_Len r) v (sqe_UserData r) (sqe_Anon0 r).
Definition set_sqe_UserData (v : Z) (r : SubmitEntry_t) : SubmitEntry_t :=
  mkSQE (sqe_Opcode r) (sqe_Flags r) (sqe_Ioprio r) (sqe_Fd r) (sqe_Offset r) (sqe_Addr r) (sqe_Len r) (sqe_UFlags r) v (sqe_Anon0 r).
Definition set_sqe_Anon0 (v : list Z) (r : SubmitEntry_t) : SubmitEntry_t :=
  mkSQE (sqe_Opcode r) (sqe_Flags r) (sqe_Ioprio r) (sqe_Fd r) (sqe_Offset r) (sqe_Addr r) (sqe_Len r) (sqe_UFlags r) (sqe_UserData r) v.

(** [SubmitQueue]: the pointers of the Go struct are the values they point to. *)
Record SubmitQueue := mkSQ {
  sq_Size : Z;
  sq_Head : Z;
  sq_Tail : Z;
  sq_Mask : Z;
  sq_Flags : Z;
  sq_Dropped : Z;
  sq_Array : list Z;
  sq_Entries : list SubmitEntry_t;
  sq_ptr : Z;
  sq_entered : Z;
  sq_writes : Z
}.

Definition set_sq_Size (v : Z) (r : SubmitQueue) : SubmitQueue :=
  mkSQ v (sq_Head r) (sq_Tail r) (sq_Mask r) (sq_Flags r) (sq_Dropped r) (sq_Array r) (sq_Entries r) (sq_ptr r) (sq_entered r) (sq_writes r).
Definition set_sq_Head (v : Z) (r : SubmitQueue) : SubmitQueue :=
  mkSQ (sq_Size r) v (sq_Tail r) (sq_Mask r) (sq_Flags r) (sq_Dropped r) (sq_Array r) (sq_Entries r) (sq_ptr r) (sq_entered r) (sq_writes r).
Definition set_sq_Tail (v : Z) (r : SubmitQueue) : SubmitQueue :=
  mkSQ (sq_Size r) (sq_Head r) v (sq_Mask r) (sq_Flags r) (sq_Dropped r) (sq_Array r) (sq_Entries r) (sq_ptr r) (sq_entered r) (sq_writes r).
Definition set_sq_Mask (v : Z) (r : SubmitQueue) : SubmitQueue :=
  mkSQ (sq_Size r) (sq_Head r) (sq_Tail r) v (sq_Flags r) (sq_Dropped r) (sq_Array r) (sq_Entries r) (sq_ptr r) (sq_entered r) (sq_writes r).
Definition set_sq_Flags (v : Z) (r : SubmitQueue) : SubmitQueue :=
  mkSQ (sq_Size r) (sq_Head r) (sq_Tail r) (sq_Mask r) v (sq_Dropped r) (sq_Array r) (sq_Entries r) (sq_ptr r) (sq_entered r) (sq_writes r).
Definition set_sq_Dropped (v : Z) (r : SubmitQueue) : SubmitQueue :=
  mkSQ (sq_Size r) (sq_Head r) (sq_Tail r) (sq_Mask r) (sq_Flags r) v (sq_Array r) (sq_Entries r) (sq_ptr r) (sq_entered r) (sq_writes r).
Definition set_sq_Array (v : list Z) (r : SubmitQueue) : SubmitQueue :=
  mkSQ (sq_Size r) (sq_Head r) (sq_Tail r) (sq_Mask r) (sq_Flags r) (sq_Dropped r) v (sq_Entries r) (sq_ptr r) (sq_entered r) (sq_writes r).
Definition set_sq_Entries (v : list SubmitEntry_t) (r : SubmitQueue) : SubmitQueue :=
  mkSQ (sq_Size r) (sq_Head r) (sq_Tail r) (sq_Mask r) (sq_Flags r) (sq_Dropped r) (sq_Array r) v (sq_ptr r) (sq_entered r) (sq_writes r).
Definition set_sq_ptr (v : Z) (r : SubmitQueue) : SubmitQueue :=
  mkSQ (sq_Size r) (sq_Head r) (sq_Tail r) (sq_Mask r) (sq_Flags r) (sq_Dropped r) (sq_Array r) (sq_Entries r) v (sq_entered r) (sq_writes r).
Definition set_sq_entered (v : Z) (r : SubmitQueue) : SubmitQueue :=
  mkSQ (sq_Size r) (sq_Head r) (sq_Tail r) (sq_Mask r) (sq_Flags r) (sq_Dropped r) (sq_Array r) (sq_Entries r) (sq_ptr r) v (sq_writes r).
Definition set_sq_writes (v : Z) (r : SubmitQueue) : SubmitQueue :=
  mkSQ (sq_Size r) (sq_Head r) (sq_Tail r) (sq_Mask r) (sq_Flags r) (sq_Dropped r) (sq_Array r) (sq_Entries r) (sq_ptr r) (sq_entered r) v.

(** [CompletionEntry] (completion queue entry). *)
Record CompletionEntry := mkCQE {
  cqe_UserData : Z;
  cqe_Res : Z;
  cqe_Flags : Z
}.

Definition set_cqe_UserData (v : Z) (r : CompletionEntry) : CompletionEntry :=
  mkCQE v (cqe_Res r) (cqe_Flags r).
Definition set_cqe_Res (v : Z) (r : CompletionEntry) : CompletionEntry :=
  mkCQE (cqe_UserData r) v (cqe_Flags r).
Definition set_cqe_Flags (v : Z) (r : CompletionEntry) : CompletionEntry :=
  mkCQE (cqe_UserData r) (cqe_Res r) v.

(** [CompletionQueue], with the values its pointers point to. *)
Record CompletionQueue := mkCQ {
  cq_Size : Z;
  cq_Head : Z;
  cq_Tail : Z;
  cq_Mask : Z;
  cq_Overflow : Z;
  cq_Flags : Z;
  cq_Entries : list CompletionEntry;
  cq_ptr : Z
}.

Definition set_cq_Size (v : Z) (r : CompletionQueue) : CompletionQueue :=
  mkCQ v (cq_Head r) (cq_Tail r) (cq_Mask r) (cq_Overflow r) (cq_Flags r) (cq_Entries r) (cq_ptr r).
Definition set_cq_Head (v : Z) (r : CompletionQueue) : CompletionQueue :=
  mkCQ (cq_Size r) v (cq_Tail r) (cq_Mask r) (cq_Overflow r) (cq_Flags r) (cq_Entries r) (cq_ptr r).
Definition set_cq_Tail (v : Z) (r : CompletionQueue) : CompletionQueue :=
  mkCQ (cq_Size r) (cq_Head r) v (cq_Mask r) (cq_Overflow r) (cq_Flags r) (cq_Entries r) (cq_ptr r).
Definition set_cq_Mask (v : Z) (r : CompletionQueue) : CompletionQueue :=
  mkCQ (cq_Size r) (cq_Head r) (cq_Tail r) v (cq_Overflow r) (cq_Flags r) (cq_Entries r) (cq_ptr r).
Definition set_cq_Overflow (v : Z) (r : CompletionQueue) : CompletionQueue :=
  mkCQ (cq_Size r) (cq_Head r) (cq_Tail r) (cq_Mask r) v (cq_Flags r) (cq_Entries r) (cq_ptr r).
Definition set_cq_Flags (v : Z) (r : CompletionQueue) : CompletionQueue :=
  mkCQ (cq_Size r) (cq_Head r) (cq_Tail r) (cq_Mask r) (cq_Overflow r) v (cq_Entries r) (cq_ptr r).
Definition set_cq_Entries (v : list CompletionEntry) (r : CompletionQueue) : CompletionQueue :=
  mkCQ (cq_Size r) (cq_Head r) (cq_Tail r) (cq_Mask r) (cq_Overflow r) (cq_Flags r) v (cq_ptr r).
Definition set_cq_ptr (v : Z) (r : CompletionQueue) : CompletionQueue :=
  mkCQ (cq_Size r) (cq_Head r) (cq_Tail r) (cq_Mask r) (cq_Overflow r) (cq_Flags r) (cq_Entries r) v.

(** [completionRequest]: [cr_done] is the number of tokens in its done channel. *)
Record completionRequest := mkCR {
  cr_id : Z;
  cr_res : Z;
  cr_flags : Z;
  cr_done : nat
}.

Definition set_cr_id (v : Z) (r : completionRequest) : completionRequest :=
  mkCR v (cr_res r) (cr_flags r) (cr_done r).
Definition set_cr_res (v : Z) (r : completionRequest) : completionRequest :=
  mkCR (cr_id r) v (cr_flags r) (cr_done r).
Definition set_cr_flags (v : Z) (r : completionRequest) : completionRequest :=
  mkCR (cr_id r) (cr_res r) v (cr_done r).
Definition set_cr_done (v : nat) (r : completionRequest) : completionRequest :=
  mkCR (cr_id r) (cr_res r) (cr_flags r) v.


#[global] Instance SubmitEntry_t_eq_dec : EqDecision SubmitEntry_t.
Proof. solve_decision. Defined.
#[global] Instance CompletionEntry_eq_dec : EqDecision CompletionEntry.
Proof. solve_decision. Defined.

(** ** Memory layout *)

(** The Go types the structures are made of. *)
Inductive gotype :=
| TU8 | TU16 | TU32 | TI32 | TU64
| TArr (n : Z) (t : gotype)
| TStruct (fs : list gotype).

(** The next multiple of [a] from [off] on. *)
Definition round_up (off a : Z) : Z := (off + a - 1) / a * a.

(** [unsafe.Alignof]. *)
Fixpoint alignof (t : gotype) : Z :=
  match t with
  | TU8 => 1 | TU16 => 2 | TU32 => 4 | TI32 => 4 | TU64 => 8
  | TArr _ t => alignof t
  | TStruct fs =>
      (fix go (fs : list gotype) : Z :=
         match fs with [] => 1 | f :: fs => Z.max (alignof f) (go fs) end) fs
  end.

(** [unsafe.Sizeof]: each field at the next multiple of its alignment, the
    whole padded to the alignment of the structure. *)
Fixpoint sizeof (t : gotype) : Z :=
  match t with
  | TU8 => 1 | TU16 => 2 | TU32 => 4 | TI32 => 4 | TU64 => 8
  | TArr n t => n * sizeof t
  | TStruct fs =>
      round_up
        ((fix go (off : Z) (fs : list gotype) : Z :=
            match fs with
            | [] => off
            | f :: fs => go (round_up off (alignof f) + sizeof f) fs
            end) 0 fs)
        (alignof (TStruct fs))
  end.

(** The offsets of the fields of a structure. *)
Fixpoint field_offsets (off : Z) (fs : list gotype) : list Z :=
  match fs with
  | [] => []
  | f :: fs => let o := round_up off (alignof f) in o :: field_offsets (o + sizeof f) fs
  end.

Definition SubmitEntry_fields : list gotype :=
  [TU8; TU8; TU16; TI32; TU64; TU64; TU32; TI32; TU64; TArr 24 TU8].
Definition CompletionEntry_fields : list gotype := [TU64; TI32; TU32].
Definition SQRingOffset_fields : list gotype :=
  [TU32; TU32; TU32; TU32; TU32; TU32; TU32; TU32; TU64].
Definition CQRingOffset_fields : list gotype :=
  [TU32; TU32; TU32; TU32; TU32; TU32; TU32; TArr 2 TU64].
Definition Params_fields : list gotype :=
  [TU32; TU32; TU32; TU32; TU32; TU32; TU32; TArr 3 TU32;
   TStruct SQRingOffset_fields; TStruct CQRingOffset_fields].

(** ** Operations *)

(** [SubmitEntry.Reset]: every field but the padding [Anon0]. *)
Definition SubmitEntry_Reset (e : SubmitEntry_t) : SubmitEntry_t :=
  mkSQE Nop 0 0 (-1) 0 0 0 0 0 (sqe_Anon0 e).

(** [SubmitQueue.Reset]: [for _, entry := range s.Entries { entry.Reset() }].
    The state of the loop is the queue and the loop variable [entry], a copy of
    the element; [entry.Reset()] has the address of the copy. *)
Definition zeroSQE : SubmitEntry_t := mkSQE Nop 0 0 0 0 0 0 0 0 (replicate 24 0).

Definition SubmitQueue_Reset_body (st : SubmitQueue * SubmitEntry_t) (i : nat)
  : SubmitQueue * SubmitEntry_t :=
  let '(s, entry) := st in
  match sq_Entries s !! i with
  | Some e => let entry := e in (s, SubmitEntry_Reset entry)
  | None => (s, entry)
  end.

Definition SubmitQueue_Reset (s : SubmitQueue) : SubmitQueue :=
  (foldl SubmitQueue_Reset_body (s, zeroSQE) (seq 0 (length (sq_Entries s)))).1.

(** [CompletionEntry.IsZero]. *)
Definition CompletionEntry_IsZero (c : CompletionEntry) : bool :=
  (cqe_UserData c =? 0) && (cqe_Res c =? 0) && (cqe_Flags c =? 0).

(** [CompletionQueue.Advance]: [atomic.AddUint32] of a converted [int]. *)
Definition CompletionQueue_Advance (count : Z) (c : CompletionQueue) : CompletionQueue :=
  set_cq_Head (u32 (cq_Head c + u32 count)) c.

(** ** Well-formed queues *)

(** What setup gives: a power of two entries, the mask that goes with it, and
    counters in range. *)
Record sq_wf (q : SubmitQueue) : Prop := {
  sqwf_pow2 : pow2_size (len (sq_Entries q));
  sqwf_array : len (sq_Array q) = len (sq_Entries q);
  sqwf_mask : sq_Mask q = len (sq_Entries q) - 1;
  sqwf_head : is_u32 (sq_Head q);
  sqwf_tail : is_u32 (sq_Tail q)
}.

Record cq_wf (q : CompletionQueue) : Prop := {
  cqwf_pow2 : pow2_size (len (cq_Entries q));
  cqwf_mask : cq_Mask q = len (cq_Entries q) - 1;
  cqwf_head : is_u32 (cq_Head q);
  cqwf_tail : is_u32 (cq_Tail q)
}.

(** The position of the tail and of the head in the ring. *)
Definition sq_tail_pos (q : SubmitQueue) : Z := Z.land (sq_Tail q) (sq_Mask q).
Definition sq_head_pos (q : SubmitQueue) : Z := Z.land (sq_Head q) (sq_Mask q).
Definition cq_tail_pos (q : CompletionQueue) : Z := Z.land (cq_Tail q) (cq_Mask q).
Definition cq_head_pos (q : CompletionQueue) : Z := Z.land (cq_Head q) (cq_Mask q).

Section Positions.
Lemma sq_pos_mod q x : sq_wf q -> Z.land x (sq_Mask q) = x mod len (sq_Entries q).
Proof. intros H. rewrite (sqwf_mask q H). apply land_mask, H. Qed.

Lemma sq_pos_range q x : sq_wf q -> 0 <= Z.land x (sq_Mask q) < len (sq_Entries q).
Proof. intros H. rewrite (sqwf_mask q H). apply land_mask_range, H. Qed.

Lemma cq_pos_mod q x : cq_wf q -> Z.land x (cq_Mask q) = x mod len (cq_Entries q).
Proof. intros H. rewrite (cqwf_mask q H). apply land_mask, H. Qed.

Lemma cq_pos_range q x : cq_wf q -> 0 <= Z.land x (cq_Mask q) < len (cq_Entries q).
Proof. intros H. rewrite (cqwf_mask q H). apply land_mask_range, H. Qed.

Lemma cq_len_pos q : cq_wf q -> 0 < len (cq_Entries q).
Proof. intros H. apply pow2_size_pos, H. Qed.

Lemma sq_len_pos q : sq_wf q -> 0 < len (sq_Entries q).
Proof. intros H. apply pow2_size_pos, H. Qed.
(** Well-formedness depends on the lengths, the mask and the counters only. *)
Lemma sq_wf_update q q' :
  sq_wf q -> len (sq_Entries q') = len (sq_Entries q) ->
  len (sq_Array q') = len (sq_Array q) -> sq_Mask q' = sq_Mask q ->
  is_u32 (sq_Head q') -> is_u32 (sq_Tail q') -> sq_wf q'.
Proof. intros [H1 H2 H3 ? ?] He Ha Hm ? ?. split; rewrite ?He, ?Ha, ?Hm; done. Qed.

Lemma sq_pos_u32 q x : sq_wf q -> is_u32 (Z.land x (sq_Mask q) + 1).
Proof.
  intros H. pose proof (sq_pos_range q x H). pose proof (pow2_size_u32 _ (sqwf_pow2 q H)).
  unfold is_uint. lia.
Qed.

Lemma sq_tail_pos_u32 q : sq_wf q -> is_u32 (sq_tail_pos q + 1).
Proof. apply sq_pos_u32. Qed.

Lemma sq_tail_pos_range q : sq_wf q -> 0 <= sq_tail_pos q < len (sq_Entries q).
Proof. apply sq_pos_range. Qed.

Lemma sq_head_pos_range q : sq_wf q -> 0 <= sq_head_pos q < len (sq_Entries q).
Proof. apply sq_pos_range. Qed.

Lemma cq_head_pos_range q : cq_wf q -> 0 <= cq_head_pos q < len (cq_Entries q).
Proof. apply cq_pos_range. Qed.

Lemma cq_tail_pos_range q : cq_wf q -> 0 <= cq_tail_pos q < len (cq_Entries q).
Proof. apply cq_pos_range. Qed.
End Positions.

#[export] Hint Resolve sq_pos_u32 sq_tail_pos_u32 sq_tail_pos_range sq_head_pos_range
  cq_head_pos_range cq_tail_pos_range sqwf_head sqwf_tail sq_pos_range cq_pos_range cq_len_pos sq_len_pos : slices.
