(* ===== verification/Machine.v ===== *)
(** * The machine: kernel interface, ring and shared memory

    The memory of the process that the package works on, the kernel as a
    parameter, and the primitive actions (atomic loads, stores and
    compare-and-swaps on the queues) the operations are made of. *)

From stdpp Require Import base list gmap strings.
From Stdlib Require Import ZArith Lia.
From S2P Require Import Prelude Prog Consts Types.

(** ** System calls *)

(** The socket addresses of package syscall. *)
Inductive Sockaddr :=
| SockaddrInet4 (port : Z) (ip : list Z)
| SockaddrInet6 (port : Z) (ip : list Z)
| SockaddrUnix (name : string).

(** The system calls of the package with the arguments it passes. *)
Inductive Syscall :=
| SysSetup (entries : Z) (p : Params)
| SysEnter (fd toSubmit minComplete flags : Z)
| SysMmap (addr length prot flags fd offset : Z)
| SysMunmap (addr length : Z)
| SysRegister (fd opcode : Z) (args : list Z) (nr : Z)
| SysClose (fd : Z)
| SysEventfd (initval flags : Z)
| SysSeek (fd offset whence : Z)
| SysStat (fd : Z)
| SysSocket (domain typ proto : Z)
| SysSetsockoptInt (fd level opt value : Z)
| SysBind (fd : Z) (sa : Sockaddr)
| SysListen (fd backlog : Z)
| SysAccept4 (fd flags : Z)
| SysOpen (name : string) (flags perm : Z)
| SysRead (fd addr length : Z)
| SysWrite (fd addr length : Z)
| SysFadvise (fd offset length advice : Z)
| SysUnlink (name : string).

(** The raw result; both words are [uintptr], read with [sys_r1] and
    [sys_errno]. *)
Record SysRes := mkSysRes { raw_r1 : Z; raw_errno : Z }.
Definition sys_r1 (r : SysRes) : Z := u64 (raw_r1 r).
Definition sys_errno (r : SysRes) : Z := u64 (raw_errno r).

(** What requests transfer: the buffers of the process by the address they start
    at, and the open files by descriptor, their contents and positions. *)
Record Store := mkStore {
  st_bufs : gmap Z (list Z); st_files : gmap Z (list Z); st_pos : gmap Z Z
}.

Definition set_st_bufs (v : gmap Z (list Z)) (s : Store) : Store := mkStore v (st_files s) (st_pos s).
Definition set_st_files (v : gmap Z (list Z)) (s : Store) : Store := mkStore (st_bufs s) v (st_pos s).
Definition set_st_pos (v : gmap Z Z) (s : Store) : Store := mkStore (st_bufs s) (st_files s) v.

(** The fields of the mapped rings that the kernel writes: it consumes
    submissions (head), posts completions (tail and the entries at the given
    positions) and sets flags and counters; and the store after the transfers.
    Everything else is the application's. *)
Record RingView := mkView {
  v_sqHead : Z; v_sqFlags : Z; v_sqDropped : Z;
  v_cqTail : Z; v_cqOverflow : Z; v_cqFlags : Z;
  v_posts : list (Z * CompletionEntry);
  v_store : Store
}.

Definition history : Type := list (Syscall * SysRes).

(** The kernel is a parameter: what it answers to a call after a history of
    calls, what setup writes into the parameters, what io_uring_enter does to
    the mapped rings and the store, and what the calls that transfer data answer
    and do to the store. *)
Class Kernel := {
  k_answer : history -> Syscall -> SysRes;
  k_params : history -> Z -> Params -> Params;
  k_enter : history -> Syscall -> option SubmitQueue -> option CompletionQueue -> Store -> RingView;
  k_file : history -> Syscall -> Store -> SysRes * Store
}.

(** ** The ring *)

(** [fileRegistry] (register.go): the registered files and the map from a file to its offset. *)
Record fileRegistry := mkReg {
  reg_ringFd : Z;
  reg_f : list Z;
  reg_fID : gmap Z Z
}.

Definition set_reg_ringFd (v : Z) (r : fileRegistry) : fileRegistry :=
  mkReg v (reg_f r) (reg_fID r).
Definition set_reg_f (v : list Z) (r : fileRegistry) : fileRegistry :=
  mkReg (reg_ringFd r) v (reg_fID r).
Definition set_reg_fID (v : gmap Z Z) (r : fileRegistry) : fileRegistry :=
  mkReg (reg_ringFd r) (reg_f r) v.

(** [completer] (completer.go): the stop channel and the buffered channel of seen positions. *)
Record completer := mkCompleter {
  c_stopCh : nat;
  c_seen : list Z;
  c_bufSize : nat
}.

Definition set_c_stopCh (v : nat) (r : completer) : completer :=
  mkCompleter v (c_seen r) (c_bufSize r).
Definition set_c_seen (v : list Z) (r : completer) : completer :=
  mkCompleter (c_stopCh r) v (c_bufSize r).
Definition set_c_bufSize (v : nat) (r : completer) : completer :=
  mkCompleter (c_stopCh r) (c_seen r) v.

(** [ringSubmitter] (submitter.go): pending sends on done and work. *)
Record ringSubmitter := mkSubmitter {
  rs_done : nat;
  rs_work : nat;
  rs_deadline : Z
}.

Definition set_rs_done (v : nat) (r : ringSubmitter) : ringSubmitter :=
  mkSubmitter v (rs_work r) (rs_deadline r).
Definition set_rs_work (v : nat) (r : ringSubmitter) : ringSubmitter :=
  mkSubmitter (rs_done r) v (rs_deadline r).
Definition set_rs_deadline (v : Z) (r : ringSubmitter) : ringSubmitter :=
  mkSubmitter (rs_done r) (rs_work r) v.

(** [Ring] (ring.go).  A nil queue pointer is [None]; a channel is its buffer (and, for [completions], its capacity); completion requests are addresses into [m_reqs]. *)
Record Ring := mkRing {
  r_fd : Z;
  r_p : Params;
  r_cq : option CompletionQueue;
  r_c : completer;
  r_sq : option SubmitQueue;
  r_idx : Z;
  r_debug : bool;
  r_fileReg : option fileRegistry;
  r_deadline : Z;
  r_enterErrHandler : bool;
  r_submitter : option ringSubmitter;
  r_stop : nat;
  r_completions : list nat;
  r_completionsCap : Z;
  r_eventFd : Z;
  r_completionPool : list nat
}.

Definition set_r_fd (v : Z) (r : Ring) : Ring :=
  mkRing v (r_p r) (r_cq r) (r_c r) (r_sq r) (r_idx r) (r_debug r) (r_fileReg r) (r_deadline r) (r_enterErrHandler r) (r_submitter r) (r_stop r) (r_completions r) (r_completionsCap r) (r_eventFd r) (r_completionPool r).
Definition set_r_p (v : Params) (r : Ring) : Ring :=
  mkRing (r_fd r) v (r_cq r) (r_c r) (r_sq r) (r_idx r) (r_debug r) (r_fileReg r) (r_deadline r) (r_enterErrHandler r) (r_submitter r) (r_stop r) (r_completions r) (r_completionsCap r) (r_eventFd r) (r_completionPool r).
Definition set_r_cq (v : option CompletionQueue) (r : Ring) : Ring :=
  mkRing (r_fd r) (r_p r) v (r_c r) (r_sq r) (r_idx r) (r_debug r) (r_fileReg r) (r_deadline r) (r_enterErrHandler r) (r_submitter r) (r_stop r) (r_completions r) (r_completionsCap r) (r_eventFd r) (r_completionPool r).
Definition set_r_c (v : completer) (r : Ring) : Ring :=
  mkRing (r_fd r) (r_p r) (r_cq r) v (r_sq r) (r_idx r) (r_debug r) (r_fileReg r) (r_deadline r) (r_enterErrHandler r) (r_submitter r) (r_stop r) (r_completions r) (r_completionsCap r) (r_eventFd r) (r_completionPool r).
Definition set_r_sq (v : option SubmitQueue) (r : Ring) : Ring :=
  mkRing (r_fd r) (r_p r) (r_cq r) (r_c r) v (r_idx r) (r_debug r) (r_fileReg r) (r_deadline r) (r_enterErrHandler r) (r_submitter r) (r_stop r) (r_completions r) (r_completionsCap r) (r_eventFd r) (r_completionPool r).
Definition set_r_idx (v : Z) (r : Ring) : Ring :=
  mkRing (r_fd r) (r_p r) (r_cq r) (r_c r) (r_sq r) v (r_debug r) (r_fileReg r) (r_deadline r) (r_enterErrHandler r) (r_submitter r) (r_stop r) (r_completions r) (r_completionsCap r) (r_eventFd r) (r_completionPool r).
Definition set_r_debug (v : bool) (r : Ring) : Ring :=
  mkRing (r_fd r) (r_p r) (r_cq r) (r_c r) (r_sq r) (r_idx r) v (r_fileReg r) (r_deadline r) (r_enterErrHandler r) (r_submitter r) (r_stop r) (r_completions r) (r_completionsCap r) (r_eventFd r) (r_completionPool r).
Definition set_r_fileReg (v : option fileRegistry) (r : Ring) : Ring :=
  mkRing (r_fd r) (r_p r) (r_cq r) (r_c r) (r_sq r) (r_idx r) (r_debug r) v (r_deadline r) (r_enterErrHandler r) (r_submitter r) (r_stop r) (r_completions r) (r_completionsCap r) (r_eventFd r) (r_completionPool r).
Definition set_r_deadline (v : Z) (r : Ring) : Ring :=
  mkRing (r_fd r) (r_p r) (r_cq r) (r_c r) (r_sq r) (r_idx r) (r_debug r) (r_fileReg r) v (r_enterErrHandler r) (r_submitter r) (r_stop r) (r_completions r) (r_completionsCap r) (r_eventFd r) (r_completionPool r).
Definition set_r_enterErrHandler (v : bool) (r : Ring) : Ring :=
  mkRing (r_fd r) (r_p r) (r_cq r) (r_c r) (r_sq r) (r_idx r) (r_debug r) (r_fileReg r) (r_deadline r) v (r_submitter r) (r_stop r) (r_completions r) (r_completionsCap r) (r_eventFd r) (r_completionPool r).
Definition set_r_submitter (v : option ringSubmitter) (r : Ring) : Ring :=
  mkRing (r_fd r) (r_p r) (r_cq r) (r_c r) (r_sq r) (r_idx r) (r_debug r) (r_fileReg r) (r_deadline r) (r_enterErrHandler r) v (r_stop r) (r_completions r) (r_completionsCap r) (r_eventFd r) (r_completionPool r).
Definition set_r_stop (v : nat) (r : Ring) : Ring :=
  mkRing (r_fd r) (r_p r) (r_cq r) (r_c r) (r_sq r) (r_idx r) (r_debug r) (r_fileReg r) (r_deadline r) (r_enterErrHandler r) (r_submitter r) v (r_completions r) (r_completionsCap r) (r_eventFd r) (r_completionPool r).
Definition set_r_completions (v : list nat) (r : Ring) : Ring :=
  mkRing (r_fd r) (r_p r) (r_cq r) (r_c r) (r_sq r) (r_idx r) (r_debug r) (r_fileReg r) (r_deadline r) (r_enterErrHandler r) (r_submitter r) (r_stop r) v (r_completionsCap r) (r_eventFd r) (r_completionPool r).
Definition set_r_completionsCap (v : Z) (r : Ring) : Ring :=
  mkRing (r_fd r) (r_p r) (r_cq r) (r_c r) (r_sq r) (r_idx r) (r_debug r) (r_fileReg r) (r_deadline r) (r_enterErrHandler r) (r_submitter r) (r_stop r) (r_completions r) v (r_eventFd r) (r_completionPool r).
Definition set_r_eventFd (v : Z) (r : Ring) : Ring :=
  mkRing (r_fd r) (r_p r) (r_cq r) (r_c r) (r_sq r) (r_idx r) (r_debug r) (r_fileReg r) (r_deadline r) (r_enterErrHandler r) (r_submitter r) (r_stop r) (r_completions r) (r_completionsCap r) v (r_completionPool r).
Definition set_r_completionPool (v : list nat) (r : Ring) : Ring :=
  mkRing (r_fd r) (r_p r) (r_cq r) (r_c r) (r_sq r) (r_idx r) (r_debug r) (r_fileReg r) (r_deadline r) (r_enterErrHandler r) (r_submitter r) (r_stop r) (r_completions r) (r_completionsCap r) (r_eventFd r) v.

(** [addr] (conn.go): the network and the printed address. *)
Record addr := mkAddr { addr_net : string; addr_s : string }.

(** [ringConn] (ring_conn.go): the descriptor, the local and the remote address,
    and where the number of messages in the channel [stop] and the three
    deadlines are kept. *)
Record ringConn := mkConn {
  rc_fd : Z; rc_laddr : addr; rc_raddr : addr;
  rc_stop : nat; rc_deadline : nat; rc_readDeadline : nat; rc_writeDeadline : nat
}.

(** The memory: the ring, how many goroutines are inside io_uring_enter, the positions of the submission queue claimed so far (in order), the system calls made so far (latest first), the int64 cells and the completion requests on the heap, the errors given to the enter error handler, the channels of accepted connections, and the store. *)
Record Mem := mkMem {
  m_ring : Ring;
  m_in_enter : Z;
  m_claims : list Z;
  m_hist : history;
  m_cells : gmap nat Z;
  m_reqs : gmap nat completionRequest;
  m_errs : list error;
  m_conns : gmap nat (list ringConn);
  m_store : Store
}.

Definition set_m_ring (v : Ring) (r : Mem) : Mem :=
  mkMem v (m_in_enter r) (m_claims r) (m_hist r) (m_cells r) (m_reqs r) (m_errs r) (m_conns r) (m_store r).
Definition set_m_in_enter (v : Z) (r : Mem) : Mem :=
  mkMem (m_ring r) v (m_claims r) (m_hist r) (m_cells r) (m_reqs r) (m_errs r) (m_conns r) (m_store r).
Definition set_m_claims (v : list Z) (r : Mem) : Mem :=
  mkMem (m_ring r) (m_in_enter r) v (m_hist r) (m_cells r) (m_reqs r) (m_errs r) (m_conns r) (m_store r).
Definition set_m_hist (v : history) (r : Mem) : Mem :=
  mkMem (m_ring r) (m_in_enter r) (m_claims r) v (m_cells r) (m_reqs r) (m_errs r) (m_conns r) (m_store r).
Definition set_m_cells (v : gmap nat Z) (r : Mem) : Mem :=
  mkMem (m_ring r) (m_in_enter r) (m_claims r) (m_hist r) v (m_reqs r) (m_errs r) (m_conns r) (m_store r).
Definition set_m_reqs (v : gmap nat completionRequest) (r : Mem) : Mem :=
  mkMem (m_ring r) (m_in_enter r) (m_claims r) (m_hist r) (m_cells r) v (m_errs r) (m_conns r) (m_store r).
Definition set_m_errs (v : list error) (r : Mem) : Mem :=
  mkMem (m_ring r) (m_in_enter r) (m_claims r) (m_hist r) (m_cells r) (m_reqs r) v (m_conns r) (m_store r).
Definition set_m_conns (v : gmap nat (list ringConn)) (r : Mem) : Mem :=
  mkMem (m_ring r) (m_in_enter r) (m_claims r) (m_hist r) (m_cells r) (m_reqs r) (m_errs r) v (m_store r).
Definition set_m_store (v : Store) (r : Mem) : Mem :=
  mkMem (m_ring r) (m_in_enter r) (m_claims r) (m_hist r) (m_cells r) (m_reqs r) (m_errs r) (m_conns r) v.

(** ** Views of the memory *)

Definition m_sq (m : Mem) : option SubmitQueue := r_sq (m_ring m).
Definition m_cq (m : Mem) : option CompletionQueue := r_cq (m_ring m).
Definition upd_ring (f : Ring -> Ring) (m : Mem) : Mem := set_m_ring (f (m_ring m)) m.
Definition put_sq (q : SubmitQueue) (m : Mem) : Mem := upd_ring (set_r_sq (Some q)) m.
Definition put_cq (q : CompletionQueue) (m : Mem) : Mem := upd_ring (set_r_cq (Some q)) m.

(** What a kernel action does to the memory. *)
Definition post (es : list CompletionEntry) (w : Z * CompletionEntry) : list CompletionEntry :=
  match slice_set es w.1 w.2 with Some es' => es' | None => es end.

Definition view_sq (v : RingView) (q : SubmitQueue) : SubmitQueue :=
  set_sq_Head (u32 (v_sqHead v)) (set_sq_Flags (u32 (v_sqFlags v))
    (set_sq_Dropped (u32 (v_sqDropped v)) q)).

Definition view_cq (v : RingView) (q : CompletionQueue) : CompletionQueue :=
  set_cq_Tail (u32 (v_cqTail v)) (set_cq_Overflow (u32 (v_cqOverflow v))
    (set_cq_Flags (u32 (v_cqFlags v)) (set_cq_Entries (foldl post (cq_Entries q) (v_posts v)) q))).

Definition apply_view (v : RingView) (m : Mem) : Mem :=
  set_m_store (v_store v)
    (upd_ring (fun r => set_r_sq (view_sq v <$> r_sq r) (set_r_cq (view_cq v <$> r_cq r) r)) m).

(** The kernel may act at any time, also outside a system call. *)
Definition kernel_step (m m' : Mem) : Prop := exists v, m' = apply_view v m.

(** ** Primitive actions *)

Definition nil_msg : string := "invalid memory address or nil pointer dereference".
Definition index_msg : string := "index out of range".

Definition sq_load {A} (f : SubmitQueue -> A) : prog Mem A :=
  try_load nil_msg (fun m => f <$> m_sq m).
Definition cq_load {A} (f : CompletionQueue -> A) : prog Mem A :=
  try_load nil_msg (fun m => f <$> m_cq m).
Definition sq_store (f : SubmitQueue -> SubmitQueue) : prog Mem unit :=
  try_store nil_msg (fun m => q ← m_sq m; Some (put_sq (f q) m)).
Definition cq_store (f : CompletionQueue -> CompletionQueue) : prog Mem unit :=
  try_store nil_msg (fun m => q ← m_cq m; Some (put_cq (f q) m)).

(** [atomic.CompareAndSwapUint32] on a field. *)
Definition sq_cas (get : SubmitQueue -> Z) (set : Z -> SubmitQueue -> SubmitQueue)
    (old new : Z) : prog Mem bool :=
  try_act nil_msg (fun m => q ← m_sq m;
    if get q =? old then Some (true, put_sq (set new q) m) else Some (false, m)).
Definition cq_cas (get : CompletionQueue -> Z) (set : Z -> CompletionQueue -> CompletionQueue)
    (old new : Z) : prog Mem bool :=
  try_act nil_msg (fun m => q ← m_cq m;
    if get q =? old then Some (true, put_cq (set new q) m) else Some (false, m)).

(** Reads and writes of slice elements. *)
Definition sq_update_entry (i : Z) (f : SubmitEntry_t -> SubmitEntry_t) : prog Mem unit :=
  try_store index_msg (fun m => q ← m_sq m; e ← slice_get (sq_Entries q) i;
    es ← slice_set (sq_Entries q) i (f e); Some (put_sq (set_sq_Entries es q) m)).
Definition sq_entry (i : Z) : prog Mem SubmitEntry_t :=
  try_load index_msg (fun m => q ← m_sq m; slice_get (sq_Entries q) i).
Definition sq_store_array (i v : Z) : prog Mem unit :=
  try_store index_msg (fun m => q ← m_sq m;
    a ← slice_set (sq_Array q) i v; Some (put_sq (set_sq_Array a q) m)).
Definition cq_entry (i : Z) : prog Mem CompletionEntry :=
  try_load index_msg (fun m => q ← m_cq m; slice_get (cq_Entries q) i).
Definition cq_update_entry (i : Z) (f : CompletionEntry -> CompletionEntry) : prog Mem unit :=
  try_store index_msg (fun m => q ← m_cq m; e ← slice_get (cq_Entries q) i;
    es ← slice_set (cq_Entries q) i (f e); Some (put_cq (set_cq_Entries es q) m)).

Definition ring_load {A} (f : Ring -> A) : prog Mem A := load (fun m => f (m_ring m)).
Definition ring_store (f : Ring -> Ring) : prog Mem unit := store (upd_ring f).

Section Syscalls.
Context {K : Kernel}.

(** A system call that does not touch the rings. *)
Definition syscall (c : Syscall) : prog Mem SysRes :=
  act (fun m => let r := k_answer (m_hist m) c in (r, set_m_hist ((c, r) :: m_hist m) m)).

(** A system call that transfers data. *)
Definition syscall_file (c : Syscall) : prog Mem SysRes :=
  act (fun m =>
    let '(r, st) := k_file (m_hist m) c (m_store m) in
    (r, set_m_hist ((c, r) :: m_hist m) (set_m_store st m))).

(** io_uring_enter takes time: a goroutine enters the kernel, and later it
    comes back with the effect on the rings and the result. *)
Definition syscall_enter (c : Syscall) : prog Mem SysRes :=
  store (fun m => set_m_in_enter (m_in_enter m + 1) m);;
  act (fun m =>
    let r := k_answer (m_hist m) c in
    let v := k_enter (m_hist m) c (m_sq m) (m_cq m) (m_store m) in
    (r, set_m_hist ((c, r) :: m_hist m) (set_m_in_enter (m_in_enter m - 1) (apply_view v m)))).
End Syscalls.

(** ** Running the primitive actions *)

Section RunPrims.
Implicit Types (m : Mem) (q : SubmitQueue) (c : CompletionQueue).

Lemma run_sq_load {A} env (f : SubmitQueue -> A) n m q :
  m_sq (env n m) = Some q -> run env (sq_load f) n m = Done (f q) (env n m) (S n).
Proof. intros H. unfold sq_load. by rewrite run_try_load, H. Qed.

Lemma run_cq_load {A} env (f : CompletionQueue -> A) n m c :
  m_cq (env n m) = Some c -> run env (cq_load f) n m = Done (f c) (env n m) (S n).
Proof. intros H. unfold cq_load. by rewrite run_try_load, H. Qed.

Lemma run_sq_cas env get set old new n m q :
  m_sq (env n m) = Some q ->
  run env (sq_cas get set old new) n m =
  if get q =? old then Done true (put_sq (set new q) (env n m)) (S n)
  else Done false (env n m) (S n).
Proof.
  intros H. unfold sq_cas. rewrite run_try_act, H. cbn. by destruct (get q =? old).
Qed.

Lemma run_cq_entry env i n m c e :
  m_cq (env n m) = Some c -> slice_get (cq_Entries c) i = Some e ->
  run env (cq_entry i) n m = Done e (env n m) (S n).
Proof. intros H He. unfold cq_entry. rewrite run_try_load, H. cbn. by rewrite He. Qed.

Lemma runs_sq_load {A} (f : SubmitQueue -> A) m q :
  m_sq m = Some q -> runs (sq_load f) m (f q) m.
Proof. intros H. apply runs_try_load. by rewrite H. Qed.

Lemma runs_cq_load {A} (f : CompletionQueue -> A) m c :
  m_cq m = Some c -> runs (cq_load f) m (f c) m.
Proof. intros H. apply runs_try_load. by rewrite H. Qed.

Lemma runs_sq_store f m q :
  m_sq m = Some q -> runs (sq_store f) m tt (put_sq (f q) m).
Proof. intros H. apply runs_try_store. by rewrite H. Qed.

Lemma runs_cq_store f m c :
  m_cq m = Some c -> runs (cq_store f) m tt (put_cq (f c) m).
Proof. intros H. apply runs_try_store. by rewrite H. Qed.

Lemma runs_sq_cas_ok get set old new m q :
  m_sq m = Some q -> get q = old ->
  runs (sq_cas get set old new) m true (put_sq (set new q) m).
Proof. intros H <-. apply runs_try_act. rewrite H. cbn. by rewrite Z.eqb_refl. Qed.

Lemma runs_sq_entry m q i e :
  m_sq m = Some q -> slice_get (sq_Entries q) i = Some e -> runs (sq_entry i) m e m.
Proof. intros H He. apply runs_try_load. rewrite H. cbn. by rewrite He. Qed.

Lemma runs_cq_entry m c i e :
  m_cq m = Some c -> slice_get (cq_Entries c) i = Some e -> runs (cq_entry i) m e m.
Proof. intros H He. apply runs_try_load. rewrite H. cbn. by rewrite He. Qed.

Lemma runs_sq_update_entry f m q i e :
  m_sq m = Some q -> slice_get (sq_Entries q) i = Some e ->
  runs (sq_update_entry i f) m tt
    (put_sq (set_sq_Entries (alter f (Z.to_nat i) (sq_Entries q)) q) m).
Proof.
  intros H He. apply runs_try_store. rewrite H. cbn. rewrite He. cbn.
  by rewrite (slice_set_alter _ _ e).
Qed.

Lemma runs_cq_update_entry f m c i e :
  m_cq m = Some c -> slice_get (cq_Entries c) i = Some e ->
  runs (cq_update_entry i f) m tt
    (put_cq (set_cq_Entries (alter f (Z.to_nat i) (cq_Entries c)) c) m).
Proof.
  intros H He. apply runs_try_store. rewrite H. cbn. rewrite He. cbn.
  by rewrite (slice_set_alter _ _ e).
Qed.

Lemma runs_sq_store_array m q i v :
  m_sq m = Some q -> 0 <= i < len (sq_Array q) ->
  runs (sq_store_array i v) m tt
    (put_sq (set_sq_Array (<[Z.to_nat i := v]> (sq_Array q)) q) m).
Proof. intros H Hi. apply runs_try_store. rewrite H. cbn. by rewrite slice_set_in. Qed.

Lemma m_sq_put q m : m_sq (put_sq q m) = Some q.
Proof. done. Qed.
Lemma m_cq_put c m : m_cq (put_cq c m) = Some c.
Proof. done. Qed.
Lemma m_cq_put_sq q m : m_cq (put_sq q m) = m_cq m.
Proof. done. Qed.
Lemma m_sq_put_cq c m : m_sq (put_cq c m) = m_sq m.
Proof. done. Qed.
Lemma put_sq_put q q' m : put_sq q (put_sq q' m) = put_sq q m.
Proof. by destruct m as [[]]. Qed.
Lemma put_cq_put c c' m : put_cq c (put_cq c' m) = put_cq c m.
Proof. by destruct m as [[]]. Qed.
Lemma put_sq_id q m : m_sq m = Some q -> put_sq q m = m.
Proof. destruct m as [[]]. cbn. by intros [= ->]. Qed.
Lemma put_cq_id c m : m_cq m = Some c -> put_cq c m = m.
Proof. destruct m as [[]]. cbn. by intros [= ->]. Qed.
End RunPrims.

(** Simplification stops at the primitive actions. *)
#[global] Arguments sq_load : simpl never.
#[global] Arguments cq_load : simpl never.
#[global] Arguments sq_store : simpl never.
#[global] Arguments cq_store : simpl never.
#[global] Arguments sq_cas : simpl never.
#[global] Arguments cq_cas : simpl never.
#[global] Arguments sq_update_entry : simpl never.
#[global] Arguments sq_entry : simpl never.
#[global] Arguments sq_store_array : simpl never.
#[global] Arguments cq_entry : simpl never.
#[global] Arguments cq_update_entry : simpl never.
#[global] Arguments ring_load : simpl never.
#[global] Arguments ring_store : simpl never.
#[global] Arguments syscall : simpl never.
#[global] Arguments syscall_enter : simpl never.
#[global] Arguments syscall_file : simpl never.

Create Rewrite HintDb mem.
#[export] Hint Rewrite put_sq_put put_cq_put : mem.
#[export] Hint Resolve runs_sq_load runs_cq_load runs_sq_store runs_cq_store
  runs_sq_cas_ok runs_sq_entry runs_cq_entry runs_sq_update_entry
  runs_cq_update_entry runs_sq_store_array m_sq_put m_cq_put : runs.
