(* ===== verification/Samples.v ===== *)
(** * Concrete memories and kernels

    A ring as setup leaves it (four submission entries, eight completion
    entries) and small kernels; the witnesses of the properties evaluate the
    definitions on them. *)

From stdpp Require Import base list gmap strings.
From Stdlib Require Import ZArith Lia.
From S2P Require Import Prelude Prog Consts Types Machine.

Definition sample_sqe : SubmitEntry_t := zeroSQE.

Definition sample_sq : SubmitQueue :=
  mkSQ 336 0 0 3 0 0 (replicate 4 0) (replicate 4 sample_sqe) 4096 0 0.

Definition sample_cq : CompletionQueue :=
  mkCQ 192 0 0 7 0 0 (replicate 8 (mkCQE 0 0 0)) 8192.

Definition sample_params : Params :=
  mkParams 4 8 0 0 0 0 0 [0; 0; 0]
    (mkSQOff 0 64 256 264 276 272 320 0 0) (mkCQOff 128 192 260 268 284 64 280 [0; 0]).

Definition sample_ring : Ring :=
  mkRing 5 sample_params (Some sample_cq) (mkCompleter 0 [] 512) (Some sample_sq) 0
    false None 0 false None 0 [] 8 (-1) [].

Definition sample_mem : Mem := mkMem sample_ring 0 [] [] ∅ ∅ [] ∅ (mkStore ∅ ∅ ∅).

(** A kernel that answers every call with the same word and leaves the rings as
    they are. *)
Definition still_kernel (r1 errno : Z) : Kernel := {|
  k_answer := fun _ _ => mkSysRes r1 errno;
  k_params := fun _ _ p => p;
  k_file := fun _ _ st => (mkSysRes r1 errno, st);
  k_enter := fun _ _ q c st =>
    match q, c with
    | Some q, Some c => mkView (sq_Head q) (sq_Flags q) (sq_Dropped q)
                          (cq_Tail c) (cq_Overflow c) (cq_Flags c) [] st
    | _, _ => mkView 0 0 0 0 0 0 [] st
    end
|}.

Lemma sample_sq_wf : sq_wf sample_sq.
Proof. split; try done. exists 2. split; [lia|done]. Qed.

Lemma sample_cq_wf : cq_wf sample_cq.
Proof. split; try done. exists 3. split; [lia|done]. Qed.
