(* ===== verification/Submission.v ===== *)
(** * The submission side (types.go, ring.go, uring_enter.go)

    Claiming, publishing and submitting entries of the submission queue: the
    enter barrier, [SubmitEntry] and its [ready] callback, request identifiers
    and [Enter].  The loops of the source spin until another goroutine makes
    progress; each takes the number of rounds as fuel. *)

From stdpp Require Import base list gmap strings.
From Stdlib Require Import ZArith Lia.
From S2P Require Import Prelude Prog Consts Types Machine.

(** ** Operations *)

(** [SubmitQueue.NeedWakeup]. *)
Definition SubmitQueue_NeedWakeup : prog Mem bool :=
  flags ← sq_load sq_Flags;
  Ret (negb (Z.land flags SqNeedWakeup =? 0)).

(** [SubmitQueue.enterLock]: the first test reads [entered] only when there are
    writers. *)
Fixpoint enterLock (fuel : nat) : prog Mem unit :=
  match fuel with
  | O => Starve
  | S fuel =>
      writes ← sq_load sq_writes;
      busy ← (if negb (writes =? 0)
              then entered ← sq_load sq_entered; Ret (entered =? 1)
              else Ret false);
      if (busy : bool) then enterLock fuel
      else ok ← sq_cas sq_entered set_sq_entered 0 1;
           if (ok : bool) then Ret tt else enterLock fuel
  end.

(** [SubmitQueue.enterUnlock]. *)
Definition enterUnlock : prog Mem unit := sq_store (set_sq_entered 0).

(** [SubmitQueue.completeWrite]. *)
Fixpoint completeWrite (fuel : nat) : prog Mem unit :=
  match fuel with
  | O => Starve
  | S fuel =>
      writes ← sq_load sq_writes;
      if writes =? 0 then Panic "invalid number of sq write completions"
      else ok ← sq_cas sq_writes set_sq_writes writes (u32 (writes - 1));
           if (ok : bool) then Ret tt else completeWrite fuel
  end.

(** The compare-and-swap of [SubmitEntry] that takes the position [pos]; the
    claim is recorded. *)
Definition claim_tail (old new pos : Z) : prog Mem bool :=
  try_act nil_msg (fun m => q ← m_sq m;
    if sq_Tail q =? old
    then Some (true, set_m_claims (m_claims m ++ [pos]) (put_sq (set_sq_Tail new q) m))
    else Some (false, m)).

(** The function [SubmitEntry] returns: it must be called when the entry is
    filled in. *)
Definition ready (fuel : nat) (next head mask : Z) : prog Mem unit :=
  completeWrite fuel;;
  sq_store_array (u32 (next - 1)) (Z.land head mask).

(** [Ring.SubmitEntry]: the address of an entry (its position; [None] would be
    nil) and the callback. *)
Fixpoint Ring_SubmitEntry (fuel : nat) : prog Mem (option Z * prog Mem unit) :=
  match fuel with
  | O => Starve
  | S fuel' =>
      tail ← sq_load sq_Tail;
      head ← sq_load sq_Head;
      mask ← sq_load sq_Mask;
      let next := u32 (Z.land tail mask + 1) in
      n ← sq_load (fun q => len (sq_Entries q));
      if next <=? u32 n then
        ok ← claim_tail tail next (Z.land tail mask);
        if negb ok then Ring_SubmitEntry fuel'
        else
          entered ← sq_load sq_entered;
          if negb (entered =? 0) then Ring_SubmitEntry fuel'
          else
            sq_store (fun q => set_sq_writes (u32 (sq_writes q + 1)) q);;
            sq_update_entry (Z.land tail mask) SubmitEntry_Reset;;
            Ret (Some (Z.land tail mask), ready fuel next head mask)
      else
        sq_cas sq_Tail set_sq_Tail tail 0;;
        Ring_SubmitEntry fuel'
  end.

(** [Ring.ID]: [atomic.AddUint64]. *)
Definition Ring_ID : prog Mem Z :=
  act (fun m => let i := u64 (r_idx (m_ring m) + 1) in (i, upd_ring (set_r_idx i) m)).

(** [Ring.ShouldFlush], [Ring.NeedsEnter], [Ring.CanEnter]. *)
Definition Ring_ShouldFlush : prog Mem bool :=
  flags ← sq_load sq_Flags; Ret (negb (Z.land flags SqCqOverflow =? 0)).
Definition Ring_NeedsEnter : prog Mem bool :=
  flags ← sq_load sq_Flags; Ret (negb (Z.land flags SqNeedWakeup =? 0)).
Definition Ring_CanEnter : prog Mem bool := Ret true.

(** [Ring.CQ], [SQ], [EventFd], [Fd] and [FileRegistry]. *)
Definition Ring_CQ : prog Mem (option CompletionQueue) := ring_load r_cq.
Definition Ring_SQ : prog Mem (option SubmitQueue) := ring_load r_sq.
Definition Ring_EventFd : prog Mem Z := ring_load r_eventFd.
Definition Ring_Fd : prog Mem Z := ring_load r_fd.
Definition Ring_FileRegistry : prog Mem (option fileRegistry) := ring_load r_fileReg.

(** [Ring.SubmitHead], [SubmitTail], [CompleteHead], [CompleteTail]. *)
Definition Ring_SubmitHead : prog Mem Z :=
  h ← sq_load sq_Head; k ← sq_load sq_Mask; Ret (Z.land h k).
Definition Ring_SubmitTail : prog Mem Z :=
  t ← sq_load sq_Tail; k ← sq_load sq_Mask; Ret (Z.land t k).
Definition Ring_CompleteHead : prog Mem Z :=
  h ← cq_load cq_Head; k ← cq_load cq_Mask; Ret (Z.land h k).
Definition Ring_CompleteTail : prog Mem Z :=
  t ← cq_load cq_Tail; k ← cq_load cq_Mask; Ret (Z.land t k).

Section Enter.
Context {K : Kernel}.

(** [Enter] (uring_enter.go): [res] and [errno] are unsigned, so [res < 0] is
    the comparison of an unsigned word with zero. *)
Definition Enter (fd toSubmit minComplete flags : Z) : prog Mem (Z * err) :=
  r ← syscall_enter (SysEnter (u64 fd) (u64 toSubmit) (u64 minComplete) (u64 flags));
  if negb (sys_errno r =? 0) then Ret (0, Some (Errno (sys_errno r)))
  else if sys_r1 r <? 0 then Ret (0, Some (Errno (u64 (- sys_r1 r))))
  else Ret (i64 (sys_r1 r), None).

(** [Ring.Enter]. *)
Definition Ring_Enter (fuel : nat) (toSubmit minComplete flags : Z) : prog Mem (Z * err) :=
  wake ← SubmitQueue_NeedWakeup;
  let flags := if (wake : bool) then Z.lor flags EnterSqWakeup else flags in
  enterLock fuel;;
  fd ← ring_load r_fd;
  res ← Enter fd toSubmit minComplete flags;
  enterUnlock;;
  Ret res.
End Enter.

(** ** Sequential behaviour *)

(** The queue after a claim and after its publication. *)
Definition sq_claim (q : SubmitQueue) : SubmitQueue :=
  let pos := sq_tail_pos q in
  set_sq_Entries (alter SubmitEntry_Reset (Z.to_nat pos) (sq_Entries q))
    (set_sq_writes (u32 (sq_writes q + 1)) (set_sq_Tail (pos + 1) q)).

Definition sq_publish (pos head : Z) (q : SubmitQueue) : SubmitQueue :=
  set_sq_Array (<[Z.to_nat pos := head]> (sq_Array q))
    (set_sq_writes (u32 (sq_writes q - 1)) q).

Definition add_claim (pos : Z) (m : Mem) : Mem := set_m_claims (m_claims m ++ [pos]) m.

Section Sequential.
Implicit Types (m : Mem) (q : SubmitQueue).

Lemma sq_next_in_range q :
  sq_wf q ->
  u32 (sq_tail_pos q + 1) = sq_tail_pos q + 1 /\
  (sq_tail_pos q + 1 <=? u32 (len (sq_Entries q))) = true.
Proof.
  intros H. pose proof (sq_pos_range q (sq_Tail q) H). unfold sq_tail_pos.
  pose proof (pow2_size_u32 _ (sqwf_pow2 q H)).
  rewrite !uwrap_id by (unfold is_uint; lia). split; [done|]. apply Z.leb_le. lia.
Qed.

Lemma runs_claim_tail m q new pos :
  m_sq m = Some q ->
  runs (claim_tail (sq_Tail q) new pos) m true
    (add_claim pos (put_sq (set_sq_Tail new q) m)).
Proof. intros H. apply runs_try_act. rewrite H. cbn. by rewrite Z.eqb_refl. Qed.
#[local] Hint Resolve runs_claim_tail : runs.

(** Without interference and with the barrier open, [SubmitEntry] claims the
    position of the tail at the first attempt. *)
Lemma runs_SubmitEntry m q fuel :
  m_sq m = Some q -> sq_wf q -> sq_entered q = 0 ->
  runs (Ring_SubmitEntry (S fuel)) m
    (Some (sq_tail_pos q), ready (S fuel) (sq_tail_pos q + 1) (sq_Head q) (sq_Mask q))
    (add_claim (sq_tail_pos q) (put_sq (sq_claim q) m)).
Proof.
  intros Hm Hwf He. destruct (sq_next_in_range q Hwf) as [Hn Hle].
  assert (is_Some (slice_get (sq_Entries q) (sq_tail_pos q))) as [e Hget].
  { apply slice_get_in. by apply sq_pos_range. }
  unfold sq_tail_pos in *. cbn [Ring_SubmitEntry]. do 4 run_step.
  rewrite Hn, Hle. run_step. cbn [negb]. run_step. cbn. rewrite He. cbn.
  eapply runs_bind; [by eapply runs_sq_store|].
  eapply runs_bind; [eapply runs_sq_update_entry; [done|exact Hget]|].
  eapply runs_eq; [apply runs_ret|done|]. by destruct m as [[] ? ? ? ? ? ? ? ?].
Qed.

(** [ready] decrements the writers and stores the head position read by
    [SubmitEntry] in the index array. *)
Lemma runs_ready m q fuel pos head :
  m_sq m = Some q -> sq_wf q -> 0 <= pos < len (sq_Entries q) -> 0 < sq_writes q ->
  runs (ready (S fuel) (pos + 1) head (sq_Mask q)) m tt
    (put_sq (sq_publish pos (Z.land head (sq_Mask q)) q) m).
Proof.
  intros Hm Hwf Hpos Hw. pose proof (pow2_size_u32 _ (sqwf_pow2 q Hwf)).
  unfold ready. eapply runs_bind.
  - cbn [completeWrite]. run_step.
    destruct (Z.eqb_spec (sq_writes q) 0); [lia|].
    eapply runs_bind; [by eapply runs_sq_cas_ok|]. apply runs_ret.
  - replace (u32 (pos + 1 - 1)) with pos
      by (rewrite uwrap_id; [lia|unfold is_uint; lia]).
    eapply runs_eq; [eapply runs_sq_store_array; [done|]|done|].
    + cbn. rewrite (sqwf_array q Hwf). lia.
    + by rewrite put_sq_put.
Qed.
End Sequential.

(** ** Submitting one entry *)

(** The pattern of every caller: claim an entry, fill it in, call [ready]. *)
Definition submit (fuel : nat) (f : SubmitEntry_t -> SubmitEntry_t) : prog Mem unit :=
  '(sqe, rdy) ← Ring_SubmitEntry fuel;
  match sqe with
  | None => Ret tt
  | Some i => sq_update_entry i f;; rdy
  end.

Fixpoint submit_all (fuel : nat) (fs : list (SubmitEntry_t -> SubmitEntry_t)) : prog Mem unit :=
  match fs with
  | [] => Ret tt
  | f :: fs => submit fuel f;; submit_all fuel fs
  end.

(** What the interface of io_uring says the kernel takes: the entry whose
    position is in the index array at the head, which it then advances.  It is
    about which entry, not about how many: the kernel takes what it is asked for,
    up to the difference of tail and head, which is [sq_count] of SubmissionSpec. *)
Definition kernel_take : prog Mem SubmitEntry_t :=
  try_act index_msg (fun m => q ← m_sq m;
    i ← slice_get (sq_Array q) (sq_head_pos q);
    e ← slice_get (sq_Entries q) i;
    Some (e, put_sq (set_sq_Head (u32 (sq_Head q + 1)) q) m)).

Fixpoint kernel_takes (n : nat) : prog Mem (list SubmitEntry_t) :=
  match n with
  | O => Ret []
  | S n => e ← kernel_take; es ← kernel_takes n; Ret (e :: es)
  end.

(** One submission after the other, each taken before the next. *)
Fixpoint serve (fuel : nat) (fs : list (SubmitEntry_t -> SubmitEntry_t))
  : prog Mem (list SubmitEntry_t) :=
  match fs with
  | [] => Ret []
  | f :: fs => submit fuel f;; e ← kernel_take; es ← serve fuel fs; Ret (e :: es)
  end.

(** A reset entry; the padding is what the previous use left. *)
Definition fresh_entry (anon : list Z) : SubmitEntry_t := mkSQE Nop 0 0 (-1) 0 0 0 0 0 anon.

(** The barrier is open and the writer count does not overflow. *)
Record sq_open (q : SubmitQueue) : Prop := {
  sqo_wf : sq_wf q;
  sqo_entered : sq_entered q = 0;
  sqo_writes : 0 <= sq_writes q < 2 ^ 32 - 1
}.

(** The queue after one submission. *)
Definition sq_submit (f : SubmitEntry_t -> SubmitEntry_t) (q : SubmitQueue) : SubmitQueue :=
  let pos := sq_tail_pos q in
  set_sq_Tail (pos + 1)
    (set_sq_Array (<[Z.to_nat pos := sq_head_pos q]> (sq_Array q))
      (set_sq_Entries (alter f (Z.to_nat pos) (alter SubmitEntry_Reset (Z.to_nat pos) (sq_Entries q))) q)).

Section Submit.
Implicit Types (m : Mem) (q : SubmitQueue).

Lemma runs_submit m q fuel f :
  m_sq m = Some q -> sq_open q ->
  runs (submit (S fuel) f) m tt
    (add_claim (sq_tail_pos q) (put_sq (sq_submit f q) m)).
Proof.
  intros Hm [Hwf He Hw]. pose proof (sq_pos_range q (sq_Tail q) Hwf) as Hpos.
  destruct (slice_get_in (sq_Entries q) (sq_tail_pos q)) as [e Hget]; [done|].
  assert (sq_wf (sq_claim q)) as Hwf'.
  { apply (sq_wf_update q); cbn; autorewrite with slices; auto with slices. }
  unfold submit. eapply runs_bind; [by apply runs_SubmitEntry|]. cbn beta iota.
  eapply runs_bind.
  { eapply runs_sq_update_entry; [done|]. by apply slice_get_alter_eq. }
  set (q1 := set_sq_Entries _ _).
  eapply runs_eq; [apply (runs_ready _ q1)|done|].
  - done.
  - apply (sq_wf_update (sq_claim q)); cbn; autorewrite with slices; auto with slices.
  - cbn. autorewrite with slices. done.
  - cbn. rewrite uwrap_id by (unfold is_uint; lia). lia.
  - unfold q1. destruct m as [[] ? ? ? ? ? ? ? ?], q. unfold add_claim, put_sq, sq_submit, sq_publish. cbn.
    cbn in *. rewrite (uwrap_id 32 (_ + 1)) by (unfold is_uint; lia).
    by rewrite Z.add_simpl_r, uwrap_id by (unfold is_uint; lia).
Qed.

Lemma sq_submit_open q f : sq_open q -> sq_open (sq_submit f q).
Proof.
  intros [Hwf ? ?]. split; [|done..].
  apply (sq_wf_update q); cbn; autorewrite with slices; auto with slices.
Qed.

Lemma sq_submit_tail_pos q f :
  sq_open q -> sq_tail_pos (sq_submit f q) = (sq_tail_pos q + 1) mod len (sq_Entries q).
Proof.
  intros Ho. pose proof (sqo_wf _ (sq_submit_open q f Ho)) as Hwf.
  unfold sq_tail_pos at 1. rewrite sq_pos_mod by done. cbn. by autorewrite with slices.
Qed.

Lemma runs_kernel_take m q i e :
  m_sq m = Some q -> slice_get (sq_Array q) (sq_head_pos q) = Some i ->
  slice_get (sq_Entries q) i = Some e ->
  runs kernel_take m e (put_sq (set_sq_Head (u32 (sq_Head q + 1)) q) m).
Proof. intros Hm Hi He. apply runs_try_act. rewrite Hm. cbn. rewrite Hi. cbn. by rewrite He. Qed.
End Submit.
