(* ===== verification/SubmissionSpec.v ===== *)
(** * Properties of the submission side

    What a sequence of [SubmitEntry]/[ready] calls hands to the kernel, when the
    calls alternate with the kernel and when they are batched; the enter
    barrier; identifiers. *)

From stdpp Require Import base list gmap strings.
From Stdlib Require Import ZArith Lia.
From S2P Require Import Prelude Prog Consts Types Machine Samples Submission.

Section Alternating.
Implicit Types (m : Mem) (q : SubmitQueue).

(** The state between two requests of the alternating regime: nothing pending. *)
Definition sq_drained q : Prop := sq_open q /\ sq_head_pos q = sq_tail_pos q.

Lemma sq_drained_step q f :
  sq_drained q ->
  sq_drained (set_sq_Head (u32 (sq_Head q + 1)) (sq_submit f q)).
Proof.
  intros [Ho Hht]. pose proof (sq_submit_open q f Ho) as Ho'.
  pose proof (sqo_wf q Ho) as Hwf. split.
  - destruct Ho' as [Hwf' ? ?]. split; [|done..].
    apply (sq_wf_update (sq_submit f q)); cbn; auto with slices ints.
  - transitivity (sq_tail_pos (sq_submit f q)); [|done].
    rewrite (sq_submit_tail_pos q f Ho), <- Hht.
    pose proof (sqo_wf _ Ho') as Hwf'. unfold sq_head_pos. cbn. rewrite !sq_pos_mod by done.
    rewrite u32_mod by apply Hwf. by rewrite mod_succ_mod.
Qed.

(** A published entry is pending. *)
Lemma submit_pending q f : sq_drained q -> 2 <= len (sq_Entries q) -> sq_Head q <> sq_Tail (sq_submit f q).
Proof.
  intros [Ho Hht] Htwo E. pose proof (sqo_wf q Ho) as Hwf. unfold sq_head_pos, sq_tail_pos in Hht.
  rewrite E in Hht. rewrite !sq_pos_mod in Hht by done. cbn in Hht. unfold sq_tail_pos in Hht.
  rewrite sq_pos_mod, mod_succ_mod in Hht by done. set (n := len _) in *. set (t := sq_Tail q) in *.
  assert (t mod n < n) by (apply Z.mod_pos_bound; lia). rewrite <- mod_succ_mod in Hht.
  destruct (Z.eq_dec (t mod n + 1) n) as [E1|E1].
  - rewrite E1, Z_mod_same_full in Hht. lia.
  - rewrite Z.mod_small in Hht; [lia|]. pose proof (Z.mod_pos_bound t n). lia.
Qed.

Lemma runs_serve_one m q fuel f :
  m_sq m = Some q -> sq_drained q ->
  exists anon m',
    runs (submit (S fuel) f;; kernel_take) m (f (fresh_entry anon)) m' /\
    m_sq m' = Some (set_sq_Head (u32 (sq_Head q + 1)) (sq_submit f q)).
Proof.
  intros Hm [Ho Hht]. pose proof (sqo_wf q Ho) as Hwf.
  destruct (slice_get_in (sq_Entries q) (sq_tail_pos q)) as [e Hget]; [auto with slices|].
  exists (sqe_Anon0 e). eexists. split.
  - eapply runs_bind; [by apply runs_submit|].
    eapply (runs_kernel_take _ (sq_submit f q) (sq_head_pos q)); [done|..].
    + change (sq_head_pos (sq_submit f q)) with (sq_head_pos q). cbn. rewrite Hht.
      apply slice_get_insert_eq. rewrite (sqwf_array q Hwf). auto with slices.
    + rewrite Hht. change (fresh_entry (sqe_Anon0 e)) with (SubmitEntry_Reset e).
      by do 2 apply slice_get_alter_eq.
  - done.
Qed.
End Alternating.

(** C1. Requests submitted one at a time, each taken by the kernel before the
    next one is prepared, are taken in order and exactly as they were filled
    in: every reserved field of a taken entry is the reset value unless the
    caller set it.  The number of requests is arbitrary, so the positions wrap
    around the ring any number of times.  [SubmitEntry] always returns: fuel
    for one attempt of each loop is enough.  The kernel is one that takes the entry
    at its head when asked for one; on a ring of one entry it does not see the
    second request (C29). *)
Theorem serve_roundtrip (fuel : nat) (fs : list (SubmitEntry_t -> SubmitEntry_t))
    (m : Mem) (q : SubmitQueue)
    (Hm : m_sq m = Some q) (Hd : sq_drained q) :
  exists es m', runs (serve (S fuel) fs) m es m' /\
    Forall2 (fun f e => exists anon, e = f (fresh_entry anon)) fs es.
Proof.
  revert m q Hm Hd. induction fs as [|f fs IH]; intros m q Hm Hd.
  - exists [], m. split; [apply runs_ret|constructor].
  - destruct (runs_serve_one m q fuel f Hm Hd) as (anon & m1 & Hr & Hm1).
    destruct (IH m1 _ Hm1 (sq_drained_step q f Hd)) as (es & m2 & Hr2 & Hes).
    exists (f (fresh_entry anon) :: es), m2. split; [|constructor; eauto].
    cbn [serve]. intros n. destruct (Hr n) as [n1 H1]. destruct (Hr2 n1) as [n2 H2].
    exists n2. rewrite run_bind in H1. rewrite run_bind. destruct (run _ (submit _ _) _ _); try done.
    by rewrite run_bind, H1, run_bind, H2.
Qed.

Lemma sample_sq_open : sq_open sample_sq.
Proof. split; [apply sample_sq_wf|done|cbn; lia]. Qed.

Lemma serve_roundtrip_witness :
  m_sq sample_mem = Some sample_sq /\ sq_drained sample_sq /\
  exists es m', runs (serve 1 (replicate 9 (set_sqe_Fd 7))) sample_mem es m' /\
    Forall2 (fun f e => exists anon, e = f (fresh_entry anon)) (replicate 9 (set_sqe_Fd 7)) es.
Proof.
  assert (sq_drained sample_sq) as Hd by (split; [apply sample_sq_open|reflexivity]).
  split; [reflexivity|]. split; [exact Hd|].
  apply (serve_roundtrip 0 (replicate 9 (set_sqe_Fd 7)) sample_mem sample_sq eq_refl Hd).
Defined.

(** ** Batches *)

Section Batch.
Implicit Types (m : Mem) (q : SubmitQueue).

(** The effect of a batch that fits the ring, position by position from the
    tail: the submitted positions of the index array all hold the head
    position, the entries from the end of the batch on are untouched. *)
Record batched (k : Z) q q' : Prop := {
  bt_open : sq_open q';
  bt_head : sq_Head q' = sq_Head q;
  bt_mask : sq_Mask q' = sq_Mask q;
  bt_len : len (sq_Entries q') = len (sq_Entries q);
  bt_array : forall j, 0 <= j < k ->
    slice_get (sq_Array q') ((sq_tail_pos q + j) mod len (sq_Entries q)) = Some (sq_head_pos q);
  bt_array_rest : forall j, k <= j < len (sq_Entries q) ->
    slice_get (sq_Array q') ((sq_tail_pos q + j) mod len (sq_Entries q)) =
    slice_get (sq_Array q) ((sq_tail_pos q + j) mod len (sq_Entries q));
  bt_rest : forall j, k <= j < len (sq_Entries q) ->
    slice_get (sq_Entries q') ((sq_tail_pos q + j) mod len (sq_Entries q)) =
    slice_get (sq_Entries q) ((sq_tail_pos q + j) mod len (sq_Entries q))
}.

Lemma ring_offset_ne n t j :
  0 <= t < n -> 0 < j < n -> t <> (t + j) mod n.
Proof.
  intros Ht Hj Heq. destruct (decide (t + j < n)).
  - rewrite Z.mod_small in Heq; lia.
  - replace (t + j) with (t + j - n + 1 * n) in Heq by lia.
    rewrite Z.mod_add in Heq by lia. rewrite Z.mod_small in Heq; lia.
Qed.

Lemma ring_offset_shift n t j : 0 < n -> ((t + 1) mod n + j) mod n = (t + (j + 1)) mod n.
Proof. intros. rewrite Zplus_mod_idemp_l. f_equal. lia. Qed.

(** The tail is the last position of the ring seen from its successor. *)
Lemma ring_offset_back n t : 0 <= t < n -> ((t + 1) mod n + (n - 1)) mod n = t.
Proof.
  intros. rewrite ring_offset_shift by lia.
  replace (t + (n - 1 + 1)) with (t + 1 * n) by lia.
  rewrite Z.mod_add by lia. by apply Z.mod_small.
Qed.

Lemma batched_cons k q q' f :
  sq_open q -> 0 <= k < len (sq_Entries q) ->
  batched k (sq_submit f q) q' -> batched (k + 1) q q'.
Proof.
  intros Ho Hk [Ho' Hh Hm Hl Ha Har Hr].
  pose proof (sqo_wf q Ho) as Hwf. pose proof (sq_tail_pos_range q Hwf) as Ht.
  set (n := len (sq_Entries q)) in *.
  assert (len (sq_Entries (sq_submit f q)) = n) as Hn by (cbn; by autorewrite with slices).
  rewrite Hn, sq_submit_tail_pos in Ha, Har, Hr by done.
  fold n in Ha, Har, Hr.
  (* position j of q is position j - 1 of the queue after the first submission;
     position 0 is its position n - 1, which no later submission of the batch touches *)
  assert (forall j, ((sq_tail_pos q + 1) mod n + (j - 1)) mod n = (sq_tail_pos q + j) mod n) as Hs.
  { intros j. rewrite ring_offset_shift by lia. f_equal. lia. }
  pose proof (ring_offset_back n _ Ht) as Hs0.
  assert (len (sq_Array q) = n) as Hal by apply Hwf.
  split; [done|done|done|by rewrite Hl|..].
  - intros j Hj. destruct (decide (j = 0)) as [->|Hj0].
    + rewrite Z.add_0_r, Z.mod_small by done. fold n. rewrite <- Hs0 at 1.
      rewrite Har by lia. fold n. rewrite Hs0. cbn. apply slice_get_insert_eq. lia.
    + fold n. rewrite <- Hs. rewrite Ha by lia. done.
  - intros j Hj. fold n. fold n in Hj. rewrite <- Hs, Har by lia. rewrite Hs. cbn.
    apply slice_get_insert_ne; [lia|]. apply ring_offset_ne; lia.
  - intros j Hj. fold n. fold n in Hj. rewrite <- Hs, Hr by lia. rewrite Hs. cbn.
    rewrite !slice_get_alter_ne by (try apply ring_offset_ne; lia). done.
Qed.

Lemma runs_submit_all m q fuel fs :
  m_sq m = Some q -> sq_open q -> len fs <= len (sq_Entries q) ->
  exists m' q', runs (submit_all (S fuel) fs) m tt m' /\ m_sq m' = Some q' /\
    batched (len fs) q q'.
Proof.
  revert m q. induction fs as [|f fs IH]; intros m q Hm Ho Hlen.
  - exists m, q. split; [apply runs_ret|]. split; [done|].
    split; try done. intros j Hj. unfold len in Hj. cbn in Hj. lia.
  - assert (len (f :: fs) = len fs + 1) as Hc by (unfold len; cbn; lia).
    destruct (IH (add_claim (sq_tail_pos q) (put_sq (sq_submit f q) m)) (sq_submit f q))
      as (m' & q' & Hr & Hm' & Hb); [done|by apply sq_submit_open|cbn; autorewrite with slices; lia|].
    exists m', q'. split; [|split; [done|]].
    + cbn [submit_all]. eapply runs_bind; [by apply runs_submit|done].
    + rewrite Hc. apply (batched_cons _ _ _ f); [done|pose proof (len_nonneg fs); lia|done].
Qed.
End Batch.

Section BatchTaken.
Implicit Types (m : Mem) (q : SubmitQueue).

(** As long as the index array holds [i] at the next [k] positions, the kernel
    takes the entry at [i] [k] times. *)
Lemma runs_takes_same k i e : forall m q,
  m_sq m = Some q -> sq_wf q ->
  (forall j, 0 <= j < Z.of_nat k ->
     slice_get (sq_Array q) ((sq_head_pos q + j) mod len (sq_Entries q)) = Some i) ->
  slice_get (sq_Entries q) i = Some e ->
  exists m', runs (kernel_takes k) m (replicate k e) m'.
Proof.
  induction k as [|k IH]; intros m q Hm Hwf Ha He.
  - exists m. apply runs_ret.
  - pose proof (sq_head_pos_range q Hwf) as Hh.
    set (q1 := set_sq_Head (u32 (sq_Head q + 1)) q).
    assert (sq_wf q1) as Hwf1 by (apply (sq_wf_update q); cbn; auto with slices ints).
    destruct (IH (put_sq q1 m) q1) as [m' Hr]; [done|done| |done|].
    + intros j Hj. rewrite <- (Ha (j + 1)) by lia. cbn. f_equal.
      unfold sq_head_pos. cbn. rewrite !sq_pos_mod by done.
      rewrite u32_mod by apply Hwf. rewrite !Zplus_mod_idemp_l. f_equal. lia.
    + exists m'. cbn [kernel_takes replicate].
      eapply runs_bind; [eapply (runs_kernel_take m q i e); [done| |done]|].
      * rewrite <- (Ha 0) by lia. f_equal. rewrite Z.add_0_r. symmetry. by apply Z.mod_small.
      * eapply runs_bind; [exact Hr|]. apply runs_ret.
Qed.

(** The kernel takes the first request of a batch once per request. *)
Lemma runs_batch fuel f fs m q :
  m_sq m = Some q -> sq_drained q -> len (f :: fs) <= len (sq_Entries q) ->
  exists anon m1 m',
    runs (submit_all (S fuel) (f :: fs)) m tt m1 /\
    runs (kernel_takes (length (f :: fs))) m1
      (replicate (length (f :: fs)) (f (fresh_entry anon))) m'.
Proof.
  intros Hm Hd Hlen. destruct Hd as [Ho Hht]. pose proof (sqo_wf q Ho) as Hwf.
  pose proof (sq_tail_pos_range q Hwf) as Ht.
  assert (len (f :: fs) = len fs + 1) as Hc by (unfold len; cbn; lia).
  pose proof (len_nonneg fs) as Hfs.
  destruct (slice_get_in (sq_Entries q) (sq_tail_pos q)) as [e Hget]; [done|].
  set (m1 := add_claim (sq_tail_pos q) (put_sq (sq_submit f q) m)).
  destruct (runs_submit_all m1 (sq_submit f q) fuel fs) as (m2 & q2 & Hr & Hm2 & Hb);
    [done|by apply sq_submit_open|cbn; autorewrite with slices; lia|].
  assert (batched (len (f :: fs)) q q2) as Hb'.
  { rewrite Hc. by apply (batched_cons _ _ _ f); [|lia|]. }
  destruct (runs_takes_same (length (f :: fs)) (sq_head_pos q) (f (SubmitEntry_Reset e)) m2 q2)
    as [m3 Hr3]; [done|apply Hb'| | |].
  - intros j Hj. rewrite (bt_len _ _ _ Hb').
    rewrite <- (bt_array _ _ _ Hb' j) by (unfold len in *; cbn in *; lia). do 2 f_equal.
    f_equal. rewrite <- Hht. unfold sq_head_pos.
    by rewrite (bt_head _ _ _ Hb'), (bt_mask _ _ _ Hb').
  - (* the first entry is at the last position of the ring seen from the second tail *)
    set (n := len (sq_Entries q)) in *.
    assert (len (sq_Entries (sq_submit f q)) = n) as Hn by (cbn; by autorewrite with slices).
    pose proof (ring_offset_back n _ Ht) as Hs0.
    pose proof (bt_rest _ _ _ Hb (n - 1)) as Hrest.
    rewrite Hn, sq_submit_tail_pos in Hrest by done. fold n in Hrest.
    rewrite Hs0 in Hrest. rewrite Hht, Hrest by lia. cbn.
    by do 2 apply slice_get_alter_eq.
  - exists (sqe_Anon0 e), m2, m3. split; [|exact Hr3].
    cbn [submit_all]. eapply runs_bind; [by apply runs_submit|exact Hr].
Qed.
End BatchTaken.

(** C22. When several requests are prepared before the kernel takes any of them,
    every published position of the index array holds the position of the
    first request: the kernel takes the first request once per request of the
    batch and never the others.  The batch may be of any size the ring can
    hold; the kernel is one that takes as many entries as it is asked for, which a
    batch shorter than the ring lets it do (C29). *)
Theorem batch_takes_first (fuel : nat) (f : SubmitEntry_t -> SubmitEntry_t)
    (fs : list (SubmitEntry_t -> SubmitEntry_t)) (m : Mem) (q : SubmitQueue)
    (Hm : m_sq m = Some q) (Hd : sq_drained q)
    (Hlen : len (f :: fs) <= len (sq_Entries q)) :
  exists anon m',
    runs (submit_all (S fuel) (f :: fs);; kernel_takes (length (f :: fs))) m
      (replicate (length (f :: fs)) (f (fresh_entry anon))) m'.
Proof.
  destruct (runs_batch fuel f fs m q Hm Hd Hlen) as (anon & m1 & m' & H1 & H2).
  exists anon, m'. by eapply runs_bind.
Qed.

Lemma batch_takes_first_witness :
  m_sq sample_mem = Some sample_sq /\ sq_drained sample_sq /\
  exists anon m',
    runs (submit_all 1 [set_sqe_Fd 7; set_sqe_Fd 8];; kernel_takes 2) sample_mem
      (replicate 2 (set_sqe_Fd 7 (fresh_entry anon))) m'.
Proof.
  assert (sq_drained sample_sq) as Hd by (split; [apply sample_sq_open|reflexivity]).
  split; [reflexivity|]. split; [exact Hd|].
  apply (batch_takes_first 0 (set_sqe_Fd 7) [set_sqe_Fd 8] sample_mem sample_sq eq_refl Hd).
  vm_compute. discriminate.
Defined.

(** ** What the kernel counts *)

(** The entries to submit, as the kernel counts them: the difference of the two
    counters, which wrap around at 2^32. *)
Definition sq_count (q : SubmitQueue) : Z := u32 (sq_Tail q - sq_Head q).

Section Counted.
Implicit Types (m : Mem) (q : SubmitQueue).

(** The tail is a masked position plus one, not a counter. *)
Lemma submit_all_tail fuel fs : forall f m q,
  m_sq m = Some q -> sq_open q ->
  exists m' q', runs (submit_all (S fuel) (f :: fs)) m tt m' /\ m_sq m' = Some q' /\
    sq_Head q' = sq_Head q /\ sq_Tail q' = (sq_Tail q + len fs) mod len (sq_Entries q) + 1.
Proof.
  induction fs as [|g fs IH]; intros f m q Hm Ho; pose proof (sqo_wf q Ho) as Hwf.
  - exists (add_claim (sq_tail_pos q) (put_sq (sq_submit f q) m)), (sq_submit f q). split_and!; [|done|done|].
    + cbn [submit_all]. eapply runs_bind; [by apply runs_submit|apply runs_ret].
    + cbn. unfold sq_tail_pos. rewrite sq_pos_mod by done.
      change (len []) with 0. by rewrite Z.add_0_r.
  - destruct (IH g (add_claim (sq_tail_pos q) (put_sq (sq_submit f q) m)) (sq_submit f q)) as (m' & q' & Hr & Hm' & Hh & Ht);
      [done|by apply sq_submit_open|].
    exists m', q'. split_and!; [|done|by rewrite Hh|].
    + eapply runs_bind; [by apply runs_submit|exact Hr].
    + rewrite Ht. cbn. autorewrite with slices. unfold sq_tail_pos. rewrite sq_pos_mod by done.
      rewrite <- Z.add_assoc, Zplus_mod_idemp_l. do 2 f_equal. unfold len. cbn [length]. lia.
Qed.

(** The count of [k] requests on a drained ring of [n] entries. *)
Lemma count_mod n h t k :
  pow2_size n -> h mod n = t mod n -> u32 ((t + (k - 1)) mod n + 1 - h) mod n = k mod n.
Proof.
  intros Hn Hht. rewrite u32_mod by done.
  replace ((t + (k - 1)) mod n + 1 - h) with ((t + (k - 1)) mod n + (1 - h)) by lia.
  rewrite Zplus_mod_idemp_l. replace (t + (k - 1) + (1 - h)) with (t + k - h) by lia.
  rewrite <- Zminus_mod_idemp_r, Hht, Zminus_mod_idemp_r. f_equal. lia.
Qed.

(** A batch as long as the ring. *)
Lemma count_lap n h t x :
  pow2_size n -> h mod n = t mod n -> is_u32 h -> x = (t - 1 + n) mod n ->
  if bool_decide (1 <= h <= n) then u32 (x + 1 - h) = 0 else n <= u32 (x + 1 - h).
Proof.
  intros Hp Hht Hu Hx. unfold is_uint in Hu. pose proof (pow2_size_pos n Hp). pose proof (pow2_size_u32 n Hp).
  assert (x = (h - 1) mod n) as ->.
  { rewrite Hx, <- (Z.mul_1_l n) at 1. rewrite Z.mod_add by lia.
    by rewrite <- Zminus_mod_idemp_l, <- Hht, Zminus_mod_idemp_l. }
  pose proof (Z.mod_pos_bound (h - 1) n ltac:(lia)) as Hb. case_bool_decide as Hc.
  - rewrite Z.mod_small by lia. by replace (h - 1 + 1 - h) with 0 by lia.
  - set (y := u32 _). assert (y mod n = 0) as Hy.
    { unfold y. rewrite u32_mod by done. replace (_ + 1 - h) with ((h - 1) mod n + (1 - h)) by lia.
      rewrite Zplus_mod_idemp_l. by replace (h - 1 + (1 - h)) with 0 by lia. }
    assert (0 <= y) by by apply uwrap_nonneg.
    assert (y <> 0) as Hne by (intros [j Ej]%Z.mod_divide; lia).
    rewrite <- (Z.div_exact y n) in Hy by lia. destruct (Z.eq_dec (y / n) 0) as [E|E]; [rewrite E in Hy; lia|].
    pose proof (Z.div_pos y n). nia.
Qed.

(** A batch shorter than the ring is seen. *)
Lemma count_short q q' k :
  sq_drained q -> sq_Head q' = sq_Head q -> sq_Tail q' = (sq_Tail q + (k - 1)) mod len (sq_Entries q) + 1 ->
  0 <= k < len (sq_Entries q) -> k <= sq_count q'.
Proof.
  intros [Ho Hht] Hh Ht Hk. pose proof (sqo_wf q Ho) as Hwf. unfold sq_count. rewrite Hh, Ht.
  unfold sq_head_pos, sq_tail_pos in Hht. rewrite !sq_pos_mod in Hht by done.
  pose proof (count_mod _ _ _ k (sqwf_pow2 q Hwf) Hht) as Hmod. rewrite (Z.mod_small k) in Hmod by lia.
  rewrite <- Hmod at 1. apply Z.mod_le; [by apply uwrap_nonneg|lia].
Qed.
End Counted.

(** C29. What a batch looks like to the kernel.  The tail that [SubmitEntry] publishes
    is the masked position plus one, and the kernel takes it for a counter: the
    number of entries it sees after a batch on a drained ring agrees with the
    number of requests only up to multiples of the size of the ring.  A batch
    shorter than the ring is seen, all of it, so that a kernel that is asked for
    the requests of the batch takes as many; a batch as long as the ring is seen
    unless the head is among 1, ..., the size, and then the kernel sees an empty
    queue.  So on a ring of one entry the second request is never submitted. *)
Theorem batch_count (fuel : nat) (f : SubmitEntry_t -> SubmitEntry_t) (fs : list (SubmitEntry_t -> SubmitEntry_t))
    (m : Mem) (q : SubmitQueue) (Hm : m_sq m = Some q) (Hd : sq_drained q) :
  let n := len (sq_Entries q) in
  let k := len (f :: fs) in
  exists m' q', runs (submit_all (S fuel) (f :: fs)) m tt m' /\ m_sq m' = Some q' /\
    sq_count q' mod n = k mod n /\ (k < n -> k <= sq_count q') /\
    (k = n -> if bool_decide (1 <= sq_Head q <= n) then sq_count q' = 0 else n <= sq_count q').
Proof.
  intros n k. pose proof Hd as [Ho Hht]. pose proof (sqo_wf q Ho) as Hwf. pose proof (sqwf_pow2 q Hwf) as Hp.
  destruct (submit_all_tail fuel fs f m q Hm Ho) as (m' & q' & Hr & Hm' & Hh & Ht).
  replace (len fs) with (k - 1) in Ht by (unfold k, len; cbn; lia). assert (0 < k) as Hk by (unfold k, len; cbn; lia).
  exists m', q'. split_and!; [done|done| |intros; by apply (count_short q); (done || lia)|].
  all: unfold sq_count; rewrite Hh, Ht; fold n.
  all: unfold sq_head_pos, sq_tail_pos in Hht; rewrite !sq_pos_mod in Hht by done; fold n in Hht, Hp.
  - by apply count_mod.
  - intros E. apply (count_lap n _ (sq_Tail q)); [done|done|apply Hwf|]. rewrite E. by replace (_ + (n - 1)) with (sq_Tail q - 1 + n) by lia.
Qed.

(** The sample ring after its first lap: four requests are not seen, three are. *)
Definition lapped_sq : SubmitQueue := set_sq_Head 4 (set_sq_Tail 4 sample_sq).

Lemma batch_count_witness :
  (exists m' q', runs (submit_all 1 (replicate 4 (set_sqe_Fd 7))) (put_sq lapped_sq sample_mem) tt m' /\
    m_sq m' = Some q' /\ sq_count q' = 0) /\
  exists m' q', runs (submit_all 1 (replicate 3 (set_sqe_Fd 7))) (put_sq lapped_sq sample_mem) tt m' /\
    m_sq m' = Some q' /\ 3 <= sq_count q'.
Proof.
  assert (sq_drained lapped_sq) as Hd.
  { destruct sample_sq_open as [Hwf ? ?]. split; [|reflexivity]. split; [|done..].
    apply (sq_wf_update sample_sq); vm_compute; done. }
  split.
  - destruct (batch_count 0 (set_sqe_Fd 7) (replicate 3 (set_sqe_Fd 7)) (put_sq lapped_sq sample_mem) lapped_sq eq_refl Hd)
      as (m' & q' & H1 & H2 & _ & _ & H3). exists m', q'. split_and!; [exact H1|exact H2|exact (H3 eq_refl)].
  - destruct (batch_count 0 (set_sqe_Fd 7) (replicate 2 (set_sqe_Fd 7)) (put_sq lapped_sq sample_mem) lapped_sq eq_refl Hd)
      as (m' & q' & H1 & H2 & _ & H3 & _). exists m', q'. split_and!; [exact H1|exact H2|exact (H3 eq_refl)].
Defined.

(** ** The barrier *)

Section Barrier.
Implicit Types (m : Mem) (q : SubmitQueue).

(** The queue after a claim whose entry is abandoned. *)
Definition abandon q : SubmitQueue := set_sq_Tail (sq_tail_pos q + 1) q.

Lemma abandon_wf q : sq_wf q -> sq_wf (abandon q).
Proof. intros H. apply (sq_wf_update q); cbn; auto with slices. Qed.

Lemma abandon_tail_pos q :
  sq_wf q -> sq_tail_pos (abandon q) = (sq_tail_pos q + 1) mod len (sq_Entries q).
Proof.
  intros H. unfold sq_tail_pos at 1. by rewrite sq_pos_mod by by apply abandon_wf.
Qed.

Lemma run_SubmitEntry_entered fuel n m q :
  m_sq m = Some q -> sq_wf q -> sq_entered q <> 0 ->
  run quiet (Ring_SubmitEntry (S fuel)) n m =
  run quiet (Ring_SubmitEntry fuel) (6 + n)
    (add_claim (sq_tail_pos q) (put_sq (abandon q) m)).
Proof.
  intros Hm Hwf He. destruct (sq_next_in_range q Hwf) as [Hn Hle]. unfold sq_tail_pos in *.
  cbn [Ring_SubmitEntry].
  do 4 (rewrite run_bind, (run_sq_load _ _ _ _ q) by done). unfold quiet.
  rewrite Hn, Hle, run_bind. unfold claim_tail. rewrite run_try_act, Hm. cbn.
  rewrite Z.eqb_refl. cbn. rewrite run_bind. erewrite run_sq_load by done. cbn.
  by destruct (Z.eqb_spec (sq_entered q) 0).
Qed.

(** The [k] positions from [t] on in a ring of [n]. *)
Definition ring_positions (n t : Z) (k : nat) : list Z :=
  (fun j => (t + j) mod n) <$> seqZ 0 (Z.of_nat k).

Lemma ring_positions_S n t k :
  0 <= t < n -> ring_positions n t (S k) = t :: ring_positions n ((t + 1) mod n) k.
Proof.
  intros Ht. unfold ring_positions. rewrite seqZ_0_S, fmap_cons. f_equal.
  - rewrite Z.add_0_r. by apply Z.mod_small.
  - rewrite <- list_fmap_compose. apply list_fmap_ext. intros _ j _. cbn.
    rewrite Zplus_mod_idemp_l. f_equal. lia.
Qed.
End Barrier.

(** While another goroutine is inside [Enter], every round of the retry loop
    of [SubmitEntry] takes one more position of the ring and abandons it: after
    [k] rounds the tail has moved over [k] positions for which neither the
    entry nor the index array was written. *)
Theorem submit_spin_abandons (k : nat) (n : nat) (m : Mem) (q : SubmitQueue)
    (Hm : m_sq m = Some q) (Hwf : sq_wf q) (He : sq_entered q <> 0) :
  exists m' q', run quiet (Ring_SubmitEntry k) n m = Starved m' /\
    m_sq m' = Some q' /\
    m_claims m' = m_claims m ++ ring_positions (len (sq_Entries q)) (sq_tail_pos q) k /\
    sq_Entries q' = sq_Entries q /\ sq_Array q' = sq_Array q /\ sq_writes q' = sq_writes q.
Proof.
  revert n m q Hm Hwf He. induction k as [|k IH]; intros n m q Hm Hwf He.
  - exists m, q. by rewrite app_nil_r.
  - rewrite (run_SubmitEntry_entered k n m q) by done.
    destruct (IH (6 + n)%nat (add_claim (sq_tail_pos q) (put_sq (abandon q) m)) (abandon q))
      as (m' & q' & Hr & Hm' & Hc & Hes & Ha & Hw); [done|by apply abandon_wf|done|].
    exists m', q'. split_and!; [done..| |done|done|done]. rewrite Hc, abandon_tail_pos by done.
    rewrite ring_positions_S by auto with slices. cbn. by rewrite <- app_assoc.
Qed.

Lemma submit_spin_abandons_witness :
  let q := set_sq_entered 1 sample_sq in
  let m := put_sq q sample_mem in
  (m_sq m = Some q /\ sq_wf q /\ sq_entered q <> 0) /\
  exists m' q', run quiet (Ring_SubmitEntry 3) 0 m = Starved m' /\
    m_sq m' = Some q' /\
    m_claims m' = m_claims m ++ ring_positions (len (sq_Entries q)) (sq_tail_pos q) 3 /\
    sq_Entries q' = sq_Entries q /\ sq_Array q' = sq_Array q /\ sq_writes q' = sq_writes q.
Proof.
  intros q m.
  assert (m_sq m = Some q /\ sq_wf q /\ sq_entered q <> 0) as (Hm & Hwf & He).
  { split; [reflexivity|]. split; [|done].
    apply (sq_wf_update sample_sq); [apply sample_sq_wf|done..]. }
  split; [exact (conj Hm (conj Hwf He))|].
  apply (submit_spin_abandons 3 0 m q Hm Hwf He).
Defined.

Lemma runs_enterLock fuel m q :
  m_sq m = Some q -> sq_entered q = 0 ->
  runs (enterLock (S fuel)) m tt (put_sq (set_sq_entered 1 q) m).
Proof.
  intros Hm He. cbn [enterLock]. run_step.
  eapply (runs_bind _ _ m false m).
  - destruct (negb (sq_writes q =? 0)); [|apply runs_ret].
    run_step. rewrite He. apply runs_ret.
  - eapply runs_bind; [by eapply runs_sq_cas_ok|]. apply runs_ret.
Qed.

(** The barrier is a lock that ignores writers: with [entered] clear,
    [enterLock] takes it at the first attempt however many entries are being
    written; with [entered] set it never takes it and changes nothing. *)
Theorem enterLock_behaviour (fuel n : nat) (m : Mem) (q : SubmitQueue)
    (Hm : m_sq m = Some q) :
  (sq_entered q = 0 ->
     runs (enterLock (S fuel)) m tt (put_sq (set_sq_entered 1 q) m)) /\
  (sq_entered q = 1 -> run quiet (enterLock fuel) n m = Starved m).
Proof.
  split; intros He.
  - by apply runs_enterLock.
  - revert n. induction fuel as [|fuel IH]; intros n; [done|]. cbn [enterLock].
    rewrite run_bind, (run_sq_load _ _ _ _ q) by done. rewrite run_bind.
    destruct (negb (sq_writes q =? 0)).
    + rewrite run_bind, (run_sq_load _ _ _ _ q) by done. cbn. rewrite He. cbn. apply IH.
    + cbn. rewrite run_bind, (run_sq_cas _ _ _ _ _ _ _ q) by done. rewrite He. cbn. apply IH.
Qed.

Lemma enterLock_behaviour_witness :
  let q := set_sq_writes 2 sample_sq in
  let m := put_sq q sample_mem in
  runs (enterLock 1) m tt (put_sq (set_sq_entered 1 q) m).
Proof. intros q m. apply (enterLock_behaviour 0 0 m q eq_refl). reflexivity. Defined.

(** ** Enter *)

Section EnterSpec.
Context {K : Kernel}.
Implicit Types (m : Mem) (q : SubmitQueue).

Definition enter_call m q (toSubmit minComplete flags : Z) : Syscall :=
  SysEnter (u64 (r_fd (m_ring m))) (u64 toSubmit) (u64 minComplete)
    (u64 (if Z.land (sq_Flags q) SqNeedWakeup =? 0 then flags else Z.lor flags EnterSqWakeup)).

(** What the caller gets for the two words of the system call. *)
Definition enter_result (r : SysRes) : Z * err :=
  if sys_errno r =? 0 then (i64 (sys_r1 r), None) else (0, Some (Errno (sys_errno r))).

Lemma runs_Enter fd a b fl m :
  let c := SysEnter (u64 fd) (u64 a) (u64 b) (u64 fl) in
  let r := k_answer (m_hist m) c in
  runs (Enter fd a b fl) m (enter_result r)
    (set_m_hist ((c, r) :: m_hist m) (apply_view (k_enter (m_hist m) c (m_sq m) (m_cq m) (m_store m)) m)).
Proof.
  intros c r. unfold Enter, syscall_enter. fold c.
  eapply runs_bind; [eapply runs_bind; [by apply runs_store|]; by apply runs_act|].
  cbn. fold r. unfold enter_result.
  replace (m_in_enter m + 1 - 1) with (m_in_enter m) by lia.
  destruct (Z.eqb_spec (sys_errno r) 0); cbn.
  - destruct (Z.ltb_spec (sys_r1 r) 0) as [Hlt|].
    + exfalso. pose proof (uwrap_nonneg 64 (raw_r1 r)). unfold sys_r1 in Hlt. lia.
    + eapply runs_eq; [apply runs_ret|done|]. by destruct m as [[] ? ? ? ? ? ? ? ?].
  - eapply runs_eq; [apply runs_ret|done|]. by destruct m as [[] ? ? ? ? ? ? ? ?].
Qed.
(** The memory after [Ring.Enter] with the barrier open. *)
Definition entered_mem m q (toSubmit minComplete flags : Z) : Mem :=
  let c := enter_call m q toSubmit minComplete flags in
  set_m_hist ((c, k_answer (m_hist m) c) :: m_hist m)
    (apply_view (k_enter (m_hist m) c (Some (set_sq_entered 1 q)) (m_cq m) (m_store m)) m).

Lemma runs_Ring_Enter fuel toSubmit minComplete flags m q :
  m_sq m = Some q -> sq_entered q = 0 ->
  runs (Ring_Enter (S fuel) toSubmit minComplete flags) m
    (enter_result (k_answer (m_hist m) (enter_call m q toSubmit minComplete flags)))
    (entered_mem m q toSubmit minComplete flags).
Proof.
  intros Hm He. unfold Ring_Enter, SubmitQueue_NeedWakeup, entered_mem, enter_call.
  eapply runs_bind; [run_step; apply runs_ret|]. cbn beta.
  eapply runs_bind; [by apply runs_enterLock|].
  eapply runs_bind; [by apply runs_load|]. cbn beta.
  replace (if negb (Z.land (sq_Flags q) SqNeedWakeup =? 0) then Z.lor flags EnterSqWakeup else flags)
    with (if Z.land (sq_Flags q) SqNeedWakeup =? 0 then flags else Z.lor flags EnterSqWakeup)
    by (by destruct (Z.land _ _ =? 0)).
  eapply runs_bind; [apply runs_Enter|].
  eapply runs_bind; [by eapply runs_sq_store|].
  eapply runs_eq; [apply runs_ret|done|].
  destruct m as [[] ? ? ? ? ? ? ? ?], q. unfold m_sq in Hm. cbn in *. by subst.
Qed.
End EnterSpec.

(** [Ring.Enter] with the barrier open makes exactly one io_uring_enter call,
    with the wakeup flag added when the queue asks for it; it returns the
    unsigned result as an [int] when errno is zero and the errno otherwise (a
    negative result is never seen), the rings are as the kernel left them and
    the barrier is open again. *)
Theorem Ring_Enter_spec (K : Kernel) (fuel : nat) (toSubmit minComplete flags : Z)
    (m : Mem) (q : SubmitQueue)
    (Hm : m_sq m = Some q) (He : sq_entered q = 0) :
  let c := enter_call m q toSubmit minComplete flags in
  let r := k_answer (m_hist m) c in
  let v := k_enter (m_hist m) c (Some (set_sq_entered 1 q)) (m_cq m) (m_store m) in
  exists m', runs (Ring_Enter (S fuel) toSubmit minComplete flags) m (enter_result r) m' /\
    m_hist m' = (c, r) :: m_hist m /\
    m_sq m' = Some (view_sq v q) /\ m_cq m' = view_cq v <$> m_cq m /\
    sq_entered (view_sq v q) = 0 /\ m_in_enter m' = m_in_enter m.
Proof.
  intros c r v. exists (entered_mem m q toSubmit minComplete flags).
  split; [by apply runs_Ring_Enter|]. unfold m_sq in Hm.
  split_and!; [done|by cbn; rewrite Hm|done|done|done].
Qed.

Lemma Ring_Enter_spec_witness :
  let K := still_kernel 1 0 in
  let c := enter_call sample_mem sample_sq 1 1 EnterGetEvents in
  let r := k_answer (m_hist sample_mem) c in
  let v := k_enter (m_hist sample_mem) c (Some (set_sq_entered 1 sample_sq)) (m_cq sample_mem)
    (m_store sample_mem) in
  enter_result r = (1, None) /\
  exists m', runs (Ring_Enter 1 1 1 EnterGetEvents) sample_mem (enter_result r) m' /\
    m_hist m' = (c, r) :: m_hist sample_mem /\
    m_sq m' = Some (view_sq v sample_sq) /\ m_cq m' = view_cq v <$> m_cq sample_mem /\
    sq_entered (view_sq v sample_sq) = 0 /\ m_in_enter m' = m_in_enter sample_mem.
Proof.
  intros K c r v. split; [vm_compute; reflexivity|].
  apply (Ring_Enter_spec K 0 1 1 EnterGetEvents sample_mem sample_sq eq_refl eq_refl).
Defined.

(** ** Identifiers *)

Fixpoint ids (k : nat) : prog Mem (list Z) :=
  match k with
  | O => Ret []
  | S k => i ← Ring_ID; l ← ids k; Ret (i :: l)
  end.

Lemma runs_ids k m :
  exists m', runs (ids k) m ((fun j => u64 (r_idx (m_ring m) + 1 + j)) <$> seqZ 0 (Z.of_nat k)) m'.
Proof.
  revert m. induction k as [|k IH]; intros m; [eexists; apply runs_ret|].
  set (i := u64 (r_idx (m_ring m) + 1)).
  destruct (IH (upd_ring (set_r_idx i) m)) as [m' Hr]. exists m'.
  cbn [ids]. eapply runs_bind; [by apply runs_act|]. fold i.
  eapply runs_bind; [exact Hr|].
  eapply runs_eq; [apply runs_ret| |done].
  rewrite seqZ_0_S, fmap_cons, Z.add_0_r. f_equal. rewrite <- list_fmap_compose.
  apply list_fmap_ext. intros _ j _. cbn. unfold i.
  rewrite <- (Z.add_assoc (u64 _) 1 j), uwrap_add_l. by rewrite Z.add_assoc.
Qed.

(** Up to 2^64 requests in a row get pairwise different identifiers. *)
Theorem ids_distinct (k : nat) (m : Mem) (Hk : Z.of_nat k <= 2 ^ 64) :
  exists l m', runs (ids k) m l m' /\ length l = k /\ NoDup l.
Proof.
  destruct (runs_ids k m) as [m' Hr]. eexists _, m'. split; [exact Hr|]. split.
  - rewrite length_fmap, length_seqZ. lia.
  - apply NoDup_fmap_2_strong; [|apply NoDup_seqZ].
    intros x y Hx Hy Heq. apply elem_of_seqZ in Hx, Hy. unfold uwrap in Heq.
    assert ((x - y) mod 2 ^ 64 = 0) as Hd.
    { replace (x - y) with (r_idx (m_ring m) + 1 + x - (r_idx (m_ring m) + 1 + y)) by lia.
      rewrite Zminus_mod, Heq, Z.sub_diag. done. }
    apply Z.mod_divide in Hd as [z Hz]; [|lia]. nia.
Qed.

Lemma ids_distinct_witness :
  Z.of_nat 5 <= 2 ^ 64 /\
  exists l m', runs (ids 5) sample_mem l m' /\ length l = 5%nat /\ NoDup l.
Proof.
  split; [vm_compute; discriminate|]. apply (ids_distinct 5 sample_mem).
  vm_compute; discriminate.
Defined.
