(* ===== verification/Ops.v ===== *)
(** * Operations (ops.go, utils.go, Ring.complete of ring.go)

    One [Prepare] function per operation, which fills in a submission entry, and
    the blocking operations, which also wait for the completion.  Go values
    whose address goes into an entry (buffers, strings, parameter variables)
    are modelled by their addresses. *)

From stdpp Require Import base list gmap strings.
From Stdlib Require Import ZArith Lia.
From S2P Require Import Prelude Prog Consts Types Machine Submission.

(** ** Go values with an address *)

(** A slice header and a string header. *)
Record slice := mkSlice { sl_Data : Z; sl_Len : Z; sl_Cap : Z }.
Record gostring := mkStr { str_Data : Z; str_Len : Z }.

(** A parameter or local variable: [&x] is [v_addr x]. *)
Record var (A : Type) := mkVar { v_addr : Z; v_val : A }.
Arguments mkVar {A} _ _.
Arguments v_addr {A} _.
Arguments v_val {A} _.

(** [&b[0]]: a panic when the slice is empty. *)
Definition elem0 (b : slice) : prog Mem Z :=
  if 0 <? sl_Len b then Ret (sl_Data b) else Panic index_msg.

(** [saferStringToBytes]: the slice header starts empty, its length and
    capacity are cleared, then the data, the capacity and the length of the
    string are stored. *)
Definition saferStringToBytes (s : gostring) : slice :=
  let bytes := mkSlice 0 0 0 in
  let bytes := mkSlice (sl_Data bytes) 0 (sl_Cap bytes) in
  let bytes := mkSlice (sl_Data bytes) (sl_Len bytes) 0 in
  let bytes := mkSlice (str_Data s) (sl_Len bytes) (sl_Cap bytes) in
  let bytes := mkSlice (sl_Data bytes) (sl_Len bytes) (str_Len s) in
  mkSlice (sl_Data bytes) (str_Len s) (sl_Cap bytes).

(** [binary.LittleEndian.PutUint32(b[off:], v)]. *)
Definition PutUint32 (b : list Z) (off : nat) (v : Z) : list Z :=
  <[off := u8 v]> (<[S off := u8 (Z.shiftr v 8)]>
    (<[S (S off) := u8 (Z.shiftr v 16)]> (<[S (S (S off)) := u8 (Z.shiftr v 24)]> b))).

(** ** Preparing an entry *)

(** Assignments to fields of the claimed entry. *)
Notation "i .=( f ) v" := (sq_update_entry i (f v)) (at level 60, f at level 9, v at level 50).

(** The frame of every [Prepare] function: claim an entry, or fail; fill it in;
    call the callback; return the identifier read back from the entry. *)
Definition prepare (fuel : nat) (fill : Z -> prog Mem unit) : prog Mem (Z * err) :=
  '(sqe, rdy) ← Ring_SubmitEntry fuel;
  match sqe with
  | None => Ret (0, Some errRingUnavailable)
  | Some i => fill i;; rdy;; e ← sq_entry i; Ret (sqe_UserData e, None)
  end.

Section Prepare.
Context (fuel : nat).

Definition PrepareAccept (fd : Z) (addr : var unit) (socklen flags : Z) : prog Mem (Z * err) :=
  prepare fuel (fun sqe =>
    sqe .=(set_sqe_Opcode) Accept;;
    id ← Ring_ID; sqe .=(set_sqe_UserData) id;;
    sqe .=(set_sqe_Fd) (i32 fd);;
    sqe .=(set_sqe_Addr) (u64 (v_addr addr));;
    sqe .=(set_sqe_Offset) (u64 socklen);;
    sqe .=(set_sqe_UFlags) (i32 flags)).

Definition PrepareClose (fd : Z) : prog Mem (Z * err) :=
  prepare fuel (fun sqe =>
    sqe .=(set_sqe_Opcode) Close;;
    id ← Ring_ID; sqe .=(set_sqe_UserData) id;;
    sqe .=(set_sqe_Fd) (i32 fd)).

Definition PrepareConnect (fd : Z) (addr : var unit) (socklen : Z) : prog Mem (Z * err) :=
  prepare fuel (fun sqe =>
    sqe .=(set_sqe_Opcode) Connect;;
    id ← Ring_ID; sqe .=(set_sqe_UserData) id;;
    sqe .=(set_sqe_Fd) (i32 fd);;
    sqe .=(set_sqe_Addr) (u64 (v_addr addr));;
    sqe .=(set_sqe_Len) socklen).

Definition PrepareFadvise (fd offset n advise : Z) : prog Mem (Z * err) :=
  prepare fuel (fun sqe =>
    sqe .=(set_sqe_Opcode) Fadvise;;
    id ← Ring_ID; sqe .=(set_sqe_UserData) id;;
    sqe .=(set_sqe_Fd) (i32 fd);;
    sqe .=(set_sqe_Len) n;;
    sqe .=(set_sqe_Offset) offset;;
    sqe .=(set_sqe_UFlags) (i32 advise)).

Definition PrepareFallocate (fd mode offset n : Z) : prog Mem (Z * err) :=
  prepare fuel (fun sqe =>
    sqe .=(set_sqe_Opcode) Fallocate;;
    id ← Ring_ID; sqe .=(set_sqe_UserData) id;;
    sqe .=(set_sqe_Fd) (i32 fd);;
    sqe .=(set_sqe_Addr) (u64 n);;
    sqe .=(set_sqe_Len) mode;;
    sqe .=(set_sqe_Offset) (u64 offset)).

Definition PrepareFsync (fd flags : Z) : prog Mem (Z * err) :=
  prepare fuel (fun sqe =>
    sqe .=(set_sqe_Opcode) Fsync;;
    id ← Ring_ID; sqe .=(set_sqe_UserData) id;;
    sqe .=(set_sqe_Fd) (i32 fd);;
    sqe .=(set_sqe_UFlags) (i32 flags)).

Definition PrepareNop : prog Mem (Z * err) :=
  prepare fuel (fun sqe =>
    sqe .=(set_sqe_Opcode) Nop;;
    id ← Ring_ID; sqe .=(set_sqe_UserData) id;;
    sqe .=(set_sqe_Fd) (-1)).

Definition PreparePollAdd (fd mask : Z) : prog Mem (Z * err) :=
  prepare fuel (fun sqe =>
    sqe .=(set_sqe_Opcode) PollAdd;;
    sqe .=(set_sqe_Fd) (i32 fd);;
    sqe .=(set_sqe_UFlags) (i32 mask);;
    id ← Ring_ID; sqe .=(set_sqe_UserData) id).

Definition PrepareReadv (fd : Z) (iovecs : slice) (offset : Z) : prog Mem (Z * err) :=
  prepare fuel (fun sqe =>
    sqe .=(set_sqe_Opcode) Readv;;
    id ← Ring_ID; sqe .=(set_sqe_UserData) id;;
    sqe .=(set_sqe_Fd) (i32 fd);;
    a ← elem0 iovecs; sqe .=(set_sqe_Addr) (u64 a);;
    sqe .=(set_sqe_Len) (u32 (sl_Len iovecs));;
    sqe .=(set_sqe_Offset) (u64 offset)).

Definition PrepareRecvmsg (fd msg flags : Z) : prog Mem (Z * err) :=
  prepare fuel (fun sqe =>
    sqe .=(set_sqe_Opcode) RecvMsg;;
    id ← Ring_ID; sqe .=(set_sqe_UserData) id;;
    sqe .=(set_sqe_Fd) (i32 fd);;
    sqe .=(set_sqe_Addr) (u64 msg);;
    sqe .=(set_sqe_Len) 1;;
    sqe .=(set_sqe_Offset) 0;;
    sqe .=(set_sqe_UFlags) (i32 flags)).

(** [inOff] and [outOff] are pointer parameters; the entry gets the addresses
    of the parameters. *)
Definition PrepareSplice (inFd : Z) (inOff : var (option Z)) (outFd : Z)
    (outOff : var (option Z)) (n flags : Z) : prog Mem (Z * err) :=
  prepare fuel (fun sqe =>
    sqe .=(set_sqe_Opcode) Splice;;
    sqe .=(set_sqe_Fd) (i32 outFd);;
    match v_val inOff with
    | Some _ => sqe .=(set_sqe_Addr) (u64 (v_addr inOff))
    | None => sqe .=(set_sqe_Addr) 0
    end;;
    sqe .=(set_sqe_Len) (u32 n);;
    match v_val outOff with
    | Some _ => sqe .=(set_sqe_Offset) (u64 (v_addr outOff))
    | None => sqe .=(set_sqe_Offset) 0
    end;;
    sqe .=(set_sqe_UFlags) (i32 flags);;
    sqe .=(set_sqe_Anon0) (PutUint32 (replicate 24 0) 4 (u32 inFd));;
    id ← Ring_ID; sqe .=(set_sqe_UserData) id).

Definition PrepareStatx (dirfd : Z) (path : gostring) (flags mask statx : Z) : prog Mem (Z * err) :=
  prepare fuel (fun sqe =>
    sqe .=(set_sqe_Opcode) Statx;;
    sqe .=(set_sqe_Fd) (i32 dirfd);;
    (if negb (str_Len path =? 0)
     then a ← elem0 (saferStringToBytes path); sqe .=(set_sqe_Addr) (u64 a)
     else Ret tt);;
    sqe .=(set_sqe_Len) (u32 mask);;
    sqe .=(set_sqe_Offset) (u64 statx);;
    sqe .=(set_sqe_UFlags) (i32 flags);;
    id ← Ring_ID; sqe .=(set_sqe_UserData) id).

Definition PrepareTimeout (ts count flags : Z) : prog Mem (Z * err) :=
  prepare fuel (fun sqe =>
    sqe .=(set_sqe_Opcode) Timeout;;
    id ← Ring_ID; sqe .=(set_sqe_UserData) id;;
    sqe .=(set_sqe_UFlags) (i32 flags);;
    sqe .=(set_sqe_Fd) (-1);;
    sqe .=(set_sqe_Addr) (u64 ts);;
    sqe .=(set_sqe_Len) 1;;
    sqe .=(set_sqe_Offset) (u64 count)).

Definition PrepareTimeoutRemove (data flags : Z) : prog Mem (Z * err) :=
  prepare fuel (fun sqe =>
    sqe .=(set_sqe_Opcode) TimeoutRemove;;
    id ← Ring_ID; sqe .=(set_sqe_UserData) id;;
    sqe .=(set_sqe_UFlags) (i32 flags);;
    sqe .=(set_sqe_Fd) (-1);;
    sqe .=(set_sqe_Addr) data;;
    sqe .=(set_sqe_Len) 0;;
    sqe .=(set_sqe_Offset) 0).

Definition PrepareRead (fd : Z) (b : slice) (offset flags : Z) : prog Mem (Z * err) :=
  prepare fuel (fun sqe =>
    sqe .=(set_sqe_Opcode) Read;;
    id ← Ring_ID; sqe .=(set_sqe_UserData) id;;
    sqe .=(set_sqe_Fd) (i32 fd);;
    sqe .=(set_sqe_Len) (u32 (sl_Len b));;
    sqe .=(set_sqe_Flags) flags;;
    sqe .=(set_sqe_Offset) offset;;
    a ← elem0 b; sqe .=(set_sqe_Addr) (u64 a)).

Definition PrepareReadFixed (fd : Z) (b : slice) (flags : Z) : prog Mem (Z * err) :=
  prepare fuel (fun sqe =>
    sqe .=(set_sqe_Opcode) ReadFixed;;
    id ← Ring_ID; sqe .=(set_sqe_UserData) id;;
    sqe .=(set_sqe_Fd) (i32 fd);;
    sqe .=(set_sqe_Len) (u32 (sl_Len b));;
    sqe .=(set_sqe_Flags) flags;;
    a ← elem0 b; sqe .=(set_sqe_Addr) (u64 a)).

Definition PrepareWrite (fd : Z) (b : slice) (offset flags : Z) : prog Mem (Z * err) :=
  prepare fuel (fun sqe =>
    sqe .=(set_sqe_Opcode) Write;;
    id ← Ring_ID; sqe .=(set_sqe_UserData) id;;
    sqe .=(set_sqe_Fd) (i32 fd);;
    sqe .=(set_sqe_Len) (u32 (sl_Len b));;
    sqe .=(set_sqe_Flags) flags;;
    sqe .=(set_sqe_Offset) offset;;
    a ← elem0 b; sqe .=(set_sqe_Addr) (u64 a)).

Definition PrepareWriteFixed (fd : Z) (b : slice) (flags : Z) : prog Mem (Z * err) :=
  prepare fuel (fun sqe =>
    sqe .=(set_sqe_Opcode) WriteFixed;;
    id ← Ring_ID; sqe .=(set_sqe_UserData) id;;
    sqe .=(set_sqe_Fd) (i32 fd);;
    sqe .=(set_sqe_Len) (u32 (sl_Len b));;
    sqe .=(set_sqe_Flags) flags;;
    a ← elem0 b; sqe .=(set_sqe_Addr) (u64 a)).

Definition PrepareWritev (fd : Z) (iovecs : slice) (offset : Z) : prog Mem (Z * err) :=
  prepare fuel (fun sqe =>
    sqe .=(set_sqe_Opcode) Writev;;
    id ← Ring_ID; sqe .=(set_sqe_UserData) id;;
    sqe .=(set_sqe_Fd) (i32 fd);;
    a ← elem0 iovecs; sqe .=(set_sqe_Addr) (u64 a);;
    sqe .=(set_sqe_Len) (u32 (sl_Len iovecs));;
    sqe .=(set_sqe_Offset) (u64 offset)).

Definition PrepareSend (fd : Z) (b : slice) (flags : Z) : prog Mem (Z * err) :=
  prepare fuel (fun sqe =>
    sqe .=(set_sqe_Opcode) Send;;
    id ← Ring_ID; sqe .=(set_sqe_UserData) id;;
    sqe .=(set_sqe_Fd) (i32 fd);;
    sqe .=(set_sqe_Len) (u32 (sl_Len b));;
    sqe .=(set_sqe_Flags) flags;;
    a ← elem0 b; sqe .=(set_sqe_Addr) (u64 a)).

Definition PrepareRecv (fd : Z) (b : slice) (flags : Z) : prog Mem (Z * err) :=
  prepare fuel (fun sqe =>
    sqe .=(set_sqe_Opcode) Recv;;
    id ← Ring_ID; sqe .=(set_sqe_UserData) id;;
    sqe .=(set_sqe_Fd) (i32 fd);;
    sqe .=(set_sqe_Len) (u32 (sl_Len b));;
    sqe .=(set_sqe_Flags) flags;;
    a ← elem0 b; sqe .=(set_sqe_Addr) (u64 a)).
End Prepare.

(** ** Waiting for a completion *)

(** Fields of a completion request at an address. *)
Definition req_load {A} (p : nat) (f : completionRequest -> A) : prog Mem A :=
  try_load nil_msg (fun m => f <$> m_reqs m !! p).
Definition req_store (p : nat) (f : completionRequest -> completionRequest) : prog Mem unit :=
  try_store nil_msg (fun m => r ← m_reqs m !! p;
    Some (set_m_reqs (<[p := f r]> (m_reqs m)) m)).

(** [completionPool.Get()]: a request of the pool, or a new one with an empty
    done channel; [Put] gives it back. *)
Definition pool_get : prog Mem nat :=
  act (fun m =>
    match r_completionPool (m_ring m) with
    | p :: ps => (p, upd_ring (set_r_completionPool ps) m)
    | [] => let p := fresh (dom (m_reqs m)) in
            (p, set_m_reqs (<[p := mkCR 0 0 0 0]> (m_reqs m)) m)
    end).
Definition pool_put (p : nat) : prog Mem unit :=
  ring_store (fun r => set_r_completionPool (p :: r_completionPool r) r).

(** [r.completions <- req]: waits while the buffer is full. *)
Fixpoint completions_send (fuel : nat) (p : nat) : prog Mem unit :=
  match fuel with
  | O => Starve
  | S fuel =>
      sent ← act (fun m =>
        let r := m_ring m in
        if len (r_completions r) <? r_completionsCap r
        then (true, upd_ring (set_r_completions (r_completions r ++ [p])) m)
        else (false, m));
      if (sent : bool) then Ret tt else completions_send fuel p
  end.

(** [<-req.done]: waits while the channel is empty. *)
Fixpoint done_recv (fuel : nat) (p : nat) : prog Mem unit :=
  match fuel with
  | O => Starve
  | S fuel =>
      got ← try_act nil_msg (fun m => r ← m_reqs m !! p;
        match cr_done r with
        | O => Some (false, m)
        | S n => Some (true, set_m_reqs (<[p := set_cr_done n r]> (m_reqs m)) m)
        end);
      if (got : bool) then Ret tt else done_recv fuel p
  end.

(** [Ring.complete]. *)
Definition Ring_complete (fuel : nat) (reqID : Z) : prog Mem (Z * Z) :=
  req ← pool_get;
  req_store req (set_cr_id reqID);;
  req_store req (set_cr_res 0);;
  req_store req (set_cr_flags 0);;
  completions_send fuel req;;
  done_recv fuel req;;
  res ← req_load req cr_res;
  flags ← req_load req cr_flags;
  pool_put req;;
  Ret (res, flags).

(** ** Blocking operations *)

(** [syscall.Errno(-errno)] for an [int32]. *)
Definition negErrno (errno : Z) : error := Errno (u64 (i32 (- errno))).

(** The body the blocking operations share: prepare, wait, turn a negative
    result into an error. *)
Definition blocking (fuel : nat) (prep : prog Mem (Z * err)) : prog Mem err :=
  '(id, e) ← prep;
  match e with
  | Some e => Ret (Some e)
  | None =>
      '(errno, _) ← Ring_complete fuel id;
      if errno <? 0 then Ret (Some (negErrno errno)) else Ret None
  end.

Section Blocking.
Context (fuel : nat).

Definition Ring_Close (fd : Z) : prog Mem err := blocking fuel (PrepareClose fuel fd).
Definition Ring_Fadvise (fd offset n advise : Z) : prog Mem err :=
  blocking fuel (PrepareFadvise fuel fd offset n advise).
Definition Ring_Fallocate (fd mode offset n : Z) : prog Mem err :=
  blocking fuel (PrepareFallocate fuel fd mode offset n).
Definition Ring_Fsync (fd flags : Z) : prog Mem err := blocking fuel (PrepareFsync fuel fd flags).
Definition Ring_Nop : prog Mem err := blocking fuel (PrepareNop fuel).
Definition Ring_PollAdd (fd mask : Z) : prog Mem err := blocking fuel (PreparePollAdd fuel fd mask).
Definition Ring_Statx (dirfd : Z) (path : gostring) (flags mask statx : Z) : prog Mem err :=
  blocking fuel (PrepareStatx fuel dirfd path flags mask statx).
Definition Ring_Send (fd : Z) (b : slice) (flags : Z) : prog Mem err :=
  blocking fuel (PrepareSend fuel fd b flags).
Definition Ring_Recv (fd : Z) (b : slice) (flags : Z) : prog Mem err :=
  blocking fuel (PrepareRecv fuel fd b flags).

(** [Ring.Splice] names the two results of [complete] [errno] and [res]. *)
Definition Ring_Splice (inFd : Z) (inOff : var (option Z)) (outFd : Z)
    (outOff : var (option Z)) (n flags : Z) : prog Mem (Z * err) :=
  '(id, e) ← PrepareSplice fuel inFd inOff outFd outOff n flags;
  match e with
  | Some e => Ret (0, Some e)
  | None =>
      '(errno, res) ← Ring_complete fuel id;
      if errno <? 0 then Ret (0, Some (negErrno errno)) else Ret (i64 res, None)
  end.
End Blocking.
