(* ===== verification/OpsSpec.v ===== *)
(** * Properties of the operations

    Every [Prepare] function against a table of the entries it must hand to the
    kernel; the blocking operations; the little-endian field of splice. *)

From stdpp Require Import base list gmap strings.
From Stdlib Require Import ZArith Lia.
From S2P Require Import Prelude Prog Consts Types Machine Samples Submission SubmissionSpec Ops.

(** ** The table *)

(** The calls a client can make. *)
Inductive request :=
| RAccept (fd : Z) (addr : var unit) (socklen flags : Z)
| RClose (fd : Z)
| RConnect (fd : Z) (addr : var unit) (socklen : Z)
| RFadvise (fd offset n advise : Z)
| RFallocate (fd mode offset n : Z)
| RFsync (fd flags : Z)
| RNop
| RPollAdd (fd mask : Z)
| RReadv (fd : Z) (iovecs : slice) (offset : Z)
| RRecvmsg (fd msg flags : Z)
| RSplice (inFd : Z) (inOff : var (option Z)) (outFd : Z) (outOff : var (option Z)) (n flags : Z)
| RStatx (dirfd : Z) (path : gostring) (flags mask statx : Z)
| RTimeout (ts count flags : Z)
| RTimeoutRemove (data flags : Z)
| RRead (fd : Z) (b : slice) (offset flags : Z)
| RReadFixed (fd : Z) (b : slice) (flags : Z)
| RWrite (fd : Z) (b : slice) (offset flags : Z)
| RWriteFixed (fd : Z) (b : slice) (flags : Z)
| RWritev (fd : Z) (iovecs : slice) (offset : Z)
| RSend (fd : Z) (b : slice) (flags : Z)
| RRecv (fd : Z) (b : slice) (flags : Z).

Definition dispatch (fuel : nat) (r : request) : prog Mem (Z * err) :=
  match r with
  | RAccept fd addr socklen flags => PrepareAccept fuel fd addr socklen flags
  | RClose fd => PrepareClose fuel fd
  | RConnect fd addr socklen => PrepareConnect fuel fd addr socklen
  | RFadvise fd offset n advise => PrepareFadvise fuel fd offset n advise
  | RFallocate fd mode offset n => PrepareFallocate fuel fd mode offset n
  | RFsync fd flags => PrepareFsync fuel fd flags
  | RNop => PrepareNop fuel
  | RPollAdd fd mask => PreparePollAdd fuel fd mask
  | RReadv fd iovecs offset => PrepareReadv fuel fd iovecs offset
  | RRecvmsg fd msg flags => PrepareRecvmsg fuel fd msg flags
  | RSplice inFd inOff outFd outOff n flags => PrepareSplice fuel inFd inOff outFd outOff n flags
  | RStatx dirfd path flags mask statx => PrepareStatx fuel dirfd path flags mask statx
  | RTimeout ts count flags => PrepareTimeout fuel ts count flags
  | RTimeoutRemove data flags => PrepareTimeoutRemove fuel data flags
  | RRead fd b offset flags => PrepareRead fuel fd b offset flags
  | RReadFixed fd b flags => PrepareReadFixed fuel fd b flags
  | RWrite fd b offset flags => PrepareWrite fuel fd b offset flags
  | RWriteFixed fd b flags => PrepareWriteFixed fuel fd b flags
  | RWritev fd iovecs offset => PrepareWritev fuel fd iovecs offset
  | RSend fd b flags => PrepareSend fuel fd b flags
  | RRecv fd b flags => PrepareRecv fuel fd b flags
  end.

(** Buffers are not empty; string lengths are lengths. *)
Definition request_ok (r : request) : Prop :=
  match r with
  | RReadv _ b _ | RWritev _ b _ | RRead _ b _ _ | RReadFixed _ b _
  | RWrite _ b _ _ | RWriteFixed _ b _ | RSend _ b _ | RRecv _ b _ => 0 < sl_Len b
  | RStatx _ path _ _ _ => 0 <= str_Len path
  | _ => True
  end.

(** Opcode, flags, ioprio, fd, offset, address, length, op flags, user data,
    padding of the entry each request must become; [anon] is the padding the
    position had before. *)
Definition encode (r : request) (id : Z) (anon : list Z) : SubmitEntry_t :=
  match r with
  | RAccept fd addr socklen flags =>
      mkSQE Accept 0 0 (i32 fd) (u64 socklen) (u64 (v_addr addr)) 0 (i32 flags) id anon
  | RClose fd => mkSQE Close 0 0 (i32 fd) 0 0 0 0 id anon
  | RConnect fd addr socklen => mkSQE Connect 0 0 (i32 fd) 0 (u64 (v_addr addr)) socklen 0 id anon
  | RFadvise fd offset n advise => mkSQE Fadvise 0 0 (i32 fd) offset 0 n (i32 advise) id anon
  | RFallocate fd mode offset n => mkSQE Fallocate 0 0 (i32 fd) (u64 offset) (u64 n) mode 0 id anon
  | RFsync fd flags => mkSQE Fsync 0 0 (i32 fd) 0 0 0 (i32 flags) id anon
  | RNop => mkSQE Nop 0 0 (-1) 0 0 0 0 id anon
  | RPollAdd fd mask => mkSQE PollAdd 0 0 (i32 fd) 0 0 0 (i32 mask) id anon
  | RReadv fd v offset => mkSQE Readv 0 0 (i32 fd) (u64 offset) (u64 (sl_Data v)) (u32 (sl_Len v)) 0 id anon
  | RRecvmsg fd msg flags => mkSQE RecvMsg 0 0 (i32 fd) 0 (u64 msg) 1 (i32 flags) id anon
  | RSplice inFd inOff outFd outOff n flags =>
      mkSQE Splice 0 0 (i32 outFd)
        (match v_val outOff with Some _ => u64 (v_addr outOff) | None => 0 end)
        (match v_val inOff with Some _ => u64 (v_addr inOff) | None => 0 end)
        (u32 n) (i32 flags) id (PutUint32 (replicate 24 0) 4 (u32 inFd))
  | RStatx dirfd path flags mask statx =>
      mkSQE Statx 0 0 (i32 dirfd) (u64 statx)
        (if str_Len path =? 0 then 0 else u64 (str_Data path)) (u32 mask) (i32 flags) id anon
  | RTimeout ts count flags => mkSQE Timeout 0 0 (-1) (u64 count) (u64 ts) 1 (i32 flags) id anon
  | RTimeoutRemove data flags => mkSQE TimeoutRemove 0 0 (-1) 0 data 0 (i32 flags) id anon
  | RRead fd b offset flags =>
      mkSQE Read flags 0 (i32 fd) offset (u64 (sl_Data b)) (u32 (sl_Len b)) 0 id anon
  | RReadFixed fd b flags => mkSQE ReadFixed flags 0 (i32 fd) 0 (u64 (sl_Data b)) (u32 (sl_Len b)) 0 id anon
  | RWrite fd b offset flags =>
      mkSQE Write flags 0 (i32 fd) offset (u64 (sl_Data b)) (u32 (sl_Len b)) 0 id anon
  | RWriteFixed fd b flags => mkSQE WriteFixed flags 0 (i32 fd) 0 (u64 (sl_Data b)) (u32 (sl_Len b)) 0 id anon
  | RWritev fd v offset => mkSQE Writev 0 0 (i32 fd) (u64 offset) (u64 (sl_Data v)) (u32 (sl_Len v)) 0 id anon
  | RSend fd b flags => mkSQE Send flags 0 (i32 fd) 0 (u64 (sl_Data b)) (u32 (sl_Len b)) 0 id anon
  | RRecv fd b flags => mkSQE Recv flags 0 (i32 fd) 0 (u64 (sl_Data b)) (u32 (sl_Len b)) 0 id anon
  end.

(** ** Programs that fill in an entry *)

Section Fills.
Implicit Types (m : Mem) (q : SubmitQueue).

Definition next_id m : Z := u64 (r_idx (m_ring m) + 1).
Definition bump m : Mem := upd_ring (set_r_idx (next_id m)) m.

Definition put_entry (i : Z) (g : SubmitEntry_t -> SubmitEntry_t) m : Mem :=
  match m_sq m with
  | Some q => put_sq (set_sq_Entries (alter g (Z.to_nat i) (sq_Entries q)) q) m
  | None => m
  end.

(** [i] is the position of an entry. *)
Definition claimed (i : Z) m : Prop :=
  exists q e, m_sq m = Some q /\ slice_get (sq_Entries q) i = Some e.

Lemma claimed_put_entry i g m : claimed i m -> claimed i (put_entry i g m).
Proof.
  intros (q & e & Hm & He). unfold claimed, put_entry. rewrite Hm.
  eexists _, _. split; [done|]. by apply slice_get_alter_eq.
Qed.

Lemma claimed_bump i m : claimed i m -> claimed i (bump m).
Proof. done. Qed.

Lemma runs_update i g m : claimed i m -> runs (sq_update_entry i g) m tt (put_entry i g m).
Proof.
  intros (q & e & Hm & He). unfold put_entry. rewrite Hm. by eapply runs_sq_update_entry.
Qed.

Lemma put_entry_put_entry i g h m : put_entry i g (put_entry i h m) = put_entry i (g ∘ h) m.
Proof.
  unfold put_entry. destruct (m_sq m) as [q|] eqn:Hm; cbn; [|by rewrite Hm].
  rewrite put_sq_put. destruct q. cbn. by rewrite list_alter_alter_eq.
Qed.

Lemma bump_put_entry i g m : bump (put_entry i g m) = put_entry i g (bump m).
Proof. unfold put_entry, bump. destruct m as [[? ? ? ? [] ] ? ? ? ? ? ? ? ?]; done. Qed.

Lemma next_id_put_entry i g m : next_id (put_entry i g m) = next_id m.
Proof. unfold put_entry, next_id. by destruct (m_sq m). Qed.

(** [p] applies [g] to the entry, without or with a fresh identifier. *)
Definition fillsA (i : Z) (p : prog Mem unit) (g : SubmitEntry_t -> SubmitEntry_t) : Prop :=
  forall m, claimed i m -> runs p m tt (put_entry i g m).
Definition fillsB (i : Z) (p : prog Mem unit) (g : Z -> SubmitEntry_t -> SubmitEntry_t) : Prop :=
  forall m, claimed i m -> runs p m tt (put_entry i (g (next_id m)) (bump m)).

Lemma fillsA_upd i g : fillsA i (sq_update_entry i g) g.
Proof. intros m. apply runs_update. Qed.

Lemma fillsA_ret i : fillsA i (Ret tt) id.
Proof.
  intros m (q & e & Hm & He). unfold put_entry. rewrite Hm.
  rewrite list_alter_id by done. eapply runs_eq; [apply runs_ret|done|].
  rewrite <- (put_sq_id q m) at 1 by done. by destruct q.
Qed.

Lemma fillsA_seq i p p' g h : fillsA i p g -> fillsA i p' h -> fillsA i (p;; p') (h ∘ g).
Proof.
  intros Hp Hp' m Hm. eapply runs_bind; [by apply Hp|].
  rewrite <- put_entry_put_entry. apply Hp'. by apply claimed_put_entry.
Qed.

Lemma fillsB_seq i p p' g h :
  fillsA i p g -> fillsB i p' h -> fillsB i (p;; p') (fun id => h id ∘ g).
Proof.
  intros Hp Hp' m Hm. eapply runs_bind; [by apply Hp|].
  rewrite <- put_entry_put_entry, <- bump_put_entry, <- (next_id_put_entry i g).
  apply Hp'. by apply claimed_put_entry.
Qed.

Lemma fillsB_id i (k : Z -> prog Mem unit) h :
  (forall id, fillsA i (k id) (h id)) -> fillsB i (id ← Ring_ID; k id) h.
Proof. intros Hk m Hm. eapply runs_bind; [by apply runs_act|]. by apply Hk. Qed.

Lemma fillsA_elem0 i b k h :
  0 < sl_Len b -> fillsA i (k (sl_Data b)) h -> fillsA i (a ← elem0 b; k a) h.
Proof. intros Hb Hk. unfold elem0. by rewrite (proj2 (Z.ltb_lt _ _) Hb). Qed.
End Fills.

(** Finds the function a body applies to the entry, statement by statement. *)
Ltac fill_step := first
  [ apply fillsA_upd | apply fillsA_ret
  | eapply fillsB_seq | eapply fillsA_seq
  | eapply fillsB_id; intros ? | eapply fillsA_elem0; [cbn; lia|] ].

Section PrepareRuns.
Implicit Types (m : Mem) (q : SubmitQueue).

Lemma sq_submit_ext q f g :
  (forall e, f (SubmitEntry_Reset e) = g (SubmitEntry_Reset e)) ->
  sq_submit f q = sq_submit g q.
Proof.
  intros H. unfold sq_submit. rewrite !list_alter_alter_eq. do 3 f_equal.
  apply list_alter_ext; [|done]. intros e _. apply H.
Qed.

(** A [Prepare] function whose body applies [g] to the entry behaves like
    [submit], returns the fresh identifier and never reports a busy ring. *)
Lemma runs_prepare fuel fill g m q :
  m_sq m = Some q -> sq_open q ->
  (forall i, fillsB i (fill i) g) ->
  (forall id e, sqe_UserData (g id e) = id) ->
  runs (prepare (S fuel) fill) m (next_id m, None)
    (bump (add_claim (sq_tail_pos q) (put_sq (sq_submit (g (next_id m)) q) m))).
Proof.
  intros Hm Ho Hfill Hid. pose proof (sqo_wf q Ho) as Hwf.
  destruct Ho as [_ He Hw]. pose proof (sq_tail_pos_range q Hwf) as Hpos.
  destruct (slice_get_in (sq_Entries q) (sq_tail_pos q)) as [e Hget]; [done|].
  set (m1 := add_claim (sq_tail_pos q) (put_sq (sq_claim q) m)).
  set (q2 := set_sq_Entries (alter (g (next_id m)) (Z.to_nat (sq_tail_pos q)) (sq_Entries (sq_claim q))) (sq_claim q)).
  assert (slice_get (sq_Entries q2) (sq_tail_pos q) = Some (g (next_id m) (SubmitEntry_Reset e))) as Hget2.
  { by do 2 apply slice_get_alter_eq. }
  unfold prepare. eapply runs_bind; [by apply runs_SubmitEntry|]. cbn beta iota. fold m1.
  eapply runs_bind; [apply Hfill; eexists _, _; split; [done|by apply slice_get_alter_eq]|].
  change (put_entry (sq_tail_pos q) (g (next_id m1)) (bump m1)) with (put_sq q2 (bump m1)).
  eapply runs_bind.
  { apply (runs_ready _ q2); [done| |cbn; by autorewrite with slices|].
    - apply (sq_wf_update q); cbn; autorewrite with slices; auto with slices.
    - cbn. rewrite uwrap_id by (unfold is_uint; lia). lia. }
  eapply runs_bind; [by eapply runs_sq_entry|]. rewrite Hid.
  eapply runs_eq; [apply runs_ret|done|].
  unfold m1, q2. destruct m as [[] ? ? ? ? ? ? ? ?], q. unfold bump, add_claim, put_sq, sq_submit, sq_publish. cbn in *.
  rewrite (uwrap_id 32 (_ + 1)) by (unfold is_uint; lia).
  by rewrite Z.add_simpl_r, uwrap_id by (unfold is_uint; lia).
Qed.

(** Every request applies its row of the table. *)
Lemma dispatch_fills r :
  request_ok r ->
  exists fill g, (forall fuel, dispatch fuel r = prepare fuel fill) /\
    (forall i, fillsB i (fill i) g) /\
    (forall id e, sqe_UserData (g id e) = id) /\
    (forall id e, g id (SubmitEntry_Reset e) = encode r id (sqe_Anon0 e)).
Proof.
  destruct r; cbn [request_ok str_Len]; intros Hok;
    repeat match goal with
      | v : var (option Z) |- _ => destruct v as [? []]
      | p : gostring |- _ => destruct p as [? l]; destruct (decide (l = 0)) as [->|Hl];
          [|apply Z.eqb_neq in Hl as Hl']
      end.
  all: eexists; eexists; (split; [intros; reflexivity|]); split;
    [intros i; cbn [v_val str_Len] in *; rewrite ?Hl'; cbn [negb Z.eqb]; repeat fill_step|].
  all: split; [done|]; intros; cbn; rewrite ?Hl'; done.
Qed.
(** The entry the kernel takes next. *)
Definition head_entry q : option SubmitEntry_t :=
  i ← slice_get (sq_Array q) (sq_head_pos q); slice_get (sq_Entries q) i.

(** A prepared request is the row of the table. *)
Lemma runs_dispatch fuel r m q :
  request_ok r -> m_sq m = Some q -> sq_drained q ->
  exists f anon, runs (dispatch (S fuel) r) m (next_id m, None)
      (bump (add_claim (sq_tail_pos q) (put_sq (sq_submit f q) m))) /\
    head_entry (sq_submit f q) = Some (encode r (next_id m) anon).
Proof.
  intros Hr Hm [Ho Hht]. destruct (dispatch_fills r Hr) as (fill & g & Hdis & Hf & Hid & Henc).
  pose proof (sqo_wf q Ho) as Hwf.
  destruct (slice_get_in (sq_Entries q) (sq_tail_pos q)) as [e Hget]; [auto with slices|].
  exists (g (next_id m)), (sqe_Anon0 e). rewrite Hdis. split; [by apply (runs_prepare _ _ g)|].
  unfold head_entry. change (sq_head_pos (sq_submit (g (next_id m)) q)) with (sq_head_pos q).
  assert (slice_get (sq_Array (sq_submit (g (next_id m)) q)) (sq_head_pos q) = Some (sq_head_pos q)) as ->.
  { cbn. rewrite Hht. apply slice_get_insert_eq. rewrite (sqwf_array q Hwf). auto with slices. }
  cbn [mbind option_bind]. rewrite Hht, <- Henc. by do 2 apply slice_get_alter_eq.
Qed.
End PrepareRuns.

(** C2. Every request of the table whose buffer, if it has one, is not empty (an
    empty one is a panic), prepared on a ring with nothing pending, returns a fresh identifier and no error, in particular never "ring
    unavailable"; the entry the kernel then takes is the row of the table, with
    every field the operation does not use at its reset value; and the ring has
    nothing pending again. *)
Theorem request_taken (fuel : nat) (r : request) (m : Mem) (q : SubmitQueue)
    (Hr : request_ok r) (Hm : m_sq m = Some q) (Hd : sq_drained q) :
  exists anon m' q',
    runs ('(id, e) ← dispatch (S fuel) r; x ← kernel_take; Ret (id, e, x)) m
      (next_id m, None, encode r (next_id m) anon) m' /\
    m_sq m' = Some q' /\ sq_drained q' /\ r_idx (m_ring m') = next_id m.
Proof.
  destruct (runs_dispatch fuel r m q Hr Hm Hd) as (f & anon & Hrun & Hhead).
  exists anon. eexists _, (set_sq_Head (u32 (sq_Head q + 1)) (sq_submit f q)).
  split; [|split; [|split; [by apply sq_drained_step|]]].
  - eapply runs_bind; [exact Hrun|]. cbn beta iota. eapply runs_bind; [|apply runs_ret].
    apply bind_Some in Hhead as (i & Hi & Hx).
    by eapply (runs_kernel_take _ (sq_submit f q) i).
  - done.
  - done.
Qed.

Lemma request_taken_witness :
  request_ok (RSplice 3 (mkVar 64 (Some 128)) 4 (mkVar 72 None) 10 0) /\
  exists anon m' q',
    runs ('(id, e) ← dispatch 1 (RSplice 3 (mkVar 64 (Some 128)) 4 (mkVar 72 None) 10 0);
          x ← kernel_take; Ret (id, e, x)) sample_mem
      (next_id sample_mem, None,
       encode (RSplice 3 (mkVar 64 (Some 128)) 4 (mkVar 72 None) 10 0) (next_id sample_mem) anon) m' /\
    m_sq m' = Some q' /\ sq_drained q' /\ r_idx (m_ring m') = next_id sample_mem.
Proof.
  split; [exact I|].
  apply (request_taken 0 (RSplice 3 (mkVar 64 (Some 128)) 4 (mkVar 72 None) 10 0) sample_mem sample_sq).
  - exact I.
  - reflexivity.
  - split; [apply sample_sq_open|reflexivity].
Defined.
