(* ===== verification/Files.v ===== *)
(** * Files, buffers and the calls that move data between them

    The store holds the buffers of the process and the open files.  [transfer]
    is what a request does to it, [serve_view] what io_uring_enter does with one
    request, and [serves] is the hypothesis on a kernel that it behaves so:
    reads may be short, writes are complete.  The operations of [os.File] that
    the examples use are built on the calls of the same kernel. *)

From stdpp Require Import base list gmap strings.
From Stdlib Require Import ZArith Lia Ascii.
From S2P Require Import Prelude Prog Consts Types Machine Ops.

(** ** Transfers *)

(** A buffer after [bs] was stored at its start. *)
Definition overwrite (old bs : list Z) : list Z := bs ++ drop (length bs) old.

(** The contents of a file after [bs] was written at [off]; a gap is zeros. *)
Definition splice (content : list Z) (off : nat) (bs : list Z) : list Z :=
  take off content ++ replicate (off - length content) 0 ++ bs ++ drop (off + length bs) content.

(** The next [n] bytes of a file from [off], at most [lim] of them. *)
Definition read_at (lim : nat) (content : list Z) (off n : Z) : list Z :=
  take (Z.to_nat n `min` lim) (drop (Z.to_nat off) content).

(** The numbers of the errors. *)
Definition EBADF : Z := 9.
Definition EFAULT : Z := 14.
Definition EINVAL : Z := 22.

(** Reading and writing through a descriptor at an offset: the result and the
    store. *)
Definition read_file (lim : nat) (fd addr off n : Z) (st : Store) : Z * Store :=
  match st_files st !! fd with
  | None => (- EBADF, st)
  | Some content =>
      match st_bufs st !! addr with
      | None => (- EFAULT, st)
      | Some old =>
          let bs := read_at lim content off n in
          (len bs, set_st_bufs (<[addr := overwrite old bs]> (st_bufs st)) st)
      end
  end.
Definition write_file (fd addr off n : Z) (st : Store) : Z * Store :=
  match st_files st !! fd with
  | None => (- EBADF, st)
  | Some content =>
      match st_bufs st !! addr with
      | None => (- EFAULT, st)
      | Some buf =>
          let bs := take (Z.to_nat n) buf in
          (len bs, set_st_files (<[fd := splice content (Z.to_nat off) bs]> (st_files st)) st)
      end
  end.

(** A request of the ring. *)
Definition transfer (lim : nat) (e : SubmitEntry_t) (st : Store) : Z * Store :=
  match sqe_Opcode e with
  | Read => read_file lim (sqe_Fd e) (sqe_Addr e) (sqe_Offset e) (sqe_Len e) st
  | Write => write_file (sqe_Fd e) (sqe_Addr e) (sqe_Offset e) (sqe_Len e) st
  | Close =>
      match st_files st !! sqe_Fd e with
      | None => (- EBADF, st)
      | Some _ => (0, st)
      end
  | _ => (- EINVAL, st)
  end.

(** ** io_uring_enter *)

(** The kernel asked to submit one entry: when the head and the tail differ it takes
    the entry whose index is in the array at the head, performs it and posts its
    completion at the tail; otherwise there is nothing to do. *)
Definition serve_view (lim : nat) (q : SubmitQueue) (c : CompletionQueue) (st : Store) : RingView :=
  let idle := mkView (sq_Head q) (sq_Flags q) (sq_Dropped q)
    (cq_Tail c) (cq_Overflow c) (cq_Flags c) [] st in
  if sq_Head q =? sq_Tail q then idle
  else
    match i ← slice_get (sq_Array q) (sq_head_pos q); slice_get (sq_Entries q) i with
    | Some e =>
        let '(res, st') := transfer lim e st in
        mkView (sq_Head q + 1) (sq_Flags q) (sq_Dropped q)
          (cq_Tail c + 1) (cq_Overflow c) (cq_Flags c)
          [(cq_tail_pos c, mkCQE (sqe_UserData e) res 0)] st'
    | None => idle
    end.

(** The calls that read and write at the position of a descriptor, and the one that
    reports the size of its file. *)
Definition file_call (lim : nat) (call : Syscall) (st : Store) : SysRes * Store :=
  let reply fd (r : Z * Store) :=
    if r.1 <? 0 then (mkSysRes (-1) (- r.1), r.2)
    else (mkSysRes r.1 0, set_st_pos (alter (Z.add r.1) fd (st_pos r.2)) r.2) in
  match call with
  | SysRead fd addr n => reply fd (read_file lim fd addr (default 0 (st_pos st !! fd)) n st)
  | SysWrite fd addr n => reply fd (write_file fd addr (default 0 (st_pos st !! fd)) n st)
  | SysStat fd =>
      match st_files st !! fd with
      | Some content => (mkSysRes (len content) 0, st)
      | None => (mkSysRes (-1) EBADF, st)
      end
  | _ => (mkSysRes (-1) EINVAL, st)
  end.

(** A descriptor at the start of a file. *)
Definition open_file (fd : Z) (content : list Z) (st : Store) : Store :=
  mkStore (st_bufs st) (<[fd := content]> (st_files st)) (<[fd := 0]> (st_pos st)).

(** A kernel that serves the request when io_uring_enter asks it to submit one, and
    answers 1; a read transfers at most [lim] bytes, which depends on the history,
    and at least one unless it is at the end of the file; a write is complete.
    Nothing is assumed of calls that ask for another number of requests. *)
Record serves (lim : history -> nat) (K : Kernel) : Prop := {
  sv_lim : forall h, (1 <= lim h)%nat;
  sv_answer : forall h fd minComplete flags,
    k_answer h (SysEnter fd 1 minComplete flags) = mkSysRes 1 0;
  sv_enter : forall h fd minComplete flags q c st,
    k_enter h (SysEnter fd 1 minComplete flags) (Some q) (Some c) st = serve_view (lim h) q c st;
  sv_read : forall h fd addr n st,
    k_file h (SysRead fd addr n) st = file_call (lim h) (SysRead fd addr n) st;
  sv_write : forall h fd addr n st,
    k_file h (SysWrite fd addr n) st = file_call (lim h) (SysWrite fd addr n) st;
  sv_stat : forall h fd st,
    k_file h (SysStat fd) st = file_call (lim h) (SysStat fd) st
}.

(** ** The os package *)

Section OS.
Context {K : Kernel}.

(** [make([]byte, n)]; the address is chosen by the allocator. *)
Definition make_bytes (alloc : Store -> Z -> Z) (n : Z) : prog Mem slice :=
  act (fun m =>
    let a := alloc (m_store m) n in
    (mkSlice a n n,
     set_m_store (set_st_bufs (<[a := replicate (Z.to_nat n) 0]> (st_bufs (m_store m))) (m_store m)) m)).

(** The bytes of a string constant. *)
Definition bytes_of (s : string) : list Z := (fun c => Z.of_nat (nat_of_ascii c)) <$> String.list_ascii_of_string s.

(** [[]byte("...")], or the bytes of a [bytes.Buffer]: a new buffer with these. *)
Definition new_bytes (alloc : Store -> Z -> Z) (bs : list Z) : prog Mem slice :=
  act (fun m =>
    let a := alloc (m_store m) (len bs) in
    (mkSlice a (len bs) (len bs), set_m_store (set_st_bufs (<[a := bs]> (st_bufs (m_store m))) (m_store m)) m)).

(** [b[:n]]. *)
Definition slice_to (b : slice) (n : Z) : prog Mem slice :=
  if (0 <=? n) && (n <=? sl_Cap b) then Ret (mkSlice (sl_Data b) n (sl_Cap b))
  else Panic "slice bounds out of range".

(** [os.OpenFile] and [os.Open]: a descriptor or an error. *)
Definition os_OpenFile (name : string) (flags perm : Z) : prog Mem (Z * err) :=
  r ← syscall_file (SysOpen name (u64 flags) (u64 perm));
  if sys_errno r =? 0 then Ret (i64 (sys_r1 r), None) else Ret (0, Some (Errno (sys_errno r))).
Definition os_Open (name : string) : prog Mem (Z * err) := os_OpenFile name 0 0.

(** The largest transfer of one call. *)
Definition maxRW : Z := 2 ^ 30.

(** [File.Read]. *)
Definition os_Read (fd : Z) (b : slice) : prog Mem (Z * err) :=
  if sl_Len b =? 0 then Ret (0, None)
  else
    r ← syscall_file (SysRead fd (u64 (sl_Data b)) (u64 (Z.min (sl_Len b) maxRW)));
    if negb (sys_errno r =? 0) then Ret (0, Some (Errno (sys_errno r)))
    else if sys_r1 r =? 0 then Ret (0, Some EOF)
    else Ret (i64 (sys_r1 r), None).

(** [File.Write]: it goes on after a partial write. *)
Fixpoint os_Write (fuel : nat) (fd : Z) (b : slice) (nn : Z) : prog Mem (Z * err) :=
  match fuel with
  | O => Starve
  | S fuel =>
      r ← syscall_file (SysWrite fd (u64 (sl_Data b + nn)) (u64 (Z.min (sl_Len b - nn) maxRW)));
      if negb (sys_errno r =? 0) then Ret (nn, Some (Errno (sys_errno r)))
      else
        let n := i64 (sys_r1 r) in
        if nn + n =? sl_Len b then Ret (nn + n, None)
        else if n =? 0 then Ret (nn, Some (ErrMsg "unexpected EOF"))
        else os_Write fuel fd b (nn + n)
  end.

(** [File.Close]. *)
Definition os_Close (fd : Z) : prog Mem err :=
  r ← syscall (SysClose (u64 fd));
  Ret (if sys_errno r =? 0 then None else Some (Errno (sys_errno r))).
End OS.

(** ** Lemmas *)

Lemma runs_os_OpenFile `{K : Kernel} name flags perm fd st (m : Mem) :
  k_file (m_hist m) (SysOpen name (u64 flags) (u64 perm)) (m_store m) = (mkSysRes fd 0, st) ->
  0 <= fd < 2 ^ 31 ->
  runs (os_OpenFile name flags perm) m (fd, None)
    (set_m_hist ((SysOpen name (u64 flags) (u64 perm), mkSysRes fd 0) :: m_hist m) (set_m_store st m)).
Proof.
  intros Hk Hfd. unfold os_OpenFile. eapply runs_bind; [apply runs_act; rewrite Hk; reflexivity|].
  unfold sys_errno, sys_r1. cbn [raw_errno raw_r1]. change (u64 0 =? 0) with true.
  rewrite uwrap_id, swrap_id by (unfold is_uint, is_sint; lia).
  apply runs_ret.
Qed.

Section Lemmas.
Implicit Types (content bs old : list Z).

Lemma read_at_length lim content off n :
  (length (read_at lim content off n) <= Z.to_nat n)%nat.
Proof. unfold read_at. rewrite length_take. lia. Qed.

(** A read makes progress until the end of the file. *)
Lemma read_at_nil lim content off n :
  (1 <= lim)%nat -> 0 < n -> read_at lim content off n = [] ->
  (length content <= Z.to_nat off)%nat.
Proof.
  intros Hl Hn H. apply (f_equal length) in H. revert H. unfold read_at.
  rewrite length_take, length_drop. cbn. lia.
Qed.

(** The bytes a read finds are the next ones. *)
Lemma read_at_prefix lim content off n :
  let bs := read_at lim content off n in
  bs = take (length bs) (drop (Z.to_nat off) content) /\
  (length bs <= length content - Z.to_nat off)%nat.
Proof.
  intros bs. assert (bs = take (length bs) (drop (Z.to_nat off) content)) as E.
  { unfold bs, read_at. rewrite length_take. destruct (Nat.min_spec (Z.to_nat n `min` lim)
      (length (drop (Z.to_nat off) content))) as [[? ->]|[? ->]]; [done|]. rewrite !take_ge; done. }
  split; [done|]. rewrite E, length_take, length_drop. lia.
Qed.

(** Writing at the end of a file appends. *)
Lemma splice_end content bs : splice content (length content) bs = content ++ bs.
Proof.
  unfold splice. rewrite take_ge, Nat.sub_diag, drop_ge by lia. cbn. by rewrite app_nil_r.
Qed.

(** Writing the next bytes of [content] behind a copy of its start. *)
Lemma splice_take content o k :
  (o <= length content)%nat ->
  splice (take o content) o (take k (drop o content)) = take (o + k) content.
Proof.
  intros Ho. assert (o = length (take o content)) as El by (rewrite length_take; lia).
  rewrite El at 2. by rewrite splice_end, take_take_drop.
Qed.

Lemma overwrite_take old bs : take (length bs) (overwrite old bs) = bs.
Proof. unfold overwrite. by rewrite take_app_length. Qed.

Lemma overwrite_length old bs :
  (length bs <= length old)%nat -> length (overwrite old bs) = length old.
Proof. intros H. unfold overwrite. rewrite length_app, length_drop. lia. Qed.
End Lemmas.

#[global] Arguments splice : simpl never.
#[global] Arguments overwrite : simpl never.
