(* ===== verification/Concurrency.v ===== *)
(** * Goroutines sharing the submission queue

    Any number of goroutines below 2^32 use one ring at the same time, each
    running any sequence of library calls, while the kernel changes its side of
    the rings at any moment.  Every goroutine owns a token: whether it holds the
    enter barrier, whether it is inside io_uring_enter, and how many entries it
    is writing; the sums of the tokens are the counters in memory. *)

From stdpp Require Import base list gmap strings relations.
From Stdlib Require Import ZArith Lia.
From S2P Require Import Prelude Prog Consts Types Machine Samples Submission SubmissionSpec Ops OpsSpec.

(** ** Tokens *)

Record tok := mkTok { held : Z; inside : Z; writing : Z }.
Definition tok_add (a b : tok) : tok :=
  mkTok (held a + held b) (inside a + inside b) (writing a + writing b).
Definition tok0 : tok := mkTok 0 0 0.

#[global] Instance tok_assoc : Assoc (=) tok_add.
Proof. intros [] [] []. unfold tok_add. cbn. f_equal; lia. Qed.
#[global] Instance tok_comm : Comm (=) tok_add.
Proof. intros [] []. unfold tok_add. cbn. f_equal; lia. Qed.

(** A goroutine writes at most one entry at a time. *)
Definition tok_valid (t : tok) : Prop := 0 <= held t /\ 0 <= inside t /\ 0 <= writing t <= 1.

(** The token of a goroutine that holds the barrier, is in the kernel, or writes
    an entry. *)
Definition locked : tok := mkTok 1 0 0.
Definition in_kernel : tok := mkTok 0 1 0.
Definition writer : tok := mkTok 0 0 1.

Create HintDb tok.
#[export] Hint Extern 1 (tok_valid _) => (unfold tok_valid; cbn; lia) : tok.

Lemma total_bounds ts :
  Forall tok_valid ts ->
  0 <= held (total tok_add tok0 ts) /\ 0 <= inside (total tok_add tok0 ts) /\
  0 <= writing (total tok_add tok0 ts) <= Z.of_nat (length ts).
Proof.
  induction 1 as [|t ts (? & ? & ?) _ IH]; [done|].
  rewrite total_cons. cbn [held inside writing tok_add length]. lia.
Qed.

(** Positions less than a round apart are different. *)
Lemma ring_position_ne n t i j : 0 <= i < j -> j - i < n -> (t + i) mod n <> (t + j) mod n.
Proof.
  intros Hij Hn Heq.
  assert (((t + j) - (t + i)) mod n = 0) as Hd by (rewrite Zminus_mod, <- Heq, Z.sub_diag; done).
  rewrite Z.mod_small in Hd; lia.
Qed.

Lemma ring_position_fresh n t k : Z.of_nat k < n -> (t + Z.of_nat k) mod n ∉ ring_positions n t k.
Proof.
  intros Hk Hin. unfold ring_positions in Hin. apply list_elem_of_fmap in Hin as (x & Hx & Hin).
  apply elem_of_seqZ in Hin. apply (ring_position_ne n t x (Z.of_nat k)); [lia|lia|done].
Qed.

Section Shared.
(** The size of the ring and the position of the tail at the start. *)
Context (L t0 : Z).

(** ** The invariant *)

Record sq_shared (t : tok) (q : SubmitQueue) : Prop := {
  ss_wf : sq_wf q;
  ss_len : len (sq_Entries q) = L;
  ss_entered : sq_entered q = held t + inside t;
  ss_lock : held t + inside t <= 1;
  ss_writes : sq_writes q = writing t
}.

(** The claims so far are consecutive positions, and the tail is the next. *)
Definition claims_ok (q : SubmitQueue) (m : Mem) : Prop :=
  m_claims m = ring_positions L t0 (length (m_claims m)) /\
  sq_tail_pos q = (t0 + len (m_claims m)) mod L.

Definition shared (t : tok) (m : Mem) : Prop :=
  exists q, m_sq m = Some q /\ sq_shared t q /\ m_in_enter m = inside t /\ claims_ok q m.

Lemma kernel_keeps_shared t m m' : kernel_step m m' -> shared t m -> shared t m'.
Proof.
  intros [v ->] (q & Hm & Hq & Hi & Hc). exists (view_sq v q). split_and!.
  - unfold apply_view, m_sq in *. cbn. by rewrite Hm.
  - destruct Hq as [Hwf ? ? ? ?]. split; try done.
    apply (sq_wf_update q); cbn; auto with slices ints.
  - done.
  - done.
Qed.

Lemma ring_positions_snoc n t k :
  ring_positions n t (S k) = ring_positions n t k ++ [(t + Z.of_nat k) mod n].
Proof.
  unfold ring_positions. by rewrite seqZ_S, fmap_app.
Qed.

Lemma claims_ok_next q m m' :
  sq_wf q -> len (sq_Entries q) = L -> m_claims m' = m_claims m ++ [sq_tail_pos q] ->
  claims_ok q m -> claims_ok (abandon q) m'.
Proof.
  intros Hwf Hlen Hm' [Hcl Htl]. unfold claims_ok, len in *. rewrite Hm', length_app. cbn. split.
  - rewrite Nat.add_1_r, ring_positions_snoc. by rewrite <- Hcl, <- Htl.
  - rewrite abandon_tail_pos by done. unfold len. rewrite Hlen, Htl, mod_succ_mod. f_equal. lia.
Qed.

(** The number of goroutines. *)
Context (N : nat) (HL : pow2_size L) (HN : Z.of_nat N < 2 ^ 32).
Abbreviation CAN := (can tok_add tok0 tok_valid N shared).

Lemma frame_bounds o :
  frame tok_add tok0 tok_valid N o ->
  0 <= held o /\ 0 <= inside o /\ 0 <= writing o < Z.of_nat N.
Proof.
  intros (ts & Hlen & Hv & ->). pose proof (total_bounds ts Hv). lia.
Qed.

(** ** Rules for the primitive actions *)

(** An action that leaves the counters and the claims alone. *)
Definition innocent {A} (f : Mem -> A * Mem) : Prop :=
  forall t m, shared t m -> shared t (f m).2.

Lemma can_act {A} t (f : Mem -> A * Mem) (Q : A -> tok -> Prop) :
  tok_valid t -> innocent f -> (forall a, Q a t) -> CAN t (act f) Q.
Proof. intros Hv Hf HQ o m Ho Hm. exists t. split_and!; [done|by apply Hf|apply HQ]. Qed.

Lemma can_sq_load {A} t (f : SubmitQueue -> A) (Q : A -> tok -> Prop) :
  tok_valid t ->
  (forall o q, frame tok_add tok0 tok_valid N o -> sq_shared (tok_add t o) q -> Q (f q) t) ->
  CAN t (sq_load f) Q.
Proof.
  intros Hv HQ o m Ho (q & Hm & Hq & Hrest). exists t. cbn. rewrite Hm. cbn.
  split_and!; [done|by exists q|]. by apply (HQ o).
Qed.

Lemma can_sq_load_any {A} t (f : SubmitQueue -> A) (Q : A -> tok -> Prop) :
  tok_valid t -> (forall a, Q a t) -> CAN t (sq_load f) Q.
Proof. intros Hv HQ. apply can_sq_load; auto. Qed.

Lemma can_update t i f (Q : unit -> tok -> Prop) :
  tok_valid t -> 0 <= i < L -> Q tt t -> CAN t (sq_update_entry i f) Q.
Proof.
  intros Hv Hi HQ o m Ho (q & Hm & Hq & Hin & Hc). exists t.
  destruct (slice_get_in (sq_Entries q) i) as [e He]; [by rewrite (ss_len _ _ Hq)|].
  cbn. rewrite Hm. cbn. rewrite He. cbn. rewrite (slice_set_alter _ _ e) by done. cbn.
  split_and!; [done| |done].
  eexists. split; [done|]. split_and!; [|done|done].
  destruct Hq as [Hwf Hl ? ? ?]. split; cbn; autorewrite with slices; try done.
  apply (sq_wf_update q); cbn; autorewrite with slices; auto with slices.
Qed.

Lemma can_store_array t i v (Q : unit -> tok -> Prop) :
  tok_valid t -> 0 <= i < L -> Q tt t -> CAN t (sq_store_array i v) Q.
Proof.
  intros Hv Hi HQ o m Ho (q & Hm & Hq & Hin & Hc). exists t.
  cbn. rewrite Hm. cbn. rewrite slice_set_in.
  2: { rewrite (sqwf_array q), (ss_len _ _ Hq); [done|apply Hq]. }
  cbn. split_and!; [done| |done].
  eexists. split; [done|]. split_and!; [|done|done].
  destruct Hq as [Hwf Hl ? ? ?]. split; try done.
  apply (sq_wf_update q); cbn; autorewrite with slices; auto with slices.
Qed.

Lemma can_sq_entry t i (Q : SubmitEntry_t -> tok -> Prop) :
  tok_valid t -> 0 <= i < L -> (forall e, Q e t) -> CAN t (sq_entry i) Q.
Proof.
  intros Hv Hi HQ o m Ho (q & Hm & Hq & Hrest). exists t.
  destruct (slice_get_in (sq_Entries q) i) as [e He]; [by rewrite (ss_len _ _ Hq)|].
  cbn. rewrite Hm. cbn. rewrite He. split_and!; [done|by exists q|apply HQ].
Qed.

Lemma can_ID t (Q : Z -> tok -> Prop) : tok_valid t -> (forall i, Q i t) -> CAN t Ring_ID Q.
Proof. intros Hv HQ. apply can_act; try done. intros t' m (q & ?). by exists q. Qed.

(** ** Rules for the operations *)

Lemma can_starve {A} t (Q : A -> tok -> Prop) : CAN t Starve Q.
Proof. done. Qed.

Lemma can_enterLock fuel (Q : unit -> tok -> Prop) :
  Q tt (locked) -> CAN tok0 (enterLock fuel) Q.
Proof.
  intros HQ. induction fuel as [|fuel IH]; [done|]. cbn [enterLock].
  eapply can_bind; [apply can_sq_load_any with (Q := fun _ t => t = tok0); [auto with tok|done]|].
  intros w ? ->. eapply (can_bind _ _ _ _ _ _ _ _ (fun _ t => t = tok0)).
  { destruct (negb (w =? 0)); [|done].
    eapply can_bind; [apply can_sq_load_any with (Q := fun _ t => t = tok0); [auto with tok|done]|].
    by intros e ? ->. }
  intros busy ? ->. destruct busy; [done|].
  eapply (can_bind _ _ _ _ _ _ _ _ (fun b t => t = if (b : bool) then locked else tok0)).
  2: { intros [] ? ->; done. }
  intros o m Ho (q & Hm & Hq & Hin & Hc). cbn. rewrite Hm. cbn.
  pose proof (frame_bounds o Ho) as (? & ? & ?).
  destruct (Z.eqb_spec (sq_entered q) 0) as [He|He]; cbn.
  - exists (locked). split_and!; [auto with tok| |done]. eexists. split; [done|].
    destruct Hq as [Hwf ? Hen ? ?]. cbn in *.
    split_and!; [|cbn; lia|done]. split; cbn; try done; try lia.
    apply (sq_wf_update q); cbn; auto with slices.
  - exists tok0. split_and!; [auto with tok|by exists q|done].
Qed.

(** Only a writer completes a write, so the count is never zero there. *)
Lemma can_completeWrite fuel (Q : unit -> tok -> Prop) :
  Q tt tok0 -> CAN writer (completeWrite fuel) Q.
Proof.
  intros HQ. induction fuel as [|fuel IH]; [done|]. cbn [completeWrite].
  eapply (can_bind _ _ _ _ _ _ _ _ (fun w t => t = writer /\ 0 < w < 2 ^ 32)).
  { apply can_sq_load; [auto with tok|]. intros o q Ho Hq. split; [done|].
    pose proof (frame_bounds o Ho) as (? & ? & ?).
    rewrite (ss_writes _ _ Hq). cbn. lia. }
  intros w ? [-> Hw]. destruct (Z.eqb_spec w 0); [lia|].
  eapply (can_bind _ _ _ _ _ _ _ _ (fun b t => t = if (b : bool) then tok0 else writer)).
  2: { intros [] ? ->; done. }
  intros o m Ho (q & Hm & Hq & Hin & Hc). cbn. rewrite Hm. cbn.
  destruct (Z.eqb_spec (sq_writes q) w) as [He|He]; cbn.
  - exists tok0. split_and!; [auto with tok| |done]. eexists. split; [done|].
    destruct Hq as [Hwf ? Hen ? Hwr]. cbn in *.
    split_and!; [|done|done]. split; cbn; try done.
    + apply (sq_wf_update q); cbn; auto with slices.
    + rewrite uwrap_id by (unfold is_uint; lia). lia.
  - exists writer. split_and!; [auto with tok|by exists q|done].
Qed.

(** A claim takes the next position. *)
Lemma can_claim_tail tail (Q : bool -> tok -> Prop) :
  is_u32 tail -> Q true tok0 -> Q false tok0 ->
  CAN tok0 (claim_tail tail (tail mod L + 1) (tail mod L)) Q.
Proof.
  intros Ht HQt HQf o m Ho (q & Hm & Hq & Hin & Hc). exists tok0. cbn. rewrite Hm. cbn.
  destruct (Z.eqb_spec (sq_Tail q) tail) as [<-|He]; cbn; split_and!; auto with tok.
  2: by exists q.
  pose proof (ss_wf _ _ Hq) as Hwf. pose proof (ss_len _ _ Hq) as Hlen.
  assert (sq_Tail q mod L = sq_tail_pos q) as Hpos.
  { unfold sq_tail_pos. by rewrite sq_pos_mod, Hlen. }
  rewrite Hpos. eexists. split; [done|]. split_and!; [|done|].
  - destruct Hq. split; cbn; try done.
    apply (sq_wf_update q); cbn; auto with slices.
  - by apply (claims_ok_next _ m).
Qed.

Lemma can_SubmitEntry fuel (Q : option Z * prog Mem unit -> tok -> Prop) :
  (forall pos fuel' head, 0 <= pos < L -> Q (Some pos, ready fuel' (pos + 1) head (L - 1)) writer) ->
  CAN tok0 (Ring_SubmitEntry fuel) Q.
Proof.
  intros HQ. induction fuel as [|fuel IH]; [done|]. cbn [Ring_SubmitEntry].
  eapply (can_bind _ _ _ _ _ _ _ _ (fun tail t => t = tok0 /\ is_u32 tail)).
  { apply can_sq_load; [auto with tok|]. intros o q _ Hq. split; [done|apply Hq]. }
  intros tail ? [-> Htail].
  eapply (can_bind _ _ _ _ _ _ _ _ (fun _ t => t = tok0)); [by apply can_sq_load_any; auto with tok|].
  intros head ? ->.
  eapply (can_bind _ _ _ _ _ _ _ _ (fun mask t => t = tok0 /\ mask = L - 1)).
  { apply can_sq_load; [auto with tok|]. intros o q _ [Hwf <- _ _ _].
    split; [done|apply Hwf]. }
  intros mask ? [-> ->]. rewrite land_mask by done.
  pose proof (pow2_size_pos L HL). pose proof (pow2_size_u32 L HL).
  pose proof (Z.mod_pos_bound tail L ltac:(lia)).
  eapply (can_bind _ _ _ _ _ _ _ _ (fun n t => t = tok0 /\ n = L)).
  { apply can_sq_load; [auto with tok|]. intros o q _ [_ <- _ _ _]. done. }
  intros n ? [-> ->]. rewrite !uwrap_id by (unfold is_uint; lia).
  destruct (Z.leb_spec (tail mod L + 1) L); [|lia].
  eapply (can_bind _ _ _ _ _ _ _ _ (fun _ t => t = tok0)); [by apply can_claim_tail|].
  intros ok ? ->. destruct ok; cbn [negb]; [|done].
  eapply (can_bind _ _ _ _ _ _ _ _ (fun _ t => t = tok0)); [by apply can_sq_load_any; auto with tok|].
  intros entered ? ->. destruct (negb (entered =? 0)); [done|].
  eapply (can_bind _ _ _ _ _ _ _ _ (fun _ t => t = writer)).
  2: { intros [] ? ->. eapply (can_bind _ _ _ _ _ _ _ _ (fun _ t => t = writer)).
       - by apply can_update; [auto with tok|lia|].
       - intros [] ? ->. by apply HQ. }
  intros o m Ho (q & Hm & Hq & Hin & Hc). exists writer. cbn. rewrite Hm. cbn.
  split_and!; [auto with tok| |done]. eexists. split; [done|]. split_and!; [|done|done].
  pose proof (frame_bounds o Ho) as (? & ? & ?). destruct Hq as [Hwf ? ? ? Hwr]. cbn in Hwr.
  split; cbn; try done.
  - apply (sq_wf_update q); cbn; auto with slices.
  - rewrite Hwr, uwrap_id by (unfold is_uint; lia). lia.
Qed.

Lemma can_ready fuel pos head (Q : unit -> tok -> Prop) :
  0 <= pos < L -> Q tt tok0 -> CAN writer (ready fuel (pos + 1) head (L - 1)) Q.
Proof.
  intros Hpos HQ. pose proof (pow2_size_u32 L HL).
  eapply (can_bind _ _ _ _ _ _ _ _ (fun _ t => t = tok0)); [by apply can_completeWrite|].
  intros [] ? ->. rewrite uwrap_id by (unfold is_uint; lia).
  apply can_store_array; [auto with tok|lia|done].
Qed.

(** ** Library calls *)

Lemma can_seq {A B} t (p : prog Mem A) (k : A -> prog Mem B) t' (Q : B -> tok -> Prop) :
  CAN t p (fun _ t1 => t1 = t') -> (forall a, CAN t' (k a) Q) -> CAN t (p ≫= k) Q.
Proof. intros Hp Hk. eapply can_bind; [exact Hp|]. intros a ? ->. apply Hk. Qed.

(** A goroutine that stands still instead of panicking, or not. *)
Lemma can_muted_seq {A B} b t (p : prog Mem A) (k : A -> prog Mem B) t' (Q : B -> tok -> Prop) :
  CAN t (muted b p) (fun _ t1 => t1 = t') -> (forall a, CAN t' (muted b (k a)) Q) -> CAN t (muted b (p ≫= k)) Q.
Proof. intros Hp Hk. eapply can_muted_bind; [exact Hp|]. intros a ? ->. apply Hk. Qed.

Lemma can_prepare b fuel fill :
  (forall i, 0 <= i < L -> CAN writer (muted b (fill i)) (fun _ t => t = writer)) ->
  CAN tok0 (muted b (prepare fuel fill)) (fun _ t => t = tok0).
Proof.
  intros Hf. eapply can_muted_bind with (Q := fun x t => t = writer /\ exists pos fuel' head,
    0 <= pos < L /\ x = (Some pos, ready fuel' (pos + 1) head (L - 1))).
  { apply can_muted, can_SubmitEntry. naive_solver. }
  intros x ? (-> & pos & fuel' & head & Hpos & ->). cbn beta iota.
  eapply can_muted_seq; [by apply Hf|]. intros []. apply can_muted.
  eapply can_seq; [by apply can_ready|]. intros [].
  eapply can_seq; [by apply can_sq_entry; auto with tok|]. done.
Qed.

(** The address of the first byte of a buffer, which may be empty. *)
Lemma can_elem0 {B} b (buf : slice) (k : Z -> prog Mem B) t Q :
  (b = false -> 0 < sl_Len buf) -> CAN t (muted b (k (sl_Data buf))) Q -> CAN t (muted b (elem0 buf ≫= k)) Q.
Proof.
  intros Hb Hk. unfold elem0. destruct (Z.ltb_spec 0 (sl_Len buf)); [done|]. destruct b; [done|].
  specialize (Hb eq_refl). lia.
Qed.

(** One statement of the body of a [Prepare] function. *)
Ltac can_fill := first
  [ by apply can_muted, can_update; [auto with tok|..] | by apply can_muted, can_ID; auto with tok
  | by apply can_muted | apply can_elem0; [intros Hb; match goal with H : _ = false -> _ |- _ => specialize (H Hb); cbn; lia end|]
  | eapply (can_muted_seq _ _ _ _ writer); [|intros ?] ].

Lemma can_dispatch b fuel r :
  (b = false -> request_ok r) -> CAN tok0 (muted b (dispatch fuel r)) (fun _ t => t = tok0).
Proof.
  destruct r; cbn [request_ok]; intros Hok; apply can_prepare; intros i Hi;
    repeat match goal with
      | v : var (option Z) |- _ => destruct v as [? []]
      | p : gostring |- _ => destruct p as [? l]; cbn [str_Len] in *; destruct (Z.eqb_spec l 0)
      end; cbn [v_val negb]; repeat can_fill.
Qed.

Context {K : Kernel}.

Lemma can_Ring_Enter fuel a b fl : CAN tok0 (Ring_Enter fuel a b fl) (fun _ t => t = tok0).
Proof.
  unfold Ring_Enter, SubmitQueue_NeedWakeup.
  eapply can_seq.
  { eapply can_seq; [by apply can_sq_load_any; auto with tok|]. done. }
  intros wake. eapply can_seq; [by apply can_enterLock|]. intros [].
  eapply can_seq; [by apply can_act; [auto with tok|intros t m|]|]. intros fd.
  eapply (can_seq _ _ _ locked).
  - unfold Enter, syscall_enter. eapply (can_seq _ _ _ locked).
    + eapply (can_seq _ _ _ in_kernel).
      * intros o m Ho (q & Hm & Hq & Hin & Hc). exists in_kernel.
        split_and!; [auto with tok| |done]. exists q. split_and!; [done| |cbn in *; lia|done].
        destruct Hq. split; try done; cbn in *; lia.
      * intros [] o m Ho Hs. exists locked. split_and!; [auto with tok| |done].
        pose proof Hs as (q & Hm & Hq & Hin & Hc). cbn.
        set (v := k_enter _ _ _ _ _). apply (kernel_keeps_shared _ _ (apply_view v m)) in Hs; [|by exists v].
        destruct Hs as (q' & Hm' & Hq' & Hin' & Hc'). exists q'.
        split_and!; [done| |cbn in *; lia|done].
        destruct Hq'. split; try done; cbn in *; lia.
    + intros r. destruct (negb _); [done|]. by destruct (_ <? _).
  - intros res. eapply (can_seq _ _ _ tok0); [|done].
    intros o m Ho (q & Hm & Hq & Hin & Hc). exists tok0. cbn. rewrite Hm. cbn.
    pose proof (frame_bounds o Ho) as (? & ? & ?).
    split_and!; [auto with tok| |done]. eexists. split; [done|].
    destruct Hq. split_and!; [|done|done]. split; cbn in *; try done; try lia.
    apply (sq_wf_update q); cbn; auto with slices.
Qed.
End Shared.

(** ** Clients *)

Lemma pool_valid {A} (ts : list tok) (P : A -> tok -> Prop) (ps : list A) :
  Forall2 (fun p t => tok_valid t /\ P p t) ps ts -> Forall tok_valid ts.
Proof. intros H. eapply Forall2_Forall_r; [exact H|]. apply Forall_true. naive_solver. Qed.

(** The calls a goroutine can make on the submission side: a [Prepare]
    function, [SubmitEntry] directly, and [Enter]. *)
Inductive call :=
| CRequest (r : request)
| CSubmit (f : SubmitEntry_t -> SubmitEntry_t)
| CEnter (toSubmit minComplete flags : Z).

Definition call_ok (c : call) : Prop :=
  match c with CRequest r => request_ok r | _ => True end.

#[global] Instance call_ok_dec c : Decision (call_ok c).
Proof. destruct c as [[]| |]; cbn; apply _. Defined.

Section Clients.
Context {K : Kernel} (fuel : nat).

Definition call_prog (c : call) : prog Mem unit :=
  match c with
  | CRequest r => dispatch fuel r;; Ret tt
  | CSubmit f => submit fuel f
  | CEnter a b fl => Ring_Enter fuel a b fl;; Ret tt
  end.

(** A goroutine makes its calls one after the other. *)
Fixpoint client (cs : list call) : prog Mem unit :=
  match cs with
  | [] => Ret tt
  | c :: cs => call_prog c;; client cs
  end.

(** A fresh ring: nobody in the barrier, nobody writing, no claims yet. *)
Record start (m : Mem) (q : SubmitQueue) : Prop := {
  st_sq : m_sq m = Some q;
  st_wf : sq_wf q;
  st_entered : sq_entered q = 0;
  st_writes : sq_writes q = 0;
  st_in_enter : m_in_enter m = 0;
  st_claims : m_claims m = []
}.

Lemma can_client b L t0 N cs :
  pow2_size L -> Z.of_nat N < 2 ^ 32 -> (b = false -> Forall call_ok cs) ->
  can tok_add tok0 tok_valid N (shared L t0) tok0 (muted b (client cs)) (fun _ t => t = tok0).
Proof.
  intros HL HN. induction cs as [|c cs IH]; intros Hok; [by destruct b|]. cbn [client].
  eapply can_muted_seq; [|intros []; apply IH; intros E; by eapply Forall_inv_tail, Hok].
  assert (b = false -> call_ok c) as Hc by (intros E; by eapply Forall_inv, Hok).
  destruct c as [r|f|a z fl]; cbn in *.
  - eapply can_muted_seq; [by apply can_dispatch|]. intros ?. by apply can_muted.
  - apply can_muted. eapply can_bind with (Q := fun x t => t = writer /\ exists pos fuel' head,
      0 <= pos < L /\ x = (Some pos, ready fuel' (pos + 1) head (L - 1))).
    { apply can_SubmitEntry; [done|done|]. naive_solver. }
    intros x ? (-> & pos & fuel' & head & Hpos & ->). cbn beta iota.
    eapply can_seq; [by apply can_update; auto with tok|]. intros []. by apply can_ready.
  - apply can_muted. eapply can_seq; [by apply can_Ring_Enter|done].
Qed.

(** In every reachable state the pool satisfies the invariant, when the goroutines
    with a call that is not [call_ok] stand still instead of panicking. *)
Lemma clients_muted (clients : list (list call)) (bs : list bool) m q c :
  start m q -> Z.of_nat (length clients) < 2 ^ 32 ->
  Forall2 (fun cs b => b = false -> Forall call_ok cs) clients bs ->
  rtc (pstep kernel_step) (client <$> clients, m) c ->
  pool_ok tok_add tok0 tok_valid (length clients)
    (shared (len (sq_Entries q)) (sq_tail_pos q)) (zip_with muted bs c.1, c.2).
Proof.
  intros [Hm Hwf He Hw Hin Hc] HN Hok Hr. pose proof (Forall2_length _ _ _ Hok) as Hl.
  apply (psteps_muted kernel_step bs) in Hr; [|cbn; by rewrite length_fmap].
  eapply psteps_ok; [apply _|apply _|intros t m1 m2; apply kernel_keeps_shared| |exact Hr].
  split; [cbn; rewrite length_zip_with, length_fmap; lia|]. exists (replicate (length clients) tok0). split.
  - cbn. apply Forall2_same_length_lookup_2; [rewrite length_zip_with, length_fmap, length_replicate; lia|].
    intros i p t Hp Ht. apply lookup_replicate in Ht as [-> _].
    apply lookup_zip_with_Some in Hp as (b & p' & -> & Hb & Hp).
    apply list_lookup_fmap_Some in Hp as (cs & -> & Hcs).
    split; [auto with tok|]. eapply can_mono; [|done].
    apply can_client; [apply Hwf|done|]. exact (Forall2_lookup_lr _ _ _ _ _ _ Hok Hcs Hb).
  - assert (total tok_add tok0 (replicate (length clients) tok0) = tok0) as ->.
    { clear. induction clients as [|? ? IH]; [done|]. cbn [length replicate].
      by rewrite total_cons, IH. }
    exists q. split_and!; [done| |done|].
    + split; try done.
    + unfold claims_ok. cbn [snd]. rewrite Hc. split; [done|]. rewrite Z.add_0_r.
      symmetry. apply Z.mod_small. auto with slices.
Qed.

(** Whatever the calls, the memory satisfies the invariant. *)
Lemma clients_shared (clients : list (list call)) m q ps m' :
  start m q -> Z.of_nat (length clients) < 2 ^ 32 ->
  rtc (pstep kernel_step) (client <$> clients, m) (ps, m') ->
  exists ts, Forall tok_valid ts /\ length ts = length clients /\
    shared (len (sq_Entries q)) (sq_tail_pos q) (total tok_add tok0 ts) m'.
Proof.
  intros Hs HN Hr. set (bs := replicate (length clients) true).
  destruct (clients_muted clients bs m q (ps, m') Hs HN) as (_ & ts & Hts & Hm'); [|done|].
  { apply Forall2_same_length_lookup_2; [by unfold bs; rewrite length_replicate|].
    intros i cs b _ [-> _]%lookup_replicate. done. }
  exists ts. split_and!; [exact (pool_valid _ _ _ Hts)| |done].
  apply Forall2_length in Hts. cbn in Hts. rewrite length_zip_with in Hts. rewrite <- Hts.
  apply psteps_length in Hr. cbn in Hr. rewrite Hr, length_fmap. unfold bs. rewrite length_replicate. lia.
Qed.

(** A goroutine whose calls are all [call_ok] does not panic. *)
Lemma client_no_panic (clients : list (list call)) m q ps m' i cs s :
  start m q -> Z.of_nat (length clients) < 2 ^ 32 ->
  rtc (pstep kernel_step) (client <$> clients, m) (ps, m') ->
  clients !! i = Some cs -> Forall call_ok cs -> ps !! i <> Some (Panic s).
Proof.
  intros Hs HN Hr Hcs Hok Hi. set (bs := <[i := false]> (replicate (length clients) true)).
  pose proof (lookup_lt_Some _ _ _ Hcs) as Hlt.
  assert (bs !! i = Some false) as Hb by (apply list_lookup_insert_eq; by rewrite length_replicate).
  eapply (pool_ok_no_panic _ _ _ _ _ (zip_with muted bs ps, m') i s);
    [apply (clients_muted clients bs m q (ps, m') Hs HN); [|done]|].
  - apply Forall2_same_length_lookup_2; [by unfold bs; rewrite length_insert, length_replicate|].
    intros j cs' b Hj Hb' ->. destruct (decide (i = j)) as [<-|Hne]; [by simplify_eq|].
    unfold bs in Hb'. rewrite list_lookup_insert_ne in Hb' by done. by apply lookup_replicate in Hb' as [[=] _].
  - cbn. rewrite lookup_zip_with, Hb. cbn. by rewrite Hi.
Qed.
End Clients.

(** C12. Mutual exclusion: however many goroutines prepare requests and call
    [Enter] on one ring, and whatever the kernel does meanwhile, at most one of
    them is inside io_uring_enter, and only while the barrier is closed. *)
Theorem enter_mutual_exclusion (K : Kernel) (fuel : nat) (clients : list (list call))
    (m : Mem) (q : SubmitQueue) (ps : list (prog Mem unit)) (m' : Mem)
    (Hs : start m q) (HN : Z.of_nat (length clients) < 2 ^ 32)
    (Hr : rtc (pstep kernel_step) (client fuel <$> clients, m) (ps, m')) :
  exists q', m_sq m' = Some q' /\ 0 <= m_in_enter m' <= sq_entered q' /\ sq_entered q' <= 1.
Proof.
  destruct (clients_shared fuel clients m q ps m' Hs HN Hr) as (ts & Hts & _ & q' & Hm' & Hq' & Hin & _).
  exists q'. split; [done|]. cbn in *. rewrite Hin, (ss_entered _ _ _ Hq').
  pose proof (ss_lock _ _ _ Hq') as Hl. split; [|done].
  pose proof (total_bounds ts Hts). lia.
Qed.

(** C13. Every claim takes the position after the last one: in every reachable
    state the claims made so far by all the goroutines together are consecutive
    positions of the ring, so any window of claims no longer than the ring has
    no position twice. *)
Theorem claims_consecutive (K : Kernel) (fuel : nat) (clients : list (list call))
    (m : Mem) (q : SubmitQueue) (ps : list (prog Mem unit)) (m' : Mem)
    (Hs : start m q) (HN : Z.of_nat (length clients) < 2 ^ 32)
    (Hr : rtc (pstep kernel_step) (client fuel <$> clients, m) (ps, m')) :
  m_claims m' = ring_positions (len (sq_Entries q)) (sq_tail_pos q) (length (m_claims m')) /\
  forall i j a, (i < j)%nat -> Z.of_nat (j - i) < len (sq_Entries q) ->
    m_claims m' !! i = Some a -> m_claims m' !! j <> Some a.
Proof.
  destruct (clients_shared fuel clients m q ps m' Hs HN Hr) as (ts & _ & _ & q' & _ & _ & _ & [Hc _]).
  split; [done|]. cbn in Hc. intros i j a Hij Hw Hi Hj.
  pose proof (sq_len_pos q (st_wf _ _ Hs)) as HL.
  rewrite Hc in Hi, Hj. unfold ring_positions in Hi, Hj.
  apply list_lookup_fmap_Some in Hi as (x & -> & Hx), Hj as (y & Heq & Hy).
  apply lookup_seqZ in Hx as [-> _], Hy as [-> _]. revert Heq. apply ring_position_ne; lia.
Qed.

(** C14. The only panic is the one of an empty buffer.  [Prepare] functions take the
    address of the first byte, so that a request with an empty buffer is an index
    out of range; apart from that [completeWrite] never finds the count at zero, no
    index is out of range and no queue pointer is nil: a goroutine that panics has
    such a request among its own calls, and the requests of the others do not
    matter.  Whatever the calls are, the number of writers in memory never exceeds
    the number of goroutines. *)
Theorem panics_only_on_empty_buffers (K : Kernel) (fuel : nat) (clients : list (list call))
    (m : Mem) (q : SubmitQueue) (ps : list (prog Mem unit)) (m' : Mem)
    (Hs : start m q) (HN : Z.of_nat (length clients) < 2 ^ 32)
    (Hr : rtc (pstep kernel_step) (client fuel <$> clients, m) (ps, m')) :
  (forall i s, ps !! i = Some (Panic s) ->
    exists cs r, clients !! i = Some cs /\ CRequest r ∈ cs /\ ~ request_ok r) /\
  exists q', m_sq m' = Some q' /\ 0 <= sq_writes q' <= Z.of_nat (length clients).
Proof.
  split.
  - intros i s Hi. destruct (lookup_lt_is_Some_2 clients i) as [cs Hcs].
    { apply psteps_length in Hr. cbn in Hr. rewrite length_fmap in Hr. rewrite <- Hr. by eapply lookup_lt_Some. }
    exists cs. destruct (decide (Forall call_ok cs)) as [Hok|Hok].
    + by destruct (client_no_panic fuel clients m q ps m' i cs s Hs HN Hr Hcs Hok).
    + apply not_Forall_Exists, Exists_exists in Hok as ([r| |] & Hin & Hno); [|by destruct Hno..|apply _]. by exists r.
  - destruct (clients_shared fuel clients m q ps m' Hs HN Hr) as (ts & Hts & Hl & q' & Hm' & Hq' & _).
    exists q'. split; [done|]. rewrite (ss_writes _ _ _ Hq'). pose proof (total_bounds ts Hts). lia.
Qed.

(** ** Witnesses: two goroutines on the sample ring *)

Definition sample_clients : list (list call) :=
  [[CRequest RNop; CEnter 1 0 EnterGetEvents]; [CSubmit (set_sqe_Fd 7)]].

Lemma sample_start : start sample_mem sample_sq.
Proof. split; try reflexivity. apply sample_sq_wf. Qed.

Definition outcome_mem {A} (d : Mem) (o : outcome Mem A) : Mem :=
  match o with Done _ m _ | Panicked _ m | Starved m => m end.

(** The first goroutine runs to its end. *)
Definition sample_mem1 : Mem :=
  outcome_mem sample_mem
    (exec (client (K := still_kernel 1 0) 1 [CRequest RNop; CEnter 1 0 EnterGetEvents]) sample_mem).

Lemma sample_reach :
  rtc (pstep kernel_step) (client (K := still_kernel 1 0) 1 <$> sample_clients, sample_mem)
    (<[0%nat := Ret tt]> (client (K := still_kernel 1 0) 1 <$> sample_clients), sample_mem1).
Proof.
  eapply pool_runs; [reflexivity|]. intros n. eexists. vm_compute. reflexivity.
Qed.

Lemma enter_mutual_exclusion_witness :
  exists q', m_sq sample_mem1 = Some q' /\
    0 <= m_in_enter sample_mem1 <= sq_entered q' /\ sq_entered q' <= 1.
Proof.
  apply (enter_mutual_exclusion (still_kernel 1 0) 1 sample_clients sample_mem sample_sq
           _ sample_mem1 sample_start ltac:(vm_compute; reflexivity) sample_reach).
Defined.

Lemma claims_consecutive_witness :
  m_claims sample_mem1 = [0] /\
  m_claims sample_mem1 = ring_positions 4 0 (length (m_claims sample_mem1)).
Proof.
  split; [vm_compute; reflexivity|].
  apply (claims_consecutive (still_kernel 1 0) 1 sample_clients sample_mem sample_sq
           _ sample_mem1 sample_start ltac:(vm_compute; reflexivity) sample_reach).
Defined.

(** The second goroutine reads into an empty buffer, and panics while it is counted
    as a writer. *)
Definition careless_clients : list (list call) :=
  [[CRequest RNop]; [CRequest (RRead 3 (mkSlice 65536 0 0) 0 0); CEnter 1 0 EnterGetEvents]].

Definition careless_mem : Mem :=
  outcome_mem sample_mem
    (exec (client (K := still_kernel 1 0) 1 [CRequest (RRead 3 (mkSlice 65536 0 0) 0 0)]) sample_mem).

Lemma careless_reach :
  rtc (pstep kernel_step) (client (K := still_kernel 1 0) 1 <$> careless_clients, sample_mem)
    (<[1%nat := Panic index_msg]> (client (K := still_kernel 1 0) 1 <$> careless_clients), careless_mem).
Proof. eapply pool_panics; [reflexivity|]. vm_compute. reflexivity. Qed.

Example empty_buffer_panics : (sq_writes <$> m_sq careless_mem) = Some 1.
Proof. vm_compute. reflexivity. Qed.

Lemma panics_only_on_empty_buffers_witness :
  (exists cs r, careless_clients !! 1%nat = Some cs /\ CRequest r ∈ cs /\ ~ request_ok r) /\
  exists q', m_sq careless_mem = Some q' /\ 0 <= sq_writes q' <= 2.
Proof.
  destruct (panics_only_on_empty_buffers (still_kernel 1 0) 1 careless_clients sample_mem sample_sq
           _ careless_mem sample_start ltac:(vm_compute; reflexivity) careless_reach) as [H1 H2].
  split; [by apply (H1 1%nat index_msg)|exact H2].
Defined.
