(* ===== verification/Progress.v ===== *)
(** * Progress of the goroutines that prepare requests

    [SubmitEntry] and [completeWrite] are loops around a compare-and-swap that
    fails when another goroutine changed the word since it was loaded.  Every
    such change is a step of a call that will make at most three of them, so
    among finitely many calls the loops end in every interleaving, whatever
    schedule the goroutines are given: no goroutine is left spinning while the
    barrier of [Enter] is open. *)

From stdpp Require Import base list gmap strings relations.
From Stdlib Require Import ZArith Lia.
From S2P Require Import Prelude Prog Consts Types Machine Samples Submission SubmissionSpec Ops OpsSpec Concurrency.

(** ** A program logic with a budget of changes *)

Section Budget.
Context {Mem V : Type}.
(** The words the loops compare, the invariant, and the greatest number of
    changes that all the goroutines make together. *)
Context (view : Mem -> V) (Inv : Mem -> Prop) (C : nat).

(** What holds of a number of changes and a view stays true as long as further
    changes are counted. *)
Definition stable (R : nat -> V -> Prop) : Prop :=
  forall n v n' v', R n v -> (n <= n')%nat -> (n' = n -> v' = v) -> R n' v'.

(** [lives b n v p Q]: a goroutine that may change the view [b] times more, and
    last saw it as [v] after [n] changes, executes [p] without being starved. *)
Fixpoint lives {A} (b n : nat) (v : V) (p : prog Mem A) (Q : A -> nat -> nat -> V -> Prop) : Prop :=
  match p with
  | Ret a => Q a b n v
  | Step X f k => forall m n1, Inv m -> (n <= n1)%nat -> (n1 + b <= C)%nat ->
      (n1 = n -> view m = v) ->
      Inv (snd (f m)) /\
      exists b' n', lives b' n' (view (snd (f m))) (k (fst (f m))) Q /\
        (n' = n1 /\ (b' <= b)%nat /\ view (snd (f m)) = view m \/ n' = S n1 /\ (b' < b)%nat)
  | Panic _ => True
  | Starve => False
  end.

Lemma lives_bind {A B} b n v (p : prog Mem A) (k : A -> prog Mem B) Q R :
  lives b n v p Q -> (forall a b' n' v', Q a b' n' v' -> lives b' n' v' (k a) R) ->
  lives b n v (p ≫= k) R.
Proof.
  intros Hp HQ. revert b n v Hp. induction p as [a|X f g IH|s|]; intros b n v Hp;
    [exact (HQ a b n v Hp)| |exact I|destruct Hp].
  intros m n1 Hm Hn Hb Hv. destruct (Hp m n1 Hm Hn Hb Hv) as (HI & b' & n' & Hl & Hc).
  split; [done|]. exists b', n'. split; [|done]. by apply IH.
Qed.

Lemma lives_mono {A} b n v (p : prog Mem A) (Q R : A -> nat -> nat -> V -> Prop) :
  lives b n v p Q -> (forall a b' n' v', Q a b' n' v' -> R a b' n' v') -> lives b n v p R.
Proof.
  intros Hp HQ. revert b n v Hp. induction p as [a|X f g IH|s|]; intros b n v Hp; cbn in *; auto.
  intros m n1 Hm Hn Hb Hv. destruct (Hp m n1 Hm Hn Hb Hv) as (HI & b' & n' & Hl & Hc).
  split; [done|]. exists b', n'. split; [|done]. by apply IH.
Qed.

(** One fallible action that does not change the view. *)
Lemma lives_quiet {A} b n v s (f : Mem -> option (A * Mem)) R (Q : A -> nat -> nat -> V -> Prop) :
  stable R -> R n v ->
  (forall m n' a m', Inv m -> R n' (view m) -> (n <= n')%nat -> (n' + b <= C)%nat ->
     f m = Some (a, m') -> Inv m' /\ view m' = view m /\ Q a b n' (view m')) ->
  lives b n v (try_act s f) Q.
Proof.
  intros HR H0 Hf m n1 Hm Hn Hb Hv. cbn.
  destruct (f m) as [[a m']|] eqn:E; cbn.
  - destruct (Hf m n1 a m' Hm) as (HI & Hw & HQ); [|done..|].
    { by eapply HR. }
    split; [done|]. exists b, n1. split; [done|]. by left.
  - split; [done|]. exists b, n1. split; [done|]. by left.
Qed.

(** Programs all of whose actions are of that kind. *)
Fixpoint calm {A} (p : prog Mem A) : Prop :=
  match p with
  | Ret _ | Panic _ => True
  | Step X f k => forall m, Inv m ->
      Inv (snd (f m)) /\ view (snd (f m)) = view m /\ calm (k (fst (f m)))
  | Starve => False
  end.

Lemma calm_bind {A B} (p : prog Mem A) (k : A -> prog Mem B) :
  calm p -> (forall a, calm (k a)) -> calm (p ≫= k).
Proof.
  intros Hp Hk. induction p as [a|X f g IH|s|]; [apply Hk| |exact I|destruct Hp].
  intros m Hm. destruct (Hp m Hm) as (? & ? & ?). split_and!; [done..|]. by apply IH.
Qed.

Lemma calm_try_act {A} s (f : Mem -> option (A * Mem)) :
  (forall m a m', Inv m -> f m = Some (a, m') -> Inv m' /\ view m' = view m) ->
  calm (try_act s f).
Proof.
  intros Hf m Hm. cbn. destruct (f m) as [[a m']|] eqn:E; cbn; [|done].
  by destruct (Hf m a m' Hm E).
Qed.

Lemma lives_calm {A} b n v (p : prog Mem A) R :
  calm p -> stable R -> R n v -> (n + b <= C)%nat ->
  lives b n v p (fun _ b' n' v' => b' = b /\ (n' + b <= C)%nat /\ R n' v').
Proof.
  intros Hp HR. revert n v. induction p as [a|X f k IH|s|]; intros n v H0 HC; [done| |done..].
  intros m n1 Hm Hn Hb Hv. destruct (Hp m Hm) as (HI & Hw & Hk). split; [done|].
  exists b, n1. split; [|by left]. apply IH; [done| |done].
  rewrite Hw. by eapply HR.
Qed.

(** Only the number of changes is remembered. *)
Lemma stable_ge k : stable (fun n _ => (k <= n)%nat).
Proof. intros n v n' v' H Hn _. lia. Qed.

(** A fact about the view as it was after [k] changes. *)
Lemma stable_at k (P : V -> Prop) : stable (fun n v => (k <= n)%nat /\ (n = k -> P v)).
Proof.
  intros n v n' v' [H HP] Hn Hv. split; [lia|]. intros ->. rewrite Hv by lia. apply HP. lia.
Qed.

(** The goroutines of a pool, their budgets and what they last saw. *)
Definition budget_ok (n : nat) (m : Mem) (p : prog Mem unit) (s : nat * nat * V) : Prop :=
  let '(b, n0, v0) := s in
  (n0 <= n)%nat /\ (n = n0 -> view m = v0) /\ lives b n0 v0 p (fun _ _ _ _ => True).

Definition budget (s : nat * nat * V) : nat := s.1.1.

Definition pool_lives (c : pool) : Prop :=
  Inv c.2 /\ exists n ss, (n + sum_list (budget <$> ss) <= C)%nat /\ Forall2 (budget_ok n c.2) c.1 ss.

Lemma sum_budget_insert (ss : list (nat * nat * V)) i s s' :
  ss !! i = Some s ->
  (sum_list (budget <$> <[i := s']> ss) + budget s = sum_list (budget <$> ss) + budget s')%nat.
Proof.
  revert i. induction ss as [|s0 ss IH]; intros [|i] H; try done.
  - injection H as ->. cbn. lia.
  - specialize (IH i H).
    change (<[S i := s']> (s0 :: ss)) with (s0 :: <[i := s']> ss).
    rewrite !fmap_cons. cbn [sum_list sum_list_with]. lia.
Qed.

(** What a goroutine last saw, after a step of another one. *)
Lemma budget_ok_later n m n' m' p s :
  budget_ok n m p s -> (n <= n')%nat -> (n' = n -> view m' = view m) -> budget_ok n' m' p s.
Proof.
  destruct s as [[b n0] v0]. intros (Hn & Hv & Hp) Hle Hview. split_and!; [lia| |done].
  intros ->. assert (n = n0) as -> by lia. rewrite Hview by done. auto.
Qed.

Lemma pstep_lives K c c' :
  (forall m m', K m m' -> Inv m -> Inv m' /\ view m' = view m) ->
  pool_lives c -> pstep K c c' -> pool_lives c'.
Proof.
  intros HK [HI (n & ss & Hsum & H2)]. destruct 1 as [i ps m X f k x m' Hi Hf|ps m m' Hk]; cbn in *.
  2: { destruct (HK m m' Hk HI) as [HI' Hv]. split; [done|]. exists n, ss. split; [done|].
       eapply Forall2_impl; [exact H2|]. intros p s Hs. by eapply budget_ok_later. }
  destruct (Forall2_lookup_l _ _ _ _ _ H2 Hi) as ([[b n0] v0] & Hs & Hn & Hv & Hl).
  pose proof (sum_budget_insert ss i (b, n0, v0) (0%nat, n0, v0) Hs) as Hb. cbn in Hb.
  destruct (Hl m n HI Hn ltac:(lia) Hv) as (HI' & b' & n' & Hl' & Hc).
  rewrite Hf in HI', Hl', Hc. cbn in *. split; [done|].
  exists n', (<[i := (b', n', view m')]> ss). split.
  - pose proof (sum_budget_insert ss i (b, n0, v0) (b', n', view m') Hs). cbn in *. lia.
  - apply Forall2_insert; [|by split].
    eapply Forall2_impl; [exact H2|]. intros p s Hs'.
    eapply budget_ok_later; [exact Hs'|lia|]. intros ->. by destruct Hc as [(_ & _ & ?)|[? _]]; [|lia].
Qed.

Lemma psteps_lives K c c' :
  (forall m m', K m m' -> Inv m -> Inv m' /\ view m' = view m) ->
  pool_lives c -> rtc (pstep K) c c' -> pool_lives c'.
Proof. intros HK Hc. induction 1; eauto using pstep_lives. Qed.

Lemma pool_lives_no_starve c i : pool_lives c -> c.1 !! i <> Some Starve.
Proof.
  intros [_ (n & ss & _ & H2)] Hi.
  by destruct (Forall2_lookup_l _ _ _ _ _ H2 Hi) as ([[b n0] v0] & _ & _ & _ & []).
Qed.
End Budget.

(** ** The submission queue *)

Section Queue.
(** The size of the ring and the number of changes of all the calls. *)
Context (L : Z) (HL : pow2_size L) (C : nat).

(** The words of the two compare-and-swaps. *)
Definition hot (m : Mem) : option (Z * Z) := (fun q => (sq_Tail q, sq_writes q)) <$> m_sq m.

(** The barrier is open. *)
Definition open_ring (m : Mem) : Prop :=
  exists q, m_sq m = Some q /\ sq_wf q /\ len (sq_Entries q) = L /\ sq_entered q = 0.

Abbreviation LIVES := (lives hot open_ring C).
Abbreviation CALM := (calm hot open_ring).

(** A store that changes neither the two words nor the shape of the queue. *)
Lemma open_put m q q' :
  open_ring m -> m_sq m = Some q ->
  (sq_wf q -> sq_wf q') -> len (sq_Entries q') = len (sq_Entries q) ->
  sq_entered q' = sq_entered q -> open_ring (put_sq q' m).
Proof.
  intros (q0 & Hm & Hwf & Hl & He) Hq Hw Hlen Hen. rewrite Hq in Hm. injection Hm as <-.
  exists q'. rewrite Hlen, Hen. auto.
Qed.

Lemma calm_sq_load {A} (f : SubmitQueue -> A) : CALM (sq_load f).
Proof.
  apply calm_try_act. intros m a m' Hm H. destruct (f <$> m_sq m); [|done].
  by injection H as _ <-.
Qed.

Lemma calm_sq_entry i : CALM (sq_entry i).
Proof.
  apply calm_try_act. intros m a m' Hm H. destruct (_ ≫= _); [|done]. by injection H as _ <-.
Qed.

Lemma calm_update i f : CALM (sq_update_entry i f).
Proof.
  apply calm_try_act. intros m a m' Hm H. destruct (m_sq m) as [q|] eqn:Hq; [|done]. cbn in H.
  destruct (slice_get (sq_Entries q) i) as [e|] eqn:He; [|done]. cbn in H.
  rewrite (slice_set_alter _ _ e) in H by done. cbn in H. injection H as _ <-. split.
  - apply (open_put m q); [done..|intros Hwf| |done]; cbn; autorewrite with slices; [|done].
    apply (sq_wf_update q); cbn; autorewrite with slices; auto with slices.
  - unfold hot. by rewrite Hq.
Qed.

Lemma calm_store_array i v : CALM (sq_store_array i v).
Proof.
  apply calm_try_act. intros m a m' Hm H. destruct (m_sq m) as [q|] eqn:Hq; [|done]. cbn in H.
  unfold slice_set in H. case_bool_decide; [|done]. cbn in H. injection H as _ <-. split.
  - apply (open_put m q); [done..|intros Hwf|done|done].
    apply (sq_wf_update q); cbn; autorewrite with slices; auto with slices.
  - unfold hot. by rewrite Hq.
Qed.

Lemma calm_ID : CALM Ring_ID.
Proof. intros m Hm. split_and!; try done. Qed.

Lemma lives_sq_load {A} (f : SubmitQueue -> A) b n v R (Q : A -> nat -> nat -> option (Z * Z) -> Prop) :
  stable R -> R n v ->
  (forall q n', sq_wf q -> len (sq_Entries q) = L -> sq_entered q = 0 ->
     R n' (Some (sq_Tail q, sq_writes q)) -> (n <= n')%nat -> (n' + b <= C)%nat ->
     Q (f q) b n' (Some (sq_Tail q, sq_writes q))) ->
  LIVES b n v (sq_load f) Q.
Proof.
  intros HR H0 HQ. eapply lives_quiet; [exact HR|exact H0|].
  intros m n' a m' (q & Hm & Hwf & Hlen & He) HRm Hn Hb E. unfold hot in *. rewrite Hm in *.
  injection E as <- <-. rewrite Hm. split_and!; [by exists q|done|]. by apply HQ.
Qed.

(** A compare-and-swap of one of the two words: where the word is no longer what
    was loaded after [k] changes, there were more changes. *)
Lemma lives_swap b n v k old (get : Z * Z -> Z) (f : Mem -> option (bool * Mem))
    (Q : bool -> nat -> nat -> option (Z * Z) -> Prop) :
  (k <= n)%nat -> (n = k -> get <$> v = Some old) ->
  (forall m q, open_ring m -> m_sq m = Some q ->
     if get (sq_Tail q, sq_writes q) =? old
     then exists m', f m = Some (true, m') /\ open_ring m' else f m = Some (false, m)) ->
  (forall n' v', (S n' + b <= C)%nat -> (k <= n')%nat -> Q true b (S n') v') ->
  (forall n' v', (n' + S b <= C)%nat -> (k < n')%nat -> Q false (S b) n' v') ->
  LIVES (S b) n v (try_act nil_msg f) Q.
Proof.
  intros Hk Hold Hf Ht Hfl m n1 Hm Hn Hb Hv. cbn.
  destruct Hm as (q & Hq & Hm). assert (open_ring m) as Ho by by exists q.
  specialize (Hf m q Ho Hq). destruct (Z.eqb_spec (get (sq_Tail q, sq_writes q)) old) as [He|He].
  - destruct Hf as (m' & -> & Ho'). cbn. split; [done|]. exists b, (S n1).
    split; [apply Ht; lia|right; lia].
  - rewrite Hf. cbn. split; [done|]. exists (S b), n1. split; [|left; split_and!; [lia..|done]].
    apply Hfl; [lia|]. destruct (decide (n1 = k)) as [->|]; [|lia].
    assert (n = k) as -> by lia. specialize (Hold eq_refl). rewrite <- Hv in Hold by done.
    unfold hot in Hold. rewrite Hq in Hold. cbn in Hold. congruence.
Qed.

Lemma lives_completeWrite fuel b n v :
  (n + S b <= C)%nat -> (C < fuel + n)%nat ->
  LIVES (S b) n v (completeWrite fuel) (fun _ b' n' _ => b' = b /\ (n' + b <= C)%nat).
Proof.
  revert n v. induction fuel as [|fuel IH]; intros n v Hb Hf; [lia|]. cbn [completeWrite].
  eapply lives_bind with (Q := fun w b' n' v' => b' = S b /\ (n <= n')%nat /\ (n' + S b <= C)%nat /\
    snd <$> v' = Some w).
  { eapply lives_sq_load; [apply (stable_ge n)|cbn; lia|]. naive_solver. }
  intros w b' n' v' (-> & Hn & Hb' & Hv'). destruct (w =? 0); [done|].
  eapply lives_bind with (Q := fun ok b'' n'' v'' => if (ok : bool) then b'' = b /\ (n'' + b <= C)%nat
    else b'' = S b /\ (n' < n'')%nat /\ (n'' + S b <= C)%nat).
  2: { intros [] b'' n'' v'' Hq; [done|]. destruct Hq as (-> & ? & ?). apply IH; lia. }
  eapply (lives_swap _ _ _ n' w snd); [done|done| |intros; lia|intros; lia].
  intros m q Hm Hq. cbn. rewrite Hq. cbn. destruct (sq_writes q =? w); [|done].
  eexists. split; [done|]. apply (open_put m q); [done..|intros Hwf|done|done].
  apply (sq_wf_update q); cbn; auto with slices.
Qed.

Lemma lives_ready fuel next head mask b n v :
  (n + S b <= C)%nat -> (C < fuel + n)%nat ->
  LIVES (S b) n v (ready fuel next head mask) (fun _ b' n' _ => b' = b /\ (n' + b <= C)%nat).
Proof.
  intros Hb Hf. eapply lives_bind; [by apply lives_completeWrite|].
  intros [] b' n' v' [-> Hb']. eapply lives_mono.
  - by apply (lives_calm _ _ _ b n' v' _ (fun _ _ => True)); [apply calm_store_array|..].
  - naive_solver.
Qed.

(** A load that keeps what is known of the two words. *)
Lemma lives_recall {A} (f : SubmitQueue -> A) b n v R (P : A -> Prop) :
  stable R -> R n v ->
  (forall q, sq_wf q -> len (sq_Entries q) = L -> sq_entered q = 0 -> P (f q)) ->
  LIVES b n v (sq_load f) (fun a b' n' v' => b' = b /\ R n' v' /\ (n' + b <= C)%nat /\ P a).
Proof. intros HR H0 HP. eapply lives_sq_load; [exact HR|done|]. naive_solver. Qed.

(** The count of writers goes up by one. *)
Lemma lives_writes b n v (f : SubmitQueue -> Z) :
  LIVES (S b) n v (sq_store (fun q => set_sq_writes (f q) q))
    (fun _ b' n' _ => b' = b /\ (n <= n')%nat /\ (n' + b <= C)%nat).
Proof.
  intros m n1 (q & Hq & Hm) Hn Hb _. assert (open_ring m) as Ho by by exists q.
  cbn. rewrite Hq. cbn. split.
  - apply (open_put m q); [done..|intros Hwf|done|done]. apply (sq_wf_update q); cbn; auto with slices.
  - exists b, (S n1). split; [|right; lia]. split_and!; [done|lia..].
Qed.

(** The size of the ring bounds the positions, so the branch that sets the tail
    back to zero is not taken. *)
Lemma next_le tail : (u32 (Z.land tail (L - 1) + 1) <=? u32 L) = true.
Proof.
  pose proof (pow2_size_pos L HL). pose proof (pow2_size_u32 L HL).
  rewrite land_mask by done. pose proof (Z.mod_pos_bound tail L ltac:(lia)).
  rewrite !uwrap_id by (unfold is_uint; lia). apply Z.leb_le. lia.
Qed.

Lemma lives_claim_tail tail next pos b n v k :
  is_u32 next -> (k <= n)%nat -> (n = k -> fst <$> v = Some tail) ->
  LIVES (S b) n v (claim_tail tail next pos)
    (fun ok b' n' _ => if (ok : bool) then b' = b /\ (k <= n')%nat /\ (n' + b <= C)%nat
       else b' = S b /\ (k < n')%nat /\ (n' + S b <= C)%nat).
Proof.
  intros Hn Hk Hv. eapply (lives_swap _ _ _ k tail fst); [done|done| |intros; lia|intros; lia].
  intros m q Hm Hq. cbn. rewrite Hq. cbn. destruct (sq_Tail q =? tail); [|done].
  eexists. split; [done|].
  assert (open_ring (put_sq (set_sq_Tail next q) m)) as (q' & ?).
  { apply (open_put m q); [done..|intros Hwf|done|done].
    apply (sq_wf_update q); cbn; auto with slices. }
  by exists q'.
Qed.

(** A claim leaves enough fuel for the callback. *)
Definition claimed (b n : nat) (x : option Z * prog Mem unit) : Prop :=
  (n + b <= C)%nat /\ exists pos k next head mask,
    x = (Some pos, ready k next head mask) /\ (C < k + n)%nat.

Lemma lives_SubmitEntry fuel b n v :
  (n + S (S b) <= C)%nat -> (C < fuel + n)%nat ->
  LIVES (S (S b)) n v (Ring_SubmitEntry fuel) (fun x b' n' _ => b' = b /\ claimed b n' x).
Proof.
  revert n v. induction fuel as [|fuel IH]; intros n v Hb Hf; [lia|]. cbn [Ring_SubmitEntry].
  eapply lives_bind with (Q := fun tail b' n' v' => b' = S (S b) /\ (n <= n')%nat /\
    fst <$> v' = Some tail).
  { eapply lives_sq_load; [apply (stable_ge n)|cbn; lia|]. naive_solver. }
  intros tail b' k v' (-> & Hk & Hv').
  set (R := fun n' (v' : option (Z * Z)) => (k <= n')%nat /\ (n' = k -> fst <$> v' = Some tail)).
  assert (stable R) as HR by apply stable_at. assert (R k v') as H0 by by split.
  eapply lives_bind; [by apply (lives_recall sq_Head _ _ _ R (fun _ => True))|].
  intros head b' n1 v1 (-> & H1 & _ & _).
  eapply lives_bind; [apply (lives_recall sq_Mask _ _ _ R (fun a => a = L - 1)); [done|done|]|].
  { intros q Hwf <- _. apply Hwf. }
  intros mask b' n2 v2 (-> & H2 & _ & ->).
  eapply lives_bind; [by apply (lives_recall (fun q => len (sq_Entries q)) _ _ _ R (fun a => a = L))|].
  intros len b' n3 v3 (-> & [H3 H3'] & _ & ->). rewrite next_le.
  eapply lives_bind; [by apply (lives_claim_tail _ _ _ _ _ _ k); [auto with ints|..]|].
  intros [] b' n4 v4 H4; destruct H4 as (-> & H4 & Hb4); cbn [negb]; [|apply IH; lia].
  eapply lives_bind; [apply (lives_recall sq_entered _ _ _ (fun n _ => (n4 <= n)%nat) (fun a => a = 0));
    [apply stable_ge|cbn; lia|done]|].
  intros e b' n5 v5 (-> & H5 & _ & ->). cbn [Z.eqb negb].
  eapply lives_bind; [apply lives_writes|]. intros [] b' n6 v6 (-> & H6 & Hb6).
  eapply lives_bind.
  { apply (lives_calm _ _ _ b n6 v6 _ (fun n _ => (n6 <= n)%nat)); [apply calm_update|apply stable_ge|lia|done]. }
  intros [] b' n7 v7 (-> & Hb7 & H7). split; [done|]. split; [done|].
  do 5 eexists. split; [done|lia].
Qed.

(** ** Calls *)

Lemma calm_elem0 s : CALM (elem0 s).
Proof. unfold elem0. by destruct (_ <? _). Qed.

Ltac calm_fill := first
  [ by apply calm_update | by apply calm_ID | by apply calm_elem0 | exact I
  | apply calm_bind; [|intros ?]
  | match goal with |- calm _ _ (if ?c then _ else _) => destruct c end ].

Lemma lives_prepare fuel fill b n v :
  (n + 3 + b <= C)%nat -> (C < fuel)%nat -> (forall i, CALM (fill i)) ->
  LIVES (3 + b) n v (prepare fuel fill) (fun _ b' n' _ => b' = b /\ (n' + b <= C)%nat).
Proof.
  intros Hb Hf Hfill. eapply lives_bind; [apply lives_SubmitEntry; lia|].
  intros x b' n1 v1 (-> & Hb1 & pos & k & next & head & mask & -> & Hk). cbn beta iota.
  eapply lives_bind.
  { apply (lives_calm _ _ _ _ n1 v1 _ (fun n _ => (n1 <= n)%nat)); [apply Hfill|apply stable_ge|lia|done]. }
  intros [] b' n2 v2 (-> & Hb2 & H2). eapply lives_bind; [apply lives_ready; lia|].
  intros [] b' n3 v3 (-> & Hb3). eapply lives_mono.
  - apply (lives_calm _ _ _ b n3 v3 _ (fun _ _ => True)); [|done..].
    apply calm_bind; [apply calm_sq_entry|done].
  - naive_solver.
Qed.

Lemma lives_dispatch fuel r b n v :
  (n + 3 + b <= C)%nat -> (C < fuel)%nat ->
  LIVES (3 + b) n v (dispatch fuel r) (fun _ b' n' _ => b' = b /\ (n' + b <= C)%nat).
Proof.
  intros Hb Hf. destruct r; (apply lives_prepare; [done|done|intros i]);
    repeat match goal with v : var (option Z) |- _ => destruct v as [? []] end;
    cbn [v_val]; repeat calm_fill.
Qed.
End Queue.

(** ** The number of steps of a program *)

(** [within d p Q]: [p] performs at most [d] actions, and what it returns
    satisfies [Q]. *)
Fixpoint within {Mem A} (d : nat) (p : prog Mem A) (Q : A -> Prop) : Prop :=
  match p with
  | Ret a => Q a
  | Step X f k => exists d', d = S d' /\ forall x, within d' (k x) Q
  | _ => True
  end.

Section Within.
Context {Mem : Type}.

Lemma within_mono {A} d d' (p : prog Mem A) (Q R : A -> Prop) :
  within d p Q -> (d <= d')%nat -> (forall a, Q a -> R a) -> within d' p R.
Proof.
  intros Hp Hd HQ. revert d d' Hd Hp. induction p as [a|X f k IH|s|]; intros d d' Hd Hp; cbn in *; auto.
  destruct Hp as (d1 & -> & Hk). exists (pred d'). split; [lia|]. intros x. apply (IH x d1); [lia|auto].
Qed.

Lemma within_bind {A B} d1 d2 (p : prog Mem A) (k : A -> prog Mem B) Q R :
  within d1 p Q -> (forall a, Q a -> within d2 (k a) R) -> within (d1 + d2) (p ≫= k) R.
Proof.
  intros Hp HQ. revert d1 Hp. induction p as [a|X f g IH|s|]; intros d1 Hp; [|..|exact I|exact I].
  - eapply within_mono; [by apply HQ|lia|done].
  - destruct Hp as (d & -> & Hk). exists (d + d2)%nat. split; [done|]. intros x. by apply IH.
Qed.

Lemma within_try_act {A} s (f : Mem -> option (A * Mem)) d : within (S d) (try_act s f) (fun _ => True).
Proof. exists d. split; [done|]. by intros [a|]. Qed.

Lemma within_act {A} (f : Mem -> A * Mem) d : within (S d) (act f) (fun _ => True).
Proof. by exists d. Qed.

(** One action before the rest. *)
Lemma within_then {A B} d (p : prog Mem A) (k : A -> prog Mem B) R :
  within 1 p (fun _ => True) -> (forall a, within d (k a) R) -> within (S d) (p ≫= k) R.
Proof. intros Hp Hk. apply (within_bind 1 d p k _ R Hp). auto. Qed.

(** The steps that are left never go up. *)
Lemma pstep_within K (c c' : pool (Mem := Mem)) (ds : list nat) :
  Forall2 (fun p d => within d p (fun _ => True)) c.1 ds -> pstep K c c' ->
  Forall2 (fun p d => within d p (fun _ => True)) c'.1 ds.
Proof.
  intros H2. destruct 1 as [i ps m X f k x m' Hi Hf|ps m m' Hk]; [|done]. cbn in *.
  destruct (Forall2_lookup_l _ _ _ _ _ H2 Hi) as (d & Hd & d' & -> & Hw).
  rewrite <- (list_insert_id ds i (S d') Hd). apply Forall2_insert; [done|].
  eapply within_mono; [apply Hw|lia|done].
Qed.

Lemma psteps_within K (c c' : pool (Mem := Mem)) (ds : list nat) :
  Forall2 (fun p d => within d p (fun _ => True)) c.1 ds -> rtc (pstep K) c c' ->
  Forall2 (fun p d => within d p (fun _ => True)) c'.1 ds.
Proof. intros Hc. induction 1; eauto using pstep_within. Qed.

(** With nobody else, every step is one of those that are left. *)
Lemma nsteps_within k (c c' : pool (Mem := Mem)) : forall ds : list nat,
  Forall2 (fun p d => within d p (fun _ => True)) c.1 ds -> nsteps (pstep (fun _ _ => False)) k c c' ->
  (k <= sum_list ds)%nat.
Proof.
  intros ds H2 Hk. revert ds H2. induction Hk as [|k c1 c2 c3 Hst _ IH]; intros ds H2; [lia|].
  destruct Hst as [i ps m X f g x m' Hi Hf|]; [|done]. cbn in *.
  destruct (Forall2_lookup_l _ _ _ _ _ H2 Hi) as (d & Hd & d' & -> & Hw).
  assert (sum_list ds = S (sum_list (<[i := d']> ds))) as ->.
  { clear -Hd. revert i Hd. induction ds as [|a ds IH]; intros [|i] Hd; simplify_eq/=; [done|].
    rewrite (IH i Hd). lia. }
  apply le_n_S, IH. by apply Forall2_insert.
Qed.
End Within.

Ltac within_step := first
  [ by apply within_try_act | by apply within_act | exact I
  | apply within_then; [first [apply within_try_act | apply within_act]|intros ?] ].

Lemma within_completeWrite fuel : within (2 * fuel) (completeWrite fuel) (fun _ => True).
Proof.
  induction fuel as [|fuel IH]; [done|]. cbn [completeWrite].
  replace (2 * S fuel)%nat with (S (S (2 * fuel))) by lia.
  within_step. destruct (_ =? 0); [done|]. within_step. by destruct a0.
Qed.

Lemma within_SubmitEntry fuel :
  within (8 * fuel) (Ring_SubmitEntry fuel) (fun x => within (2 * fuel + 1) x.2 (fun _ => True)).
Proof.
  induction fuel as [|fuel IH]; [done|]. cbn [Ring_SubmitEntry].
  replace (8 * S fuel)%nat with (8 + 8 * fuel)%nat by lia. cbn [Nat.add].
  assert (forall d, (8 * fuel <= d)%nat -> within d (Ring_SubmitEntry fuel)
            (fun x => within (2 * S fuel + 1) x.2 (fun _ => True))) as IH'.
  { intros d Hd. eapply within_mono; [exact IH|done|]. intros x Hx. eapply within_mono; [exact Hx|lia|done]. }
  do 4 within_step. destruct (_ <=? _).
  - within_step. destruct (negb _); [apply IH'; lia|]. within_step. destruct (negb _); [apply IH'; lia|].
    do 2 within_step. cbn [within snd]. eapply within_bind; [apply within_completeWrite|].
    intros [] _. apply within_try_act.
  - within_step. apply IH'. lia.
Qed.

(** The actions of one call: [fuel] attempts of eight actions to claim an entry,
    at most sixteen to fill it in, [fuel] attempts of two to complete the write,
    the store into the array, and the read of the identifier. *)
Definition call_steps (fuel : nat) : nat := 8 * fuel + (16 + (2 * fuel + 1 + 1)).

Lemma within_elem0 {B} d s (k : Z -> prog Mem B) R :
  (forall a, within d (k a) R) -> within d (elem0 s ≫= k) R.
Proof. intros Hk. unfold elem0. by destruct (_ <? _); [apply Hk|]. Qed.

Ltac within_fill := first
  [ within_step
  | apply within_elem0; intros ?
  | match goal with |- within _ (if ?c then _ else _) _ => destruct c end
  | apply within_then; [match goal with |- within _ (if ?c then _ else _) _ => destruct c end|intros ?] ].

Lemma within_prepare fuel fill :
  (forall i, within 16 (fill i) (fun _ => True)) ->
  within (call_steps fuel) (prepare fuel fill) (fun _ => True).
Proof.
  intros Hf. eapply within_bind; [apply within_SubmitEntry|]. intros [[i|] rdy] Hr; [|done].
  eapply within_bind; [apply Hf|]. intros [] _.
  eapply within_bind; [exact Hr|]. intros [] _. by within_step.
Qed.

Lemma within_dispatch fuel r : within (call_steps fuel) (dispatch fuel r) (fun _ => True).
Proof.
  destruct r; (apply within_prepare; intros i);
    repeat match goal with v : var (option Z) |- _ => destruct v as [? []] end;
    cbn [v_val]; repeat within_fill.
Qed.

(** ** Clients *)

(** The calls other than [Enter], which waits for its turn at the barrier. *)
Definition prepares (c : call) : Prop :=
  match c with CEnter _ _ _ => False | _ => True end.

Section Clients.
Context {K : Kernel} (fuel : nat).

Lemma within_client cs :
  Forall prepares cs -> within (length cs * call_steps fuel) (client fuel cs) (fun _ => True).
Proof.
  induction 1 as [|c cs Hc _ IH]; [done|]. cbn [client length Nat.mul].
  apply (within_bind _ _ _ _ (fun _ => True)); [|auto].
  destruct c as [r|f|]; [| |done].
  - rewrite <- (Nat.add_0_r (call_steps fuel)). eapply within_bind; [apply within_dispatch|done].
  - unfold call_steps. eapply within_bind; [apply within_SubmitEntry|].
    intros [[i|] rdy] Hr; [|done]. apply (within_then (15 + (2 * fuel + 1 + 1))); [apply within_try_act|].
    intros []. eapply within_mono; [exact Hr|lia|done].
Qed.

Context (L : Z) (HL : pow2_size L) (C : nat) (HC : (C < fuel)%nat).

Lemma lives_call c b n v :
  prepares c -> (n + 3 + b <= C)%nat ->
  lives hot (open_ring L) C (3 + b) n v (call_prog fuel c)
    (fun _ b' n' _ => b' = b /\ (n' + b <= C)%nat).
Proof.
  intros Hc Hb. destruct c as [r|f|]; [| |done].
  - eapply lives_bind; [by apply lives_dispatch|done].
  - eapply lives_bind; [apply lives_SubmitEntry; [done|lia..]|].
    intros x b' n1 v1 (-> & Hb1 & pos & k & next & head & mask & -> & Hk). cbn beta iota.
    eapply lives_bind.
    { apply (lives_calm _ _ _ _ n1 v1 _ (fun n _ => (n1 <= n)%nat)); [apply calm_update|apply stable_ge|lia|done]. }
    intros [] b' n2 v2 (-> & Hb2 & H2). apply lives_ready; lia.
Qed.

Lemma lives_client cs n v :
  Forall prepares cs -> (n + 3 * length cs <= C)%nat ->
  lives hot (open_ring L) C (3 * length cs) n v (client fuel cs) (fun _ _ _ _ => True).
Proof.
  intros Hcs. revert n v. induction Hcs as [|c cs Hc _ IH]; intros n v Hb; [done|].
  cbn [client length] in *. replace (3 * S (length cs))%nat with (3 + 3 * length cs)%nat in * by lia.
  eapply lives_bind; [apply lives_call; [done|lia]|].
  intros [] b' n' v' [-> Hb']. by apply IH.
Qed.
End Clients.

(** The calls of all the goroutines. *)
Definition total_calls (clients : list (list call)) : nat := sum_list (length <$> clients).

Lemma total_calls_cons cs l : total_calls (cs :: l) = (length cs + total_calls l)%nat.
Proof. done. Qed.

Lemma calls_le_total cs clients : cs ∈ clients -> (length cs <= total_calls clients)%nat.
Proof.
  induction 1 as [|cs' l H IH]; rewrite total_calls_cons; lia.
Qed.

Lemma sum_call_steps fuel clients :
  sum_list ((fun cs : list call => (length cs * call_steps fuel)%nat) <$> clients) =
  (total_calls clients * call_steps fuel)%nat.
Proof.
  induction clients as [|cs l IH]; [done|].
  rewrite total_calls_cons, Nat.mul_add_distr_r, <- IH. done.
Qed.

(** The budgets at the start. *)
Lemma budgets_start (m : Mem) clients :
  sum_list (budget <$> ((fun cs : list call => (3 * length cs, 0, hot m)%nat) <$> clients)) =
  (3 * total_calls clients)%nat.
Proof.
  induction clients as [|cs l IH]; [done|]. rewrite total_calls_cons, Nat.mul_add_distr_l, <- IH.
  done.
Qed.

Lemma kernel_keeps_open L m m' :
  kernel_step m m' -> open_ring L m -> open_ring L m' /\ hot m' = hot m.
Proof.
  intros [v ->] (q & Hm & Hwf & Hl & He). split.
  - exists (view_sq v q). split; [unfold apply_view, m_sq in *; cbn; by rewrite Hm|].
    split; [|done]. apply (sq_wf_update q); cbn; auto with slices ints.
  - unfold hot, apply_view, m_sq in *. cbn. by rewrite Hm.
Qed.

Section Together.
Context (K : Kernel) (fuel : nat) (clients : list (list call)) (m : Mem) (q : SubmitQueue).
Context (Hs : start m q) (Hc : Forall (Forall prepares) clients).
Context (Hfuel : (3 * total_calls clients < fuel)%nat).

Lemma clients_live c :
  rtc (pstep kernel_step) (client fuel <$> clients, m) c ->
  pool_lives hot (open_ring (len (sq_Entries q))) (3 * total_calls clients) c.
Proof.
  destruct Hs as [Hm Hwf He _ _ _].
  apply psteps_lives; [apply kernel_keeps_open|]. split; [by exists q|].
  exists 0%nat, ((fun cs => (3 * length cs, 0, hot m)%nat) <$> clients). split.
  - by rewrite budgets_start.
  - cbn. apply Forall2_fmap, Forall_Forall2_diag, Forall_forall. intros cs Hin.
    split_and!; [done|done|]. eapply lives_client; [apply Hwf|done| |].
    + by eapply Forall_forall in Hc.
    + apply calls_le_total in Hin. lia.
Qed.
End Together.

(** C15. Progress: goroutines that prepare requests on one ring, while nobody is
    inside [Enter], are never left spinning.  In every state of every
    interleaving, with the kernel moving its side at any time, each goroutine
    has returned or can perform its next action (no loop has run out of its
    attempts, of which one more than three for each call of all the goroutines
    is enough), and it returns after at most [call_steps] of its own actions for
    each of its calls.  So every execution in which only the goroutines move ends,
    and it ends with all of them returned. *)
Theorem clients_progress (K : Kernel) (fuel : nat) (clients : list (list call))
    (m : Mem) (q : SubmitQueue) (ps : list (prog Mem unit)) (m' : Mem)
    (Hs : start m q) (HN : Z.of_nat (length clients) < 2 ^ 32)
    (Hok : Forall (Forall call_ok) clients) (Hc : Forall (Forall prepares) clients)
    (Hfuel : (3 * total_calls clients < fuel)%nat)
    (Hr : rtc (pstep kernel_step) (client fuel <$> clients, m) (ps, m')) :
  (forall i cs, clients !! i = Some cs ->
     exists p, ps !! i = Some p /\ (p = Ret tt \/ exists X f k, p = Step X f k) /\
       within (length cs * call_steps fuel) p (fun _ => True)) /\
  (forall k, nsteps (pstep (fun _ _ => False)) k (client fuel <$> clients, m) (ps, m') ->
     (k <= total_calls clients * call_steps fuel)%nat).
Proof.
  assert (Forall2 (fun p d => within d p (fun _ => True)) (client fuel <$> clients)
            ((fun cs => (length cs * call_steps fuel)%nat) <$> clients)) as H0.
  { apply Forall2_fmap, Forall_Forall2_diag. eapply Forall_impl; [exact Hc|]. apply within_client. }
  split; [intros i cs Hi|].
  2: { intros k Hk. rewrite <- sum_call_steps.
       exact (nsteps_within k (client fuel <$> clients, m) _ _ H0 Hk). }
  assert (Forall2 (fun p d => within d p (fun _ => True)) ps
            ((fun cs => (length cs * call_steps fuel)%nat) <$> clients)) as Hw.
  { by eapply (psteps_within _ (client fuel <$> clients, m) (ps, m')). }
  assert (((fun cs => (length cs * call_steps fuel)%nat) <$> clients) !! i =
            Some (length cs * call_steps fuel)%nat) as Hd by by rewrite list_lookup_fmap, Hi.
  destruct (Forall2_lookup_r _ _ _ _ _ Hw Hd) as (p & Hp & Hwp).
  exists p. split_and!; [done| |done].
  pose proof (pool_lives_no_starve _ _ _ _ i
    (clients_live K fuel clients m q Hs Hc Hfuel (ps, m') Hr)) as Hst.
  destruct p as [[]|X f k|s|]; [by left|right; eauto| |by destruct Hst].
  destruct (client_no_panic fuel clients m q ps m' i cs s Hs HN Hr Hi); [|done]. by eapply Forall_lookup_1.
Qed.

(** ** Witness: three calls by two goroutines on the sample ring *)

Definition preparing_clients : list (list call) :=
  [[CRequest RNop; CSubmit (set_sqe_Fd 7)]; [CSubmit (set_sqe_Fd 8)]].

Definition preparing_mem : Mem :=
  outcome_mem sample_mem (exec (client (K := still_kernel 1 0) 10 [CSubmit (set_sqe_Fd 8)]) sample_mem).

(** The second goroutine runs to its end. *)
Lemma preparing_reach :
  rtc (pstep kernel_step) (client (K := still_kernel 1 0) 10 <$> preparing_clients, sample_mem)
    (<[1%nat := Ret tt]> (client (K := still_kernel 1 0) 10 <$> preparing_clients), preparing_mem).
Proof.
  eapply pool_runs; [reflexivity|]. intros n. eexists. vm_compute. reflexivity.
Qed.

Lemma clients_progress_witness :
  exists p, (<[1%nat := Ret tt]> (client (K := still_kernel 1 0) 10 <$> preparing_clients)) !! 0%nat = Some p /\
    (p = Ret tt \/ exists X f k, p = Step X f k) /\ within (2 * call_steps 10) p (fun _ => True).
Proof.
  apply (clients_progress (still_kernel 1 0) 10 preparing_clients sample_mem sample_sq _ preparing_mem
           sample_start ltac:(vm_compute; reflexivity) ltac:(repeat constructor) ltac:(repeat constructor)
           ltac:(cbn; lia) preparing_reach) with (i := 0%nat) (cs := [CRequest RNop; CSubmit (set_sqe_Fd 7)]).
  reflexivity.
Defined.
