(* ===== verification/Barrier.v ===== *)
(** * What the barrier of Enter lets through (ring.go, types.go)

    [Enter] acquires a barrier before the system call, and [SubmitEntry] counts
    the entries that are being written.  The barrier keeps out other callers of
    [Enter]; it does not wait for the writers.  Whatever the request is, there is
    an interleaving in which the kernel is entered while the claimed entry, which
    the tail already covers, is still blank. *)

From stdpp Require Import base list gmap strings relations.
From Stdlib Require Import ZArith Lia.
From S2P Require Import Prelude Prog Consts Types Machine Samples Submission SubmissionSpec Ops OpsSpec Concurrency.

(** Every [Prepare] function has the same frame. *)
Lemma dispatch_prepare fuel r : exists fill, dispatch fuel r = prepare fuel fill.
Proof. destruct r; eexists; reflexivity. Qed.

Section Interleaving.
Context {K : Kernel} (fuel : nat).

(** The first goroutine claims its entry. *)
Lemma request_claims r ps m q :
  (0 < length ps)%nat -> m_sq m = Some q -> sq_wf q -> sq_entered q = 0 ->
  exists p, rtc (pstep kernel_step) (<[0%nat := client (S fuel) [CRequest r]]> ps, m)
    (<[0%nat := p]> ps, add_claim (sq_tail_pos q) (put_sq (sq_claim q) m)).
Proof.
  intros Hl Hm Hwf He. destruct (dispatch_prepare (S fuel) r) as [fill Hd].
  cbn [client call_prog]. rewrite Hd. unfold prepare. eexists.
  eapply (pool_next kernel_step (fun p => (p ≫= fun _ => Ret tt) ≫= fun _ => Ret tt) (Ring_SubmitEntry (S fuel)));
    [done|done|by apply runs_SubmitEntry|]. apply rtc_refl.
Qed.

(** The second one goes through the barrier into the kernel. *)
Lemma Enter_gets_in a b fl ps m q :
  (1 < length ps)%nat -> m_sq m = Some q -> sq_entered q = 0 ->
  exists p, rtc (pstep kernel_step) (<[1%nat := client (S fuel) [CEnter a b fl]]> ps, m)
    (<[1%nat := p]> ps, set_m_in_enter (m_in_enter m + 1) (put_sq (set_sq_entered 1 q) m)).
Proof.
  intros Hl Hm He. cbn [client call_prog]. unfold Ring_Enter, Enter, syscall_enter.
  set (C := fun p : prog Mem (Z * err) => (p ≫= fun _ => Ret tt) ≫= fun _ : unit => Ret tt).
  assert (forall X f g, C (Step X f g) = Step X f (fun x => C (g x))) as HC by done. eexists.
  eapply (pool_next kernel_step C SubmitQueue_NeedWakeup); [done|done|by run_step; apply runs_ret|].
  eapply (pool_next kernel_step C (enterLock (S fuel))); [done|done|by apply runs_enterLock|].
  eapply (pool_next kernel_step C (ring_load r_fd)); [done|done|by apply runs_load|].
  match goal with
  | |- rtc _ (<[_ := C ((_ ≫= ?k2) ≫= ?k3)]> _, _) _ =>
      eapply (pool_next kernel_step (fun p => C ((p ≫= k2) ≫= k3)) (store _)); [done|done|by apply runs_store|]
  end.
  apply rtc_refl.
Qed.
End Interleaving.

(** C16. The barrier of [Enter] ignores the writers: for every request one goroutine
    prepares and every call of [Enter] by another there is an interleaving that
    brings the second into io_uring_enter while the first has claimed its entry
    and not written a field of it.  The tail covers the entry, its index is not in
    the array, and its contents are those of [Reset]. *)
Theorem Enter_ignores_writers (K : Kernel) (fuel : nat) (r : request) (a b fl : Z) (m : Mem) (q : SubmitQueue)
    (Hs : start m q) :
  let pos := sq_tail_pos q in
  exists ps m' q', rtc (pstep kernel_step) (client (S fuel) <$> [[CRequest r]; [CEnter a b fl]], m) (ps, m') /\
    m_sq m' = Some q' /\ m_in_enter m' = 1 /\ sq_entered q' = 1 /\ sq_writes q' = 1 /\
    sq_Tail q' = pos + 1 /\ sq_Array q' = sq_Array q /\
    exists e, slice_get (sq_Entries q) pos = Some e /\
      slice_get (sq_Entries q') pos = Some (SubmitEntry_Reset e).
Proof.
  destruct Hs as [Hm Hwf He Hw Hi Hc]. intros pos.
  set (m1 := add_claim pos (put_sq (sq_claim q) m)).
  destruct (request_claims fuel r (client (S fuel) <$> [[CRequest r]; [CEnter a b fl]]) m q)
    as (p1 & H1); [cbn; lia|done..|].
  destruct (Enter_gets_in fuel a b fl [p1; client (S fuel) [CEnter a b fl]] m1 (sq_claim q))
    as (p2 & H2); [cbn; lia|done|done|].
  destruct (slice_get_in (sq_Entries q) pos) as [e Hget]; [by apply sq_pos_range|].
  do 3 eexists. split; [etrans; [exact H1|exact H2]|]. split; [done|]. cbn. split_and!; try done.
  - lia.
  - by rewrite Hw.
  - exists e. split; [done|]. by apply slice_get_alter_eq.
Qed.

Lemma Enter_ignores_writers_witness :
  let K := still_kernel 1 0 in
  exists ps m' q', rtc (pstep kernel_step)
      (client 1 <$> [[CRequest RNop]; [CEnter 1 0 EnterGetEvents]], sample_mem) (ps, m') /\
    m_sq m' = Some q' /\ m_in_enter m' = 1 /\ sq_entered q' = 1 /\ sq_writes q' = 1 /\
    sq_Tail q' = 1 /\ sq_Array q' = sq_Array sample_sq /\
    exists e, slice_get (sq_Entries sample_sq) 0 = Some e /\
      slice_get (sq_Entries q') 0 = Some (SubmitEntry_Reset e).
Proof.
  intros K.
  apply (Enter_ignores_writers (still_kernel 1 0) 0 RNop 1 0 EnterGetEvents sample_mem sample_sq sample_start).
Defined.
