(* ===== verification/Isolation.v ===== *)
(** * Goroutines do not write each other's entries

    Any number of goroutines prepare requests on one ring at the same time.  Every
    goroutine owns the positions it has claimed together with what the entries
    there contain, and the right to a number of further claims; together they
    claim no more positions than the ring has.  No two goroutines own the same
    position, so an entry holds what its goroutine has written, in every
    interleaving, and when all have returned every call has its own entry. *)

From stdpp Require Import base list gmap strings relations.
From Stdlib Require Import ZArith Lia.
From S2P Require Import Prelude Prog Consts Types Machine Samples Submission SubmissionSpec Ops OpsSpec Concurrency Progress.

(** ** Ownership of positions *)

(** Exclusive ownership: a position with the contents of its entry, or an
    identifier; [None] where two goroutines claim to own it. *)
Abbreviation excl A := (gmap Z (option A)).
Definition excl_op {A} (a b : excl A) : excl A := union_with (fun _ _ => Some None) a b.
#[global] Arguments excl_op : simpl never.

#[global] Instance excl_assoc {A} : Assoc (=) (@excl_op A).
Proof.
  intros a b c. apply map_eq. intros i. unfold excl_op. rewrite !lookup_union_with.
  by destruct (a !! i), (b !! i), (c !! i).
Qed.
#[global] Instance excl_comm {A} : Comm (=) (@excl_op A).
Proof.
  intros a b. apply map_eq. intros i. unfold excl_op. rewrite !lookup_union_with.
  by destruct (a !! i), (b !! i).
Qed.

Lemma excl_op_l {A} (a b : excl A) i e :
  excl_op a b !! i = Some (Some e) -> forall c, a !! i = Some c -> c = Some e /\ b !! i = None.
Proof.
  unfold excl_op. rewrite lookup_union_with. intros H c Hc. rewrite Hc in H.
  by destruct (b !! i); simplify_eq/=.
Qed.

Lemma excl_op_none {A} (a b : excl A) i : excl_op a b !! i = None <-> a !! i = None /\ b !! i = None.
Proof.
  unfold excl_op. rewrite lookup_union_with. destruct (a !! i), (b !! i); naive_solver.
Qed.

Lemma excl_op_twice {A} (a b : excl A) i : a !! i <> None -> b !! i <> None -> excl_op a b !! i = Some None.
Proof. unfold excl_op. rewrite lookup_union_with. by destruct (a !! i), (b !! i). Qed.

Lemma excl_op_insert {A} (a o : excl A) i c :
  o !! i = None -> excl_op (<[i := c]> a) o = <[i := c]> (excl_op a o).
Proof.
  intros Ho. apply map_eq. intros j. unfold excl_op. rewrite lookup_union_with.
  destruct (decide (i = j)) as [<-|Hne].
  - by rewrite !lookup_insert_eq, Ho.
  - by rewrite !lookup_insert_ne, lookup_union_with.
Qed.

(** ** Tokens *)

(** The entries being written; the claims and the identifiers that are left; the
    positions and the identifiers taken. *)
Record grip := mkGrip {
  g_writing : Z; g_left : Z; g_own : excl SubmitEntry_t; g_idleft : Z; g_ids : excl unit
}.
Definition grip_op (a b : grip) : grip :=
  mkGrip (g_writing a + g_writing b) (g_left a + g_left b) (excl_op (g_own a) (g_own b))
    (g_idleft a + g_idleft b) (excl_op (g_ids a) (g_ids b)).
Definition grip0 : grip := mkGrip 0 0 ∅ 0 ∅.
Definition grip_valid (t : grip) : Prop := 0 <= g_writing t <= 1 /\ 0 <= g_left t /\ 0 <= g_idleft t.

#[global] Instance grip_assoc : Assoc (=) grip_op.
Proof. intros [] [] []. unfold grip_op. cbn. f_equal; (lia || apply excl_assoc). Qed.
#[global] Instance grip_comm : Comm (=) grip_op.
Proof. intros [] []. unfold grip_op. cbn. f_equal; (lia || apply excl_comm). Qed.

Create HintDb grip.
#[export] Hint Extern 1 (grip_valid _) => (unfold grip_valid in *; cbn in *; lia) : grip.

Lemma grips_bounds ts :
  Forall grip_valid ts ->
  0 <= g_writing (total grip_op grip0 ts) <= Z.of_nat (length ts) /\
  0 <= g_left (total grip_op grip0 ts) /\ 0 <= g_idleft (total grip_op grip0 ts).
Proof.
  induction 1 as [|t ts (? & ? & ?) _ IH]; [done|].
  rewrite total_cons. cbn [g_writing g_left g_idleft grip_op length]. lia.
Qed.

(** The token after a store into an entry, and after a new identifier. *)
Definition set_own (i : Z) (e : SubmitEntry_t) (t : grip) : grip :=
  mkGrip (g_writing t) (g_left t) (<[i := Some e]> (g_own t)) (g_idleft t) (g_ids t).
Definition take_id (id : Z) (t : grip) : grip :=
  mkGrip (g_writing t) (g_left t) (g_own t) (g_idleft t - 1) (<[id := Some tt]> (g_ids t)).
Definition set_writing (w : Z) (t : grip) : grip :=
  mkGrip w (g_left t) (g_own t) (g_idleft t) (g_ids t).

Section Isolation.
(** The size of the ring, the tail and the last identifier at the start, and the
    number of calls. *)
Context (L t0 i0 n : Z) (HL : pow2_size L) (Hn : n <= L).

(** ** The invariant *)

Record iso (t : grip) (m : Mem) (q : SubmitQueue) : Prop := {
  iso_wf : sq_wf q;
  iso_len : len (sq_Entries q) = L;
  iso_entered : sq_entered q = 0;
  iso_writes : sq_writes q = g_writing t;
  iso_claims : claims_ok L t0 q m;
  iso_left : len (m_claims m) + g_left t = n;
  iso_own : forall i c, g_own t !! i = Some c ->
    i ∈ m_claims m /\ exists e, c = Some e /\ slice_get (sq_Entries q) i = Some e;
  iso_ids : exists k, 0 <= k /\ k + g_idleft t <= n /\ r_idx (m_ring m) = u64 (i0 + k) /\
    forall id c, g_ids t !! id = Some c -> c = Some tt /\ exists j, 1 <= j <= k /\ id = u64 (i0 + j)
}.
Definition isolated (t : grip) (m : Mem) : Prop := exists q, m_sq m = Some q /\ iso t m q.

Lemma kernel_keeps_isolated t m m' : kernel_step m m' -> isolated t m -> isolated t m'.
Proof.
  intros [v ->] (q & Hm & [Hwf ? ? ? ? ? ? ?]). exists (view_sq v q). split.
  - unfold apply_view, m_sq in *. cbn. by rewrite Hm.
  - split; try done. apply (sq_wf_update q); cbn; auto with slices ints.
Qed.

Context (N : nat) (HN : Z.of_nat N < 2 ^ 32).
Abbreviation OWN := (can grip_op grip0 grip_valid N isolated).

Lemma grip_frame_bounds o :
  frame grip_op grip0 grip_valid N o -> 0 <= g_writing o < Z.of_nat N /\ 0 <= g_left o /\ 0 <= g_idleft o.
Proof. intros (ts & Hlen & Hv & ->). pose proof (grips_bounds ts Hv). lia. Qed.

(** ** Rules for the actions *)

Lemma own_sq_load {A} t (f : SubmitQueue -> A) (Q : A -> grip -> Prop) :
  grip_valid t ->
  (forall o m q, frame grip_op grip0 grip_valid N o -> m_sq m = Some q -> iso (grip_op t o) m q -> Q (f q) t) ->
  OWN t (sq_load f) Q.
Proof.
  intros Hv HQ o m Ho (q & Hm & Hq). exists t. cbn. rewrite Hm. cbn.
  split_and!; [done|by exists q|]. by apply (HQ o m).
Qed.

(** A new identifier is one that nobody has. *)
Lemma own_ID t (Q : Z -> grip -> Prop) :
  grip_valid t -> 0 < g_idleft t -> (forall id, g_ids t !! id = None -> Q id (take_id id t)) -> OWN t Ring_ID Q.
Proof.
  intros Hv Hl HQ o m Ho (q & Hm & [? ? ? ? ? ? ? (k & Hk & Hkn & Hidx & Hids)]).
  pose proof (grip_frame_bounds o Ho) as (_ & _ & Hol). pose proof (pow2_size_u32 L HL).
  set (id := u64 (r_idx (m_ring m) + 1)).
  assert (id = u64 (i0 + (k + 1))) as Hid.
  { unfold id. rewrite Hidx. unfold uwrap. rewrite Zplus_mod_idemp_l. f_equal. lia. }
  assert (g_ids (grip_op t o) !! id = None) as Hnone.
  { destruct (g_ids (grip_op t o) !! id) as [c|] eqn:E; [|done].
    destruct (Hids _ _ E) as (_ & j & Hj & Hidj). rewrite Hid in Hidj. cbn in Hkn.
    destruct (ring_position_ne (2 ^ 64) i0 j (k + 1)); [lia|lia|done]. }
  pose proof (proj1 (excl_op_none _ _ _) Hnone) as [Ht Hoi].
  exists (take_id id t). split_and!; [auto with grip| |by apply HQ].
  exists q. split; [done|]. split; try done. exists (k + 1). cbn in *. rewrite excl_op_insert by done.
  split_and!; [lia|lia|exact Hid|]. intros id' c. destruct (decide (id = id')) as [<-|Hne].
  - rewrite lookup_insert_eq. intros [= <-]. split; [done|]. exists (k + 1). split; [lia|done].
  - rewrite lookup_insert_ne by done. intros H'. destruct (Hids _ _ H') as (? & j & Hj & ?).
    split; [done|]. exists j. split; [lia|done].
Qed.

(** What the invariant says of an owned position. *)
Lemma iso_entry t o m q i e :
  iso (grip_op t o) m q -> g_own t !! i = Some (Some e) ->
  0 <= i < L /\ slice_get (sq_Entries q) i = Some e /\ g_own o !! i = None.
Proof.
  intros Hq Hi. destruct (g_own (grip_op t o) !! i) as [c|] eqn:E.
  - destruct (iso_own _ _ _ Hq i c E) as (_ & e' & -> & Hget).
    destruct (excl_op_l _ _ _ _ E _ Hi) as [[= <-] Ho].
    apply slice_get_Some in Hget as Hrange. rewrite (iso_len _ _ _ Hq) in Hrange. naive_solver.
  - apply excl_op_none in E as [E _]. congruence.
Qed.

Lemma own_sq_entry t i e (Q : SubmitEntry_t -> grip -> Prop) :
  grip_valid t -> g_own t !! i = Some (Some e) -> Q e t -> OWN t (sq_entry i) Q.
Proof.
  intros Hv Hi HQ o m Ho (q & Hm & Hq). destruct (iso_entry _ _ _ _ _ _ Hq Hi) as (_ & Hget & _).
  exists t. cbn. rewrite Hm. cbn. rewrite Hget. split_and!; [done|by exists q|done].
Qed.

(** A store into an entry that the goroutine owns. *)
Lemma own_update t i e g (Q : unit -> grip -> Prop) :
  grip_valid t -> g_own t !! i = Some (Some e) -> Q tt (set_own i (g e) t) ->
  OWN t (sq_update_entry i g) Q.
Proof.
  intros Hv Hi HQ o m Ho (q & Hm & Hq). destruct (iso_entry _ _ _ _ _ _ Hq Hi) as (HiL & Hget & Hoi).
  exists (set_own i (g e) t). cbn. rewrite Hm. cbn. rewrite Hget. cbn.
  rewrite (slice_set_alter _ _ e) by done. cbn. split_and!; [done| |done].
  eexists. split; [done|]. destruct Hq as [Hwf ? ? ? ? ? Hown ?].
  split; cbn; autorewrite with slices; try done.
  - apply (sq_wf_update q); cbn; autorewrite with slices; auto with slices.
  - intros j c. rewrite excl_op_insert by done. destruct (decide (i = j)) as [<-|Hne].
    + rewrite lookup_insert_eq. intros [= <-]. split.
      * destruct (g_own (grip_op t o) !! i) as [c|] eqn:E; [by apply (Hown i c)|].
        apply excl_op_none in E as [E _]. congruence.
      * exists (g e). split; [done|]. by apply slice_get_alter_eq.
    + rewrite lookup_insert_ne by done. intros Hj. rewrite slice_get_alter_ne by (lia || done). by apply Hown.
Qed.

Lemma own_store_array t i v (Q : unit -> grip -> Prop) :
  grip_valid t -> 0 <= i < L -> Q tt t -> OWN t (sq_store_array i v) Q.
Proof.
  intros Hv Hi HQ o m Ho (q & Hm & Hq). exists t. cbn. rewrite Hm. cbn. rewrite slice_set_in.
  2: { rewrite (sqwf_array q), (iso_len _ _ _ Hq); [done|apply Hq]. }
  cbn. split_and!; [done| |done]. eexists. split; [done|]. destruct Hq as [Hwf ? ? ? ? ? ? ?].
  split; try done. apply (sq_wf_update q); cbn; autorewrite with slices; auto with slices.
Qed.

(** ** Rules for the operations *)

Definition claim_one (i : Z) (e : SubmitEntry_t) (t : grip) : grip :=
  mkGrip (g_writing t) (g_left t - 1) (<[i := Some e]> (g_own t)) (g_idleft t) (g_ids t).

(** A claim takes a position that nobody owns. *)
Lemma own_claim_tail tail t (Q : bool -> grip -> Prop) :
  grip_valid t -> 0 < g_left t ->
  (forall e, g_own t !! (tail mod L) = None -> Q true (claim_one (tail mod L) e t)) -> Q false t ->
  OWN t (claim_tail tail (tail mod L + 1) (tail mod L)) Q.
Proof.
  intros Hv Hl HQt HQf o m Ho (q & Hm & Hq). cbn. rewrite Hm. cbn.
  destruct (Z.eqb_spec (sq_Tail q) tail) as [<-|He]; cbn.
  2: { exists t. split_and!; [done|by exists q|done]. }
  destruct Hq as [Hwf Hlen Hent Hwr Hc Hleft Hown Hids].
  assert (sq_Tail q mod L = sq_tail_pos q) as Hpos by (unfold sq_tail_pos; by rewrite sq_pos_mod, Hlen).
  rewrite Hpos in *. pose proof (grip_frame_bounds o Ho) as (_ & Hol & _). cbn in Hleft.
  assert (sq_tail_pos q ∉ m_claims m) as Hfresh.
  { destruct Hc as [Hcl ->]. rewrite Hcl at 2. apply ring_position_fresh. unfold len in *. lia. }
  assert (g_own (grip_op t o) !! sq_tail_pos q = None) as Hnone.
  { destruct (g_own (grip_op t o) !! sq_tail_pos q) as [c|] eqn:E; [|done]. by apply Hown in E as [? _]. }
  pose proof (proj1 (excl_op_none _ _ _) Hnone) as [Ht Hoi].
  destruct (slice_get_in (sq_Entries q) (sq_tail_pos q)) as [e Hget]; [auto with slices|].
  exists (claim_one (sq_tail_pos q) e t). split_and!; [auto with grip| |by apply HQt].
  eexists. split; [done|]. split; cbn; try done.
  - by apply abandon_wf.
  - by apply (claims_ok_next _ _ _ m).
  - unfold len in *. rewrite length_app. cbn. lia.
  - intros j c. rewrite excl_op_insert by done. rewrite elem_of_app. destruct (decide (sq_tail_pos q = j)) as [<-|Hne].
    + rewrite lookup_insert_eq. intros [= <-]. split; [right; by apply list_elem_of_singleton|eauto].
    + rewrite lookup_insert_ne by done. intros Hj. destruct (Hown j c Hj) as [? ?]. eauto.
Qed.

(** The count of writers goes up and down with the tokens. *)
Lemma own_writes t (Q : unit -> grip -> Prop) :
  grip_valid t -> g_writing t = 0 -> Q tt (set_writing 1 t) ->
  OWN t (sq_store (fun q => set_sq_writes (u32 (sq_writes q + 1)) q)) Q.
Proof.
  intros Hv Hw HQ o m Ho (q & Hm & Hq). exists (set_writing 1 t). cbn. rewrite Hm. cbn.
  split_and!; [auto with grip| |done]. eexists. split; [done|].
  pose proof (grip_frame_bounds o Ho) as (? & ? & ?). destruct Hq as [Hwf ? ? Hwr ? ? ? ?]. cbn in Hwr.
  split; cbn; try done.
  - apply (sq_wf_update q); cbn; auto with slices.
  - rewrite Hwr, uwrap_id by (unfold is_uint; lia). lia.
Qed.

Lemma own_completeWrite fuel t (Q : unit -> grip -> Prop) :
  grip_valid t -> g_writing t = 1 -> Q tt (set_writing 0 t) -> OWN t (completeWrite fuel) Q.
Proof.
  intros Hv Hw HQ. induction fuel as [|fuel IH]; [done|]. cbn [completeWrite].
  eapply (can_bind _ _ _ _ _ _ _ _ (fun w t1 => t1 = t /\ 0 < w < 2 ^ 32)).
  { apply own_sq_load; [done|]. intros o m q Ho _ Hq. split; [done|].
    pose proof (grip_frame_bounds o Ho) as (? & ? & ?). rewrite (iso_writes _ _ _ Hq). cbn. lia. }
  intros w ? [-> Hw']. destruct (Z.eqb_spec w 0); [lia|].
  eapply (can_bind _ _ _ _ _ _ _ _ (fun b t1 => t1 = if (b : bool) then set_writing 0 t else t)).
  2: { intros [] ? ->; done. }
  intros o m Ho (q & Hm & Hq). cbn. rewrite Hm. cbn.
  destruct (Z.eqb_spec (sq_writes q) w) as [He|He]; cbn.
  - exists (set_writing 0 t). split_and!; [auto with grip| |done]. eexists. split; [done|].
    destruct Hq as [Hwf ? ? Hwr ? ? ? ?]. cbn in *. split; cbn; try done.
    + apply (sq_wf_update q); cbn; auto with slices.
    + rewrite uwrap_id by (unfold is_uint; lia). lia.
  - exists t. split_and!; [done|by exists q|done].
Qed.

Lemma own_ready fuel pos head t (Q : unit -> grip -> Prop) :
  grip_valid t -> g_writing t = 1 -> 0 <= pos < L -> Q tt (set_writing 0 t) ->
  OWN t (ready fuel (pos + 1) head (L - 1)) Q.
Proof.
  intros Hv Hw Hpos HQ. pose proof (pow2_size_u32 L HL).
  eapply (can_bind _ _ _ _ _ _ _ _ (fun _ t1 => t1 = set_writing 0 t));
    [by apply own_completeWrite|].
  intros [] ? ->. rewrite uwrap_id by (unfold is_uint; lia).
  apply own_store_array; [auto with grip|lia|done].
Qed.

(** A goroutine that has claimed [i], with its entry reset. *)
Definition writes_at (i : Z) (e : SubmitEntry_t) (t : grip) : grip :=
  mkGrip 1 (g_left t - 1) (<[i := Some (SubmitEntry_Reset e)]> (g_own t)) (g_idleft t) (g_ids t).

Lemma own_SubmitEntry fuel t (Q : option Z * prog Mem unit -> grip -> Prop) :
  grip_valid t -> g_writing t = 0 -> 0 < g_left t ->
  (forall pos fuel' head e, 0 <= pos < L -> g_own t !! pos = None ->
     Q (Some pos, ready fuel' (pos + 1) head (L - 1)) (writes_at pos e t)) ->
  OWN t (Ring_SubmitEntry fuel) Q.
Proof.
  intros Hv Hw Hl HQ. induction fuel as [|fuel IH]; [done|]. cbn [Ring_SubmitEntry].
  eapply (can_bind _ _ _ _ _ _ _ _ (fun _ t1 => t1 = t)); [by apply own_sq_load|]. intros tail ? ->.
  eapply (can_bind _ _ _ _ _ _ _ _ (fun _ t1 => t1 = t)); [by apply own_sq_load|]. intros head ? ->.
  eapply (can_bind _ _ _ _ _ _ _ _ (fun mask t1 => t1 = t /\ mask = L - 1)).
  { apply own_sq_load; [done|]. intros o m q _ _ [Hwf <-]. split; [done|apply Hwf]. }
  intros mask ? [-> ->]. rewrite land_mask by done.
  pose proof (pow2_size_pos L HL). pose proof (pow2_size_u32 L HL).
  pose proof (Z.mod_pos_bound tail L ltac:(lia)).
  eapply (can_bind _ _ _ _ _ _ _ _ (fun k t1 => t1 = t /\ k = L)).
  { apply own_sq_load; [done|]. by intros o m q _ _ [_ <-]. }
  intros k ? [-> ->]. rewrite !uwrap_id by (unfold is_uint; lia).
  destruct (Z.leb_spec (tail mod L + 1) L); [|lia].
  eapply (can_bind _ _ _ _ _ _ _ _ (fun b t1 => if (b : bool)
    then exists e, g_own t !! (tail mod L) = None /\ t1 = claim_one (tail mod L) e t else t1 = t)).
  { apply own_claim_tail; eauto. }
  intros ok t1 Hok. destruct ok; cbn [negb]; [|by subst]. destruct Hok as (e & Hnone & ->).
  eapply (can_bind _ _ _ _ _ _ _ _ (fun x t1 => t1 = claim_one (tail mod L) e t /\ x = 0)).
  { apply own_sq_load; [auto with grip|]. by intros o m q _ _ []. }
  intros x ? [-> ->]. cbn [Z.eqb negb].
  eapply (can_bind _ _ _ _ _ _ _ _ (fun _ t1 => t1 = set_writing 1 (claim_one (tail mod L) e t))).
  { apply own_writes; [auto with grip|done|done]. }
  intros [] ? ->. eapply (can_bind _ _ _ _ _ _ _ _ (fun _ t1 => t1 = writes_at (tail mod L) e t)).
  - apply (own_update _ _ e); [auto with grip|apply lookup_insert_eq|].
    unfold set_own, writes_at. cbn. by rewrite insert_insert_eq.
  - intros [] ? ->. apply HQ; [lia|done].
Qed.

(** ** Filling in an entry *)

(** [p] applies [g] to the entry at [i] that the goroutine owns, without or with a
    fresh identifier. *)
Definition fillA (i : Z) (p : prog Mem unit) (g : SubmitEntry_t -> SubmitEntry_t) : Prop :=
  forall t e, grip_valid t -> g_own t !! i = Some (Some e) -> OWN t p (fun _ t' => t' = set_own i (g e) t).
Definition fillB (i : Z) (p : prog Mem unit) (g : Z -> SubmitEntry_t -> SubmitEntry_t) : Prop :=
  forall t e, grip_valid t -> 0 < g_idleft t -> g_own t !! i = Some (Some e) ->
    OWN t p (fun _ t' => exists id, g_ids t !! id = None /\ t' = take_id id (set_own i (g id e) t)).

Lemma fillA_upd i g : fillA i (sq_update_entry i g) g.
Proof. intros t e Hv Hi. by apply (own_update _ _ e). Qed.

Lemma fillA_ret i : fillA i (Ret tt) id.
Proof. intros [] e Hv Hi. cbn in *. unfold set_own. cbn. by rewrite insert_id. Qed.

Lemma set_own_set_own i e e' t : set_own i e' (set_own i e t) = set_own i e' t.
Proof. unfold set_own. cbn. by rewrite insert_insert_eq. Qed.

Lemma fillA_seq i p p' g h : fillA i p g -> fillA i p' h -> fillA i (p;; p') (h ∘ g).
Proof.
  intros Hp Hp' t e Hv Hi. eapply can_bind; [by apply Hp|]. intros [] ? ->.
  eapply can_mono; [apply (Hp' _ (g e)); [done|apply lookup_insert_eq]|].
  intros [] ? ->. by rewrite set_own_set_own.
Qed.

Lemma fillB_seq i p p' g h : fillA i p g -> fillB i p' h -> fillB i (p;; p') (fun id => h id ∘ g).
Proof.
  intros Hp Hp' t e Hv Hl Hi. eapply can_bind; [by apply Hp|]. intros [] ? ->.
  eapply can_mono; [apply (Hp' _ (g e)); [done|done|apply lookup_insert_eq]|].
  intros [] ? (id & Hid & ->). exists id. by rewrite set_own_set_own.
Qed.

Lemma fillB_id i (k : Z -> prog Mem unit) h :
  (forall id, fillA i (k id) (h id)) -> fillB i (id ← Ring_ID; k id) h.
Proof.
  intros Hk t e Hv Hl Hi.
  eapply (can_bind _ _ _ _ _ _ _ _ (fun id t1 => g_ids t !! id = None /\ t1 = take_id id t)); [by apply own_ID|].
  intros id ? [Hid ->]. eapply can_mono; [apply (Hk id _ e); [auto with grip|done]|].
  intros [] ? ->. by exists id.
Qed.

Lemma fillA_elem0 i b k h :
  0 < sl_Len b -> fillA i (k (sl_Data b)) h -> fillA i (a ← elem0 b; k a) h.
Proof. intros Hb Hk. unfold elem0. by rewrite (proj2 (Z.ltb_lt _ _) Hb). Qed.

Ltac own_fill := first
  [ apply fillA_upd | apply fillA_ret
  | eapply fillB_seq | eapply fillA_seq
  | eapply fillB_id; intros ? | eapply fillA_elem0; [cbn; lia|] ].

(** Every request applies its row of the table to the entry it has claimed. *)
Lemma dispatch_owned r :
  request_ok r ->
  exists fill g, (forall fuel, dispatch fuel r = prepare fuel fill) /\
    (forall i, fillB i (fill i) g) /\
    (forall id e, g id (SubmitEntry_Reset e) = encode r id (sqe_Anon0 e)).
Proof.
  destruct r; cbn [request_ok str_Len]; intros Hok;
    repeat match goal with
      | v : var (option Z) |- _ => destruct v as [? []]
      | p : gostring |- _ => destruct p as [? l]; destruct (decide (l = 0)) as [->|Hl];
          [|apply Z.eqb_neq in Hl as Hl']
      end.
  all: eexists; eexists; (split; [intros; reflexivity|]); split;
    [intros i; cbn [v_val str_Len] in *; rewrite ?Hl'; cbn [negb Z.eqb]; repeat own_fill|].
  all: intros; cbn; rewrite ?Hl'; done.
Qed.

(** ** Calls *)

(** What the entry of a call must be. *)
Definition call_entry (c : call) (e : SubmitEntry_t) : Prop :=
  match c with
  | CRequest r => exists id anon, e = encode r id anon
  | CSubmit f => exists e0, e = f (SubmitEntry_Reset e0)
  | CEnter _ _ _ => False
  end.

(** The identifiers of the requests among the calls. *)
Definition call_ids (c : call) (pe : Z * SubmitEntry_t) : list Z :=
  match c with CRequest _ => [sqe_UserData pe.2] | _ => [] end.
Definition request_ids (cs : list call) (l : list (Z * SubmitEntry_t)) : list Z :=
  concat (zip_with call_ids cs l).

(** Distinct positions for the calls [cs], with their entries, and distinct
    identifiers for the requests. *)
Definition placed (cs : list call) (l : list (Z * SubmitEntry_t)) : Prop :=
  NoDup l.*1 /\ Forall2 (fun c pe => call_entry c pe.2) cs l /\ NoDup (request_ids cs l).
Definition filled (cs : list call) (t : grip) (l : list (Z * SubmitEntry_t)) : Prop :=
  placed cs l /\ (forall i e, (i, e) ∈ l -> g_own t !! i = Some (Some e)) /\
  forall id, id ∈ request_ids cs l -> g_ids t !! id = Some (Some tt).

Lemma request_ids_snoc cs l c pe :
  length cs = length l -> request_ids (cs ++ [c]) (l ++ [pe]) = request_ids cs l ++ call_ids c pe.
Proof.
  intros Hlen. unfold request_ids. rewrite zip_with_app by done. rewrite concat_app. cbn. by rewrite app_nil_r.
Qed.

(** One more call, with a new position and, if it is a request, a new identifier. *)
Lemma filled_snoc cs t c i e t' l :
  filled cs t l -> g_own t !! i = None -> call_entry c e ->
  g_own t' = <[i := Some e]> (g_own t) ->
  (forall id, id ∈ call_ids c (i, e) -> g_ids t !! id = None /\ g_ids t' !! id = Some (Some tt)) ->
  (forall id, g_ids t !! id = Some (Some tt) -> g_ids t' !! id = Some (Some tt)) ->
  filled (cs ++ [c]) t' (l ++ [(i, e)]).
Proof.
  intros ((Hnd & H2 & Hids) & Hl & Hid) Hi He Ht' Hnew Hold.
  pose proof (Forall2_length _ _ _ H2) as Hlen. split; [split_and!|split].
  - rewrite fmap_app. apply NoDup_app. split_and!; [done| |apply NoDup_singleton].
    intros j Hj Hin. cbn in Hin. apply list_elem_of_singleton in Hin as ->.
    apply list_elem_of_fmap in Hj as ([j' e'] & E & Hj). specialize (Hl _ _ Hj). cbn in *. congruence.
  - apply Forall2_app; [done|]. by repeat constructor.
  - rewrite request_ids_snoc by done. apply NoDup_app. split_and!; [done| |].
    + intros id Hin Hin'. specialize (Hid _ Hin). destruct (Hnew _ Hin'). congruence.
    + destruct c; [apply NoDup_singleton|apply NoDup_nil_2|apply NoDup_nil_2].
  - intros j e' [Hj|[= -> ->]%list_elem_of_singleton]%elem_of_app; rewrite Ht'; [|apply lookup_insert_eq].
    rewrite lookup_insert_ne; [by apply Hl|]. intros <-. specialize (Hl _ _ Hj). congruence.
  - intros id. rewrite request_ids_snoc by done. intros [Hin|Hin]%elem_of_app; [by apply Hold, Hid|].
    by destruct (Hnew _ Hin).
Qed.

(** After a call: one claim less and at most one identifier less, and one entry more. *)
Definition after_call (t : grip) (cs : list call) (c : call) (t' : grip) : Prop :=
  grip_valid t' /\ g_writing t' = 0 /\ g_left t' = g_left t - 1 /\ g_idleft t - 1 <= g_idleft t' /\
  exists l, filled (cs ++ [c]) t' l.

Lemma encode_UserData r id anon : sqe_UserData (encode r id anon) = id.
Proof. by destruct r. Qed.

Section Calls.
Context {K : Kernel} (fuel : nat).

(** A claim, as the calls use it. *)
Definition claims_one (t : grip) (x : option Z * prog Mem unit) (t1 : grip) : Prop :=
  exists pos fuel' head e, 0 <= pos < L /\ g_own t !! pos = None /\
    x = (Some pos, ready fuel' (pos + 1) head (L - 1)) /\ t1 = writes_at pos e t.

Lemma own_claims t :
  grip_valid t -> g_writing t = 0 -> 0 < g_left t -> OWN t (Ring_SubmitEntry fuel) (claims_one t).
Proof. intros Hv Hw Hl. apply own_SubmitEntry; [done..|]. intros pos fuel' head e ? ?. by exists pos, fuel', head, e. Qed.

Lemma own_request r cs l t :
  request_ok r -> grip_valid t -> g_writing t = 0 -> 0 < g_left t -> 0 < g_idleft t -> filled cs t l ->
  OWN t (dispatch fuel r) (fun _ t' => after_call t cs (CRequest r) t').
Proof.
  intros Hok Hv Hw Hl Hil Hf. destruct (dispatch_owned r Hok) as (fill & g & Hd & Hfill & Henc).
  rewrite Hd. unfold prepare. eapply can_bind; [by apply own_claims|].
  intros x ? (pos & fuel' & head & e & Hpos & Hnone & -> & ->). cbn beta iota.
  eapply can_bind; [apply (Hfill pos _ (SubmitEntry_Reset e)); [auto with grip|done|apply lookup_insert_eq]|].
  intros [] ? (id & Hid & ->). rewrite Henc. set (e' := encode r id (sqe_Anon0 e)).
  set (t1 := take_id id (set_own pos e' (writes_at pos e t))).
  eapply (can_bind _ _ _ _ _ _ _ _ (fun _ t2 => t2 = set_writing 0 t1)).
  { by apply own_ready; [auto with grip|..]. }
  intros [] ? ->. eapply (can_bind _ _ _ _ _ _ _ _ (fun _ t2 => t2 = set_writing 0 t1)).
  { apply (own_sq_entry _ _ e'); [auto with grip|apply lookup_insert_eq|done]. }
  intros e2 ? ->. split_and!; [auto with grip|done|done|done|]. exists (l ++ [(pos, e')]).
  apply (filled_snoc cs t); [done|done|by exists id, (sqe_Anon0 e)|by cbn; rewrite insert_insert_eq| |].
  - intros id'. cbn [call_ids snd]. unfold e'. rewrite encode_UserData. intros ->%list_elem_of_singleton.
    split; [done|]. apply lookup_insert_eq.
  - intros id' Hid'. cbn. rewrite lookup_insert_ne; [done|]. intros <-. cbn in Hid. congruence.
Qed.

Lemma own_submit f cs l t :
  grip_valid t -> g_writing t = 0 -> 0 < g_left t -> filled cs t l ->
  OWN t (submit fuel f) (fun _ t' => after_call t cs (CSubmit f) t').
Proof.
  intros Hv Hw Hl Hf. eapply can_bind; [by apply own_claims|].
  intros x ? (pos & fuel' & head & e & Hpos & Hnone & -> & ->). cbn beta iota.
  eapply can_bind; [apply (fillA_upd pos f _ (SubmitEntry_Reset e)); [auto with grip|apply lookup_insert_eq]|].
  intros [] ? ->. apply own_ready; [auto with grip|done|done|].
  split_and!; [auto with grip|done|done|cbn; lia|]. exists (l ++ [(pos, f (SubmitEntry_Reset e))]).
  apply (filled_snoc cs t); [done|done|by exists e|by cbn; rewrite insert_insert_eq| |done].
  intros id []%elem_of_nil.
Qed.

Lemma own_call c cs l t :
  prepares c -> call_ok c -> grip_valid t -> g_writing t = 0 -> 0 < g_left t -> 0 < g_idleft t -> filled cs t l ->
  OWN t (call_prog fuel c) (fun _ t' => after_call t cs c t').
Proof.
  intros Hp Hok Hv Hw Hl Hil Hf. destruct c as [r|f|]; [| |done]; cbn [call_prog].
  - eapply can_bind; [by eapply own_request|]. by intros ? ? ?.
  - by eapply own_submit.
Qed.

Lemma own_client cs : forall ds l t,
  Forall prepares cs -> Forall call_ok cs -> grip_valid t -> g_writing t = 0 -> g_left t = len cs ->
  len cs <= g_idleft t -> filled ds t l ->
  OWN t (client fuel cs) (fun _ t' => g_writing t' = 0 /\ g_left t' = 0 /\ exists l, filled (ds ++ cs) t' l).
Proof.
  induction cs as [|c cs IH]; intros ds l t Hp Hok Hv Hw Hl Hil Hf; cbn [client].
  - rewrite app_nil_r. split_and!; eauto.
  - apply Forall_cons in Hp as [Hpc Hp], Hok as [Hokc Hok].
    assert (len (c :: cs) = len cs + 1) as Hlen by (unfold len; cbn; lia).
    pose proof (len_nonneg cs). eapply can_bind; [apply (own_call c ds l); [done..|lia|lia|done]|].
    intros [] t' (Hv' & Hw' & Hl' & Hil' & l' & Hf'). rewrite cons_middle, app_assoc.
    apply (IH _ l'); [done..|lia|lia|done].
Qed.
End Calls.
End Isolation.

(** ** Sums of tokens *)

Section Sums.
Context {A : Type} (part : grip -> excl A).
(** A part of the tokens whose sum is [excl_op]. *)
Context (Hpart : forall a b, part (grip_op a b) = excl_op (part a) (part b)).

Lemma total_part_some ts j t i :
  ts !! j = Some t -> part t !! i <> None -> part (total grip_op grip0 ts) !! i <> None.
Proof.
  intros Hj Ht E. rewrite (total_delete _ _ _ _ _ Hj), Hpart in E. by apply excl_op_none in E as [E _].
Qed.

(** What two goroutines own is marked. *)
Lemma total_part_twice ts i j t t' k :
  ts !! i = Some t -> ts !! j = Some t' -> i <> j -> part t !! k <> None -> part t' !! k <> None ->
  part (total grip_op grip0 ts) !! k = Some None.
Proof.
  intros Hi Hj Hne Ht Ht'. rewrite (total_delete _ _ _ _ _ Hi), Hpart. apply excl_op_twice; [done|].
  assert (exists j', delete i ts !! j' = Some t') as [j' Hj'].
  { destruct (decide (j < i)%nat).
    - exists j. by rewrite list_lookup_delete_lt.
    - exists (pred j). rewrite list_lookup_delete_ge by lia. by replace (S (pred j)) with j by lia. }
  by apply (total_part_some _ j' t').
Qed.
End Sums.

Lemma total_idle ts :
  Forall (fun t => g_writing t = 0 /\ g_left t = 0) ts ->
  g_writing (total grip_op grip0 ts) = 0 /\ g_left (total grip_op grip0 ts) = 0.
Proof. induction 1 as [|t ts [? ?] _ [? ?]]; [done|]. rewrite total_cons. cbn in *. lia. Qed.

(** The tokens at the start. *)
Definition first_grip (cs : list call) : grip := mkGrip 0 (len cs) ∅ (len cs) ∅.

Lemma total_first clients :
  total grip_op grip0 (first_grip <$> clients) =
  mkGrip 0 (Z.of_nat (total_calls clients)) ∅ (Z.of_nat (total_calls clients)) ∅.
Proof.
  induction clients as [|cs l IH]; [done|]. rewrite fmap_cons, total_cons, IH, total_calls_cons.
  unfold grip_op. cbn. f_equal; unfold len; (lia || done).
Qed.

Section Pool.
Context {K : Kernel} (fuel : nat) (clients : list (list call)) (m : Mem) (q : SubmitQueue).
Context (Hs : start m q) (HN : Z.of_nat (length clients) < 2 ^ 32).
Context (Hok : Forall (Forall call_ok) clients) (Hp : Forall (Forall prepares) clients).
Context (Hn : Z.of_nat (total_calls clients) <= len (sq_Entries q)) (Hi : is_u64 (r_idx (m_ring m))).

Abbreviation ISO := (isolated (len (sq_Entries q)) (sq_tail_pos q) (r_idx (m_ring m))
  (Z.of_nat (total_calls clients))).

Lemma isolated_start : ISO (total grip_op grip0 (first_grip <$> clients)) m.
Proof.
  destruct Hs as [Hm Hwf He Hw Hin Hc]. rewrite total_first. exists q. split; [done|]. split; try done.
  - unfold claims_ok. rewrite Hc. split; [done|]. cbn. rewrite Z.add_0_r.
    symmetry. apply Z.mod_small. auto with slices.
  - by rewrite Hc.
  - exists 0. rewrite Z.add_0_r, uwrap_id by done. cbn. split_and!; [lia|lia|done|].
    intros id c. by rewrite lookup_empty.
Qed.

(** What a goroutine owns when it has returned. *)
Definition finished (i : nat) (_ : unit) (t : grip) : Prop :=
  g_writing t = 0 /\ g_left t = 0 /\ forall cs, clients !! i = Some cs -> exists l, filled cs t l.

Lemma clients_own c :
  rtc (pstep kernel_step) (client fuel <$> clients, m) c ->
  pool_with grip_op grip0 grip_valid (length clients) ISO finished c.
Proof.
  intros Hr. eapply psteps_with; [apply _|apply _|intros t m1 m2; apply kernel_keeps_isolated| |exact Hr].
  split; [cbn; by rewrite length_fmap|]. exists (first_grip <$> clients). cbn.
  split_and!; [by rewrite !length_fmap| |by apply isolated_start].
  intros i p t Hip Ht. apply list_lookup_fmap_Some in Hip as (cs & -> & Hcs), Ht as (cs' & -> & Hcs').
  simplify_eq. pose proof (len_nonneg cs). split; [unfold grip_valid; cbn; lia|].
  eapply can_mono.
  - apply (own_client _ _ _ _ (sqwf_pow2 q (st_wf _ _ Hs)) Hn _ HN fuel cs [] []);
      [by eapply Forall_lookup_1..|unfold grip_valid; cbn; lia|done|done|done|].
    split_and!; [split_and!; [apply NoDup_nil_2|done|apply NoDup_nil_2]|intros ? ? []%elem_of_nil|intros ? []%elem_of_nil].
  - intros [] t' (? & ? & Hf). split_and!; [done..|]. intros cs'' ?. by simplify_eq.
Qed.

(** The positions of the calls of a goroutine that has returned; none otherwise. *)
Definition positions_of (ps : list (prog Mem unit)) (i : nat) (t : grip) (l : list (Z * SubmitEntry_t)) : Prop :=
  (forall k e, (k, e) ∈ l -> g_own t !! k = Some (Some e)) /\
  forall cs, clients !! i = Some cs ->
    (forall id, id ∈ request_ids cs l -> g_ids t !! id = Some (Some tt)) /\
    (ps !! i = Some (Ret tt) -> placed cs l).

Lemma positions_exist N J ps i p t :
  ps !! i = Some p -> can grip_op grip0 grip_valid N J t p (finished i) -> exists l, positions_of ps i t l.
Proof.
  intros Hip Hcan.
  assert (p <> Ret tt \/ clients !! i = None -> exists l, positions_of ps i t l) as Hnone.
  { intros H. exists []. split; [intros ? ? []%elem_of_nil|]. intros cs Hcs. split; [|destruct H; congruence].
    unfold request_ids. rewrite zip_with_nil_r. intros ? []%elem_of_nil. }
  destruct p as [[]|X f k|s|]; [|apply Hnone; left; congruence..].
  destruct (clients !! i) as [cs|] eqn:Ecs; [|by apply Hnone; right].
  destruct Hcan as (_ & _ & Hf). destruct (Hf cs Ecs) as (l & Hpl & Hin & Hids).
  exists l. split; [done|]. intros cs' Hcs'. by simplify_eq.
Qed.

(** Two goroutines share neither positions nor identifiers. *)
Lemma positions_disjoint ps ts m' q' i j t t' l l' :
  iso (len (sq_Entries q)) (sq_tail_pos q) (r_idx (m_ring m)) (Z.of_nat (total_calls clients))
    (total grip_op grip0 ts) m' q' ->
  ts !! i = Some t -> ts !! j = Some t' -> i <> j -> positions_of ps i t l -> positions_of ps j t' l' ->
  (forall k, k ∈ l.*1 -> k ∉ l'.*1) /\
  forall cs cs' id, clients !! i = Some cs -> clients !! j = Some cs' ->
    id ∈ request_ids cs l -> id ∉ request_ids cs' l'.
Proof.
  intros Hq Ht Ht' Hne [Hown Hids] [Hown' Hids']. split.
  - intros k Hk Hk'. apply list_elem_of_fmap in Hk as ([k1 e] & -> & Hk), Hk' as ([k2 e'] & E & Hk').
    cbn in E. subst k2.
    assert (g_own (total grip_op grip0 ts) !! k1 = Some None) as Hmark.
    { apply (total_part_twice g_own (fun a b => eq_refl) ts i j t t'); [done..| |];
        [rewrite (Hown _ _ Hk)|rewrite (Hown' _ _ Hk')]; done. }
    by destruct (iso_own _ _ _ _ _ _ _ Hq _ _ Hmark) as (_ & e0 & ? & _).
  - intros cs cs' id Hcs Hcs' Hid Hid'. destruct (Hids cs Hcs) as [Hi1 _], (Hids' cs' Hcs') as [Hi2 _].
    assert (g_ids (total grip_op grip0 ts) !! id = Some None) as Hmark.
    { apply (total_part_twice g_ids (fun a b => eq_refl) ts i j t t'); [done..| |];
        [rewrite (Hi1 _ Hid)|rewrite (Hi2 _ Hid')]; done. }
    destruct (iso_ids _ _ _ _ _ _ _ Hq) as (k & _ & _ & _ & H). by destruct (H _ _ Hmark) as [? _].
Qed.
End Pool.

(** C11. Isolation: goroutines that prepare no more requests together than the ring
    has entries do not write each other's entries.  In every state of every
    interleaving, with the kernel moving its side at any time, each goroutine that
    has returned has a position of its own for each of its calls, and the entry
    there is what the call asks for (the row of the table of encodings for a
    [Prepare] function, with an identifier of its own); no position and no
    identifier belongs to two goroutines.  When all have returned there is one claim
    for each call and no writer is left. *)
Theorem clients_isolated (K : Kernel) (fuel : nat) (clients : list (list call))
    (m : Mem) (q : SubmitQueue) (ps : list (prog Mem unit)) (m' : Mem)
    (Hs : start m q) (HN : Z.of_nat (length clients) < 2 ^ 32)
    (Hok : Forall (Forall call_ok) clients) (Hp : Forall (Forall prepares) clients)
    (Hn : Z.of_nat (total_calls clients) <= len (sq_Entries q)) (Hi : is_u64 (r_idx (m_ring m)))
    (Hr : rtc (pstep kernel_step) (client fuel <$> clients, m) (ps, m')) :
  exists q' ls, m_sq m' = Some q' /\ length ls = length clients /\
    (forall i cs l, clients !! i = Some cs -> ls !! i = Some l -> ps !! i = Some (Ret tt) ->
       placed cs l /\ Forall (fun pe => slice_get (sq_Entries q') pe.1 = Some pe.2) l) /\
    (forall i j l l', i <> j -> ls !! i = Some l -> ls !! j = Some l' ->
       (forall pos, pos ∈ l.*1 -> pos ∉ l'.*1) /\
       forall cs cs' id, clients !! i = Some cs -> clients !! j = Some cs' ->
         id ∈ request_ids cs l -> id ∉ request_ids cs' l') /\
    ((forall p, p ∈ ps -> p = Ret tt) -> sq_writes q' = 0 /\ length (m_claims m') = total_calls clients).
Proof.
  pose proof (clients_own fuel clients m q Hs HN Hok Hp Hn Hi (ps, m') Hr)
    as (HlenN & ts & Hlen & Hc & q' & Hm' & Hq). cbn in *.
  assert (length ps = length clients) as Hps.
  { pose proof (psteps_length _ _ _ Hr) as H. cbn in H. by rewrite length_fmap in H. }
  assert (forall i t, ts !! i = Some t -> exists p, ps !! i = Some p) as Hpi.
  { intros i t Ht. apply lookup_lt_is_Some_2. rewrite <- Hlen. by eapply lookup_lt_Some. }
  destruct (list_choice (positions_of clients ps) ts) as (ls & Hls & Hl).
  { intros i t Ht. destruct (Hpi i t Ht) as [p Hp']. eapply positions_exist; [done|]. by apply (Hc i p t). }
  assert (forall i l, ls !! i = Some l -> exists t, ts !! i = Some t /\ positions_of clients ps i t l) as Hpos.
  { intros i l Hli. destruct (lookup_lt_is_Some_2 ts i) as [t Ht]; [rewrite <- Hls; by eapply lookup_lt_Some|].
    eauto. }
  exists q', ls. split_and!; [done|lia| | |].
  - intros i cs l Hcs Hli Hret. destruct (Hpos i l Hli) as (t & Ht & Hown & Hpl). split; [by apply (Hpl cs)|].
    apply Forall_forall. intros [k e] Hin. rewrite (total_delete _ _ _ _ _ Ht) in Hq.
    by apply (iso_entry _ _ _ _ _ _ _ _ _ _ Hq (Hown k e Hin)).
  - intros i j l l' Hne Hli Hlj. destruct (Hpos i l Hli) as (t & Ht & Ht'), (Hpos j l' Hlj) as (u & Hu & Hu').
    by eapply positions_disjoint.
  - intros Hall. assert (Forall (fun t => g_writing t = 0 /\ g_left t = 0) ts) as Hidle.
    { apply Forall_lookup_2. intros i t Ht. destruct (Hpi i t Ht) as [p Hp'].
      destruct (Hc i p t Hp' Ht) as [_ Hcan]. rewrite (Hall p) in Hcan by (by eapply list_elem_of_lookup_2).
      by destruct Hcan as (? & ? & _). }
    destruct (total_idle ts Hidle) as [Hw Hleft]. split; [by rewrite (iso_writes _ _ _ _ _ _ _ Hq)|].
    pose proof (iso_left _ _ _ _ _ _ _ Hq) as H. rewrite Hleft in H. unfold len in H. lia.
Qed.

(** ** Witness: the three calls of two goroutines, to their end *)

Definition prepared_mem : Mem :=
  outcome_mem preparing_mem
    (exec (client (K := still_kernel 1 0) 10 [CRequest RNop; CSubmit (set_sqe_Fd 7)]) preparing_mem).

Lemma prepared_reach :
  rtc (pstep kernel_step) (client (K := still_kernel 1 0) 10 <$> preparing_clients, sample_mem)
    ([Ret tt; Ret tt], prepared_mem).
Proof.
  etrans; [exact preparing_reach|].
  change [Ret tt; Ret tt] with
    (<[0%nat := Ret tt]> (<[1%nat := Ret tt]> (client (K := still_kernel 1 0) 10 <$> preparing_clients))).
  eapply pool_runs; [reflexivity|]. intros k. eexists. vm_compute. reflexivity.
Qed.

Lemma clients_isolated_witness :
  exists q' l1 l2, m_sq prepared_mem = Some q' /\
    placed [CRequest RNop; CSubmit (set_sqe_Fd 7)] l1 /\ placed [CSubmit (set_sqe_Fd 8)] l2 /\
    Forall (fun pe => slice_get (sq_Entries q') pe.1 = Some pe.2) (l1 ++ l2) /\
    (forall pos, pos ∈ l1.*1 -> pos ∉ l2.*1) /\ sq_writes q' = 0 /\ length (m_claims prepared_mem) = 3%nat.
Proof.
  destruct (clients_isolated (still_kernel 1 0) 10 preparing_clients sample_mem sample_sq _ prepared_mem
              sample_start ltac:(vm_compute; reflexivity) ltac:(repeat constructor) ltac:(repeat constructor)
              ltac:(vm_compute; discriminate) ltac:(vm_compute; split; [discriminate|reflexivity])
              prepared_reach) as (q' & ls & Hm & Hlen & Hpl & Hne & Hend).
  destruct ls as [|l1 [|l2 [|]]]; try discriminate Hlen.
  destruct (Hpl 0%nat _ l1 eq_refl eq_refl eq_refl) as [H1 H1'].
  destruct (Hpl 1%nat _ l2 eq_refl eq_refl eq_refl) as [H2 H2'].
  destruct Hend as [Hw Hc].
  { intros p Hp. repeat (apply elem_of_cons in Hp as [->|Hp]; [reflexivity|]). by apply elem_of_nil in Hp. }
  exists q', l1, l2. split; [exact Hm|]. split; [exact H1|]. split; [exact H2|].
  split; [apply Forall_app; split; [exact H1'|exact H2']|].
  split; [|split; [exact Hw|exact Hc]].
  exact (proj1 (Hne 0%nat 1%nat l1 l2 ltac:(discriminate) eq_refl eq_refl)).
Defined.
