(* ===== verification/Completion.v ===== *)
(** * The completion side (types.go, ring.go)

    Finding completions: [CompletionQueue.EntryBy], [Ring.getCqe], [Ring.onEntry]
    which hands completions to the waiting requests, and the select loop of
    [Ring.run]. *)

From stdpp Require Import base list gmap strings.
From Stdlib Require Import ZArith Lia.
From S2P Require Import Prelude Prog Consts Types Machine Submission Ops.

(** ** EntryBy *)

(** The variables of its loops. *)
Record seen_vars := mkSeen { sv_seenIdx : Z; sv_seen : bool; sv_seenEnd : bool }.

(** The first half of the body: what the entry [cqe] at [i] does to them. *)
Definition EntryBy_see (i : Z) (cqe : CompletionEntry) (v : seen_vars) : seen_vars :=
  let '(seen, seenEnd) :=
    if (Z.land (cqe_Flags cqe) CqSeenFlag =? CqSeenFlag) || CompletionEntry_IsZero cqe
    then (true, sv_seenEnd v)
    else if negb (sv_seenEnd v) then (false, true) else (sv_seen v, sv_seenEnd v) in
  mkSeen (if seen && negb seenEnd then u32 (i + 1) else sv_seenIdx v) seen seenEnd.

(** [k] iterations of either loop from [i] on; [Some i] is a match, for which the
    head has been stored. *)
Fixpoint EntryBy_loop (userData : Z) (k : nat) (i : Z) (v : seen_vars)
  : prog Mem (option Z) :=
  match k with
  | O => Ret None
  | S k =>
      cqe ← cq_entry i;
      let v := EntryBy_see i cqe v in
      if cqe_UserData cqe =? userData then
        cq_update_entry i (fun e => set_cqe_Flags (Z.lor (cqe_Flags e) CqSeenFlag) e);;
        size ← cq_load cq_Size;
        let seenIdx := if sv_seenIdx v =? size then 0 else sv_seenIdx v in
        cq_store (set_cq_Head seenIdx);;
        Ret (Some i)
      else EntryBy_loop userData k (u32 (i + 1)) v
  end.

(** [CompletionQueue.EntryBy]: the address of an entry, as its position. *)
Definition EntryBy (userData : Z) : prog Mem (option Z * err) :=
  head ← cq_load cq_Head;
  tail ← cq_load cq_Tail;
  mask ← cq_load cq_Mask;
  if Z.land head mask =? Z.land tail mask then Ret (None, Some ErrEntryNotFound)
  else
    n ← cq_load (fun c => len (cq_Entries c));
    let seenIdx := Z.land head mask in
    r ← EntryBy_loop userData (Z.to_nat (u32 (n - 1) + 1 - seenIdx)) seenIdx
          (mkSeen seenIdx false false);
    match r with
    | Some i => Ret (Some i, None)
    | None =>
        tail ← cq_load cq_Tail;
        mask ← cq_load cq_Mask;
        r ← EntryBy_loop userData (Z.to_nat (Z.land tail mask + 1)) 0 (mkSeen 0 false false);
        match r with
        | Some i => Ret (Some i, None)
        | None => Ret (None, Some ErrEntryNotFound)
        end
    end.

(** ** Ring.getCqe *)

(** What one iteration of its loops returns for a matching entry. *)
Definition cqe_result (cqe : CompletionEntry) : Z * Z * err :=
  if cqe_Res cqe <? 0 then (0, 0, Some (negErrno (cqe_Res cqe)))
  else (cqe_Res cqe, cqe_Flags cqe, None).

(** A pass over the queue either returns, or jumps back to [findCqe]. *)
Inductive pass := PReturn (r : Z * Z * err) | PAgain | PEnd.

(** [k] iterations from [x] on: a match returns, [x == end] jumps back. *)
Fixpoint getCqe_loop (reqID : Z) (k : nat) (x end_ : Z) : prog Mem pass :=
  match k with
  | O => Ret PEnd
  | S k =>
      cqe ← cq_entry x;
      if cqe_UserData cqe =? reqID then Ret (PReturn (cqe_result cqe))
      else if x =? end_ then Ret PAgain
      else getCqe_loop reqID k (x + 1) end_
  end.

Definition getCqe_pass (reqID : Z) : prog Mem pass :=
  head ← cq_load cq_Head;
  tail ← cq_load cq_Tail;
  mask ← cq_load cq_Mask;
  n ← cq_load (fun c => len (cq_Entries c));
  let x := Z.land head mask in
  r ← getCqe_loop reqID (Z.to_nat (n - x)) x (Z.land tail mask);
  match r with
  | PReturn _ | PAgain => Ret r
  | PEnd =>
      tail ← cq_load cq_Tail;
      mask ← cq_load cq_Mask;
      let end_ := Z.land tail mask in
      r ← getCqe_loop reqID (Z.to_nat end_) 0 end_;
      match r with
      | PReturn _ | PAgain => Ret r
      | PEnd => Ret (PReturn (0, 0, Some errCQEMissing))
      end
  end.

(** [Ring.getCqe]: passes until one returns. *)
Fixpoint Ring_getCqe (fuel : nat) (reqID : Z) : prog Mem (Z * Z * err) :=
  match fuel with
  | O => Starve
  | S fuel =>
      r ← getCqe_pass reqID;
      match r with
      | PReturn x => Ret x
      | _ => Ring_getCqe fuel reqID
      end
  end.

(** ** Ring.onEntry *)

(** [cr.done <- struct{}{}]: the channel has room for eight. *)
Fixpoint done_send (fuel : nat) (p : nat) : prog Mem unit :=
  match fuel with
  | O => Starve
  | S fuel =>
      sent ← try_act nil_msg (fun m => r ← m_reqs m !! p;
        if (cr_done r <? 8)%nat
        then Some (true, set_m_reqs (<[p := set_cr_done (S (cr_done r)) r]> (m_reqs m)) m)
        else Some (false, m));
      if (sent : bool) then Ret tt else done_send fuel p
  end.

(** The variables of its loops: the requests in flight (identifier to address),
    [seenIdx] and [seen]. *)
Record entry_vars := mkEntry { ev_inflight : gmap Z nat; ev_seenIdx : Z; ev_seen : bool }.

(** One iteration up to the test for the end. *)
Definition onEntry_body (fuel : nat) (i : Z) (v : entry_vars) : prog Mem entry_vars :=
  cqe ← cq_entry i;
  match ev_inflight v !! cqe_UserData cqe with
  | Some cr =>
      let seenIdx := if ev_seen v then u32 (ev_seenIdx v + 1) else ev_seenIdx v in
      req_store cr (set_cr_res (cqe_Res cqe));;
      req_store cr (set_cr_flags (cqe_Flags cqe));;
      done_send fuel cr;;
      id ← req_load cr cr_id;
      Ret (mkEntry (delete id (ev_inflight v)) seenIdx (ev_seen v))
  | None => Ret (mkEntry (ev_inflight v) (ev_seenIdx v) false)
  end.

(** The first loop: [inl] when it returned at the tail. *)
Fixpoint onEntry_loop1 (fuel : nat) (k : nat) (i head tail_pos : Z) (v : entry_vars)
  : prog Mem (entry_vars + entry_vars) :=
  match k with
  | O => Ret (inr v)
  | S k =>
      v ← onEntry_body fuel i v;
      if i =? tail_pos then
        cq_store (set_cq_Head (u32 (head + ev_seenIdx v)));;
        Ret (inl v)
      else onEntry_loop1 fuel k (u32 (i + 1)) head tail_pos v
  end.

Fixpoint onEntry_loop2 (fuel : nat) (k : nat) (i : Z) (v : entry_vars) : prog Mem entry_vars :=
  match k with
  | O => Ret v
  | S k => v ← onEntry_body fuel i v; onEntry_loop2 fuel k (u32 (i + 1)) v
  end.

(** [Ring.onEntry]; its argument [count] is not used. *)
Definition Ring_onEntry (fuel : nat) (inflight : gmap Z nat) (count : Z) : prog Mem (gmap Z nat) :=
  mask ← cq_load cq_Mask;
  head ← cq_load cq_Head;
  tail ← cq_load cq_Tail;
  n ← cq_load (fun c => len (cq_Entries c));
  let nEntries := u32 n in
  let start := Z.land head mask in
  r ← onEntry_loop1 fuel (Z.to_nat (nEntries - start)) start head (Z.land tail mask)
        (mkEntry inflight 0 true);
  match r with
  | inl v => Ret (ev_inflight v)
  | inr v =>
      v ← onEntry_loop2 fuel (Z.to_nat (Z.land tail mask)) 0
            (mkEntry (ev_inflight v) (ev_seenIdx v) true);
      cq_store (set_cq_Head (u32 (head + ev_seenIdx v)));;
      Ret (ev_inflight v)
  end.
