(* ===== verification/CompletionSpec.v ===== *)
(** * Properties of the completion side

    [onEntry] against a reference fold over the completions of the circular
    window; delivery and the movement of the head; [EntryBy] and [getCqe]
    against a search in scan order. *)

From stdpp Require Import base list gmap strings.
From Stdlib Require Import ZArith Lia.
From S2P Require Import Prelude Prog Consts Types Machine Samples Submission Ops Completion.

(** ** The reference for onEntry *)

(** Requests in flight, all requests, the count of completions seen so far and
    whether all of them were. *)
Record estate := mkES {
  es_inflight : gmap Z nat; es_reqs : gmap nat completionRequest;
  es_seenIdx : Z; es_seen : bool
}.

(** One completion: it completes its request if that is in flight. *)
Definition visit (s : estate) (e : CompletionEntry) : estate :=
  match es_inflight s !! cqe_UserData e ≫= fun p => (p,.) <$> es_reqs s !! p with
  | Some (p, r) =>
      mkES (delete (cqe_UserData e) (es_inflight s))
           (<[p := mkCR (cr_id r) (cqe_Res e) (cqe_Flags e) (S (cr_done r))]> (es_reqs s))
           (if es_seen s then u32 (es_seenIdx s + 1) else es_seenIdx s) (es_seen s)
  | None => mkES (es_inflight s) (es_reqs s) (es_seenIdx s) false
  end.

(** The completions visited, before and after the end of the array.  Without a
    wrap the entry at the tail position is visited too. *)
Definition window1 (c : CompletionQueue) : list CompletionEntry :=
  let h := Z.to_nat (cq_head_pos c) in
  if cq_head_pos c <=? cq_tail_pos c
  then take (Z.to_nat (cq_tail_pos c) + 1 - h) (drop h (cq_Entries c))
  else drop h (cq_Entries c).
Definition window2 (c : CompletionQueue) : list CompletionEntry :=
  if cq_head_pos c <=? cq_tail_pos c then [] else take (Z.to_nat (cq_tail_pos c)) (cq_Entries c).

Definition reset_seen (s : estate) : estate :=
  mkES (es_inflight s) (es_reqs s) (es_seenIdx s) true.

Definition onEntry_ref (inflight : gmap Z nat) (reqs : gmap nat completionRequest)
    (c : CompletionQueue) : estate :=
  foldl visit (reset_seen (foldl visit (mkES inflight reqs 0 true) (window1 c))) (window2 c).

(** Every request in flight is a request with that identifier whose done channel
    has room. *)
Definition reqs_ok (inflight : gmap Z nat) (reqs : gmap nat completionRequest) : Prop :=
  forall id p, inflight !! id = Some p ->
    exists r, reqs !! p = Some r /\ cr_id r = id /\ (cr_done r < 8)%nat.

Section OnEntry.
Implicit Types (m : Mem) (c : CompletionQueue).

Lemma reqs_ok_visit s e :
  reqs_ok (es_inflight s) (es_reqs s) ->
  reqs_ok (es_inflight (visit s e)) (es_reqs (visit s e)).
Proof.
  intros H. unfold visit. destruct (es_inflight s !! cqe_UserData e) as [p|] eqn:Hp; [|done].
  destruct (H _ _ Hp) as (r & Hr & Hid & Hd). cbn. rewrite Hr. cbn.
  intros id p' [Hne Hp']%lookup_delete_Some. destruct (H _ _ Hp') as (r' & Hr' & Hid' & Hd').
  exists r'. split; [|done]. rewrite lookup_insert_ne; [done|]. congruence.
Qed.

Lemma reqs_ok_fold es : forall s,
  reqs_ok (es_inflight s) (es_reqs s) ->
  reqs_ok (es_inflight (foldl visit s es)) (es_reqs (foldl visit s es)).
Proof. induction es as [|e es IH]; intros s H; [done|]. cbn. apply IH. by apply reqs_ok_visit. Qed.

(** The variables of the loops and the memory that go with a reference state. *)
Definition vars_of (s : estate) : entry_vars := mkEntry (es_inflight s) (es_seenIdx s) (es_seen s).
Definition mem_of (s : estate) m : Mem := set_m_reqs (es_reqs s) m.

Lemma runs_onEntry_body fuel i e s m c :
  m_cq m = Some c -> slice_get (cq_Entries c) i = Some e ->
  reqs_ok (es_inflight s) (es_reqs s) ->
  runs (onEntry_body (S fuel) i (vars_of s)) (mem_of s m)
    (vars_of (visit s e)) (mem_of (visit s e) m).
Proof.
  intros Hm He Hok. unfold onEntry_body.
  eapply runs_bind; [by eapply (runs_cq_entry _ c)|]. unfold visit. cbn [ev_inflight vars_of].
  destruct (es_inflight s !! cqe_UserData e) as [p|] eqn:Hp; cbn [option_bind mbind].
  2: { apply runs_ret. }
  destruct (Hok _ _ Hp) as (r & Hr & Hid & Hd). rewrite Hr. cbn [fmap option_fmap option_map].
  eapply runs_bind.
  { apply runs_try_store. cbn. rewrite Hr. cbn. reflexivity. }
  eapply runs_bind.
  { apply runs_try_store. cbn. rewrite lookup_insert_eq. cbn. reflexivity. }
  eapply runs_bind.
  { cbn [done_send]. eapply runs_bind.
    - apply runs_try_act. cbn [m_reqs set_m_reqs]. rewrite lookup_insert_eq.
      cbn [mbind option_bind cr_done set_cr_flags set_cr_res].
      rewrite (proj2 (Nat.ltb_lt _ _) Hd). reflexivity.
    - apply runs_ret. }
  eapply runs_bind.
  { apply runs_try_load. cbn. rewrite lookup_insert_eq. reflexivity. }
  eapply runs_eq; [apply runs_ret|by cbn; rewrite Hid|].
  unfold mem_of. cbn. by rewrite !insert_insert_eq.
Qed.

Lemma drop_cons_slice {A} (l : list A) i x :
  slice_get l i = Some x -> drop (Z.to_nat i) l = x :: drop (S (Z.to_nat i)) l.
Proof. intros [_ H]%slice_get_Some. by apply drop_S. Qed.

Lemma runs_onEntry_loop2 fuel k : forall i s m c,
  m_cq m = Some c -> cq_wf c -> 0 <= i -> i + Z.of_nat k <= len (cq_Entries c) ->
  reqs_ok (es_inflight s) (es_reqs s) ->
  let s' := foldl visit s (take k (drop (Z.to_nat i) (cq_Entries c))) in
  runs (onEntry_loop2 (S fuel) k i (vars_of s)) (mem_of s m) (vars_of s') (mem_of s' m).
Proof.
  induction k as [|k IH]; intros i s m c Hm Hwf Hi Hk Hok; [apply runs_ret|].
  destruct (slice_get_in (cq_Entries c) i) as [e He]; [lia|]. cbn zeta.
  rewrite (drop_cons_slice _ _ e) by done. cbn [take foldl onEntry_loop2].
  eapply runs_bind; [by apply (runs_onEntry_body _ _ e _ _ c)|].
  pose proof (pow2_size_u32 _ (cqwf_pow2 c Hwf)).
  rewrite uwrap_id by (unfold is_uint; lia).
  replace (S (Z.to_nat i)) with (Z.to_nat (i + 1)) by lia.
  apply IH; [done|done|lia|lia|by apply reqs_ok_visit].
Qed.

(** The first loop, when the tail is ahead, stops there; otherwise it goes to the
    end of the array. *)
Lemma runs_onEntry_loop1_tail fuel k : forall i s m c head tp,
  m_cq m = Some c -> cq_wf c -> 0 <= i <= tp -> tp < i + Z.of_nat k ->
  i + Z.of_nat k <= len (cq_Entries c) ->
  reqs_ok (es_inflight s) (es_reqs s) ->
  let s' := foldl visit s (take (Z.to_nat tp + 1 - Z.to_nat i) (drop (Z.to_nat i) (cq_Entries c))) in
  runs (onEntry_loop1 (S fuel) k i head tp (vars_of s)) (mem_of s m) (inl (vars_of s'))
    (put_cq (set_cq_Head (u32 (head + es_seenIdx s')) c) (mem_of s' m)).
Proof.
  induction k as [|k IH]; intros i s m c head tp Hm Hwf Hi Htp Hk Hok; [lia|].
  destruct (slice_get_in (cq_Entries c) i) as [e He]; [lia|]. cbn zeta.
  rewrite (drop_cons_slice _ _ e) by done.
  replace (Z.to_nat tp + 1 - Z.to_nat i)%nat with (S (Z.to_nat tp - Z.to_nat i)) by lia.
  cbn [take foldl onEntry_loop1].
  eapply runs_bind; [by apply (runs_onEntry_body _ _ e _ _ c)|].
  destruct (Z.eqb_spec i tp) as [->|Hne].
  - rewrite Nat.sub_diag. cbn [take foldl].
    eapply runs_bind; [by apply runs_cq_store|]. apply runs_ret.
  - pose proof (pow2_size_u32 _ (cqwf_pow2 c Hwf)).
    rewrite uwrap_id by (unfold is_uint; lia).
    replace (S (Z.to_nat i)) with (Z.to_nat (i + 1)) by lia.
    replace (Z.to_nat tp - Z.to_nat i)%nat with (Z.to_nat tp + 1 - Z.to_nat (i + 1))%nat by lia.
    apply IH; [done|done|lia|lia|lia|by apply reqs_ok_visit].
Qed.

Lemma runs_onEntry_loop1_end fuel k : forall i s m c head tp,
  m_cq m = Some c -> cq_wf c -> 0 <= i -> tp < i -> i + Z.of_nat k <= len (cq_Entries c) ->
  reqs_ok (es_inflight s) (es_reqs s) ->
  let s' := foldl visit s (take k (drop (Z.to_nat i) (cq_Entries c))) in
  runs (onEntry_loop1 (S fuel) k i head tp (vars_of s)) (mem_of s m) (inr (vars_of s')) (mem_of s' m).
Proof.
  induction k as [|k IH]; intros i s m c head tp Hm Hwf Hi Htp Hk Hok; [apply runs_ret|].
  destruct (slice_get_in (cq_Entries c) i) as [e He]; [lia|]. cbn zeta.
  rewrite (drop_cons_slice _ _ e) by done. cbn [take foldl onEntry_loop1].
  eapply runs_bind; [by apply (runs_onEntry_body _ _ e _ _ c)|].
  destruct (Z.eqb_spec i tp); [lia|].
  pose proof (pow2_size_u32 _ (cqwf_pow2 c Hwf)).
  rewrite uwrap_id by (unfold is_uint; lia).
  replace (S (Z.to_nat i)) with (Z.to_nat (i + 1)) by lia.
  apply IH; [done|done|lia|lia|lia|by apply reqs_ok_visit].
Qed.
End OnEntry.

Lemma take_all_drop {A} (l : list A) (i : Z) :
  0 <= i -> take (Z.to_nat (len l - i)) (drop (Z.to_nat i) l) = drop (Z.to_nat i) l.
Proof. intros. apply take_ge. rewrite length_drop. unfold len. lia. Qed.

(** The memory after a scan that leaves the reference state [s]. *)
Definition scanned (c : CompletionQueue) (s : estate) (m : Mem) : Mem :=
  put_cq (set_cq_Head (u32 (cq_Head c + es_seenIdx s)) c) (set_m_reqs (es_reqs s) m).

Lemma runs_onEntry fuel inflight count m c :
  m_cq m = Some c -> cq_wf c -> reqs_ok inflight (m_reqs m) ->
  let s := onEntry_ref inflight (m_reqs m) c in
  runs (Ring_onEntry (S fuel) inflight count) m (es_inflight s) (scanned c s m).
Proof.
  intros Hm Hwf Hok. cbn zeta. unfold Ring_onEntry, onEntry_ref, window1, window2.
  pose proof (cq_head_pos_range c Hwf) as Hh. pose proof (cq_tail_pos_range c Hwf) as Ht.
  pose proof (pow2_size_u32 _ (cqwf_pow2 c Hwf)) as Hn.
  do 4 (eapply runs_bind; [by apply runs_cq_load|]).
  rewrite (uwrap_id 32 (len _)) by (unfold is_uint; lia).
  fold (cq_head_pos c) (cq_tail_pos c).
  set (s0 := mkES inflight (m_reqs m) 0 true).
  assert (mem_of s0 m = m) as Hm0 by (by destruct m).
  change (mkEntry inflight 0 true) with (vars_of s0).
  destruct (Z.leb_spec (cq_head_pos c) (cq_tail_pos c)) as [Hle|Hgt].
  - eapply runs_bind.
    + rewrite <- Hm0 at 1. apply (runs_onEntry_loop1_tail _ _ _ s0 m c); [done|done|lia..|done].
    + cbn beta iota. eapply runs_eq; [apply runs_ret|done|done].
  - eapply runs_bind.
    + rewrite <- Hm0 at 1. apply (runs_onEntry_loop1_end _ _ _ s0 m c); [done|done|lia..|done].
    + rewrite take_all_drop by lia. cbn beta iota.
      set (s1 := foldl visit s0 _).
      change (mkEntry _ _ true) with (vars_of (reset_seen s1)).
      change (mem_of s1 m) with (mem_of (reset_seen s1) m).
      eapply runs_bind.
      * apply (runs_onEntry_loop2 _ _ 0 (reset_seen s1) m c); [done|done|lia|lia|].
        by apply reqs_ok_fold.
      * change (drop (Z.to_nat 0) (cq_Entries c)) with (cq_Entries c).
        eapply runs_bind; [by apply runs_cq_store|]. eapply runs_eq; [apply runs_ret|done|done].
Qed.

(** C3. [onEntry] refines the reference: it visits the completions from the head
    to the tail around the ring, completes the requests that are in flight, and
    advances the head by the count of the reference.  It returns for every
    well-formed queue, with room for one attempt on each done channel. *)
Theorem onEntry_refines (fuel : nat) (inflight : gmap Z nat) (count : Z) (m : Mem)
    (c : CompletionQueue)
    (Hm : m_cq m = Some c) (Hwf : cq_wf c) (Hok : reqs_ok inflight (m_reqs m)) :
  let s := onEntry_ref inflight (m_reqs m) c in
  runs (Ring_onEntry (S fuel) inflight count) m (es_inflight s) (scanned c s m).
Proof. by apply runs_onEntry. Qed.

(** ** Delivery *)

Section Delivery.
Implicit Types (es : list CompletionEntry).

(** The first completion of a request in the order of the scan. *)
Definition completion_of (id : Z) es : option CompletionEntry :=
  snd <$> list_find (fun e => cqe_UserData e = id) es.

Lemma completion_of_cons id e es :
  completion_of id (e :: es) =
  if decide (cqe_UserData e = id) then Some e else completion_of id es.
Proof.
  unfold completion_of. cbn. case_decide; [done|].
  by destruct (list_find _ es) as [[]|].
Qed.

Lemma visit_inflight s e id :
  reqs_ok (es_inflight s) (es_reqs s) ->
  es_inflight (visit s e) !! id =
  if decide (cqe_UserData e = id) then None else es_inflight s !! id.
Proof.
  intros Hok. unfold visit. destruct (es_inflight s !! cqe_UserData e) as [p|] eqn:Hp; cbn.
  - destruct (Hok _ _ Hp) as (r & -> & _). cbn. rewrite lookup_delete. done.
  - case_decide; [by subst|done].
Qed.

(** A request that is not completed by [e] keeps its state. *)
Lemma visit_reqs_other s e id p :
  reqs_ok (es_inflight s) (es_reqs s) ->
  es_inflight s !! id = Some p -> cqe_UserData e <> id ->
  es_reqs (visit s e) !! p = es_reqs s !! p.
Proof.
  intros Hok Hp Hne. unfold visit.
  destruct (es_inflight s !! cqe_UserData e) as [p'|] eqn:Hp'; [|done].
  destruct (Hok _ _ Hp') as (r' & Hr' & Hid' & _), (Hok _ _ Hp) as (r & Hr & Hid & _).
  cbn. rewrite Hr'. cbn. rewrite lookup_insert_ne; congruence.
Qed.

Lemma visit_reqs_same s e p r :
  es_inflight s !! cqe_UserData e = Some p -> es_reqs s !! p = Some r ->
  es_reqs (visit s e) !! p =
  Some (mkCR (cr_id r) (cqe_Res e) (cqe_Flags e) (S (cr_done r))).
Proof. intros Hp Hr. unfold visit. rewrite Hp. cbn. rewrite Hr. cbn. apply lookup_insert_eq. Qed.

(** A request that is not in flight is never touched. *)
Lemma fold_reqs_idle es : forall s p,
  (forall id, es_inflight s !! id <> Some p) ->
  reqs_ok (es_inflight s) (es_reqs s) ->
  es_reqs (foldl visit s es) !! p = es_reqs s !! p.
Proof.
  induction es as [|e es IH]; intros s p Hp Hok; [done|]. cbn. rewrite IH.
  - unfold visit. destruct (es_inflight s !! cqe_UserData e) as [p'|] eqn:Hp'; [|done].
    destruct (Hok _ _ Hp') as (r' & Hr' & _). cbn. rewrite Hr'. cbn.
    rewrite lookup_insert_ne; [done|]. intros ->. by apply (Hp (cqe_UserData e)).
  - intros id. rewrite visit_inflight by done. case_decide; [done|apply Hp].
  - by apply reqs_ok_visit.
Qed.

(** What a scan does to the request of [id] at [p]. *)
Lemma fold_delivers es : forall s id p r,
  reqs_ok (es_inflight s) (es_reqs s) ->
  es_inflight s !! id = Some p -> es_reqs s !! p = Some r ->
  let s' := foldl visit s es in
  match completion_of id es with
  | Some e => es_inflight s' !! id = None /\
      es_reqs s' !! p = Some (mkCR id (cqe_Res e) (cqe_Flags e) (S (cr_done r)))
  | None => es_inflight s' !! id = Some p /\ es_reqs s' !! p = Some r
  end.
Proof.
  induction es as [|e es IH]; intros s id p r Hok Hp Hr; [done|].
  cbn zeta. cbn [foldl]. rewrite completion_of_cons. pose proof (reqs_ok_visit s e Hok) as Hok'.
  case_decide as Hid.
  - destruct (Hok _ _ Hp) as (r' & Hr' & Hcr & _). replace r' with r in * by congruence.
    subst id. split.
    + rewrite <- Hcr.
      assert (forall es s, reqs_ok (es_inflight s) (es_reqs s) ->
        es_inflight s !! cr_id r = None -> es_inflight (foldl visit s es) !! cr_id r = None) as Hnone.
      { clear. induction es as [|e es IH]; intros s Hok Hn; [done|]. cbn.
        apply IH; [by apply reqs_ok_visit|]. rewrite visit_inflight by done. by case_decide. }
      apply Hnone; [done|]. rewrite visit_inflight by done. by rewrite decide_True.
    + rewrite <- Hcr. rewrite fold_reqs_idle; [by rewrite (visit_reqs_same s e p r)| |done].
      intros id Hid. rewrite visit_inflight in Hid by done. case_decide; [done|].
      destruct (Hok _ _ Hid) as (r2 & ? & ? & _). congruence.
  - apply IH; [done|rewrite visit_inflight by done; by rewrite decide_False|].
    by rewrite (visit_reqs_other s e id p).
Qed.
End Delivery.

(** ** The completions between head and tail *)

(** The completions the kernel has posted and the program has not given back, by
    their free-running positions. *)
Definition pending (c : CompletionQueue) : list CompletionEntry :=
  omap (fun k => slice_get (cq_Entries c) (Z.land (cq_Head c + k) (cq_Mask c)))
    (seqZ 0 (u32 (cq_Tail c - cq_Head c))).

(** There are fewer of them than entries. *)
Definition cq_room (c : CompletionQueue) : Prop :=
  u32 (cq_Tail c - cq_Head c) < len (cq_Entries c).

(** The stale entry at the tail that [onEntry] also looks at when the window does
    not wrap. *)
Definition stale (c : CompletionQueue) : list CompletionEntry :=
  if cq_head_pos c <=? cq_tail_pos c
  then take 1 (drop (Z.to_nat (cq_tail_pos c)) (cq_Entries c)) else [].

(** As many as entries: the kernel never posts more. *)
Definition cq_full (c : CompletionQueue) : Prop :=
  u32 (cq_Tail c - cq_Head c) = len (cq_Entries c).

(** The entries a scan visits, in order: from the position of the head up to the
    position of the tail, which are the pending completions only modulo the size
    of the queue. *)
Definition visited (c : CompletionQueue) : list CompletionEntry :=
  take (Z.to_nat (u32 (cq_Tail c - cq_Head c) mod len (cq_Entries c))) (pending c) ++ stale c.

Section Pending.
Lemma omap_slice {A} (l : list A) (f : Z -> Z) (k : nat) : forall a b,
  0 <= b -> b + Z.of_nat k <= len l ->
  (forall j, a <= j < a + Z.of_nat k -> f j = b + (j - a)) ->
  omap (fun j => slice_get l (f j)) (seqZ a (Z.of_nat k)) = take k (drop (Z.to_nat b) l).
Proof.
  induction k as [|k IH]; intros a b Hb Hk Hf; [done|].
  destruct (slice_get_in l b) as [x Hx]; [lia|].
  rewrite (drop_cons_slice _ _ x) by done. cbn [take].
  rewrite seqZ_cons by lia. cbn. rewrite Hf by lia. replace (b + (a - a)) with b by lia.
  rewrite Hx. f_equal. replace (Z.pred _) with (Z.of_nat k) by lia.
  replace (S (Z.to_nat b)) with (Z.to_nat (b + 1)) by lia.
  apply IH; [lia|lia|]. intros j Hj. rewrite Hf by lia. lia.
Qed.

(** The number of pending completions modulo the size, from the two positions. *)
Lemma pending_mod c :
  cq_wf c ->
  u32 (cq_Tail c - cq_Head c) mod len (cq_Entries c) =
  (if cq_head_pos c <=? cq_tail_pos c then cq_tail_pos c - cq_head_pos c
   else len (cq_Entries c) - cq_head_pos c + cq_tail_pos c).
Proof.
  intros Hwf. pose proof (cq_head_pos_range c Hwf) as Hh. pose proof (cq_tail_pos_range c Hwf) as Ht.
  assert (u32 (cq_Tail c - cq_Head c) mod len (cq_Entries c) =
    (cq_tail_pos c - cq_head_pos c) mod len (cq_Entries c)) as ->.
  { unfold cq_head_pos, cq_tail_pos. rewrite !(cq_pos_mod c _ Hwf), u32_mod by apply Hwf.
    apply Zminus_mod. }
  case Z.leb_spec; intros Hle; [by apply Z.mod_small; lia|].
  rewrite <- (Z_mod_plus_full _ 1), Z.mod_small by lia. lia.
Qed.

Lemma pending_count c :
  cq_wf c -> cq_room c ->
  u32 (cq_Tail c - cq_Head c) =
  (if cq_head_pos c <=? cq_tail_pos c then cq_tail_pos c - cq_head_pos c
   else len (cq_Entries c) - cq_head_pos c + cq_tail_pos c).
Proof.
  intros Hwf Hroom. rewrite <- (pending_mod c Hwf). symmetry. apply Z.mod_small. split; [|exact Hroom].
  apply uwrap_nonneg. lia.
Qed.

Lemma pending_pos c j :
  cq_wf c -> 0 <= j < 2 * len (cq_Entries c) - cq_head_pos c ->
  Z.land (cq_Head c + j) (cq_Mask c) =
  if cq_head_pos c + j <? len (cq_Entries c) then cq_head_pos c + j
  else cq_head_pos c + j - len (cq_Entries c).
Proof.
  intros Hwf Hj. pose proof (cq_head_pos_range c Hwf) as Hh. unfold cq_head_pos in *.
  rewrite !(cq_pos_mod c _ Hwf) in *. rewrite <- Zplus_mod_idemp_l.
  case Z.ltb_spec; intros; [by rewrite Z.mod_small by lia|].
  rewrite <- (Z_mod_plus_full _ (-1)), Z.mod_small by lia. lia.
Qed.

(** The first [k] completions from the head on. *)
Definition from_head c (k : Z) : list CompletionEntry :=
  omap (fun j => slice_get (cq_Entries c) (Z.land (cq_Head c + j) (cq_Mask c))) (seqZ 0 k).

Lemma length_from_head c k : cq_wf c -> 0 <= k -> length (from_head c k) = Z.to_nat k.
Proof.
  intros Hwf Hk. unfold from_head. rewrite <- (Z2Nat.id k) at 1 by done.
  generalize (Z.to_nat k) as j, 0. clear k Hk. induction j as [|j IH]; intros a; [done|].
  rewrite seqZ_cons by lia. cbn.
  destruct (slice_get_in (cq_Entries c) (Z.land (cq_Head c + a) (cq_Mask c))) as [e He];
    [auto with slices|].
  rewrite He. cbn. replace (Z.pred _) with (Z.of_nat j) by lia. f_equal. apply (IH (Z.succ a)).
Qed.

Lemma take_pending c k :
  cq_wf c -> 0 <= k <= u32 (cq_Tail c - cq_Head c) -> take (Z.to_nat k) (pending c) = from_head c k.
Proof.
  intros Hwf Hk. unfold pending.
  replace (u32 _) with (k + (u32 (cq_Tail c - cq_Head c) - k)) by lia.
  rewrite seqZ_app, omap_app by lia. fold (from_head c k).
  rewrite <- (length_from_head c k) by (done || lia). apply take_app_length.
Qed.

(** What [onEntry] visits. *)
Lemma scan_visited c : cq_wf c -> window1 c ++ window2 c = visited c.
Proof.
  intros Hwf. unfold visited.
  pose proof (cq_head_pos_range c Hwf) as Hh. pose proof (cq_tail_pos_range c Hwf) as Ht.
  pose proof (uwrap_nonneg 32 (cq_Tail c - cq_Head c) ltac:(lia)) as Hk.
  rewrite take_pending by (split; [apply Z.mod_pos_bound; lia|apply Z.mod_le; lia] || done).
  unfold from_head. rewrite (pending_mod c Hwf).
  unfold window1, window2, stale. case Z.leb_spec; intros Hle.
  - rewrite app_nil_r. rewrite <- (Z2Nat.id (_ - _)) by lia.
    rewrite (omap_slice _ _ _ 0 (cq_head_pos c)); [|lia|lia|].
    + set (h := Z.to_nat (cq_head_pos c)).
      replace (Z.to_nat (cq_tail_pos c) + 1 - h)%nat
        with (Z.to_nat (cq_tail_pos c - cq_head_pos c) + 1)%nat by lia.
      rewrite <- take_take_drop, drop_drop. do 3 f_equal. lia.
    + intros j Hj. rewrite pending_pos by (done || lia). rewrite (proj2 (Z.ltb_lt _ _)); lia.
  - rewrite app_nil_r, seqZ_app, omap_app by lia. f_equal.
    + rewrite <- (Z2Nat.id (_ - _)) by lia.
      rewrite (omap_slice _ _ _ 0 (cq_head_pos c)); [by rewrite take_all_drop by lia|lia|lia|].
      intros j Hj. rewrite pending_pos by (done || lia). rewrite (proj2 (Z.ltb_lt _ _)); lia.
    + rewrite <- (Z2Nat.id (cq_tail_pos c)) at 2 by lia.
      rewrite (omap_slice _ _ _ _ 0); [done|lia|lia|].
      intros j Hj. rewrite pending_pos by (done || lia). rewrite (proj2 (Z.ltb_ge _ _)); lia.
Qed.

(** With room in the queue these are the pending completions and then the stale
    entry. *)
Lemma visited_room c : cq_wf c -> cq_room c -> visited c = pending c ++ stale c.
Proof.
  intros Hwf Hroom. unfold visited. f_equal. unfold cq_room in Hroom.
  pose proof (uwrap_nonneg 32 (cq_Tail c - cq_Head c) ltac:(lia)).
  rewrite Z.mod_small by lia. rewrite take_pending by (done || lia). done.
Qed.

(** Of a full queue only the oldest completion is visited: head and tail are at the
    same position. *)
Lemma visited_full c : cq_wf c -> cq_full c -> visited c = take 1 (pending c).
Proof.
  intros Hwf Hfull. unfold cq_full in Hfull. pose proof (cq_head_pos_range c Hwf) as Hh.
  pose proof (pending_mod c Hwf) as E. rewrite Hfull, Z_mod_same_full in E.
  pose proof (cq_tail_pos_range c Hwf) as Ht.
  assert (cq_tail_pos c = cq_head_pos c) as Ep by (destruct (Z.leb_spec (cq_head_pos c) (cq_tail_pos c)); lia).
  unfold visited. rewrite Hfull, Z_mod_same_full. change (Z.to_nat 0) with 0%nat. rewrite take_0.
  change (take 1 (pending c)) with (take (Z.to_nat 1) (pending c)).
  rewrite (take_pending c 1) by (done || lia). unfold from_head, stale.
  rewrite Ep, Z.leb_refl. change (seqZ 0 1) with [0]. cbn.
  rewrite Z.add_0_r. fold (cq_head_pos c).
  destruct (slice_get_in (cq_Entries c) (cq_head_pos c)) as [e He]; [lia|]. rewrite He.
  by rewrite (drop_cons_slice _ _ e).
Qed.

Lemma scan_pending c :
  cq_wf c -> cq_room c -> window1 c ++ window2 c = pending c ++ stale c.
Proof. intros Hwf Hroom. by rewrite scan_visited, visited_room. Qed.
End Pending.

(** ** Bookkeeping of a scan *)

Section Bookkeeping.
Implicit Types (s : estate) (es : list CompletionEntry) (inflight : gmap Z nat).

(** The requests left in flight after the completions [es]. *)
Definition remaining inflight es : gmap Z nat :=
  foldl (fun im e => delete (cqe_UserData e) im) inflight es.

(** How many completions from the front belong to requests in flight. *)
Fixpoint acked inflight es : nat :=
  match es with
  | [] => 0
  | e :: es =>
      match inflight !! cqe_UserData e with
      | Some _ => S (acked (delete (cqe_UserData e) inflight) es)
      | None => 0
      end
  end.

Lemma visit_remaining s e :
  reqs_ok (es_inflight s) (es_reqs s) ->
  es_inflight (visit s e) = delete (cqe_UserData e) (es_inflight s).
Proof.
  intros Hok. unfold visit. destruct (es_inflight s !! cqe_UserData e) as [p|] eqn:Hp; cbn.
  - by destruct (Hok _ _ Hp) as (r & -> & _).
  - symmetry. by apply delete_id.
Qed.

Lemma fold_remaining es : forall s,
  reqs_ok (es_inflight s) (es_reqs s) ->
  es_inflight (foldl visit s es) = remaining (es_inflight s) es.
Proof.
  induction es as [|e es IH]; intros s Hok; [done|]. cbn.
  rewrite IH by by apply reqs_ok_visit. by rewrite visit_remaining.
Qed.

(** The flag [seen] does not influence which requests complete, nor how. *)
Lemma fold_seen_irrelevant es : forall s,
  es_reqs (foldl visit (reset_seen s) es) = es_reqs (foldl visit s es) /\
  es_inflight (foldl visit (reset_seen s) es) = es_inflight (foldl visit s es).
Proof.
  assert (forall s s', es_inflight s = es_inflight s' -> es_reqs s = es_reqs s' ->
    es_reqs (foldl visit s es) = es_reqs (foldl visit s' es) /\
    es_inflight (foldl visit s es) = es_inflight (foldl visit s' es)) as H; [|by intros; apply H].
  induction es as [|e es IH]; intros s s' Hi Hr; [done|]. cbn.
  apply IH; unfold visit; rewrite Hi, Hr; by destruct (_ ≫= _) as [[]|].
Qed.

Lemma fold_unseen es : forall s,
  es_seen s = false -> es_seenIdx (foldl visit s es) = es_seenIdx s.
Proof.
  induction es as [|e es IH]; intros s Hs; [done|]. cbn.
  rewrite IH; unfold visit; destruct (_ ≫= _) as [[]|]; cbn; by rewrite ?Hs.
Qed.

(** A scan that starts with [seen] counts the completions from the front. *)
Lemma fold_acked es : forall s,
  reqs_ok (es_inflight s) (es_reqs s) -> es_seen s = true -> is_u32 (es_seenIdx s) ->
  es_seenIdx (foldl visit s es) = u32 (es_seenIdx s + Z.of_nat (acked (es_inflight s) es)).
Proof.
  induction es as [|e es IH]; intros s Hok Hs Hu.
  { cbn. by rewrite Z.add_0_r, uwrap_id. }
  cbn [foldl acked]. pose proof (reqs_ok_visit s e Hok) as Hok'.
  destruct (es_inflight s !! cqe_UserData e) as [p|] eqn:Hp.
  - assert (visit s e = mkES (delete (cqe_UserData e) (es_inflight s)) (es_reqs (visit s e))
              (u32 (es_seenIdx s + 1)) true) as E.
    { unfold visit. rewrite Hp. destruct (Hok _ _ Hp) as (r & Hr & _). cbn. rewrite Hr, Hs. done. }
    rewrite IH; [|done|by rewrite E|rewrite E; apply uwrap_range; lia].
    rewrite E. cbn [es_inflight es_seenIdx]. rewrite uwrap_add_l. f_equal. lia.
  - rewrite fold_unseen; unfold visit; rewrite Hp; [|done]. cbn.
    by rewrite Z.add_0_r, uwrap_id.
Qed.

(** The state [onEntry] reaches, in these terms. *)
Lemma onEntry_ref_state inflight reqs c :
  reqs_ok inflight reqs ->
  let s := onEntry_ref inflight reqs c in
  es_inflight s = remaining inflight (window1 c ++ window2 c) /\
  es_reqs s = es_reqs (foldl visit (mkES inflight reqs 0 true) (window1 c ++ window2 c)) /\
  es_seenIdx s = u32 (Z.of_nat (acked inflight (window1 c) +
                                acked (remaining inflight (window1 c)) (window2 c))).
Proof.
  intros Hok. cbn zeta. unfold onEntry_ref. set (s0 := mkES inflight reqs 0 true).
  pose proof (reqs_ok_fold (window1 c) s0 Hok) as Hok1.
  destruct (fold_seen_irrelevant (window2 c) (foldl visit s0 (window1 c))) as [Hr Hi].
  split; [|split].
  - rewrite Hi, <- foldl_app. by apply fold_remaining.
  - by rewrite Hr, <- foldl_app.
  - assert (es_seenIdx (foldl visit s0 (window1 c)) = u32 (Z.of_nat (acked inflight (window1 c)))) as E.
    { rewrite fold_acked; [done|done|done|]. cbn. unfold is_uint. lia. }
    rewrite fold_acked; [|done|done|cbn; rewrite E; apply uwrap_range; lia].
    cbn [es_inflight es_seenIdx reset_seen]. rewrite E, fold_remaining by done.
    rewrite uwrap_add_l. f_equal. cbn [s0 es_inflight]. lia.
Qed.

Lemma remaining_app inflight es es' :
  remaining inflight (es ++ es') = remaining (remaining inflight es) es'.
Proof. apply foldl_app. Qed.

Lemma remaining_lookup es : forall inflight id,
  id ∉ (cqe_UserData <$> es) -> remaining inflight es !! id = inflight !! id.
Proof.
  induction es as [|e es IH]; intros inflight id Hid; [done|]. cbn.
  cbn in Hid. apply not_elem_of_cons in Hid as [Hne Hid].
  rewrite IH by done. by rewrite lookup_delete_ne.
Qed.

(** Distinct completions of requests in flight are all counted. *)
Lemma acked_all es : forall inflight,
  NoDup (cqe_UserData <$> es) ->
  Forall (fun e => is_Some (inflight !! cqe_UserData e)) es ->
  acked inflight es = length es.
Proof.
  induction es as [|e es IH]; intros inflight Hnd Hall; [done|].
  cbn in Hnd. apply NoDup_cons in Hnd as [Hni Hnd]. apply Forall_cons in Hall as [[p Hp] Hall].
  cbn. rewrite Hp. f_equal. apply IH; [done|]. rewrite Forall_forall in *. intros x Hx.
  rewrite lookup_delete_ne; [by apply Hall|].
  intros E. apply Hni. rewrite E. by apply list_elem_of_fmap_2.
Qed.

Lemma acked_app es : forall inflight es',
  acked inflight es = length es ->
  acked inflight (es ++ es') = (length es + acked (remaining inflight es) es')%nat.
Proof.
  induction es as [|e es IH]; intros inflight es' H; [done|]. cbn in *.
  destruct (inflight !! cqe_UserData e); [|done]. f_equal. apply IH. congruence.
Qed.

Lemma acked_le es : forall inflight, (acked inflight es <= length es)%nat.
Proof.
  induction es as [|e es IH]; intros inflight; [done|]. cbn.
  destruct (inflight !! _); [|lia]. specialize (IH (delete (cqe_UserData e) inflight)). lia.
Qed.
End Bookkeeping.

Section Scan.
Context (fuel : nat) (inflight : gmap Z nat) (count : Z) (m : Mem) (c : CompletionQueue).

(** No stale entry carries the identifier of a request in flight. *)
Definition stale_ok : Prop := Forall (fun e => inflight !! cqe_UserData e = None) (stale c).

Lemma length_pending : cq_wf c -> Z.of_nat (length (pending c)) = u32 (cq_Tail c - cq_Head c).
Proof.
  intros Hwf. pose proof (uwrap_nonneg 32 (cq_Tail c - cq_Head c) ltac:(lia)) as Hk.
  change (pending c) with (from_head c (u32 (cq_Tail c - cq_Head c))).
  rewrite length_from_head by done. lia.
Qed.

Lemma acked_stale im : stale_ok -> im ⊆ inflight -> acked im (stale c) = 0%nat.
Proof.
  unfold stale_ok. intros Hs Him. destruct (stale c) as [|e es]; [done|].
  apply Forall_cons in Hs as [He _]. cbn. destruct (im !! _) eqn:E; [|done].
  eapply lookup_weaken in E; [|done]. congruence.
Qed.

Lemma remaining_subseteq es : forall im, im ⊆ inflight -> remaining im es ⊆ inflight.
Proof.
  induction es as [|e es IH]; intros im Him; [done|]. cbn. apply IH.
  etrans; [apply delete_subseteq|done].
Qed.

Lemma remaining_stale im : stale_ok -> im ⊆ inflight -> remaining im (stale c) = im.
Proof.
  unfold stale_ok. intros Hs. generalize (stale c) Hs. clear. intros es.
  induction es as [|e es IH]; intros Hs Him; [done|]. apply Forall_cons in Hs as [He Hs].
  cbn. rewrite delete_id; [by apply IH|]. by eapply lookup_weaken_None.
Qed.

(** When every pending completion belongs to a request in flight, the count is
    their number. *)
Lemma seen_all :
  cq_wf c -> cq_room c -> stale_ok -> NoDup (cqe_UserData <$> pending c) ->
  Forall (fun e => is_Some (inflight !! cqe_UserData e)) (pending c) ->
  (acked inflight (window1 c) + acked (remaining inflight (window1 c)) (window2 c)
   = length (pending c))%nat.
Proof.
  intros Hwf Hroom Hs Hnd Hall. pose proof (scan_pending c Hwf Hroom) as E.
  pose proof (acked_all _ _ Hnd Hall) as Hp.
  assert (window2 c = [] \/ stale c = []) as Hor.
  { unfold window2, stale. destruct (_ <=? _); auto. }
  destruct Hor as [H2|H2]; rewrite H2, ?app_nil_r in *.
  - rewrite E. cbn. rewrite acked_app, acked_stale by (done || by apply remaining_subseteq). lia.
  - rewrite <- E in Hnd, Hall, Hp. rewrite <- E, length_app.
    rewrite fmap_app in Hnd. apply NoDup_app in Hnd as (Hnd1 & _ & _).
    apply Forall_app in Hall as [Hall1 _]. pose proof (acked_all _ _ Hnd1 Hall1) as H1.
    rewrite acked_app, length_app in Hp by done. lia.
Qed.
End Scan.

(** The same facts as the theorems below, for the reference. *)
Lemma ref_visits inflight reqs c id p r :
  cq_wf c -> reqs_ok inflight reqs -> inflight !! id = Some p -> reqs !! p = Some r ->
  let s := onEntry_ref inflight reqs c in
  match completion_of id (visited c) with
  | Some e => es_inflight s !! id = None /\
      es_reqs s !! p = Some (mkCR id (cqe_Res e) (cqe_Flags e) (S (cr_done r)))
  | None => es_inflight s !! id = Some p /\ es_reqs s !! p = Some r
  end.
Proof.
  intros Hwf Hok Hid Hr. cbn zeta.
  destruct (onEntry_ref_state inflight reqs c Hok) as (-> & -> & _).
  rewrite scan_visited by done. set (s0 := mkES inflight reqs 0 true).
  change (remaining inflight) with (remaining (es_inflight s0)). rewrite <- fold_remaining by done.
  exact (fold_delivers (visited c) s0 id p r Hok Hid Hr).
Qed.

Lemma ref_delivers inflight reqs c id p r :
  cq_wf c -> cq_room c -> reqs_ok inflight reqs -> stale_ok inflight c ->
  inflight !! id = Some p -> reqs !! p = Some r ->
  let s := onEntry_ref inflight reqs c in
  match completion_of id (pending c) with
  | Some e => es_inflight s !! id = None /\
      es_reqs s !! p = Some (mkCR id (cqe_Res e) (cqe_Flags e) (S (cr_done r)))
  | None => es_inflight s !! id = Some p /\ es_reqs s !! p = Some r
  end.
Proof.
  intros Hwf Hroom Hok Hst Hid Hr. pose proof (ref_visits inflight reqs c id p r Hwf Hok Hid Hr) as H.
  rewrite visited_room in H by done.
  assert (completion_of id (pending c ++ stale c) = completion_of id (pending c)) as E;
    [|by rewrite E in H].
  assert (completion_of id (stale c) = None) as Hn.
  { unfold stale_ok in Hst. clear -Hst Hid. induction Hst as [|e es He _ IH]; [done|].
    rewrite completion_of_cons, decide_False; [apply IH|congruence]. }
  clear -Hn. induction (pending c) as [|e es IH]; [done|]. cbn [app]. rewrite !completion_of_cons.
  case_decide; [done|]. apply IH.
Qed.

(** Requests that are not in flight are untouched. *)
Lemma fold_others es : forall s p,
  (forall id, es_inflight s !! id <> Some p) -> es_reqs (foldl visit s es) !! p = es_reqs s !! p.
Proof.
  induction es as [|e es IH]; intros s p Hp; [done|]. cbn [foldl].
  assert (es_reqs (visit s e) !! p = es_reqs s !! p /\ forall id, es_inflight (visit s e) !! id <> Some p) as [<- H].
  { unfold visit. destruct (es_inflight s !! cqe_UserData e) as [p'|] eqn:E; [|done].
    cbn. destruct (es_reqs s !! p') as [r|] eqn:Er; [|done]. cbn. split.
    - apply lookup_insert_ne. intros ->. by apply (Hp (cqe_UserData e)).
    - intros id [_ Hd]%lookup_delete_Some. by apply (Hp id). }
  by apply IH.
Qed.

Lemma ref_others inflight reqs c p :
  reqs_ok inflight reqs -> (forall id, inflight !! id <> Some p) ->
  es_reqs (onEntry_ref inflight reqs c) !! p = reqs !! p.
Proof.
  intros Hok Hp. destruct (onEntry_ref_state inflight reqs c Hok) as (_ & -> & _). by rewrite fold_others.
Qed.

Lemma ref_drains inflight reqs c :
  cq_wf c -> cq_room c -> reqs_ok inflight reqs -> stale_ok inflight c ->
  NoDup (cqe_UserData <$> pending c) ->
  Forall (fun e => is_Some (inflight !! cqe_UserData e)) (pending c) ->
  let s := onEntry_ref inflight reqs c in
  es_inflight s = remaining inflight (pending c) /\
  u32 (cq_Head c + es_seenIdx s) = cq_Tail c.
Proof.
  intros Hwf Hroom Hok Hst Hnd Hall. cbn zeta.
  destruct (onEntry_ref_state inflight reqs c Hok) as (-> & _ & ->). split.
  - rewrite scan_pending, remaining_app by done.
    apply (remaining_stale inflight c); [done|by apply remaining_subseteq].
  - rewrite seen_all, length_pending by done. rewrite !uwrap_add_r.
    replace (cq_Head c + (cq_Tail c - cq_Head c)) with (cq_Tail c) by lia.
    apply uwrap_id, Hwf.
Qed.

(** One scan of a full queue handles its oldest completion. *)
Lemma ref_full inflight reqs c e es :
  cq_wf c -> cq_full c -> reqs_ok inflight reqs -> pending c = e :: es ->
  is_Some (inflight !! cqe_UserData e) ->
  let s := onEntry_ref inflight reqs c in
  es_inflight s = delete (cqe_UserData e) inflight /\ u32 (cq_Head c + es_seenIdx s) = u32 (cq_Head c + 1).
Proof.
  intros Hwf Hfull Hok Hp [p He]. cbn zeta.
  destruct (onEntry_ref_state inflight reqs c Hok) as (-> & _ & ->).
  pose proof (scan_visited c Hwf) as E. rewrite (visited_full c Hwf Hfull), Hp in E.
  change (take 1 (e :: es)) with [e] in E.
  split; [by rewrite E|]. rewrite uwrap_add_r. do 2 f_equal.
  destruct (window1 c) as [|x w]; cbn in E.
  - rewrite E. cbn. by rewrite He.
  - injection E as -> E. apply app_eq_nil in E as [-> ->]. cbn. by rewrite He.
Qed.

(** The queue after it has room, the rest of the completions is pending, and the
    entry at the tail, if any, is the one just handled. *)
Lemma full_next c e es :
  cq_wf c -> cq_full c -> pending c = e :: es ->
  let c1 := set_cq_Head (u32 (cq_Head c + 1)) c in
  cq_wf c1 /\ cq_room c1 /\ pending c1 = es /\ (stale c1 = [] \/ stale c1 = [e]).
Proof.
  intros Hwf Hfull Hp c1. pose proof (pow2_size_u32 _ (cqwf_pow2 c Hwf)) as Hn.
  pose proof (pow2_size_pos _ (cqwf_pow2 c Hwf)) as Hn0.
  assert (cq_wf c1) as Hwf1 by (destruct Hwf; split; try done; apply uwrap_range; lia).
  assert (u32 (cq_Tail c1 - cq_Head c1) = len (cq_Entries c) - 1) as Hc1.
  { unfold cq_full in Hfull. cbn.
    rewrite uwrap_sub_r. replace (cq_Tail c - (cq_Head c + 1)) with (cq_Tail c - cq_Head c - 1) by lia.
    rewrite <- uwrap_sub_l, Hfull. apply uwrap_id. unfold is_uint. lia. }
  assert (forall j, Z.land (u32 (cq_Head c + 1) + j) (cq_Mask c) = Z.land (cq_Head c + (1 + j)) (cq_Mask c)) as Hpos.
  { intros j. rewrite !(cq_pos_mod c _ Hwf), <- Zplus_mod_idemp_l, u32_mod by apply Hwf.
    rewrite Zplus_mod_idemp_l. f_equal. lia. }
  split_and!; [done|unfold cq_room; rewrite Hc1; cbn; lia| |].
  - assert (pending c = from_head c (1 + (len (cq_Entries c) - 1))) as E.
    { unfold pending, from_head. rewrite Hfull. do 2 f_equal. lia. }
    rewrite Hp in E. unfold from_head in E. rewrite seqZ_app, omap_app in E by lia.
    change (seqZ 0 1) with [0] in E. cbn in E.
    destruct (slice_get _ _) as [x|] eqn:Hx; cbn in E.
    2: { destruct (slice_get_in (cq_Entries c) (Z.land (cq_Head c + 0) (cq_Mask c))) as [x Hx']; [auto with slices|]. congruence. }
    injection E as _ E. unfold pending. rewrite Hc1, E.
    rewrite (Z.add_comm 0 1), <- fmap_add_seqZ. apply list_omap_ext, Forall2_fmap_r.
    apply Forall_Forall2_diag, Forall_forall. intros j _. cbn. by rewrite Hpos.
  - assert (from_head c 1 = [e]) as E1.
    { rewrite <- take_pending by (done || (unfold cq_full in Hfull; lia)). by rewrite Hp. }
    pose proof (visited_full c Hwf Hfull) as Ev. rewrite Hp in Ev. unfold visited in Ev.
    unfold cq_full in Hfull. rewrite Hfull, Z_mod_same_full in Ev. cbn in Ev.
    unfold stale in *. destruct (cq_head_pos c <=? cq_tail_pos c); [|done].
    change (cq_tail_pos c1) with (cq_tail_pos c). cbn [cq_Entries c1 set_cq_Head].
    destruct (cq_head_pos c1 <=? cq_tail_pos c); [right|left]; done.
Qed.

(** C4. What one scan delivers, for every well-formed queue.  A request in flight
    whose identifier is among the entries the scan visits gets the result and the
    flags of the first of them and one message on its done channel, and leaves the
    map of requests in flight; a request in flight without one keeps its state and
    stays; and a request that is not in flight is untouched.  The entries visited
    are, in the order of the ring, all pending completions followed, when the
    window does not wrap, by the old entry at the position of the tail, as long as
    the queue has room for one more completion; of a full queue only the oldest
    completion is visited. *)
Theorem onEntry_delivers (fuel : nat) (inflight : gmap Z nat) (count : Z) (m : Mem)
    (c : CompletionQueue) (id : Z) (p : nat) (r : completionRequest)
    (Hm : m_cq m = Some c) (Hwf : cq_wf c) (Hok : reqs_ok inflight (m_reqs m))
    (Hid : inflight !! id = Some p) (Hr : m_reqs m !! p = Some r) :
  (exists inflight' m', runs (Ring_onEntry (S fuel) inflight count) m inflight' m' /\
    match completion_of id (visited c) with
    | Some e => inflight' !! id = None /\
        m_reqs m' !! p = Some (mkCR id (cqe_Res e) (cqe_Flags e) (S (cr_done r)))
    | None => inflight' !! id = Some p /\ m_reqs m' !! p = Some r
    end /\
    forall p', (forall id, inflight !! id <> Some p') -> m_reqs m' !! p' = m_reqs m !! p') /\
  (cq_room c -> visited c = pending c ++ stale c) /\
  (cq_full c -> visited c = take 1 (pending c)).
Proof.
  split; [|split; [by apply visited_room|by apply visited_full]].
  eexists _, _. split; [by apply runs_onEntry|]. split; [by apply ref_visits|].
  intros p'. by apply ref_others.
Qed.

(** C5. When the pending completions belong to distinct requests in flight, they are
    all delivered and the whole window goes back to the kernel: the new head is the
    tail, and the requests left in flight are the others.  One scan does it when
    the queue has room for another completion and no request in flight has the
    identifier of the old entry at the position of the tail.  A full queue needs
    two: the first scan delivers the oldest completion only and moves the head by
    one, the second one the rest.  This also holds when the window wraps around the
    end of the array and when the counters wrap around at 2^32. *)
Theorem onEntry_drains (fuel : nat) (inflight : gmap Z nat) (count : Z) (m : Mem)
    (c : CompletionQueue)
    (Hm : m_cq m = Some c) (Hwf : cq_wf c)
    (Hok : reqs_ok inflight (m_reqs m))
    (Hnd : NoDup (cqe_UserData <$> pending c))
    (Hall : Forall (fun e => is_Some (inflight !! cqe_UserData e)) (pending c)) :
  (cq_room c -> stale_ok inflight c ->
   exists m', runs (Ring_onEntry (S fuel) inflight count) m (remaining inflight (pending c)) m' /\
     m_cq m' = Some (set_cq_Head (cq_Tail c) c)) /\
  (cq_full c ->
   exists inflight1 m1 m2,
     runs (Ring_onEntry (S fuel) inflight count) m inflight1 m1 /\
     inflight1 = remaining inflight (take 1 (pending c)) /\
     m_cq m1 = Some (set_cq_Head (u32 (cq_Head c + 1)) c) /\
     runs (Ring_onEntry (S fuel) inflight1 count) m1 (remaining inflight (pending c)) m2 /\
     m_cq m2 = Some (set_cq_Head (cq_Tail c) c)).
Proof.
  split.
  - intros Hroom Hst. destruct (ref_drains inflight (m_reqs m) c) as [Hi Hx]; [done..|].
    eexists. split.
    + eapply runs_eq; [by apply runs_onEntry|exact Hi|reflexivity].
    + unfold scanned. by rewrite Hx.
  - intros Hfull. destruct (pending c) as [|e es] eqn:Hp.
    { pose proof (length_pending c Hwf) as Hl. rewrite Hp, Hfull in Hl.
      pose proof (pow2_size_pos _ (cqwf_pow2 c Hwf)). cbn in Hl. lia. }
    cbn in Hnd. apply NoDup_cons in Hnd as [Hni Hnd]. apply Forall_cons in Hall as [He Hall].
    destruct (full_next c e es Hwf Hfull Hp) as (Hwf1 & Hroom1 & Hp1 & Hst1).
    destruct (ref_full inflight (m_reqs m) c e es Hwf Hfull Hok Hp He) as [Hi Hx].
    set (s := onEntry_ref inflight (m_reqs m) c) in *.
    set (c1 := set_cq_Head (u32 (cq_Head c + 1)) c) in *. set (im := delete (cqe_UserData e) inflight) in *.
    assert (reqs_ok im (es_reqs s)) as Hok1.
    { rewrite <- Hi. unfold s, onEntry_ref. apply reqs_ok_fold. cbn.
      by apply (reqs_ok_fold _ (mkES inflight (m_reqs m) 0 true)). }
    destruct (ref_drains im (es_reqs s) c1 Hwf1 Hroom1 Hok1) as [Hi1 Hx1].
    + unfold stale_ok. destruct Hst1 as [-> | ->]; repeat constructor. apply lookup_delete_eq.
    + by rewrite Hp1.
    + rewrite Hp1. rewrite Forall_forall in *. intros x Hin. unfold im.
      rewrite lookup_delete_ne; [by apply Hall|]. intros E. apply Hni. rewrite E. by apply list_elem_of_fmap_2.
    + exists im, (scanned c s m). eexists. split_and!.
      * eapply runs_eq; [by apply runs_onEntry|exact Hi|reflexivity].
      * done.
      * unfold scanned. by rewrite Hx.
      * eapply runs_eq; [apply (runs_onEntry _ _ _ _ c1)|..]; [unfold scanned; by rewrite Hx|done|exact Hok1| |reflexivity].
        change (m_reqs (scanned c s m)) with (es_reqs s). rewrite Hi1, Hp1. done.
      * change (m_reqs (scanned c s m)) with (es_reqs s). unfold scanned at 1. rewrite Hx1. done.
Qed.

Lemma acked_take es : forall inflight,
  Forall (fun e => is_Some (inflight !! cqe_UserData e)) (take (acked inflight es) es).
Proof.
  induction es as [|e es IH]; intros inflight; [constructor|]. cbn.
  destruct (inflight !! cqe_UserData e) eqn:E; [|constructor].
  cbn. constructor; [by rewrite E|]. eapply Forall_impl; [apply IH|].
  cbn. intros x [p [_ Hp]%lookup_delete_Some]. by exists p.
Qed.

Lemma acked_app_stale inflight c es : forall im,
  stale_ok inflight c -> im ⊆ inflight -> acked im (es ++ stale c) = acked im es.
Proof.
  induction es as [|e es IH]; intros im Hs Him; [by apply (acked_stale inflight)|]. cbn.
  destruct (im !! _); [|done]. f_equal. apply IH; [done|]. etrans; [apply delete_subseteq|done].
Qed.

(** When the window does not wrap, a scan gives back to the kernel exactly the
    completions before the first one whose request is not in flight: nothing
    undelivered is given back, and the head stays within the window. *)
Theorem onEntry_head_safe (fuel : nat) (inflight : gmap Z nat) (count : Z) (m : Mem)
    (c : CompletionQueue)
    (Hm : m_cq m = Some c) (Hwf : cq_wf c) (Hroom : cq_room c)
    (Hok : reqs_ok inflight (m_reqs m)) (Hst : stale_ok inflight c)
    (Hnw : cq_head_pos c <= cq_tail_pos c) :
  exists k inflight' m', runs (Ring_onEntry (S fuel) inflight count) m inflight' m' /\
    m_cq m' = Some (set_cq_Head (u32 (cq_Head c + Z.of_nat k)) c) /\
    (k <= length (pending c))%nat /\
    Forall (fun e => is_Some (inflight !! cqe_UserData e)) (take k (pending c)) /\
    (forall e, pending c !! k = Some e -> remaining inflight (take k (pending c)) !! cqe_UserData e = None).
Proof.
  destruct (onEntry_ref_state inflight (m_reqs m) c Hok) as (_ & _ & Hx).
  exists (acked inflight (pending c)). eexists _, _. split; [by apply runs_onEntry|].
  split; [|split; [apply acked_le|split; [apply acked_take|]]].
  - unfold scanned. rewrite Hx. pose proof (scan_pending c Hwf Hroom) as E.
    assert (window2 c = []) as H2 by (unfold window2; by rewrite (proj2 (Z.leb_le _ _))).
    rewrite H2, app_nil_r in *. rewrite E, (acked_app_stale inflight) by done.
    unfold m_cq. cbn. by rewrite Nat.add_0_r, uwrap_add_r.
  - clear. generalize (pending c) inflight. clear. induction l as [|e es IH]; intros im x Hx; [done|].
    cbn in *. destruct (im !! cqe_UserData e) eqn:E; [by apply IH|]. cbn in *. by simplify_eq.
Qed.

(** A completion at the head whose request is not in flight holds the queue:
    when the window does not wrap the head stays where it is, whatever else the
    scan delivers.  A completion that was delivered before the ones in front
    of it is in this position once it reaches the head, since its request has
    left the map. *)
Theorem onEntry_blocked (fuel : nat) (inflight : gmap Z nat) (count : Z) (m : Mem)
    (c : CompletionQueue) (e : CompletionEntry) (es : list CompletionEntry)
    (Hm : m_cq m = Some c) (Hwf : cq_wf c) (Hroom : cq_room c)
    (Hok : reqs_ok inflight (m_reqs m))
    (Hnw : cq_head_pos c <= cq_tail_pos c)
    (Hp : pending c = e :: es) (He : inflight !! cqe_UserData e = None) :
  exists inflight' m', runs (Ring_onEntry (S fuel) inflight count) m inflight' m' /\
    m_cq m' = Some c /\ inflight' = remaining inflight (pending c ++ stale c).
Proof.
  destruct (onEntry_ref_state inflight (m_reqs m) c Hok) as (Hi & _ & Hx).
  pose proof (scan_pending c Hwf Hroom) as E.
  eexists _, _. split; [by apply runs_onEntry|]. split; [|by rewrite Hi, E].
  unfold scanned. rewrite Hx.
  assert (window2 c = []) as H2 by (unfold window2; by rewrite (proj2 (Z.leb_le _ _))).
  rewrite H2, app_nil_r in *. rewrite E, Hp. unfold m_cq. cbn. rewrite He. cbn.
  rewrite Z.add_0_r, uwrap_id by apply Hwf. by destruct c.
Qed.

(** When the window wraps, the count starts over at the beginning of the
    array: if the head completion has no request in flight and the first one
    after the wrap has, the head moves although its completion was not
    delivered, and the kernel may overwrite it. *)
Theorem onEntry_wrap_skips (fuel : nat) (inflight : gmap Z nat) (count : Z) (m : Mem)
    (c : CompletionQueue) (e e' : CompletionEntry) (es es' : list CompletionEntry) (p : nat)
    (Hm : m_cq m = Some c) (Hwf : cq_wf c) (Hok : reqs_ok inflight (m_reqs m))
    (H1 : window1 c = e :: es) (He : inflight !! cqe_UserData e = None)
    (H2 : window2 c = e' :: es') (He' : inflight !! cqe_UserData e' = Some p)
    (Hfst : cqe_UserData e' ∉ (cqe_UserData <$> es)) :
  exists k inflight' m', runs (Ring_onEntry (S fuel) inflight count) m inflight' m' /\
    m_cq m' = Some (set_cq_Head (u32 (cq_Head c + k)) c) /\
    1 <= k <= len (window2 c).
Proof.
  destruct (onEntry_ref_state inflight (m_reqs m) c Hok) as (Hi & _ & Hx).
  eexists _, _, _. split; [by apply runs_onEntry|]. unfold scanned. rewrite Hx.
  split; [unfold m_cq; cbn; reflexivity|].
  assert (acked inflight (window1 c) = 0%nat) as -> by (rewrite H1; cbn; by rewrite He).
  pose proof (acked_le (window2 c) (remaining inflight (window1 c))) as Hle.
  assert (len (window2 c) <= 2 ^ 31) as Hb.
  { pose proof (pow2_size_u32 _ (cqwf_pow2 c Hwf)). unfold len, window2 in *.
    destruct (_ <=? _); cbn; [lia|]. rewrite length_take. lia. }
  assert (1 <= acked (remaining inflight (window1 c)) (window2 c))%nat.
  { rewrite H2. cbn. rewrite remaining_lookup, He'; [lia|]. rewrite H1. cbn.
    apply not_elem_of_cons. split; [congruence|done]. }
  unfold len in *. rewrite uwrap_id; [lia|]. unfold is_uint. lia.
Qed.

(** ** Witnesses *)

Lemma reqs_ok_check inflight reqs :
  forallb (fun '(id, p) =>
    match reqs !! p with
    | Some r => (cr_id r =? id) && (cr_done r <? 8)%nat
    | None => false
    end) (map_to_list inflight) = true -> reqs_ok inflight reqs.
Proof.
  rewrite forallb_forall. intros H id p Hp.
  assert (In (id, p) (map_to_list inflight)) as Hin
    by (by apply list_elem_of_In, elem_of_map_to_list).
  apply H in Hin. destruct (reqs !! p) as [r|]; [|done].
  exists r. apply andb_prop in Hin as [?%Z.eqb_eq ?%Nat.ltb_lt]. done.
Qed.

(** Completions of the requests 1, 2 and 3 at the positions 1 to 3. *)
Definition straight_cq : CompletionQueue :=
  mkCQ 192 1 4 7 0 0
    [mkCQE 0 0 0; mkCQE 1 7 0; mkCQE 2 (-5) 0; mkCQE 3 9 1; mkCQE 0 0 0; mkCQE 0 0 0;
     mkCQE 0 0 0; mkCQE 0 0 0] 8192.

(** Completions of the requests 1 to 4 at the positions 6, 7, 0 and 1; the
    counters have just wrapped around. *)
Definition wrapped_cq : CompletionQueue :=
  mkCQ 192 4294967294 2 7 0 0
    [mkCQE 3 9 1; mkCQE 4 0 0; mkCQE 0 0 0; mkCQE 0 0 0; mkCQE 0 0 0; mkCQE 0 0 0;
     mkCQE 1 7 0; mkCQE 2 (-5) 0] 8192.

Definition sample_reqs : gmap nat completionRequest :=
  <[0%nat := mkCR 1 0 0 0]> (<[1%nat := mkCR 2 0 0 0]> (<[2%nat := mkCR 3 0 0 0]>
  {[3%nat := mkCR 4 0 0 0]})).
Definition all_inflight : gmap Z nat := <[1 := 0%nat]> (<[2 := 1%nat]> (<[3 := 2%nat]> {[4 := 3%nat]})).
(** The request 1 has not been registered yet. *)
Definition late_inflight : gmap Z nat := <[2 := 1%nat]> (<[3 := 2%nat]> {[4 := 3%nat]}).

Definition completion_mem (c : CompletionQueue) : Mem :=
  set_m_reqs sample_reqs (put_cq c sample_mem).

Lemma straight_wf : cq_wf straight_cq.
Proof. split; try done. exists 3. split; [lia|done]. Qed.

Lemma wrapped_wf : cq_wf wrapped_cq.
Proof. split; try done. exists 3. split; [lia|done]. Qed.

Lemma onEntry_refines_witness :
  runs (Ring_onEntry 1 all_inflight 0) (completion_mem wrapped_cq) ∅
    (scanned wrapped_cq (onEntry_ref all_inflight sample_reqs wrapped_cq)
       (completion_mem wrapped_cq)).
Proof.
  eapply runs_eq; [apply (onEntry_refines 0 all_inflight 0 (completion_mem wrapped_cq) wrapped_cq)| |].
  - reflexivity.
  - apply wrapped_wf.
  - by apply reqs_ok_check.
  - vm_compute. reflexivity.
  - reflexivity.
Defined.

Lemma onEntry_delivers_witness :
  exists inflight' m', runs (Ring_onEntry 1 late_inflight 0) (completion_mem wrapped_cq) inflight' m' /\
    (inflight' !! 2 = None /\ m_reqs m' !! 1%nat = Some (mkCR 2 (-5) 0 1)) /\
    forall p', (forall id, late_inflight !! id <> Some p') ->
      m_reqs m' !! p' = m_reqs (completion_mem wrapped_cq) !! p'.
Proof.
  apply (onEntry_delivers 0 late_inflight 0 (completion_mem wrapped_cq) wrapped_cq 2 1%nat
           (mkCR 2 0 0 0)).
  - reflexivity.
  - apply wrapped_wf.
  - by apply reqs_ok_check.
  - reflexivity.
  - reflexivity.
Defined.

(** Four completions in a queue of four. *)
Definition full_cq : CompletionQueue :=
  mkCQ 192 4294967295 3 3 0 0 [mkCQE 2 (-5) 0; mkCQE 3 9 1; mkCQE 4 0 0; mkCQE 1 7 0] 8192.

Lemma full_wf : cq_wf full_cq.
Proof. split; try done. exists 2. split; [lia|done]. Qed.

Lemma onEntry_drains_witness :
  (exists m', runs (Ring_onEntry 1 all_inflight 0) (completion_mem wrapped_cq)
      (remaining all_inflight (pending wrapped_cq)) m' /\
    m_cq m' = Some (set_cq_Head 2 wrapped_cq)) /\
  exists inflight1 m1 m2,
    runs (Ring_onEntry 1 all_inflight 0) (completion_mem full_cq) inflight1 m1 /\
    inflight1 = remaining all_inflight (take 1 (pending full_cq)) /\
    m_cq m1 = Some (set_cq_Head 0 full_cq) /\
    runs (Ring_onEntry 1 inflight1 0) m1 (remaining all_inflight (pending full_cq)) m2 /\
    m_cq m2 = Some (set_cq_Head 3 full_cq).
Proof.
  split.
  - apply (onEntry_drains 0 all_inflight 0 (completion_mem wrapped_cq) wrapped_cq).
    + reflexivity.
    + apply wrapped_wf.
    + by apply reqs_ok_check.
    + apply (bool_decide_unpack _). vm_compute. exact I.
    + apply (bool_decide_unpack _). vm_compute. exact I.
    + vm_compute. reflexivity.
    + vm_compute. constructor.
  - apply (onEntry_drains 0 all_inflight 0 (completion_mem full_cq) full_cq).
    + reflexivity.
    + apply full_wf.
    + by apply reqs_ok_check.
    + apply (bool_decide_unpack _). vm_compute. exact I.
    + apply (bool_decide_unpack _). vm_compute. exact I.
    + vm_compute. reflexivity.
Defined.

Lemma onEntry_head_safe_witness :
  exists k inflight' m', runs (Ring_onEntry 1 all_inflight 0) (completion_mem straight_cq) inflight' m' /\
    m_cq m' = Some (set_cq_Head (u32 (1 + Z.of_nat k)) straight_cq) /\
    (k <= length (pending straight_cq))%nat /\
    Forall (fun e => is_Some (all_inflight !! cqe_UserData e)) (take k (pending straight_cq)) /\
    (forall e, pending straight_cq !! k = Some e ->
       remaining all_inflight (take k (pending straight_cq)) !! cqe_UserData e = None).
Proof.
  apply (onEntry_head_safe 0 all_inflight 0 (completion_mem straight_cq) straight_cq).
  - reflexivity.
  - apply straight_wf.
  - vm_compute. reflexivity.
  - by apply reqs_ok_check.
  - vm_compute. by repeat constructor.
  - vm_compute. discriminate.
Defined.

Lemma onEntry_blocked_witness :
  exists inflight' m', runs (Ring_onEntry 1 late_inflight 0) (completion_mem straight_cq) inflight' m' /\
    m_cq m' = Some straight_cq /\
    inflight' = remaining late_inflight (pending straight_cq ++ stale straight_cq).
Proof.
  apply (onEntry_blocked 0 late_inflight 0 (completion_mem straight_cq) straight_cq
           (mkCQE 1 7 0) [mkCQE 2 (-5) 0; mkCQE 3 9 1]).
  - reflexivity.
  - apply straight_wf.
  - vm_compute. reflexivity.
  - by apply reqs_ok_check.
  - vm_compute. discriminate.
  - vm_compute. reflexivity.
  - reflexivity.
Defined.

Lemma onEntry_wrap_skips_witness :
  exists k inflight' m', runs (Ring_onEntry 1 late_inflight 0) (completion_mem wrapped_cq) inflight' m' /\
    m_cq m' = Some (set_cq_Head (u32 (4294967294 + k)) wrapped_cq) /\ 1 <= k <= 2.
Proof.
  apply (onEntry_wrap_skips 0 late_inflight 0 (completion_mem wrapped_cq) wrapped_cq
           (mkCQE 1 7 0) (mkCQE 3 9 1) [mkCQE 2 (-5) 0] [mkCQE 4 0 0] 2%nat).
  - reflexivity.
  - apply wrapped_wf.
  - by apply reqs_ok_check.
  - vm_compute. reflexivity.
  - reflexivity.
  - vm_compute. reflexivity.
  - reflexivity.
  - cbn. set_solver.
Defined.
