(* ===== verification/SearchSpec.v ===== *)
(** * Properties of the searches in the completion queue

    [EntryBy] (types.go) and [getCqe] (ring.go): which entry they find, what they
    do to the head, and when they return. *)

From stdpp Require Import base list gmap strings.
From Stdlib Require Import ZArith Lia.
From S2P Require Import Prelude Prog Consts Types Machine Samples Submission Ops Completion CompletionSpec.

(** ** EntryBy *)

(** An entry counts as read when it carries the flag or is zero. *)
Definition was_seen (e : CompletionEntry) : bool :=
  (Z.land (cqe_Flags e) CqSeenFlag =? CqSeenFlag) || CompletionEntry_IsZero e.

Fixpoint seen_prefix (es : list CompletionEntry) : nat :=
  match es with
  | [] => 0
  | e :: es => if was_seen e then S (seen_prefix es) else 0
  end.

(** The position of the first entry with the user data among [k] entries from
    [i] on. *)
Definition find_from (es : list CompletionEntry) (userData i : Z) (k : nat) : option Z :=
  (fun x => i + Z.of_nat x.1) <$>
    list_find (fun e => cqe_UserData e = userData) (take k (drop (Z.to_nat i) es)).

(** The queue after a match at [i] by a loop that started at [start]: the entry is
    marked, and the head is the end of the read entries in a row from [start] on,
    or zero at the end of the ring. *)
Definition matched (c : CompletionQueue) (start i : Z) : CompletionQueue :=
  let read := take (Z.to_nat (i + 1 - start)) (drop (Z.to_nat start) (cq_Entries c)) in
  let seenIdx := start + Z.of_nat (seen_prefix read) in
  set_cq_Head (if seenIdx =? cq_Size c then 0 else seenIdx)
    (set_cq_Entries (alter (fun e => set_cqe_Flags (Z.lor (cqe_Flags e) CqSeenFlag) e) (Z.to_nat i)
       (cq_Entries c)) c).

Section EntryBySpec.
Implicit Types (m : Mem) (c : CompletionQueue) (v : seen_vars).

(** The variables of a loop after the entries [es] from [start] on. *)
Definition vars_after (start : Z) (es : list CompletionEntry) (v : seen_vars) : Prop :=
  sv_seenIdx v = start + Z.of_nat (seen_prefix es) /\
  (sv_seenEnd v = false -> seen_prefix es = length es) /\
  (sv_seenEnd v = true -> (seen_prefix es < length es)%nat).

Lemma seen_prefix_app es e :
  seen_prefix (es ++ [e]) =
  if decide (seen_prefix es = length es)
  then (if was_seen e then S (length es) else length es) else seen_prefix es.
Proof.
  induction es as [|x es IH]; [done|]. cbn. destruct (was_seen x).
  - rewrite IH. do 2 case_decide; lia || (by destruct (was_seen e)).
  - by rewrite decide_False by lia.
Qed.

Lemma vars_after_see start es e v :
  0 <= start -> start + Z.of_nat (length es) < 2 ^ 31 ->
  vars_after start es v ->
  vars_after start (es ++ [e]) (EntryBy_see (start + Z.of_nat (length es)) e v).
Proof.
  intros Hs Hb (Hi & H0 & H1). unfold vars_after, EntryBy_see. fold (was_seen e).
  rewrite seen_prefix_app, length_app, Nat.add_1_r. rewrite uwrap_id by (unfold is_uint; lia).
  destruct (sv_seenEnd v) eqn:Ee.
  - specialize (H1 eq_refl). rewrite decide_False by lia.
    destruct (was_seen e); cbn; rewrite ?andb_false_r, ?Ee; split_and!; auto; lia || done.
  - specialize (H0 eq_refl). rewrite decide_True by done.
    destruct (was_seen e); cbn; rewrite ?Ee; split_and!; auto; try done; lia.
Qed.

Lemma runs_EntryBy_loop userData k : forall start es v m c,
  m_cq m = Some c -> cq_wf c -> 0 <= start ->
  let i := start + Z.of_nat (length es) in
  i + Z.of_nat k <= len (cq_Entries c) ->
  es = take (length es) (drop (Z.to_nat start) (cq_Entries c)) ->
  vars_after start es v ->
  let r := find_from (cq_Entries c) userData i k in
  runs (EntryBy_loop userData k i v) m r
    (match r with Some j => put_cq (matched c start j) m | None => m end).
Proof.
  induction k as [|k IH]; intros start es v m c Hm Hwf Hs i Hk Hes Hv.
  { cbn. apply runs_ret. }
  destruct (slice_get_in (cq_Entries c) i) as [e He]; [lia|].
  pose proof (pow2_size_u32 _ (cqwf_pow2 c Hwf)) as Hn.
  pose proof (vars_after_see start es e v Hs ltac:(lia) Hv) as Hv'.
  assert (es ++ [e] = take (length (es ++ [e])) (drop (Z.to_nat start) (cq_Entries c))) as Hes'.
  { rewrite length_app, <- take_take_drop, <- Hes, drop_drop. f_equal.
    replace (Z.to_nat start + length es)%nat with (Z.to_nat i) by lia.
    by rewrite (drop_cons_slice _ _ e). }
  unfold find_from. rewrite (drop_cons_slice _ _ e) by done. cbn [take list_find EntryBy_loop].
  eapply runs_bind; [by eapply (runs_cq_entry _ c)|]. cbn zeta.
  destruct (Z.eqb_spec (cqe_UserData e) userData) as [Heq|Hne].
  - rewrite decide_True by done. cbn [fmap option_fmap option_map fst].
    eapply runs_bind; [by eapply runs_cq_update_entry|].
    eapply runs_bind; [apply runs_cq_load, m_cq_put|].
    eapply runs_bind; [apply runs_cq_store, m_cq_put|].
    eapply runs_eq; [apply runs_ret|f_equal; lia|]. rewrite put_cq_put. f_equal.
    unfold matched. replace (i + Z.of_nat 0) with i by lia.
    replace (Z.to_nat (i + 1 - start)) with (length (es ++ [e])) by (rewrite length_app; cbn; lia).
    rewrite <- Hes', <- (proj1 Hv'). done.
  - rewrite decide_False by done. rewrite uwrap_id by (unfold is_uint; lia).
    specialize (IH start (es ++ [e]) (EntryBy_see i e v) m c Hm Hwf Hs).
    replace (start + Z.of_nat (length (es ++ [e]))) with (i + 1) in IH
      by (rewrite length_app; cbn; lia).
    specialize (IH ltac:(lia) Hes' Hv'). cbn zeta in IH.
    assert (find_from (cq_Entries c) userData (i + 1) k =
      (fun x : nat * CompletionEntry => i + Z.of_nat x.1) <$>
        (prod_map S id <$> list_find (fun e => cqe_UserData e = userData)
           (take k (drop (S (Z.to_nat i)) (cq_Entries c))))) as E.
    { unfold find_from. replace (S (Z.to_nat i)) with (Z.to_nat (i + 1)) by lia.
      destruct (list_find _ _) as [[]|]; cbn; [f_equal; lia|done]. }
    rewrite E in IH. exact IH.
Qed.
End EntryBySpec.

(** Where [EntryBy] finds the entry: the start of the loop and the position. *)
Definition EntryBy_ref (userData : Z) (c : CompletionQueue) : option (Z * Z) :=
  if cq_head_pos c =? cq_tail_pos c then None
  else
    match find_from (cq_Entries c) userData (cq_head_pos c)
            (Z.to_nat (len (cq_Entries c) - cq_head_pos c)) with
    | Some i => Some (cq_head_pos c, i)
    | None => (0,.) <$> find_from (cq_Entries c) userData 0 (Z.to_nat (cq_tail_pos c + 1))
    end.

Section EntryByResult.
Implicit Types (m : Mem) (c : CompletionQueue).

Lemma vars_after_nil start b : vars_after start [] (mkSeen start b false).
Proof. split; [cbn; lia|done]. Qed.

Lemma runs_EntryBy userData m c :
  m_cq m = Some c -> cq_wf c ->
  let r := EntryBy_ref userData c in
  runs (EntryBy userData) m
    (snd <$> r, match r with Some _ => None | None => Some ErrEntryNotFound end)
    (match r with Some (start, i) => put_cq (matched c start i) m | None => m end).
Proof.
  intros Hm Hwf. unfold EntryBy, EntryBy_ref.
  pose proof (cq_head_pos_range c Hwf) as Hh. pose proof (cq_tail_pos_range c Hwf) as Ht.
  pose proof (pow2_size_u32 _ (cqwf_pow2 c Hwf)) as Hn.
  do 3 (eapply runs_bind; [by apply runs_cq_load|]). fold (cq_head_pos c) (cq_tail_pos c).
  destruct (_ =? _); [apply runs_ret|].
  eapply runs_bind; [by apply runs_cq_load|]. cbn zeta.
  rewrite uwrap_id by (unfold is_uint; lia).
  replace (len (cq_Entries c) - 1 + 1 - cq_head_pos c) with (len (cq_Entries c) - cq_head_pos c) by lia.
  eapply runs_bind.
  { pose proof (runs_EntryBy_loop userData (Z.to_nat (len (cq_Entries c) - cq_head_pos c))
      (cq_head_pos c) [] (mkSeen (cq_head_pos c) false false) m c Hm Hwf) as H.
    cbn [length] in H. rewrite Z.add_0_r in H.
    apply H; [lia|lia|done|apply vars_after_nil]. }
  destruct (find_from _ _ (cq_head_pos c) _) as [i|]; [apply runs_ret|].
  do 2 (eapply runs_bind; [by apply runs_cq_load|]). fold (cq_tail_pos c).
  eapply runs_bind.
  { pose proof (runs_EntryBy_loop userData (Z.to_nat (cq_tail_pos c + 1))
      0 [] (mkSeen 0 false false) m c Hm Hwf) as H.
    cbn [length Z.of_nat] in H. rewrite Z.add_0_r in H.
    apply H; [done|cbn; lia|done|apply vars_after_nil]. }
  destruct (find_from _ _ 0 _) as [i|]; apply runs_ret.
Qed.

Lemma find_from_Some es userData i k j :
  0 <= i -> find_from es userData i k = Some j ->
  i <= j < i + Z.of_nat k /\ exists e, slice_get es j = Some e /\ cqe_UserData e = userData.
Proof.
  intros Hi H. unfold find_from in H.
  destruct (list_find _ _) as [[x e]|] eqn:E; [|done]. injection H as <-. cbn.
  apply list_find_Some in E as (Hx & He & _).
  pose proof Hx as [Hx' Hlt]%lookup_take_Some. rewrite lookup_drop in Hx'.
  split; [lia|]. exists e. split; [|done]. unfold slice_get.
  rewrite bool_decide_true by lia.
  replace (Z.to_nat (i + Z.of_nat x)) with (Z.to_nat i + x)%nat by lia. done.
Qed.

Lemma find_from_None es userData i k j e :
  0 <= i -> find_from es userData i k = None -> i <= j < i + Z.of_nat k ->
  slice_get es j = Some e -> cqe_UserData e <> userData.
Proof.
  intros Hi H Hj He. unfold find_from in H.
  destruct (list_find _ _) as [[]|] eqn:E; [done|].
  apply list_find_None in E. rewrite Forall_lookup in E.
  apply slice_get_Some in He as [_ He]. apply (E (Z.to_nat (j - i))).
  rewrite lookup_take_lt, lookup_drop by lia. by replace (Z.to_nat i + Z.to_nat (j - i))%nat with (Z.to_nat j) by lia.
Qed.

Lemma EntryBy_ref_Some userData c start i :
  cq_wf c -> EntryBy_ref userData c = Some (start, i) ->
  0 <= start <= i /\ i < len (cq_Entries c) /\
  exists e, slice_get (cq_Entries c) i = Some e /\ cqe_UserData e = userData.
Proof.
  intros Hwf H. unfold EntryBy_ref in H.
  pose proof (cq_head_pos_range c Hwf) as Hh. pose proof (cq_tail_pos_range c Hwf) as Ht.
  destruct (_ =? _); [done|].
  destruct (find_from _ _ (cq_head_pos c) _) eqn:E1; simplify_eq.
  - apply find_from_Some in E1 as [? ?]; [|lia]. split_and!; [lia..|done].
  - destruct (find_from _ _ 0 _) eqn:E2; [|done]. cbn in H. simplify_eq.
    apply find_from_Some in E2 as [? ?]; [|lia]. split_and!; [lia..|done].
Qed.

Lemma find_from_first es userData i k j j' e :
  0 <= i -> find_from es userData i k = Some j -> i <= j' < j -> slice_get es j' = Some e ->
  cqe_UserData e <> userData.
Proof.
  intros Hi H Hj He. unfold find_from in H.
  destruct (list_find _ _) as [[x y]|] eqn:E; [|done]. injection H as <-. cbn in Hj.
  apply list_find_Some in E as (Hx & _ & Hfst). apply slice_get_Some in He as [_ He].
  apply (Hfst (Z.to_nat (j' - i))); [|lia]. apply lookup_lt_Some in Hx. rewrite length_take in Hx.
  rewrite lookup_take_lt, lookup_drop by lia.
  by replace (Z.to_nat i + Z.to_nat (j' - i))%nat with (Z.to_nat j') by lia.
Qed.
End EntryByResult.

(** The positions [EntryBy] looks at, in order: from the head to the end of the
    array, then from its start to the tail; none when head and tail are at the
    same position. *)
Definition EntryBy_order (c : CompletionQueue) : list Z :=
  if cq_head_pos c =? cq_tail_pos c then []
  else seqZ (cq_head_pos c) (len (cq_Entries c) - cq_head_pos c) ++ seqZ 0 (cq_tail_pos c + 1).

(** [i] is the first of the positions whose entry has the user data. *)
Definition first_match (c : CompletionQueue) (userData i : Z) (order : list Z) : Prop :=
  exists before after, order = before ++ i :: after /\
    (exists e, slice_get (cq_Entries c) i = Some e /\ cqe_UserData e = userData) /\
    forall j e, j ∈ before -> slice_get (cq_Entries c) j = Some e -> cqe_UserData e <> userData.

Section EntryByOrder.
Implicit Types (c : CompletionQueue).

Lemma seqZ_split a k i : a <= i < a + k -> seqZ a k = seqZ a (i - a) ++ i :: seqZ (i + 1) (a + k - i - 1).
Proof.
  intros H. replace k with ((i - a) + (1 + (a + k - i - 1))) at 1 by lia.
  rewrite seqZ_app, (seqZ_cons (a + (i - a))) by lia. f_equal. f_equal; [lia|]. f_equal; lia.
Qed.

Lemma EntryBy_ref_order userData c :
  cq_wf c ->
  match EntryBy_ref userData c with
  | Some (start, i) => start = (if cq_head_pos c <=? i then cq_head_pos c else 0) /\
      first_match c userData i (EntryBy_order c)
  | None => forall j e, j ∈ EntryBy_order c -> slice_get (cq_Entries c) j = Some e ->
      cqe_UserData e <> userData
  end.
Proof.
  intros Hwf. unfold EntryBy_ref, EntryBy_order.
  pose proof (cq_head_pos_range c Hwf) as Hh. pose proof (cq_tail_pos_range c Hwf) as Ht.
  destruct (_ =? _); [intros j e []%elem_of_nil|].
  set (h := cq_head_pos c) in *. set (n := len (cq_Entries c)) in *.
  destruct (find_from _ _ h _) as [i|] eqn:E1.
  - pose proof (find_from_Some _ _ _ _ _ (proj1 Hh) E1) as [Hi He].
    rewrite (proj2 (Z.leb_le _ _)) by lia. split; [done|].
    rewrite (seqZ_split h (n - h) i), <- app_assoc by lia. eexists _, _. split_and!; [reflexivity|done|].
    intros j e Hj%elem_of_seqZ. eapply find_from_first; [|exact E1|]; lia.
  - assert (forall j e, h <= j < n -> slice_get (cq_Entries c) j = Some e -> cqe_UserData e <> userData) as H1.
    { intros j e Hj. eapply find_from_None; [|exact E1|]; lia. }
    destruct (find_from _ _ 0 _) as [i|] eqn:E2; cbn.
    + pose proof (find_from_Some _ _ _ _ _ (Z.le_refl 0) E2) as [Hi (e & He & Hud)].
      assert (i < h) as Hih. { destruct (Z_lt_dec i h); [done|]. destruct (H1 i e); [lia|done|done]. }
      rewrite (proj2 (Z.leb_gt _ _)) by lia. split; [done|].
      rewrite (seqZ_split 0 (cq_tail_pos c + 1) i), app_assoc by lia.
      eexists _, _. split_and!; [reflexivity|eauto|].
      intros j x [Hj%elem_of_seqZ|Hj%elem_of_seqZ]%elem_of_app; [apply H1; lia|].
      eapply find_from_first; [|exact E2|]; lia.
    + intros j e [Hj%elem_of_seqZ|Hj%elem_of_seqZ]%elem_of_app; [apply H1; lia|].
      eapply find_from_None; [|exact E2|]; lia.
Qed.

(** Every pending completion is at one of the positions, if the queue has room. *)
Lemma pending_in_order c e :
  cq_wf c -> cq_room c -> e ∈ pending c ->
  exists i, i ∈ EntryBy_order c /\ slice_get (cq_Entries c) i = Some e.
Proof.
  intros Hwf Hroom He. unfold EntryBy_order.
  pose proof (cq_head_pos_range c Hwf) as Hh. pose proof (cq_tail_pos_range c Hwf) as Ht.
  pose proof (pending_count c Hwf Hroom) as Hc. unfold pending in He.
  apply list_elem_of_omap in He as (k & Hk & He). apply elem_of_seqZ in Hk. unfold cq_room in Hroom.
  eexists. split; [|exact He].
  destruct (Z.eqb_spec (cq_head_pos c) (cq_tail_pos c)) as [E|Hne].
  { rewrite E, Z.leb_refl in Hc. lia. }
  rewrite pending_pos by (done || lia). rewrite elem_of_app, !elem_of_seqZ.
  destruct (Z.ltb_spec (cq_head_pos c + k) (len (cq_Entries c))); [left; lia|right].
  destruct (Z.leb_spec (cq_head_pos c) (cq_tail_pos c)); lia.
Qed.

Lemma EntryBy_ref_pending userData c e :
  cq_wf c -> cq_room c -> e ∈ pending c -> cqe_UserData e = userData ->
  is_Some (EntryBy_ref userData c).
Proof.
  intros Hwf Hroom He Hud. destruct (pending_in_order c e Hwf Hroom He) as (i & Hi & Hget).
  pose proof (EntryBy_ref_order userData c Hwf) as H.
  destruct (EntryBy_ref userData c) as [[]|]; [done|]. by destruct (H i e).
Qed.

Lemma order_full c : cq_wf c -> cq_full c -> EntryBy_order c = [].
Proof.
  intros Hwf Hfull. pose proof (pending_mod c Hwf) as E. rewrite Hfull, Z_mod_same_full in E.
  pose proof (cq_head_pos_range c Hwf) as Hh. pose proof (cq_tail_pos_range c Hwf) as Ht.
  unfold EntryBy_order. rewrite (proj2 (Z.eqb_eq _ _)); [done|].
  destruct (Z.leb_spec (cq_head_pos c) (cq_tail_pos c)); lia.
Qed.
End EntryByOrder.

(** C37. [EntryBy] on every well-formed queue.  It returns the first entry with the
    user data among the positions from the head to the end of the array and then
    from its start to the tail, marks that entry and no other as seen, and stores
    as the head the end of the entries in a row that were seen before, from the
    start of the range it found the entry in (zero at the end of the ring).  When
    no entry there has the user data it returns [ErrEntryNotFound] and changes
    nothing.  All pending completions are at these positions when the queue has
    room for one more; a full queue is taken for an empty one, and nothing is
    found in it. *)
Theorem EntryBy_finds (userData : Z) (m : Mem) (c : CompletionQueue)
    (Hm : m_cq m = Some c) (Hwf : cq_wf c) :
  (exists r m', runs (EntryBy userData) m r m' /\
    match r with
    | (Some i, e) => e = None /\ first_match c userData i (EntryBy_order c) /\
        let start := if cq_head_pos c <=? i then cq_head_pos c else 0 in
        m' = put_cq (matched c start i) m
    | (None, e) => e = Some ErrEntryNotFound /\ m' = m /\
        forall j x, j ∈ EntryBy_order c -> slice_get (cq_Entries c) j = Some x -> cqe_UserData x <> userData
    end) /\
  (cq_room c -> forall x, x ∈ pending c ->
     exists i, i ∈ EntryBy_order c /\ slice_get (cq_Entries c) i = Some x) /\
  (cq_full c -> EntryBy_order c = []).
Proof.
  split; [|split; [intros Hroom x; by apply pending_in_order|by apply order_full]].
  eexists _, _. split; [by apply runs_EntryBy|]. pose proof (EntryBy_ref_order userData c Hwf) as H.
  destruct (EntryBy_ref userData c) as [[start i]|]; cbn; [|done].
  destruct H as [-> H]. done.
Qed.

Lemma seen_prefix_le es : (seen_prefix es <= length es)%nat.
Proof. induction es as [|e es IH]; [done|]. cbn. destruct (was_seen e); lia. Qed.

(** [EntryBy] stores a position of the array into the head, which is a
    free-running counter: once the tail has passed twice the number of entries,
    a call that finds its entry leaves a queue that counts as full. *)
Theorem EntryBy_loses_head (userData : Z) (m : Mem) (c : CompletionQueue) (i : Z)
    (Hm : m_cq m = Some c) (Hwf : cq_wf c)
    (Hfound : (snd <$> EntryBy_ref userData c) = Some i)
    (Htail : 2 * len (cq_Entries c) <= cq_Tail c) :
  exists m' c', runs (EntryBy userData) m (Some i, None) m' /\ m_cq m' = Some c' /\
    cq_Head c' <= len (cq_Entries c') /\
    len (cq_Entries c') <= u32 (cq_Tail c' - cq_Head c').
Proof.
  destruct (EntryBy_ref userData c) as [[start j]|] eqn:E; [|done]. cbn in Hfound. simplify_eq.
  eexists _, (matched c start i). split; [|split].
  - eapply runs_eq; [by apply runs_EntryBy|by rewrite E|rewrite E; reflexivity].
  - done.
  - apply EntryBy_ref_Some in E as ([H0 Hs] & Hi & _); [|done]. unfold matched. cbn.
    rewrite len_alter.
    pose proof (seen_prefix_le (take (Z.to_nat (i + 1 - start)) (drop (Z.to_nat start) (cq_Entries c)))) as Hp.
    rewrite length_take in Hp. set (k := seen_prefix _) in *.
    pose proof (pow2_size_u32 _ (cqwf_pow2 c Hwf)). pose proof (cqwf_tail c Hwf) as Ht.
    unfold is_uint in Ht.
    destruct (_ =? _); rewrite uwrap_id by (unfold is_uint; lia); lia.
Qed.

(** ** getCqe *)

Section GetCqe.
Implicit Types (m : Mem) (c : CompletionQueue).

Lemma runs_getCqe_loop reqID k : forall x end_ m c,
  m_cq m = Some c -> 0 <= x -> x + Z.of_nat k <= len (cq_Entries c) ->
  ~ (x <= end_ < x + Z.of_nat k) ->
  runs (getCqe_loop reqID k x end_) m
    (match completion_of reqID (take k (drop (Z.to_nat x) (cq_Entries c))) with
     | Some e => PReturn (cqe_result e) | None => PEnd end) m.
Proof.
  induction k as [|k IH]; intros x end_ m c Hm Hx Hk He; [apply runs_ret|].
  destruct (slice_get_in (cq_Entries c) x) as [e Hget]; [lia|].
  rewrite (drop_cons_slice _ _ e) by done. cbn [take getCqe_loop]. rewrite completion_of_cons.
  eapply runs_bind; [by eapply (runs_cq_entry _ c)|].
  destruct (Z.eqb_spec (cqe_UserData e) reqID).
  - rewrite decide_True by done. apply runs_ret.
  - rewrite decide_False by done. rewrite (proj2 (Z.eqb_neq _ _)) by lia.
    replace (S (Z.to_nat x)) with (Z.to_nat (x + 1)) by lia. apply IH; [done|lia..].
Qed.

(** The loop that meets the tail stops there, after looking at the entry. *)
Lemma runs_getCqe_loop_tail reqID j : forall k x end_ m c,
  m_cq m = Some c -> 0 <= x -> end_ = x + Z.of_nat j -> (j < k)%nat ->
  end_ < len (cq_Entries c) ->
  runs (getCqe_loop reqID k x end_) m
    (match completion_of reqID (take (S j) (drop (Z.to_nat x) (cq_Entries c))) with
     | Some e => PReturn (cqe_result e) | None => PAgain end) m.
Proof.
  induction j as [|j IH]; intros k x end_ m c Hm Hx He Hk Hl;
    (destruct k as [|k]; [lia|]);
    (destruct (slice_get_in (cq_Entries c) x) as [e Hget]; [lia|]);
    rewrite (drop_cons_slice _ _ e) by done; cbn [getCqe_loop];
    (eapply runs_bind; [by eapply (runs_cq_entry _ c)|]);
    cbn [take]; rewrite completion_of_cons;
    (destruct (Z.eqb_spec (cqe_UserData e) reqID);
      [rewrite decide_True by done; apply runs_ret|rewrite decide_False by done]).
  - rewrite (proj2 (Z.eqb_eq _ _)) by lia. apply runs_ret.
  - rewrite (proj2 (Z.eqb_neq _ _)) by lia.
    replace (S (Z.to_nat x)) with (Z.to_nat (x + 1)) by lia. apply IH; [done|lia..].
Qed.

Lemma completion_of_app id es es' :
  completion_of id (es ++ es') =
  match completion_of id es with Some e => Some e | None => completion_of id es' end.
Proof.
  induction es as [|e es IH]; [done|]. cbn [app]. rewrite !completion_of_cons. by case_decide.
Qed.

(** One pass, in terms of the windows of [onEntry]. *)
Lemma runs_getCqe_pass reqID m c :
  m_cq m = Some c -> cq_wf c ->
  runs (getCqe_pass reqID) m
    (match completion_of reqID (window1 c ++ window2 c) with
     | Some e => PReturn (cqe_result e)
     | None => if cq_head_pos c <=? cq_tail_pos c then PAgain
               else PReturn (0, 0, Some errCQEMissing)
     end) m.
Proof.
  intros Hm Hwf. unfold getCqe_pass.
  pose proof (cq_head_pos_range c Hwf) as Hh. pose proof (cq_tail_pos_range c Hwf) as Ht.
  do 4 (eapply runs_bind; [by apply runs_cq_load|]). cbn zeta.
  fold (cq_head_pos c) (cq_tail_pos c). rewrite completion_of_app. unfold window1, window2.
  case Z.leb_spec; intros Hle.
  - eapply runs_bind.
    + apply (runs_getCqe_loop_tail reqID (Z.to_nat (cq_tail_pos c - cq_head_pos c)) _ _ _ m c);
        [done|lia..].
    + replace (S (Z.to_nat (cq_tail_pos c - cq_head_pos c)))
        with (Z.to_nat (cq_tail_pos c) + 1 - Z.to_nat (cq_head_pos c))%nat by lia.
      destruct (completion_of _ _); apply runs_ret.
  - eapply runs_bind.
    + apply (runs_getCqe_loop reqID _ _ _ m c); [done|lia..].
    + rewrite take_all_drop by lia. destruct (completion_of _ _); [apply runs_ret|].
      do 2 (eapply runs_bind; [by apply runs_cq_load|]). cbn zeta. fold (cq_tail_pos c).
      eapply runs_bind; [apply (runs_getCqe_loop reqID _ _ _ m c); [done|lia..]|].
      change (drop (Z.to_nat 0) (cq_Entries c)) with (cq_Entries c).
      destruct (completion_of _ _); apply runs_ret.
Qed.

(** A loop whose passes all jump back uses up any fuel. *)
Lemma run_getCqe_starves reqID m :
  runs (getCqe_pass reqID) m PAgain m ->
  forall fuel n, run quiet (Ring_getCqe fuel reqID) n m = Starved m.
Proof.
  intros H. induction fuel as [|fuel IH]; intros n; [done|]. cbn [Ring_getCqe].
  rewrite run_bind. destruct (H n) as [n' ->]. apply IH.
Qed.
End GetCqe.

(** What [getCqe] does when the queue does not change, on every branch: a
    completion between head and tail (or the stale one at the tail) is returned
    at the first pass, with its error number when the result is negative;
    otherwise it waits for the kernel, but only while the window does not wrap:
    on a wrapped window it gives up with [errCQEMissing]. *)
Theorem getCqe_behaviour (reqID : Z) (m : Mem) (c : CompletionQueue)
    (Hm : m_cq m = Some c) (Hwf : cq_wf c) (Hroom : cq_room c) :
  match completion_of reqID (pending c ++ stale c) with
  | Some e => forall fuel, runs (Ring_getCqe (S fuel) reqID) m
      (if cqe_Res e <? 0 then (0, 0, Some (negErrno (cqe_Res e))) else (cqe_Res e, cqe_Flags e, None)) m
  | None =>
      if cq_head_pos c <=? cq_tail_pos c
      then forall fuel n, run quiet (Ring_getCqe fuel reqID) n m = Starved m
      else forall fuel, runs (Ring_getCqe (S fuel) reqID) m (0, 0, Some errCQEMissing) m
  end.
Proof.
  pose proof (runs_getCqe_pass reqID m c Hm Hwf) as H. rewrite scan_pending in H by done.
  destruct (completion_of reqID _) as [e|].
  - intros fuel. eapply runs_bind; [exact H|]. apply runs_ret.
  - destruct (_ <=? _).
    + by apply run_getCqe_starves.
    + intros fuel. eapply runs_bind; [exact H|]. apply runs_ret.
Qed.

Section GetCqeSound.
(** What is known of every completion the kernel ever posts. *)
Context (P : CompletionEntry -> Prop) (mask : Z) (size : nat).

Definition posted (m : Mem) : Prop :=
  exists c, m_cq m = Some c /\ cq_wf c /\ cq_Mask c = mask /\ length (cq_Entries c) = size /\
    Forall P (cq_Entries c).

Definition pass_ok (reqID : Z) (r : pass) : Prop :=
  match r with
  | PReturn x => x = (0, 0, Some errCQEMissing) \/
      exists e, P e /\ cqe_UserData e = reqID /\ x = cqe_result e
  | _ => True
  end.

Lemma safe_cq_load {A} (f : CompletionQueue -> A) (Q : A -> Prop) :
  (forall m c, posted m -> m_cq m = Some c -> cq_wf c -> cq_Mask c = mask ->
    length (cq_Entries c) = size -> Q (f c)) ->
  safe posted (cq_load f) Q.
Proof.
  intros H. apply safe_try_load. intros m Hm. pose proof Hm as (c & Hc & ? & ? & ? & ?).
  unfold m_cq in *. rewrite Hc. cbn. eauto.
Qed.

Lemma safe_cq_entry i :
  0 <= i < Z.of_nat size -> safe posted (cq_entry i) P.
Proof.
  intros Hi. apply safe_try_load. intros m (c & Hc & ? & ? & Hl & HP).
  destruct (slice_get_in (cq_Entries c) i) as [e He]; [unfold len; lia|].
  exists e. unfold m_cq in *. rewrite Hc. split; [done|].
  apply slice_get_Some in He as [_ He]. by eapply Forall_lookup_1.
Qed.

Lemma safe_getCqe_loop reqID end_ k : forall x,
  0 <= x -> x + Z.of_nat k <= Z.of_nat size ->
  safe posted (getCqe_loop reqID k x end_) (pass_ok reqID).
Proof.
  induction k as [|k IH]; intros x Hx Hk; [done|]. cbn [getCqe_loop].
  eapply safe_bind; [apply safe_cq_entry; lia|]. intros e He.
  destruct (Z.eqb_spec (cqe_UserData e) reqID); [right; eauto|].
  destruct (_ =? _); [done|]. apply IH; lia.
Qed.

Lemma safe_getCqe_pass reqID : safe posted (getCqe_pass reqID) (pass_ok reqID).
Proof.
  unfold getCqe_pass.
  eapply (safe_bind _ _ _ (fun _ => True)); [by apply safe_cq_load|]. intros head _.
  eapply (safe_bind _ _ _ (fun _ => True)); [by apply safe_cq_load|]. intros tail _.
  eapply (safe_bind _ _ _ (fun k => k = mask /\ forall x, 0 <= Z.land x k < Z.of_nat size)).
  { apply safe_cq_load. intros m c _ _ Hwf Hk Hl. split; [done|]. intros x.
    pose proof (cq_pos_range c x Hwf). unfold len in *. lia. }
  intros k [-> Hpos].
  eapply (safe_bind _ _ _ (fun n => n = Z.of_nat size)).
  { apply safe_cq_load. intros m c _ _ _ _ Hl. unfold len. lia. }
  intros n ->. pose proof (Hpos head).
  eapply safe_bind; [apply safe_getCqe_loop; lia|].
  intros [r| |] Hr; [done|done|].
  eapply (safe_bind _ _ _ (fun _ => True)); [by apply safe_cq_load|]. intros tail' _.
  eapply (safe_bind _ _ _ (fun k => k = mask)); [apply safe_cq_load; auto|]. intros k ->.
  pose proof (Hpos tail').
  eapply safe_bind; [apply safe_getCqe_loop; lia|].
  intros [r| |] Hr'; [done|done|]. by left.
Qed.

Lemma safe_getCqe reqID fuel :
  safe posted (Ring_getCqe fuel reqID) (fun x => pass_ok reqID (PReturn x)).
Proof.
  induction fuel as [|fuel IH]; [done|]. cbn [Ring_getCqe].
  eapply safe_bind; [apply safe_getCqe_pass|]. intros [r| |] Hr; done.
Qed.
End GetCqeSound.

(** C23. [getCqe] while the kernel and other goroutines change the queue (any
    change that keeps its shape): it never panics, and an answer other than
    [errCQEMissing] is the answer of a completion of this very request that the
    queue held. *)
Theorem getCqe_sound (P : CompletionEntry -> Prop) (mask : Z) (size : nat) (reqID : Z)
    (env : nat -> Mem -> Mem) (fuel n : nat) (m : Mem)
    (Henv : forall n m, posted P mask size m -> posted P mask size (env n m))
    (Hm : posted P mask size m) :
  match run env (Ring_getCqe fuel reqID) n m with
  | Done r m' _ => posted P mask size m' /\
      (r = (0, 0, Some errCQEMissing) \/
       exists e, P e /\ cqe_UserData e = reqID /\ r = cqe_result e)
  | Panicked _ _ => False
  | Starved _ => True
  end.
Proof.
  pose proof (safe_run _ env _ _ n m Henv Hm (safe_getCqe P mask size reqID fuel)) as H.
  destruct (run env _ n m); [|done|done]. by destruct H.
Qed.

(** ** Witnesses *)

(** The counters have gone around many times. *)
Definition late_cq : CompletionQueue := set_cq_Head 801 (set_cq_Tail 804 straight_cq).

Lemma late_wf : cq_wf late_cq.
Proof. split; try done. exists 3. split; [lia|done]. Qed.

Lemma EntryBy_finds_witness :
  exists r m', runs (EntryBy 3) (completion_mem wrapped_cq) r m' /\
    match r with
    | (Some i, e) => e = None /\ first_match wrapped_cq 3 i [6; 7; 0; 1; 2] /\
        let start := if 6 <=? i then 6 else 0 in
        m' = put_cq (matched wrapped_cq start i) (completion_mem wrapped_cq)
    | (None, e) => e = Some ErrEntryNotFound /\ m' = completion_mem wrapped_cq /\
        forall j x, j ∈ [6; 7; 0; 1; 2] -> slice_get (cq_Entries wrapped_cq) j = Some x -> cqe_UserData x <> 3
    end.
Proof.
  apply (EntryBy_finds 3 (completion_mem wrapped_cq) wrapped_cq); [reflexivity|apply wrapped_wf].
Defined.

Lemma EntryBy_loses_head_witness :
  exists m' c', runs (EntryBy 1) (completion_mem late_cq) (Some 1, None) m' /\ m_cq m' = Some c' /\
    cq_Head c' <= len (cq_Entries c') /\
    len (cq_Entries c') <= u32 (cq_Tail c' - cq_Head c').
Proof.
  apply (EntryBy_loses_head 1 (completion_mem late_cq) late_cq 1);
    [reflexivity|apply late_wf|vm_compute; reflexivity|vm_compute; discriminate].
Defined.

Lemma getCqe_behaviour_witness :
  runs (Ring_getCqe 1 2) (completion_mem wrapped_cq)
    (0, 0, Some (negErrno (-5))) (completion_mem wrapped_cq).
Proof.
  assert (completion_of 2 (pending wrapped_cq ++ stale wrapped_cq) = Some (mkCQE 2 (-5) 0)) as E
    by (vm_compute; reflexivity).
  assert (cq_room wrapped_cq) as Hroom by (vm_compute; reflexivity).
  pose proof (getCqe_behaviour 2 (completion_mem wrapped_cq) wrapped_cq eq_refl wrapped_wf Hroom) as H.
  rewrite E in H. exact (H 0%nat).
Defined.

Lemma getCqe_sound_witness :
  match run (fun _ m => m) (Ring_getCqe 1 2) 0 (completion_mem wrapped_cq) with
  | Done r m' _ => posted (fun e => cqe_Flags e <= 1) 7 8 m' /\
      (r = (0, 0, Some errCQEMissing) \/
       exists e, cqe_Flags e <= 1 /\ cqe_UserData e = 2 /\ r = cqe_result e)
  | Panicked _ _ => False
  | Starved _ => True
  end.
Proof.
  apply (getCqe_sound (fun e => cqe_Flags e <= 1) 7 8 2 (fun _ m => m) 1 0).
  - auto.
  - exists wrapped_cq. split_and!; [reflexivity|apply wrapped_wf|reflexivity|reflexivity|].
    by repeat constructor.
Defined.
