(* ===== verification/RunLoop.v ===== *)
(** * The completion goroutine (ring.go, Ring.run)

    [Ring.run] is a loop around a select: it never returns by itself, so it is a
    step relation.  A state of it is where the goroutine is ([loop]), the number
    of messages in its channel [retry], and the shared memory.  Inside a branch
    the goroutine is a program, and each of its actions is one step, so that
    other goroutines and the kernel interleave with it.  [sstep] adds client
    goroutines and the kernel; [sys_run] executes a schedule of such steps. *)

From stdpp Require Import base list gmap strings relations.
From Stdlib Require Import ZArith Lia.
From S2P Require Import Prelude Prog Consts Types Machine Submission Ops Completion.

(** ** The branches *)

Section Branches.
Context `{Kernel} (fuel : nat).

(** [r.Enter(uint(len(inflight)), 0, EnterGetEvents, nil)], with the error given
    to the handler if there is one. *)
Definition run_enter (inflight : gmap Z nat) : prog Mem Z :=
  '(count, e) ← Ring_Enter fuel (u64 (Z.of_nat (size inflight))) 0 EnterGetEvents;
  match e with
  | None => Ret count
  | Some e =>
      handler ← ring_load r_enterErrHandler;
      if (handler : bool) then store (fun m => set_m_errs (e :: m_errs m) m);; Ret count
      else Ret count
  end.

(** [case cr := <-r.completions]. *)
Definition run_completion (inflight : gmap Z nat) (cr : nat) : prog Mem (gmap Z nat) :=
  id ← req_load cr cr_id;
  let inflight := <[id := cr]> inflight in
  count ← run_enter inflight;
  Ring_onEntry fuel inflight count.

(** [case <-retry]: the inner select does not wait. *)
Definition run_retry (inflight : gmap Z nat) : prog Mem (gmap Z nat) :=
  got ← act (fun m =>
    match r_completions (m_ring m) with
    | [] => (None, m)
    | cr :: rest => (Some cr, upd_ring (set_r_completions rest) m)
    end);
  inflight ← match got with
    | None => Ret inflight
    | Some cr =>
        id ← req_load cr cr_id;
        let inflight := <[id := cr]> inflight in
        _ ← run_enter inflight;
        Ret inflight
    end;
  Ring_onEntry fuel inflight 0.
End Branches.

(** ** The loop *)

(** At the select; in a branch; at [retry <- struct{}{}] after a branch; returned. *)
Inductive loop :=
| LSelect (inflight : gmap Z nat)
| LBody (body : prog Mem (gmap Z nat))
| LSend (inflight : gmap Z nat)
| LReturned.

(** The capacity of [retry]. *)
Definition retryCap : nat := 2.

Definition after_body (inflight : gmap Z nat) : loop :=
  if decide (0 < size inflight)%nat then LSend inflight else LSelect inflight.

(** Clients with results in [A], the loop with the messages in [retry], the memory. *)
Record system (A : Type) := mkSys {
  s_clients : list (prog Mem A); s_loop : loop; s_retry : nat; s_mem : Mem
}.
Arguments mkSys {A} _ _ _ _.
Arguments s_clients {A} _.
Arguments s_loop {A} _.
Arguments s_retry {A} _.
Arguments s_mem {A} _.

(** Clients that call [complete] and hold its two results at the end. *)
Abbreviation sys := (system (Z * Z)).

Section Loop.
Context `{Kernel} (fuel : nat).

Inductive lstep : loop * nat * Mem -> loop * nat * Mem -> Prop :=
| lstep_stop inflight retry m n :
    r_stop (m_ring m) = S n ->
    lstep (LSelect inflight, retry, m) (LReturned, retry, upd_ring (set_r_stop n) m)
| lstep_completion inflight retry m cr rest :
    r_completions (m_ring m) = cr :: rest ->
    lstep (LSelect inflight, retry, m)
      (LBody (run_completion fuel inflight cr), retry, upd_ring (set_r_completions rest) m)
| lstep_retry inflight retry m :
    lstep (LSelect inflight, S retry, m) (LBody (run_retry fuel inflight), retry, m)
| lstep_act X f k x retry m m' :
    f m = (x, m') ->
    lstep (LBody (Step X f k), retry, m) (LBody (k x), retry, m')
| lstep_end inflight retry m :
    lstep (LBody (Ret inflight), retry, m) (after_body inflight, retry, m)
| lstep_send inflight retry m :
    (retry < retryCap)%nat ->
    lstep (LSend inflight, retry, m) (LSelect inflight, S retry, m).

(** ** The system: clients, the loop and the kernel *)

Inductive sstep {A} : system A -> system A -> Prop :=
| sstep_client i ps X f k x l retry m m' :
    ps !! i = Some (Step X f k) -> f m = (x, m') ->
    sstep (mkSys ps l retry m) (mkSys (<[i := k x]> ps) l retry m')
| sstep_loop ps l retry m l' retry' m' :
    lstep (l, retry, m) (l', retry', m') ->
    sstep (mkSys ps l retry m) (mkSys ps l' retry' m')
| sstep_kernel ps l retry m m' :
    kernel_step m m' ->
    sstep (mkSys ps l retry m) (mkSys ps l retry m').

(** ** Schedules *)

(** Which goroutine moves, and which branch a select takes. *)
Inductive move := MClient (i : nat) | MCompletion | MRetry | MLoop | MKernel (v : RingView).

Definition sys_move {A} (c : move) (s : system A) : option (system A) :=
  let '(mkSys ps l retry m) := s in
  match c with
  | MClient i =>
      match ps !! i with
      | Some (Step X f k) => let '(x, m') := f m in Some (mkSys (<[i := k x]> ps) l retry m')
      | _ => None
      end
  | MCompletion =>
      match l, r_completions (m_ring m) with
      | LSelect inflight, cr :: rest =>
          Some (mkSys ps (LBody (run_completion fuel inflight cr)) retry
                  (upd_ring (set_r_completions rest) m))
      | _, _ => None
      end
  | MRetry =>
      match l, retry with
      | LSelect inflight, S n => Some (mkSys ps (LBody (run_retry fuel inflight)) n m)
      | _, _ => None
      end
  | MLoop =>
      match l with
      | LBody (Step X f k) => let '(x, m') := f m in Some (mkSys ps (LBody (k x)) retry m')
      | LBody (Ret inflight) => Some (mkSys ps (after_body inflight) retry m)
      | LSend inflight =>
          if (retry <? retryCap)%nat then Some (mkSys ps (LSelect inflight) (S retry) m) else None
      | _ => None
      end
  | MKernel v => Some (mkSys ps l retry (apply_view v m))
  end.

Definition sys_run {A} (cs : list move) (s : system A) : option (system A) :=
  foldl (fun o c => s ← o; sys_move c s) (Some s) cs.

(** ** The schedules are executions *)

Lemma sys_move_step {A} c (s s' : system A) : sys_move c s = Some s' -> sstep s s'.
Proof.
  destruct s as [ps l retry m]. destruct c as [i| | | |v]; cbn; intros E.
  - destruct (ps !! i) as [[]|] eqn:Hi; try done. destruct (f m) eqn:Ef.
    simplify_eq. by eapply sstep_client.
  - destruct l, (r_completions (m_ring m)) eqn:Er; simplify_eq.
    apply sstep_loop. by apply lstep_completion.
  - destruct l, retry; simplify_eq. apply sstep_loop. constructor.
  - destruct l as [|[]| |]; simplify_eq.
    + apply sstep_loop. constructor.
    + destruct (f m) eqn:Ef. simplify_eq. apply sstep_loop. by constructor.
    + destruct (Nat.leb_spec retry 1); simplify_eq. apply sstep_loop, lstep_send. unfold retryCap. lia.
  - simplify_eq. apply sstep_kernel. by exists v.
Qed.

Lemma sys_run_steps {A} cs : forall (s s' : system A), sys_run cs s = Some s' -> rtc sstep s s'.
Proof.
  induction cs as [|c cs IH] using rev_ind; intros s s' E.
  - injection E as <-. done.
  - unfold sys_run in E. rewrite foldl_app in E. cbn in E.
    fold (sys_run cs s) in E. destruct (sys_run cs s) as [s1|] eqn:E1; [|done].
    eapply rtc_r; [by apply IH|]. by eapply sys_move_step.
Qed.
End Loop.

