(* ===== verification/RunLoopSpec.v ===== *)
(** * Properties of the completion goroutine

    It keeps polling while requests are in flight; a blocking call gets the
    result of its completion; and two schedules in which it does not work: the
    goroutine blocks on its own channel, and a request that is recycled while it
    is being completed receives the result of another one. *)

From stdpp Require Import base list gmap strings relations.
From Stdlib Require Import ZArith Lia.
From S2P Require Import Prelude Prog Consts Types Machine Samples Submission.
From S2P Require Import SubmissionSpec Ops Completion CompletionSpec RunLoop.

Section Polling.
Context `{K : Kernel} (fuel : nat).

(** At the select with requests in flight there is a message in [retry]. *)
Definition polls (s : sys) : Prop :=
  (s_retry s <= retryCap)%nat /\
  match s_loop s with
  | LSelect inflight => inflight <> ∅ -> (1 <= s_retry s)%nat
  | _ => True
  end.

Lemma polls_step s s' : sstep fuel s s' -> polls s -> polls s'.
Proof.
  unfold polls. destruct 1 as [| ? ? ? ? ? ? ? Hl |]; cbn; [done| |done].
  inversion Hl; subst; cbn in *; intros [Hr Hp]; try done; split; try lia.
  unfold after_body. case_decide as Hs; [done|]. intros Hne. exfalso. apply Hne.
  apply map_size_empty_inv. lia.
Qed.

Lemma polls_steps s s' : rtc (sstep fuel) s s' -> polls s -> polls s'.
Proof. induction 1; eauto using polls_step. Qed.

(** A goroutine at [retry <- struct{}{}] with the channel full stays there. *)
Definition blocked (s : sys) : Prop :=
  exists inflight, s_loop s = LSend inflight /\ s_retry s = retryCap.

Lemma blocked_step s s' : sstep fuel s s' -> blocked s -> blocked s'.
Proof.
  intros Hs (inflight & Hl & Hr). exists inflight.
  destruct Hs as [| ? ? ? ? ? ? ? H |]; cbn in *; [done| |done].
  subst. inversion H; subst. lia.
Qed.

Lemma blocked_steps s s' : rtc (sstep fuel) s s' -> blocked s -> blocked s'.
Proof. induction 1; eauto using blocked_step. Qed.
End Polling.

(** C17. The goroutine never sleeps on requests: in every state it can reach with
    requests in flight, whatever the clients and the kernel do, it is at its
    select with a message in [retry] (so the select has a branch to take), or
    inside a branch, or about to send that message, or it was stopped. *)
Theorem run_keeps_polling {K : Kernel} (fuel : nat) (ps : list (prog Mem (Z * Z))) (m : Mem) (s : sys)
    (Hs : rtc (sstep fuel) (mkSys ps (LSelect ∅) 0 m) s) :
  match s_loop s with
  | LSelect inflight => inflight <> ∅ ->
      exists n, s_retry s = S n /\
        sstep fuel s (mkSys (s_clients s) (LBody (run_retry fuel inflight)) n (s_mem s))
  | _ => True
  end.
Proof.
  apply polls_steps in Hs; [|split; [cbn; unfold retryCap; lia|by intros []]].
  destruct s as [ps' l retry m']. unfold polls in Hs. cbn in *. destruct Hs as [_ Hs].
  destruct l; try done. intros Hne. specialize (Hs Hne). destruct retry as [|n]; [lia|].
  exists n. split; [done|]. apply sstep_loop. constructor.
Qed.

(** ** A blocking call *)

Section Complete.
Context `{K : Kernel} (fuel : nat).

(** A client, or the loop inside a branch, scheduled alone. *)
Lemma client_runs_in {A B} (C : prog Mem A -> prog Mem B) i ps p l retry m a m' :
  (forall X f g, C (Step X f g) = Step X f (fun x => C (g x))) ->
  ps !! i = Some (C p) -> runs p m a m' ->
  rtc (sstep fuel) (mkSys ps l retry m) (mkSys (<[i := C (Ret a)]> ps) l retry m').
Proof.
  intros HC Hi Hr. destruct (Hr 0%nat) as [n' H]. clear Hr. revert H.
  generalize 0%nat as n. revert ps m Hi.
  induction p as [b|X f g IH|s|]; intros ps m Hi n H; cbn in H; try done.
  - injection H as -> -> <-. by rewrite list_insert_id.
  - unfold quiet in H at 1. destruct (f m) as [x m1] eqn:E. rewrite HC in Hi.
    eapply rtc_l; [by eapply (sstep_client fuel i ps X f)|].
    rewrite <- (list_insert_insert_eq ps i (C (Ret a)) (C (g x))).
    apply (IH x _ _) with (n := S n); [|done].
    apply list_lookup_insert_eq. by eapply lookup_lt_Some.
Qed.

Lemma client_runs {A B} i ps (p : prog Mem A) (k : A -> prog Mem B) l retry m a m' :
  ps !! i = Some (p ≫= k) -> runs p m a m' ->
  rtc (sstep fuel) (mkSys ps l retry m) (mkSys (<[i := k a]> ps) l retry m').
Proof. intros Hi Hr. exact (client_runs_in (fun p => p ≫= k) i ps p l retry m a m' (fun X f g => eq_refl) Hi Hr). Qed.

(** The next part of a client that is inside a call. *)
Lemma client_next {A B D} (C : prog Mem B -> prog Mem D) (p : prog Mem A) k i ps l retry m a m' s :
  (forall X f g, C (Step X f g) = Step X f (fun x => C (g x))) -> (i < length ps)%nat -> runs p m a m' ->
  rtc (sstep fuel) (mkSys (<[i := C (k a)]> ps) l retry m') s ->
  rtc (sstep fuel) (mkSys (<[i := C (p ≫= k)]> ps) l retry m) s.
Proof.
  intros HC Hi Hr Hs. etrans; [|exact Hs].
  rewrite <- (list_insert_insert_eq ps i (C (k a)) (C (p ≫= k))).
  assert (<[i := C (p ≫= k)]> ps !! i = Some (C (p ≫= k))) as Hp by by apply list_lookup_insert_eq.
  exact (client_runs_in (fun p => C (p ≫= k)) i _ p l retry m a m' (fun X f g => HC X f _) Hp Hr).
Qed.

Lemma loop_runs {A} (ps : list (prog Mem A)) (p : prog Mem (gmap Z nat)) retry m a m' :
  runs p m a m' ->
  rtc (sstep fuel) (mkSys ps (LBody p) retry m) (mkSys ps (LBody (Ret a)) retry m').
Proof.
  intros Hr. destruct (Hr 0%nat) as [n' H]. clear Hr. revert H.
  generalize 0%nat as n. revert m.
  induction p as [b|X f g IH|s|]; intros m n H; cbn in H; try done.
  - injection H as -> -> <-. done.
  - unfold quiet in H at 1. destruct (f m) as [x m1] eqn:E.
    eapply rtc_l; [apply sstep_loop; by apply lstep_act|]. by apply (IH x) with (n := S n).
Qed.
End Complete.

(** The queue after the kernel posted one completion. *)
Definition posted_cq (e : CompletionEntry) (c : CompletionQueue) : CompletionQueue :=
  set_cq_Tail (u32 (cq_Tail c + 1))
    (set_cq_Entries (<[Z.to_nat (cq_tail_pos c) := e]> (cq_Entries c)) c).

(** Nothing is going on: the barrier is open, the completion queue and the
    channel are empty, and recycled requests have no message left. *)
Record idle (m : Mem) (q : SubmitQueue) (c : CompletionQueue) : Prop := {
  idle_sq : m_sq m = Some q;
  idle_open : sq_entered q = 0;
  idle_cq : m_cq m = Some c;
  idle_wf : cq_wf c;
  idle_empty : cq_Head c = cq_Tail c;
  idle_two : 2 <= len (cq_Entries c);
  idle_chan : r_completions (m_ring m) = [];
  idle_cap : 1 <= r_completionsCap (m_ring m);
  idle_pool : Forall (fun p => exists r, m_reqs m !! p = Some r /\ cr_done r = 0%nat)
                (r_completionPool (m_ring m))
}.

Section PostedOne.
Context (e : CompletionEntry) (c : CompletionQueue).
Context (Hwf : cq_wf c) (Hempty : cq_Head c = cq_Tail c) (Htwo : 2 <= len (cq_Entries c)).

Lemma posted_wf : cq_wf (posted_cq e c).
Proof.
  destruct Hwf. split; cbn; rewrite ?len_insert; [done..|]. apply uwrap_range. lia.
Qed.

Lemma posted_count : u32 (cq_Tail (posted_cq e c) - cq_Head (posted_cq e c)) = 1.
Proof.
  cbn. rewrite <- Hempty. rewrite <- Z.add_opp_r, uwrap_add_l.
  replace (cq_Head c + 1 + - cq_Head c) with 1 by lia. done.
Qed.

Lemma posted_room : cq_room (posted_cq e c).
Proof. unfold cq_room. rewrite posted_count. cbn. rewrite len_insert. lia. Qed.

Lemma posted_pending : pending (posted_cq e c) = [e].
Proof.
  unfold pending. rewrite posted_count. change (seqZ 0 1) with [0]. cbn [omap list_omap].
  cbn [posted_cq cq_Entries cq_Head cq_Mask set_cq_Tail set_cq_Entries].
  rewrite Z.add_0_r, Hempty. fold (cq_tail_pos c).
  rewrite slice_get_insert_eq by auto with slices. done.
Qed.

Lemma posted_stale_ok p :
  Forall (fun x => cqe_UserData x <> cqe_UserData e) (cq_Entries c) ->
  stale_ok {[cqe_UserData e := p]} (posted_cq e c).
Proof.
  intros Hfresh. unfold stale_ok, stale. destruct (_ <=? _); [|constructor].
  apply Forall_lookup_2. intros i x Hx. apply lookup_take_Some in Hx as [Hx Hi].
  rewrite lookup_drop in Hx. cbn in Hx.
  assert (Z.to_nat (cq_tail_pos (posted_cq e c)) <> Z.to_nat (cq_tail_pos c)) as Hne.
  { pose proof posted_wf as Hwf'. pose proof (cq_tail_pos_range _ Hwf').
    pose proof (cq_tail_pos_range c Hwf) as Hr.
    enough (cq_tail_pos (posted_cq e c) <> cq_tail_pos c) by lia.
    unfold cq_tail_pos in *. rewrite !cq_pos_mod in * by done. cbn in *. rewrite len_insert.
    rewrite u32_mod, <- mod_succ_mod by apply Hwf.
    set (n := len _) in *. set (t := cq_Tail c mod n) in *.
    destruct (Z.eq_dec (t + 1) n) as [Ht|]; [rewrite Ht, Z_mod_same_full; lia|].
    rewrite Z.mod_small by lia. lia. }
  rewrite list_lookup_insert_ne in Hx by lia.
  apply lookup_singleton_ne. intros E. by apply (Forall_lookup_1 _ _ _ _ Hfresh Hx).
Qed.
End PostedOne.

(** A call of io_uring_enter that asks for [k] submissions. *)
Definition asks (k : Z) (call : Syscall) : Prop :=
  exists fd minComplete flags, call = SysEnter fd k minComplete flags.

Section CompleteRuns.
Context `{K : Kernel} (fuel : nat).

(** [pool_get] hands out a request without messages. *)
Lemma runs_pool_get m q c :
  idle m q c ->
  exists p r m', runs pool_get m p m' /\ idle m' q c /\ r_idx (m_ring m') = r_idx (m_ring m) /\
    m_reqs m' !! p = Some r /\ cr_done r = 0%nat.
Proof.
  intros Hi. pose proof (idle_pool m q c Hi) as Hp.
  destruct (r_completionPool (m_ring m)) as [|p ps] eqn:E.
  - eexists _, (mkCR 0 0 0 0), _. split; [apply runs_act; rewrite E; reflexivity|].
    cbn. split; [|split; [done|split; [apply lookup_insert_eq|done]]].
    destruct Hi. split; try done. cbn. by rewrite E.
  - apply Forall_cons in Hp as [(r & Hr & Hd) Hp].
    eexists p, r, _. split; [apply runs_act; rewrite E; reflexivity|].
    split; [|done]. destruct Hi. by split.
Qed.

Lemma runs_req_store p f m r :
  m_reqs m !! p = Some r ->
  runs (req_store p f) m tt (set_m_reqs (<[p := f r]> (m_reqs m)) m).
Proof. intros H. apply runs_try_store. by rewrite H. Qed.

Lemma runs_req_load {A} p (f : completionRequest -> A) m r :
  m_reqs m !! p = Some r -> runs (req_load p f) m (f r) m.
Proof. intros H. apply runs_try_load. by rewrite H. Qed.

(** The channel, its capacity, the pool and the last identifier. *)
Definition desk m : list nat * Z * list nat * Z :=
  (r_completions (m_ring m), r_completionsCap (m_ring m), r_completionPool (m_ring m), r_idx (m_ring m)).

(** [run_enter] with the barrier open enters, asking for as many submissions as
    requests are in flight, and keeps the requests. *)
Lemma runs_run_enter m q c inflight :
  m_sq m = Some q -> sq_entered q = 0 -> m_cq m = Some c ->
  exists count m' h call st, let v := k_enter h call (Some (set_sq_entered 1 q)) (Some c) st in
    asks (u64 (Z.of_nat (size inflight))) call /\ runs (run_enter (S fuel) inflight) m count m' /\ m_reqs m' = m_reqs m /\ desk m' = desk m /\
    m_sq m' = Some (view_sq v q) /\ m_cq m' = Some (view_cq v c).
Proof.
  intros Hq He Hc. unfold run_enter.
  set (n := u64 _). set (call := enter_call m q n 0 EnterGetEvents).
  assert (asks n call) as Hask by (unfold n; eexists _, _, _; unfold call, enter_call, n; by rewrite uwrap_idemp).
  destruct (enter_result (k_answer (m_hist m) call)) as [count o] eqn:E.
  set (v := k_enter (m_hist m) call (Some (set_sq_entered 1 q)) (Some c) (m_store m)).
  assert (m_sq (entered_mem m q n 0 EnterGetEvents) = Some (view_sq v q) /\
    m_cq (entered_mem m q n 0 EnterGetEvents) = Some (view_cq v c)) as [Hsq Hcq].
  { cbn. unfold m_sq, m_cq in *. by rewrite Hq, Hc. }
  destruct o as [e|]; [destruct (r_enterErrHandler (m_ring m)) eqn:Eh|].
  all: eexists count, _, (m_hist m), call, (m_store m); split; [exact Hask|]; split; [
    eapply runs_bind; [eapply runs_eq; [by apply runs_Ring_Enter|exact E|reflexivity]|]; cbn beta iota|].
  - eapply runs_bind; [apply runs_load; exact Eh|].
    eapply runs_bind; [by apply runs_store|]. apply runs_ret.
  - split_and!; [done|done|exact Hsq|exact Hcq].
  - eapply runs_bind; [apply runs_load; exact Eh|]. apply runs_ret.
  - split_and!; [done|done|exact Hsq|exact Hcq].
  - apply runs_ret.
  - split_and!; [done|done|exact Hsq|exact Hcq].
Qed.
End CompleteRuns.

(** A kernel that completes the request in flight when it is entered, with any
    submission queue, or when it is asked for one submission with [q]. *)
Definition posts (K : Kernel) (e : CompletionEntry) (c : CompletionQueue) : Prop :=
  forall h call q st, view_cq (@k_enter K h call q (Some c) st) c = posted_cq e c.
Definition posts_at (K : Kernel) (e : CompletionEntry) (q : SubmitQueue) (c : CompletionQueue) : Prop :=
  forall h call st, asks 1 call ->
    view_cq (@k_enter K h call (Some (set_sq_entered 1 q)) (Some c) st) c = posted_cq e c.

(** The queue after the completion was posted and given back. *)
Definition passed_cq (e : CompletionEntry) (c : CompletionQueue) : CompletionQueue :=
  set_cq_Head (cq_Tail (posted_cq e c)) (posted_cq e c).

Section RoundTrip.
Context {K : Kernel} (fuel : nat) (e : CompletionEntry).

(** The loop receives the request [p] and completes it. *)
Lemma loop_completes {A} (ps : list (prog Mem A)) m q c p r :
  posts_at K e q c ->
  m_sq m = Some q -> sq_entered q = 0 -> m_cq m = Some c -> cq_wf c ->
  cq_Head c = cq_Tail c -> 2 <= len (cq_Entries c) ->
  Forall (fun x => cqe_UserData x <> cqe_UserData e) (cq_Entries c) ->
  r_completions (m_ring m) = [p] ->
  m_reqs m !! p = Some r -> cr_id r = cqe_UserData e -> cr_done r = 0%nat ->
  exists m' h call st, asks 1 call /\ rtc (sstep (S fuel)) (mkSys ps (LSelect ∅) 0 m) (mkSys ps (LSelect ∅) 0 m') /\
    m_reqs m' !! p = Some (mkCR (cqe_UserData e) (cqe_Res e) (cqe_Flags e) 1) /\
    (forall p', p' <> p -> m_reqs m' !! p' = m_reqs m !! p') /\
    desk m' = desk (upd_ring (set_r_completions []) m) /\
    m_sq m' = Some (view_sq (k_enter h call (Some (set_sq_entered 1 q)) (Some c) st) q) /\
    m_cq m' = Some (passed_cq e c).
Proof.
  intros HK Hq He Hc Hwf Hempty Htwo Hfresh Hch Hr Hid Hd.
  set (m0 := upd_ring (set_r_completions []) m).
  destruct (runs_run_enter fuel m0 q c (<[cr_id r := p]> ∅) Hq He Hc)
    as (count & m1 & h & call & st & Hask & Hrun & Hreqs & Hdesk & Hq1 & Hc1).
  rewrite insert_empty, map_size_singleton in Hask. rewrite (HK _ _ _ Hask) in Hc1. set (c1 := posted_cq e c) in *.
  change (m_reqs m0) with (m_reqs m) in Hreqs.
  set (inflight := {[cqe_UserData e := p]} : gmap Z nat).
  assert (reqs_ok inflight (m_reqs m1)) as Hok.
  { intros id p' [<- <-]%lookup_singleton_Some. exists r. rewrite Hreqs. split_and!; [done..|lia]. }
  assert (stale_ok inflight c1) as Hst by by apply posted_stale_ok.
  pose proof (posted_wf e c Hwf) as Hwf1. pose proof (posted_room e c Hempty Htwo) as Hroom1.
  assert (pending c1 = [e]) as Hp1 by by apply posted_pending.
  destruct (ref_drains inflight (m_reqs m1) c1 Hwf1 Hroom1 Hok Hst) as [Hin Hhd].
  { rewrite Hp1. apply NoDup_singleton. }
  { rewrite Hp1. repeat constructor. exists p. apply lookup_singleton_eq. }
  pose proof (ref_delivers inflight (m_reqs m1) c1 (cqe_UserData e) p r Hwf1 Hroom1 Hok Hst) as Hdel.
  rewrite Hp1, completion_of_cons, decide_True, Hd, Hreqs in Hdel by done. rewrite Hp1 in Hin.
  destruct Hdel as [_ Hdel]; [apply lookup_singleton_eq|done|].
  eexists _, h, call, st. split_and!.
  - exact Hask.
  - eapply rtc_l; [apply sstep_loop; by apply lstep_completion|].
    etrans.
    { apply loop_runs. unfold run_completion.
      eapply runs_bind; [by apply (runs_req_load p cr_id _ r)|]. cbn zeta.
      eapply runs_bind; [exact Hrun|]. rewrite Hid. change (<[_ := p]> ∅) with inflight.
      by apply runs_onEntry. }
    eapply rtc_l; [apply sstep_loop; apply lstep_end|].
    rewrite Hin. unfold remaining. cbn [foldl].
    assert (delete (cqe_UserData e) inflight = ∅) as -> by apply delete_singleton_eq.
    unfold after_body. rewrite decide_False by (rewrite map_size_empty; lia). apply rtc_refl.
  - cbn. rewrite Hreqs. exact Hdel.
  - intros p' Hp'. cbn. rewrite ref_others; [by rewrite Hreqs|done|].
    intros id [_ E]%lookup_singleton_Some. congruence.
  - exact Hdesk.
  - exact Hq1.
  - exact (f_equal (fun h => Some (set_cq_Head h c1)) Hhd).
Qed.

Lemma passed_idle m q c :
  m_sq m = Some q -> sq_entered q = 0 -> m_cq m = Some (passed_cq e c) -> cq_wf c -> 2 <= len (cq_Entries c) ->
  r_completions (m_ring m) = [] -> 1 <= r_completionsCap (m_ring m) ->
  Forall (fun p => exists r, m_reqs m !! p = Some r /\ cr_done r = 0%nat) (r_completionPool (m_ring m)) ->
  idle m q (passed_cq e c).
Proof.
  intros. split; [done|done|done| |done|cbn; by rewrite len_insert|done|done|done].
  destruct (posted_wf e c); [done|]. by split.
Qed.

(** A client [C] whose next action is in a call of [complete]. *)
Lemma client_completes {A} (C : prog Mem (Z * Z) -> prog Mem A) ps i m q c :
  (forall X f g, C (Step X f g) = Step X f (fun x => C (g x))) ->
  posts_at K e q c -> idle m q c ->
  Forall (fun x => cqe_UserData x <> cqe_UserData e) (cq_Entries c) ->
  ps !! i = Some (C (Ring_complete (S fuel) (cqe_UserData e))) ->
  exists m' h call st, let q' := view_sq (k_enter h call (Some (set_sq_entered 1 q)) (Some c) st) q in
    asks 1 call /\ rtc (sstep (S fuel)) (mkSys ps (LSelect ∅) 0 m)
      (mkSys (<[i := C (Ret (cqe_Res e, cqe_Flags e))]> ps) (LSelect ∅) 0 m') /\
    idle m' q' (passed_cq e c) /\ r_idx (m_ring m') = r_idx (m_ring m).
Proof.
  intros HC HK Hidle Hfresh Hi. unfold Ring_complete in Hi.
  destruct (runs_pool_get m q c Hidle) as (p & r & m1 & Hget & Hi1 & Hidx & Hr & Hd).
  set (r2 := set_cr_flags 0 (set_cr_res 0 (set_cr_id (cqe_UserData e) r))).
  set (m2 := upd_ring (set_r_completions [p]) (set_m_reqs (<[p := r2]> (m_reqs m1)) m1)).
  destruct Hi1 as [Hq Ho Hc Hwf Hem Htwo Hch Hcap Hpool].
  set (wait := done_recv (S fuel) p;; res ← req_load p cr_res; flags ← req_load p cr_flags;
    pool_put p;; Ret (res, flags)).
  destruct (loop_completes (<[i := C wait]> ps) m2 q c p r2)
    as (m3 & h & call & st & Hask & Hloop & Hr3 & Hother & Hdesk & Hq3 & Hc3); [done..|apply lookup_insert_eq|done|done|].
  injection Hdesk as Hch3 Hcap3 Hpool3 Hidx3. pose proof (lookup_lt_Some _ _ _ Hi) as Hlt.
  set (m4 := set_m_reqs (<[p := mkCR (cqe_UserData e) (cqe_Res e) (cqe_Flags e) 0]> (m_reqs m3)) m3).
  exists (upd_ring (fun r => set_r_completionPool (p :: r_completionPool r) r) m4), h, call, st. split_and!.
  - exact Hask.
  - rewrite <- (list_insert_id ps i _ Hi) at 1. apply (client_next (S fuel) C _ _ _ _ _ _ _ p m1); [done..|].
    do 3 (eapply (client_next (S fuel) C); [done|done|apply runs_req_store; cbn; (exact Hr || apply lookup_insert_eq)|]).
    eapply (client_next (S fuel) C _ _ _ _ _ _ _ tt m2); [done|done| |].
    { eapply runs_bind.
      - apply runs_act. cbn [m_ring set_m_reqs r_completions]. rewrite Hch.
        rewrite (proj2 (Z.ltb_lt _ _)) by (unfold len; cbn; lia). reflexivity.
      - eapply runs_eq; [apply runs_ret|done|]. unfold m2. cbn. by rewrite !insert_insert_eq. }
    etrans; [exact Hloop|].
    eapply (client_next (S fuel) C _ _ _ _ _ _ _ tt m4); [done|done| |].
    { eapply runs_bind; [apply runs_try_act; rewrite Hr3; reflexivity|apply runs_ret]. }
    do 2 (eapply (client_next (S fuel) C); [done|done|apply runs_req_load, lookup_insert_eq|]).
    eapply (client_next (S fuel) C); [done|done|by apply runs_store|]. apply rtc_refl.
  - apply passed_idle; [done|done|done|done|done|exact Hch3|cbn; cbn in Hcap3; lia|].
    cbn. cbn in Hpool3. rewrite Hpool3. constructor; [eexists; by rewrite lookup_insert_eq|].
    eapply Forall_impl; [exact Hpool|]. cbn. intros x (rx & Hx & Hdx). destruct (decide (p = x)) as [<-|Hne].
    + eexists. by rewrite lookup_insert_eq.
    + exists rx. rewrite lookup_insert_ne, Hother by done. cbn. by rewrite lookup_insert_ne.
  - cbn. cbn in Hidx3. congruence.
Qed.
End RoundTrip.

(** A blocking call gets the answer of its own completion: a client that calls
    [complete] on an idle ring, the goroutine that receives the request and
    enters, a kernel that completes it there, and the client again: the client
    returns the result and the flags of the completion, the goroutine is back
    at its select with nothing in flight, and the completion has been given
    back to the kernel. *)
Theorem complete_roundtrip {K : Kernel} (fuel : nat) (m : Mem) (q : SubmitQueue)
    (c : CompletionQueue) (e : CompletionEntry)
    (HK : posts K e c) (Hidle : idle m q c)
    (Hfresh : Forall (fun x => cqe_UserData x <> cqe_UserData e) (cq_Entries c)) :
  exists m', rtc (sstep (S fuel))
      (mkSys [Ring_complete (S fuel) (cqe_UserData e)] (LSelect ∅) 0 m)
      (mkSys [Ret (cqe_Res e, cqe_Flags e)] (LSelect ∅) 0 m') /\
    exists c', m_cq m' = Some c' /\ cq_Head c' = cq_Tail c'.
Proof.
  destruct (client_completes fuel e (fun p => p) [Ring_complete (S fuel) (cqe_UserData e)] 0 m q c)
    as (m' & h & call & st & _ & Hs & Hi & _); [done|by intros h call st|done|done|done|].
  exists m'. split; [exact Hs|]. exists (passed_cq e c). split; [apply Hi|done].
Qed.

(** ** Schedules that go wrong *)

(** A kernel that posts [e] whenever it is entered. *)
Definition posting_kernel (e : CompletionEntry) : Kernel := {|
  k_answer := fun _ _ => mkSysRes 1 0;
  k_params := fun _ _ p => p;
  k_file := fun _ _ st => (mkSysRes 0 0, st);
  k_enter := fun _ _ q c st =>
    match c with
    | Some c => mkView 0 0 0 (cq_Tail c + 1) (cq_Overflow c) (cq_Flags c) [(cq_tail_pos c, e)] st
    | None => mkView 0 0 0 0 0 0 [] st
    end
|}.

Lemma complete_roundtrip_witness :
  let K := posting_kernel (mkCQE 7 42 1) in
  exists m', rtc (sstep 1)
      (mkSys [Ring_complete 1 7] (LSelect ∅) 0 sample_mem)
      (mkSys [Ret (42, 1)] (LSelect ∅) 0 m') /\
    exists c', m_cq m' = Some c' /\ cq_Head c' = cq_Tail c'.
Proof.
  intros K. apply (complete_roundtrip (K := K) 0 sample_mem sample_sq sample_cq
           (mkCQE 7 42 1)).
  - intros h call q st. vm_compute. reflexivity.
  - split; try reflexivity; try (vm_compute; discriminate); [apply sample_cq_wf|constructor].
  - repeat constructor; vm_compute; discriminate.
Defined.

(** The client [i] up to its wait for the answer, and the loop for [n] actions. *)
Definition call_moves (i : nat) : list move := replicate 5 (MClient i).
Definition loop_moves (n : nat) : list move := replicate n MLoop.

Definition three_clients : sys :=
  mkSys [Ring_complete 1 1; Ring_complete 1 2; Ring_complete 1 3] (LSelect ∅) 0 sample_mem.

(** Completions of the requests 1 and 2 at the positions 0 and 1; the request 3
    has none. *)
Definition two_cq : CompletionQueue :=
  mkCQ 192 0 2 7 0 0 (mkCQE 1 10 0 :: mkCQE 2 20 0 :: replicate 6 (mkCQE 0 0 0)) 8192.

(** The goroutine of request 1 has not called [complete] yet; 2 and 3 do. *)
Definition two_clients : sys :=
  mkSys [Ring_complete 1 2; Ring_complete 1 3] (LSelect ∅) 0 (put_cq two_cq sample_mem).

(** A schedule that leads to a state of a given kind. *)
Lemma schedule_reaches {K : Kernel} fuel cs s0 (good : sys -> bool) :
  match sys_run fuel cs s0 with Some s => good s | None => false end = true ->
  exists s, rtc (sstep fuel) s0 s /\ good s = true.
Proof.
  destruct (sys_run fuel cs s0) as [s|] eqn:E; [|done].
  intros Hg. exists s. split; [by eapply sys_run_steps|done].
Qed.

(** C20. The goroutine can block for good: it is the only one that receives from
    [retry], which has room for two messages, and sends a third one when three
    requests arrive through the outer select before the first completes.  From
    then on it does nothing, whatever the clients and the kernel do. *)
Theorem run_deadlock :
  let K := still_kernel 1 0 in
  exists s, rtc (sstep 1) three_clients s /\
    forall s', rtc (sstep 1) s s' ->
      (exists inflight, s_loop s' = LSend inflight /\ s_retry s' = retryCap) /\
      forall l' retry' m', ~ lstep 1 (s_loop s', s_retry s', s_mem s') (l', retry', m').
Proof.
  intros K.
  destruct (schedule_reaches 1
    (call_moves 0 ++ call_moves 1 ++ call_moves 2 ++ MCompletion :: loop_moves 16 ++
     MCompletion :: loop_moves 16 ++ MCompletion :: loop_moves 15) three_clients
    (fun s => match s_loop s with LSend _ => (s_retry s =? retryCap)%nat | _ => false end))
    as (s & Hs & Hg); [vm_compute; reflexivity|].
  exists s. split; [done|]. intros s' Hs'.
  assert (blocked s) as Hb.
  { destruct (s_loop s) as [| |inflight|] eqn:El; try done. exists inflight.
    by apply Nat.eqb_eq in Hg. }
  pose proof (blocked_steps 1 _ _ Hs' Hb) as Hb'. split; [exact Hb'|].
  intros l' retry' m' Hl. destruct Hb' as (inflight & El & Er).
  rewrite El, Er in Hl. inversion Hl. lia.
Qed.

(** C19. A request can receive the answer of another one.  [onEntry] reads the
    identifier of the request after it has sent the message on the done
    channel; when the client recycles the request in between, the old
    identifier stays in flight, and a completion that was not given back yet is
    delivered a second time, to the new owner: here the client of request 3
    returns the result of request 2 although request 3 has no completion. *)
Theorem complete_wrong_answer :
  let K := still_kernel 1 0 in
  exists s, rtc (sstep 1) two_clients s /\
    match s_clients s with
    | [Ret r2; Ret r3] => r2 = (20, 0) /\ r3 = (20, 0)
    | _ => False
    end /\
    (completion_of 3 ∘ cq_Entries <$> m_cq (s_mem s)) = Some None.
Proof.
  intros K.
  destruct (schedule_reaches 1
    (call_moves 0 ++ MCompletion :: loop_moves 17 ++ replicate 4 (MClient 0) ++ call_moves 1 ++
     loop_moves 5 ++ MCompletion :: loop_moves 17 ++ replicate 4 (MClient 1)) two_clients
    (fun s =>
      match s_clients s with
      | [Ret r2; Ret r3] => bool_decide (r2 = (20, 0) /\ r3 = (20, 0))
      | _ => false
      end && bool_decide ((completion_of 3 ∘ cq_Entries <$> m_cq (s_mem s)) = Some None)))
    as (s & Hs & [Hc Hq]%andb_prop); [vm_compute; reflexivity|].
  exists s. split; [done|]. split; [|by apply bool_decide_eq_true in Hq].
  destruct (s_clients s) as [|[] [|[] [|]]]; try done. by apply bool_decide_eq_true in Hc.
Qed.

(** One client waits for its answer, and the goroutine is back at its select. *)
Lemma run_keeps_polling_witness :
  let K := still_kernel 1 0 in
  exists s inflight n, rtc (sstep 1) three_clients s /\ s_loop s = LSelect inflight /\
    inflight <> ∅ /\ s_retry s = S n /\
    sstep 1 s (mkSys (s_clients s) (LBody (run_retry 1 inflight)) n (s_mem s)).
Proof.
  intros K.
  destruct (schedule_reaches 1 (call_moves 0 ++ MCompletion :: loop_moves 16) three_clients
    (fun s => match s_loop s with LSelect i => bool_decide (i <> ∅) | _ => false end))
    as (s & Hs & Hg); [vm_compute; reflexivity|].
  pose proof (run_keeps_polling 1 (s_clients three_clients) sample_mem s Hs) as H.
  destruct (s_loop s) as [inflight| | |] eqn:El; try done.
  apply bool_decide_eq_true in Hg. destruct (H Hg) as (n & Hr & Hst).
  exists s, inflight, n. done.
Defined.
