(* ===== verification/Ledger.v ===== *)
(** * Counting what goroutines put into a channel

    A program logic for counting arguments about pools.  [keeps] says that a
    program never changes a measure of the memory; [tracks] keeps a ledger of the
    changes it makes to it, so that the sum of the ledgers of all goroutines is
    the change of the measure.  The operations of the package are shown to keep
    every measure that does not look at the queues. *)

From stdpp Require Import base list gmap strings.
From Stdlib Require Import ZArith Lia.
From S2P Require Import Prelude Prog Consts Types Machine Submission Ops Completion.

(** ** The logic *)

Section Keeps.
Context {M T : Type} (mu : M -> T).

(** [p] does not change the measure, and what it returns satisfies [Q]. *)
Fixpoint keeps {A} (p : prog M A) (Q : A -> Prop) : Prop :=
  match p with
  | Ret a => Q a
  | Step X f k => forall m, mu (snd (f m)) = mu m /\ keeps (k (fst (f m))) Q
  | _ => True
  end.

Lemma keeps_mono {A} (p : prog M A) (Q R : A -> Prop) :
  keeps p Q -> (forall a, Q a -> R a) -> keeps p R.
Proof.
  intros Hp HQ. induction p as [a|X f k IH|s|]; cbn in *; auto.
  intros m. destruct (Hp m). auto.
Qed.

Lemma keeps_bind {A B} (p : prog M A) (k : A -> prog M B) Q R :
  keeps p Q -> (forall a, Q a -> keeps (k a) R) -> keeps (p ≫= k) R.
Proof.
  intros Hp HQ. induction p as [a|X f g IH|s|]; [by apply HQ| |done|done].
  intros m. destruct (Hp m). split; [done|]. by apply IH.
Qed.

Lemma keeps_act {A} (f : M -> A * M) :
  (forall m, mu (snd (f m)) = mu m) -> keeps (act f) (fun _ => True).
Proof. intros H m. cbn. auto. Qed.

Lemma keeps_load {A} (f : M -> A) : keeps (load f) (fun _ => True).
Proof. by apply keeps_act. Qed.

Lemma keeps_store f : (forall m, mu (f m) = mu m) -> keeps (store f) (fun _ => True).
Proof. intros H. by apply keeps_act. Qed.

Lemma keeps_try_act {A} s (f : M -> option (A * M)) :
  (forall m a m', f m = Some (a, m') -> mu m' = mu m) -> keeps (try_act s f) (fun _ => True).
Proof.
  intros H m. cbn. destruct (f m) as [[a m']|] eqn:E; cbn; [|done]. eauto.
Qed.

Lemma keeps_try_load {A} s (f : M -> option A) : keeps (try_load s f) (fun _ => True).
Proof. apply keeps_try_act. intros m a m'. destruct (f m); congruence. Qed.

Lemma keeps_try_store s f :
  (forall m m', f m = Some m' -> mu m' = mu m) -> keeps (try_store s f) (fun _ => True).
Proof.
  intros H. apply keeps_try_act. intros m a m'. destruct (f m) eqn:E; [|done].
  intros [= _ <-]. eauto.
Qed.

(** A measure that a program keeps is the same when it returns. *)
Lemma keeps_run {A} (p : prog M A) m a m' n n' :
  keeps p (fun _ => True) -> run quiet p n m = Done a m' n' -> mu m' = mu m.
Proof.
  revert n m. induction p as [b|X f k IH|s|]; intros n m Hp H; cbn in H; try done.
  - by injection H as _ <- _.
  - unfold quiet in H at 1. destruct (Hp m) as [Hm Hk]. destruct (f m) as [x m1] eqn:E.
    rewrite <- Hm. cbn in *. by eapply IH.
Qed.
End Keeps.

Section Tracks.
Context {M : Type} (mu : M -> Z).

(** The values the measure may have, kept by everybody. *)
Context (J : Z -> Prop).

(** [p] starts with [t] in its ledger; at every moment the ledger satisfies [V],
    and at the end the result and the ledger satisfy [Q]. *)
Fixpoint tracks {A} (V : Z -> Prop) (t : Z) (p : prog M A) (Q : A -> Z -> Prop) : Prop :=
  V t /\
  match p with
  | Ret a => Q a t
  | Step X f k => forall m, J (mu m) ->
      J (mu (snd (f m))) /\ tracks V (t + (mu (snd (f m)) - mu m)) (k (fst (f m))) Q
  | _ => True
  end.

Lemma tracks_valid {A} V t (p : prog M A) Q : tracks V t p Q -> V t.
Proof. by destruct p; intros []. Qed.

Lemma tracks_mono {A} V t (p : prog M A) (Q R : A -> Z -> Prop) :
  tracks V t p Q -> (forall a t, Q a t -> R a t) -> tracks V t p R.
Proof.
  intros Hp HQ. revert t Hp. induction p as [a|X f k IH|s|]; intros t [Hv Hp]; cbn in *; auto.
  split; [done|]. intros m Hm. destruct (Hp m Hm). auto.
Qed.

Lemma tracks_bind {A B} V t (p : prog M A) (k : A -> prog M B) Q R :
  tracks V t p Q -> (forall a t, V t -> Q a t -> tracks V t (k a) R) -> tracks V t (p ≫= k) R.
Proof.
  intros Hp HQ. revert t Hp.
  induction p as [a|X f g IH|s|]; intros t [Hv Hp]; [by apply HQ| |done|done].
  split; [done|]. intros m Hm. destruct (Hp m Hm). split; [done|]. by apply IH.
Qed.

Lemma tracks_ret {A} (V : Z -> Prop) t (a : A) (Q : A -> Z -> Prop) :
  V t -> Q a t -> tracks V t (Ret a) Q.
Proof. by split. Qed.

(** A program that keeps the measure leaves the ledger alone. *)
Lemma keeps_tracks {A} (V : Z -> Prop) t (p : prog M A) Q :
  V t -> keeps mu p Q -> tracks V t p (fun a t' => t' = t /\ Q a).
Proof.
  intros Hv. induction p as [a|X f k IH|s|]; intros Hp; cbn in *; auto.
  split; [done|]. intros m Hm. destruct (Hp m) as [-> Hk]. rewrite Z.sub_diag, Z.add_0_r. auto.
Qed.

Lemma tracks_keeps_bind {A B} (V : Z -> Prop) t (p : prog M A) (k : A -> prog M B) Q R :
  V t -> keeps mu p Q -> (forall a, Q a -> tracks V t (k a) R) -> tracks V t (p ≫= k) R.
Proof.
  intros Hv Hp Hk. eapply tracks_bind; [by apply keeps_tracks|].
  intros a t' _ [-> Ha]. auto.
Qed.
End Tracks.

(** ** The sum of the ledgers *)

Definition sum (ts : list Z) : Z := foldr Z.add 0 ts.

Lemma sum_insert ts i t t' : ts !! i = Some t -> sum (<[i := t']> ts) = sum ts + (t' - t).
Proof.
  revert i. induction ts as [|a ts IH]; intros [|i] H; simplify_eq/=; [lia|].
  rewrite (IH i H). lia.
Qed.

Lemma sum_zeros n : sum (replicate n 0) = 0.
Proof. by induction n. Qed.

(** ** Measures that do not look at the queues *)

(** They may look at the system calls other than io_uring_enter. *)
Class Aside {T} (mu : Mem -> T) : Prop := {
  aside_sq : forall q m, mu (put_sq q m) = mu m;
  aside_cq : forall c m, mu (put_cq c m) = mu m;
  aside_idx : forall i m, mu (upd_ring (set_r_idx i) m) = mu m;
  aside_claims : forall l m, mu (set_m_claims l m) = mu m;
  aside_enter : forall a b fl sig r m, mu (set_m_hist ((SysEnter a b fl sig, r) :: m_hist m) m) = mu m;
  aside_in_enter : forall n m, mu (set_m_in_enter n m) = mu m;
  aside_errs : forall e m, mu (set_m_errs e m) = mu m;
  aside_view : forall v m, mu (apply_view v m) = mu m
}.

(** Measures that do not look at the requests. *)
Class AsideReqs {T} (mu : Mem -> T) : Prop :=
  aside_reqs : forall r m, mu (set_m_reqs r m) = mu m.

(** What an action does to such a measure. *)
Ltac aside :=
  repeat first
    [ rewrite aside_sq | rewrite aside_cq | rewrite aside_idx | rewrite aside_claims
    | rewrite aside_in_enter | rewrite aside_reqs | rewrite aside_errs
    | rewrite aside_view ]; try done.

(** The same for an action that may panic, whose result is an equation. *)
Ltac aside_try :=
  let E := fresh "E" in
  intros; match goal with H : _ = Some _ |- _ => rename H into E end;
  repeat match type of E with
  | context [m_sq ?m] => destruct (m_sq m); cbn in E; try done
  | context [m_cq ?m] => destruct (m_cq m); cbn in E; try done
  | context [slice_get ?l ?i] => destruct (slice_get l i); cbn in E; try done
  | context [slice_set ?l ?i ?x] => destruct (slice_set l i x); cbn in E; try done
  | context [m_reqs ?m !! ?p] => destruct (m_reqs m !! p); cbn in E; try done
  | context [if ?b then _ else _] => destruct b; cbn in E; try done
  end; simplify_eq; aside.

Section Operations.
Context {T : Type} (mu : Mem -> T) `{!Aside mu}.

Abbreviation kept p := (keeps mu p (fun _ => True)).

Lemma kept_ret {A} (a : A) : kept (Ret a).
Proof. done. Qed.

Lemma kept_panic {A} s : kept (Panic (A := A) s).
Proof. done. Qed.
Lemma kept_starve {A} : kept (Starve (A := A)).
Proof. done. Qed.

Lemma kept_bind {A B} (p : prog Mem A) (k : A -> prog Mem B) :
  kept p -> (forall a, kept (k a)) -> kept (p ≫= k).
Proof. intros Hp Hk. eapply keeps_bind; eauto. Qed.

Lemma kept_sq_load {A} (f : SubmitQueue -> A) : kept (sq_load f).
Proof. apply keeps_try_load. Qed.
Lemma kept_cq_load {A} (f : CompletionQueue -> A) : kept (cq_load f).
Proof. apply keeps_try_load. Qed.
Lemma kept_sq_entry i : kept (sq_entry i).
Proof. apply keeps_try_load. Qed.
Lemma kept_cq_entry i : kept (cq_entry i).
Proof. apply keeps_try_load. Qed.
Lemma kept_req_load {A} p (f : completionRequest -> A) : kept (req_load p f).
Proof. apply keeps_try_load. Qed.
Lemma kept_ring_load {A} (f : Ring -> A) : kept (ring_load f).
Proof. apply keeps_load. Qed.
Lemma kept_sq_store f : kept (sq_store f).
Proof. apply keeps_try_store. aside_try. Qed.
Lemma kept_cq_store f : kept (cq_store f).
Proof. apply keeps_try_store. aside_try. Qed.
Lemma kept_sq_cas get set old new : kept (sq_cas get set old new).
Proof. apply keeps_try_act. aside_try. Qed.
Lemma kept_cq_cas get set old new : kept (cq_cas get set old new).
Proof. apply keeps_try_act. aside_try. Qed.
Lemma kept_sq_update_entry i f : kept (sq_update_entry i f).
Proof. apply keeps_try_store. aside_try. Qed.
Lemma kept_cq_update_entry i f : kept (cq_update_entry i f).
Proof. apply keeps_try_store. aside_try. Qed.
Lemma kept_sq_store_array i v : kept (sq_store_array i v).
Proof. apply keeps_try_store. aside_try. Qed.
Lemma kept_claim_tail old new pos : kept (claim_tail old new pos).
Proof. apply keeps_try_act. aside_try. Qed.
Lemma kept_req_store `{!AsideReqs mu} p f : kept (req_store p f).
Proof. apply keeps_try_store. aside_try. Qed.
Lemma kept_ID : kept Ring_ID.
Proof. apply keeps_act. intros m. apply aside_idx. Qed.
End Operations.

Create HintDb kept.
#[export] Hint Extern 0 (Aside _) => typeclasses eauto : kept.
#[export] Hint Extern 0 (AsideReqs _) => typeclasses eauto : kept.
#[export] Hint Resolve kept_ret kept_panic kept_starve kept_sq_load kept_cq_load kept_sq_entry kept_cq_entry
  kept_req_load kept_ring_load kept_sq_store kept_cq_store kept_sq_cas kept_cq_cas
  kept_sq_update_entry kept_cq_update_entry kept_sq_store_array kept_claim_tail
  kept_req_store kept_ID : kept.

(** Goes through a body: sequences, tests and known operations. *)
Ltac kept_steps :=
  repeat first
    [ solve [eauto with kept]
    | apply kept_bind; [solve [eauto with kept]|intros ?]
    | apply kept_bind; [|intros ?]
    | match goal with
      | |- context [match ?x with _ => _ end] => destruct x
      end
    | progress cbn zeta ].

Section Package.
Context {T : Type} (mu : Mem -> T) `{!Aside mu}.

Abbreviation kept p := (keeps mu p (fun _ => True)).

Lemma kept_enterLock fuel : kept (enterLock fuel).
Proof. induction fuel; cbn [enterLock]; kept_steps. Qed.

Lemma kept_completeWrite fuel : kept (completeWrite fuel).
Proof. induction fuel; cbn [completeWrite]; kept_steps. Qed.
Hint Resolve kept_enterLock kept_completeWrite : kept.

Lemma kept_ready fuel next head mask : kept (ready fuel next head mask).
Proof. unfold ready. kept_steps. Qed.
Hint Resolve kept_ready : kept.

(** The callback of [SubmitEntry] keeps the measure as well. *)
Lemma keeps_SubmitEntry fuel : keeps mu (Ring_SubmitEntry fuel) (fun r => kept (snd r)).
Proof.
  induction fuel as [|fuel IH]; [done|]. cbn [Ring_SubmitEntry].
  do 4 (eapply keeps_bind; [eauto with kept|intros ? _]). cbn zeta.
  destruct (_ <=? _).
  - eapply keeps_bind; [eauto with kept|intros ok _]. destruct ok; cbn [negb]; [|exact IH].
    eapply keeps_bind; [eauto with kept|intros entered _]. destruct (negb _); [exact IH|].
    do 2 (eapply keeps_bind; [eauto with kept|intros ? _]). by apply kept_ready.
  - eapply keeps_bind; [eauto with kept|intros _ _; exact IH].
Qed.

Lemma kept_EntryBy_loop u k : forall i v, kept (EntryBy_loop u k i v).
Proof. induction k; intros i v; cbn [EntryBy_loop]; kept_steps. Qed.
Hint Resolve kept_EntryBy_loop : kept.

Lemma kept_EntryBy u : kept (EntryBy u).
Proof. unfold EntryBy. kept_steps. Qed.

Lemma kept_done_send `{!AsideReqs mu} fuel p : kept (done_send fuel p).
Proof.
  induction fuel; cbn [done_send]; [done|].
  apply kept_bind; [apply keeps_try_act; aside_try|]. intros []; eauto with kept.
Qed.
Hint Resolve kept_done_send : kept.

Lemma kept_onEntry_body `{!AsideReqs mu} fuel i v : kept (onEntry_body fuel i v).
Proof. unfold onEntry_body. kept_steps. Qed.
Hint Resolve kept_onEntry_body : kept.

Lemma kept_onEntry_loop1 `{!AsideReqs mu} fuel k : forall i h t v, kept (onEntry_loop1 fuel k i h t v).
Proof. induction k; intros i h t v; cbn [onEntry_loop1]; kept_steps. Qed.

Lemma kept_onEntry_loop2 `{!AsideReqs mu} fuel k : forall i v, kept (onEntry_loop2 fuel k i v).
Proof. induction k; intros i v; cbn [onEntry_loop2]; kept_steps. Qed.
Hint Resolve kept_onEntry_loop1 kept_onEntry_loop2 : kept.

Lemma kept_onEntry `{!AsideReqs mu} fuel inflight count : kept (Ring_onEntry fuel inflight count).
Proof. unfold Ring_onEntry. kept_steps. Qed.

Context {K : Kernel}.

Lemma kept_syscall_enter a b fl sig : kept (syscall_enter (SysEnter a b fl sig)).
Proof.
  unfold syscall_enter. apply kept_bind.
  - apply keeps_store. intros m. apply aside_in_enter.
  - intros _. apply keeps_act. intros m. cbn [snd].
    set (m1 := set_m_in_enter _ _). change (m_hist m) with (m_hist m1). rewrite aside_enter. unfold m1. aside.
Qed.
Hint Resolve kept_syscall_enter : kept.

Lemma kept_Ring_Enter fuel a b fl : kept (Ring_Enter fuel a b fl).
Proof. unfold Ring_Enter, Enter, SubmitQueue_NeedWakeup, enterUnlock. kept_steps. Qed.
End Package.

#[export] Hint Resolve kept_enterLock kept_completeWrite kept_ready kept_EntryBy kept_done_send
  kept_onEntry kept_Ring_Enter : kept.
