(* ===== verification/RunLoopBound.v ===== *)
(** * How many calls the completion goroutine can take

    The goroutine of [Ring.run] sends to a channel that only it receives from, so
    it must never find it full.  Every message in the channel can be charged to a
    call of [complete]; the bound is sharp, since RunLoopSpec.v has a schedule of
    three calls that blocks it. *)

From stdpp Require Import base list gmap strings relations.
From Stdlib Require Import ZArith Lia.
From S2P Require Import Prelude Prog Consts Types Machine Samples Submission Ops Completion.
From S2P Require Import RunLoop RunLoopSpec Ledger.

(** ** The measure *)

(** The requests in the channel [completions]. *)
Definition queued (m : Mem) : Z := len (r_completions (m_ring m)).

#[global] Instance queued_aside : Aside queued.
Proof. split; intros; by destruct m as [[]]. Qed.
#[global] Instance queued_aside_reqs : AsideReqs queued.
Proof. by intros r []. Qed.

(** The messages charged to the goroutine: those in [retry], and one for the
    branch it is in or the send it is at. *)
Definition charged (l : loop) (retry : nat) : Z :=
  Z.of_nat retry + match l with LBody _ | LSend _ => 1 | _ => 0 end.

Definition any_count (n : Z) : Prop := True.

(** A call sends at most one request. *)
Definition one_call (t : Z) : Prop := t <= 1.
(** The goroutine only takes requests out. *)
Definition takes_out (t : Z) : Prop := t <= 0.

Section Calls.
Context (fuel : nat).

Lemma tracks_completions_send k p :
  tracks queued any_count one_call 0 (completions_send k p) (fun _ t => t = 1).
Proof.
  induction k as [|k IH]; [by split|]. cbn [completions_send].
  split; [done|]. intros m _. split; [done|]. destruct (_ <? _).
  - replace (0 + _) with 1; [by split|]. unfold queued, len. cbn. rewrite length_app. cbn. lia.
  - cbn [fst snd]. rewrite Z.sub_diag, Z.add_0_r. exact IH.
Qed.

Lemma keeps_done_recv k p : keeps queued (done_recv k p) (fun _ => True).
Proof.
  induction k as [|k IH]; [done|]. cbn [done_recv].
  apply kept_bind; [|by intros []]. apply keeps_try_act. intros m a m' E.
  destruct (m_reqs m !! p) as [r|]; [|done]. cbn in E. by destruct (cr_done r); simplify_eq.
Qed.

Lemma keeps_pool_get : keeps queued pool_get (fun _ => True).
Proof. apply keeps_act. intros m. by destruct (r_completionPool (m_ring m)). Qed.

Lemma tracks_complete id :
  tracks queued any_count one_call 0 (Ring_complete fuel id) (fun _ _ => True).
Proof.
  assert (one_call 0) as H0 by done. unfold Ring_complete.
  eapply tracks_keeps_bind; [done|apply keeps_pool_get|intros req _].
  do 3 (eapply tracks_keeps_bind; [done|eauto with kept|intros _ _]).
  eapply tracks_bind; [apply tracks_completions_send|]. intros _ ? H1 ->.
  eapply tracks_mono; [apply (keeps_tracks _ _ _ _ _ (fun _ => True) H1)|done].
  apply kept_bind; [apply keeps_done_recv|intros _].
  do 2 (apply kept_bind; [eauto with kept|intros ?]).
  apply kept_bind; [by apply keeps_store|by intros].
Qed.

Context {K : Kernel}.

Lemma kept_run_enter {T} (mu : Mem -> T) `{!Aside mu} inflight : keeps mu (run_enter fuel inflight) (fun _ => True).
Proof.
  unfold run_enter. kept_steps. apply keeps_store. intros m. apply aside_errs.
Qed.
Hint Resolve kept_run_enter : kept.

Lemma tracks_completion inflight cr :
  tracks queued any_count takes_out 0 (run_completion fuel inflight cr) (fun _ _ => True).
Proof.
  eapply tracks_mono; [apply (keeps_tracks _ _ takes_out 0 _ (fun _ => True))|]; [done| |done].
  unfold run_completion. kept_steps.
Qed.

Lemma tracks_retry inflight :
  tracks queued any_count takes_out 0 (run_retry fuel inflight) (fun _ _ => True).
Proof.
  unfold run_retry. split; [done|]. intros m _. split; [done|].
  assert (forall got t, takes_out t -> tracks queued any_count takes_out t
    (inflight ← match got with
      | None => Ret inflight
      | Some cr => id ← req_load cr cr_id; _ ← run_enter fuel (<[id := cr]> inflight);
          Ret (<[id := cr]> inflight)
      end; Ring_onEntry fuel inflight 0) (fun _ _ => True)) as Hrest.
  { intros got t Ht. eapply tracks_mono; [apply (keeps_tracks _ _ _ t _ (fun _ => True) Ht)|done].
    kept_steps. }
  destruct (r_completions (m_ring m)) as [|cr rest] eqn:E; cbn [fst snd]; apply Hrest.
  - unfold takes_out. lia.
  - unfold takes_out, queued, len. cbn. rewrite E. cbn. lia.
Qed.
End Calls.

(** ** The invariant *)

Definition loop_tracks (l : loop) (t : Z) : Prop :=
  t <= 0 /\ match l with LBody p => tracks queued any_count takes_out t p (fun _ _ => True) | _ => True end.

Record charges (s : sys) (ts : list Z) (t : Z) : Prop := {
  ch_clients : Forall2 (fun p t => tracks queued any_count one_call t p (fun _ _ => True)) (s_clients s) ts;
  ch_loop : loop_tracks (s_loop s) t;
  ch_sum : charged (s_loop s) (s_retry s) + queued (s_mem s) <= sum ts + t
}.

Lemma sum_le ts : Forall one_call ts -> sum ts <= Z.of_nat (length ts).
Proof. unfold sum, one_call. induction 1 as [|t ts Ht _ IH]; cbn [foldr length]; lia. Qed.

Section Invariant.
Context {K : Kernel} (fuel : nat).

Lemma charges_client ps i X f k l retry m ts t :
  ps !! i = Some (Step X f k) -> charges (mkSys ps l retry m) ts t ->
  exists ts', charges (mkSys (<[i := k (fst (f m))]> ps) l retry (snd (f m))) ts' t.
Proof.
  intros Hi [Hc Hl Hs]. destruct (Forall2_lookup_l _ _ _ _ _ Hc Hi) as (ti & Hti & _ & Hp).
  exists (<[i := ti + (queued (snd (f m)) - queued m)]> ts). split; cbn in *.
  - apply Forall2_insert; [done|]. by apply Hp.
  - done.
  - rewrite (sum_insert _ _ ti) by done. lia.
Qed.

Lemma charges_loop ps l retry m l' retry' m' ts t :
  lstep fuel (l, retry, m) (l', retry', m') -> charges (mkSys ps l retry m) ts t ->
  exists t', charges (mkSys ps l' retry' m') ts t'.
Proof.
  intros Hst [Hc [Ht Hl] Hs]. cbn in *.
  inversion Hst as [? ? ? ? E|? ? ? cr rest E| |? ? ? ? ? ? ? E| |]; subst; cbn in *.
  - exists t. split; cbn; [done|done|]. unfold charged in *. change (queued (upd_ring _ m)) with (queued m). lia.
  - exists 0. split; [done|split; [done|apply tracks_completion]|].
    unfold charged, queued, len in *. cbn. rewrite E in Hs. cbn in Hs. lia.
  - exists 0. split; [done|split; [done|apply tracks_retry]|]. unfold charged in *. cbn. lia.
  - destruct Hl as [_ Hl]. destruct (Hl m I) as [_ Hl']. rewrite E in Hl'. cbn in Hl'.
    pose proof (tracks_valid _ _ _ _ _ _ Hl') as Hv.
    eexists. split; [done|split; [exact Hv|exact Hl']|]. unfold charged in *. cbn. lia.
  - exists 0. split; [done|split; [done|]|].
    + unfold after_body. by case_decide.
    + unfold after_body, charged in *. cbn. case_decide; lia.
  - exists t. split; [done|done|]. unfold charged in *. cbn. lia.
Qed.

Lemma charges_step s s' ts t :
  sstep fuel s s' -> charges s ts t -> exists ts' t', charges s' ts' t'.
Proof.
  destruct 1 as [i ps X f k x l retry m m' Hi E|? ? ? ? ? ? ? Hl|? ? ? ? ? [v ->]]; intros H.
  - destruct (charges_client _ _ _ _ _ _ _ _ _ _ Hi H) as [ts' H']. rewrite E in H'. eauto.
  - destruct (charges_loop _ _ _ _ _ _ _ _ _ Hl H). eauto.
  - exists ts, t. destruct H as [? ? Hs]. split; cbn in *; [done|done|]. by rewrite aside_view.
Qed.

Lemma charges_steps s s' ts t :
  rtc (sstep fuel) s s' -> charges s ts t -> exists ts' t', charges s' ts' t'.
Proof.
  intros Hs. revert ts t. induction Hs as [|? ? ? H1 _ IH]; intros ts t H; [eauto|].
  destruct (charges_step _ _ _ _ H1 H) as (? & ? & H'). eauto.
Qed.

Lemma sstep_clients {A} (s s' : system A) : rtc (sstep fuel) s s' -> length (s_clients s') = length (s_clients s).
Proof.
  induction 1 as [|? ? ? H _ IH]; [done|]. rewrite IH. destruct H; cbn; by rewrite ?length_insert.
Qed.
End Invariant.

(** C18. Every message of the completion goroutine to itself is charged to a call: with
    [n] calls of [complete], in every reachable state of every interleaving with
    the kernel, the messages in [retry] and the one being sent are at most [n].
    So with at most two calls the goroutine never blocks on its channel: at its
    send, the send is a step it can take. *)
Theorem run_two_calls {K : Kernel} (fuel : nat) (ids : list Z) (m : Mem) (s : sys)
    (Hm : r_completions (m_ring m) = [])
    (Hs : rtc (sstep fuel) (mkSys (Ring_complete fuel <$> ids) (LSelect ∅) 0 m) s) :
  charged (s_loop s) (s_retry s) <= len ids /\
  (len ids <= 2 -> forall inflight, s_loop s = LSend inflight ->
    lstep fuel (LSend inflight, s_retry s, s_mem s) (LSelect inflight, S (s_retry s), s_mem s)).
Proof.
  assert (charges (mkSys (Ring_complete fuel <$> ids) (LSelect ∅) 0 m) (replicate (length ids) 0) 0)
    as H0.
  { split; cbn.
    - apply Forall2_same_length_lookup_2; [by rewrite length_fmap, length_replicate|].
      intros i p t Hp [-> _]%lookup_replicate. apply list_lookup_fmap_Some in Hp as (id & -> & _).
      apply tracks_complete.
    - done.
    - unfold queued, charged. by rewrite Hm, sum_zeros. }
  destruct (charges_steps fuel _ _ _ _ Hs H0) as (ts & t & [Hc [Ht _] Hsum]).
  pose proof (sstep_clients fuel _ _ Hs) as Hlen. cbn in Hlen. rewrite length_fmap in Hlen.
  assert (charged (s_loop s) (s_retry s) <= len ids) as Hb.
  { assert (Forall one_call ts) as Hv.
    { apply Forall_lookup_2. intros i ti Hi.
      destruct (Forall2_lookup_r _ _ _ _ _ Hc Hi) as (p & _ & Hp). by eapply tracks_valid. }
    pose proof (sum_le ts Hv). rewrite <- (Forall2_length _ _ _ Hc), Hlen in H.
    unfold queued, len in *. lia. }
  split; [done|]. intros Htwo inflight E. apply lstep_send.
  unfold charged in Hb. rewrite E in Hb. unfold retryCap. lia.
Qed.

Lemma run_two_calls_witness :
  let K := still_kernel 1 0 in
  exists (s : sys) inflight, s_loop s = LSend inflight /\ s_retry s = 1%nat /\
    charged (s_loop s) (s_retry s) <= 2 /\
    lstep 1 (LSend inflight, s_retry s, s_mem s) (LSelect inflight, S (s_retry s), s_mem s).
Proof.
  intros K.
  destruct (schedule_reaches 1
    (call_moves 0 ++ call_moves 1 ++ MCompletion :: loop_moves 16 ++ MCompletion :: loop_moves 15)
    (mkSys (Ring_complete 1 <$> [1; 2]) (LSelect ∅) 0 sample_mem)
    (fun s => match s_loop s with LSend _ => (s_retry s =? 1)%nat | _ => false end))
    as (s & Hs & Hg); [vm_compute; reflexivity|].
  destruct (run_two_calls 1 [1; 2] sample_mem s) as [Hb Hl]; [reflexivity|exact Hs|].
  destruct (s_loop s) as [| |inflight|] eqn:El; try done. exists s, inflight.
  split_and!; [done|by apply Nat.eqb_eq|by rewrite El|by apply Hl].
Defined.
