(* ===== verification/Answers.v ===== *)
(** * Whose answer a client gets (ring.go, Ring.complete and Ring.run)

    A request object goes from the client to the completion goroutine over
    [r.completions] and back with a message on its [done] channel.  [phase] says
    who has it; an invariant relates the phases to the memory, and each goroutine
    is verified against what it knows of the phases: [client] for the callers of
    [complete], [body] for the branches of [Ring.run].  The result holds for all
    interleavings. *)

From stdpp Require Import base list gmap strings relations.
From Stdlib Require Import ZArith Lia.
From S2P Require Import Prelude Prog Consts Types Machine Samples Submission Ops Completion RunLoop RunLoopSpec Ledger RunLoopBound.

(** ** Phases of a request *)

(** The client fills it in; it waits in [r.completions]; the goroutine has it;
    it was answered. *)
Inductive phase :=
| Own (r : completionRequest)
| Sent
| Held (r : completionRequest)
| Given (res flags : Z).

(** What the client knows of the phase: once the request is sent, only that it
    does not own it. *)
Inductive know := KOwn (r : completionRequest) | KAway | KGiven (res flags : Z).
Definition knows (k : know) (ph : phase) : Prop :=
  match k with
  | KOwn r => ph = Own r
  | KAway => match ph with Own _ => False | _ => True end
  | KGiven res flags => ph = Given res flags
  end.

(** What the goroutine knows of a request: that it has it, with these contents, or
    that it has answered it. *)
Inductive has := HHeld (r : completionRequest) | HGiven.
Definition has_phase (x : has) (ph : phase) : Prop :=
  match x with
  | HHeld r => ph = Held r
  | HGiven => exists res flags, ph = Given res flags
  end.

Section Answers.
(** The identifier of the call a request belongs to, and the answers that are right
    for an identifier. *)
Context (idof : nat -> Z) (ok : Z -> Z * Z -> Prop).
Implicit Types (m : Mem) (γ : gmap nat phase) (h : gmap nat has) (p : nat).

Definition waiting m : list nat := r_completions (m_ring m).

Definition fits m p (ph : phase) : Prop :=
  exists r, m_reqs m !! p = Some r /\
  match ph with
  | Own r' => r = r' /\ cr_done r = 0%nat /\ p ∉ waiting m
  | Sent => cr_id r = idof p /\ cr_done r = 0%nat /\ p ∈ waiting m
  | Held r' => r = r' /\ cr_id r = idof p /\ cr_done r = 0%nat /\ p ∉ waiting m
  | Given res flags => cr_id r = idof p /\ cr_res r = res /\ cr_flags r = flags /\
      ok (idof p) (res, flags) /\ p ∉ waiting m
  end.

Record inv γ m : Prop := {
  inv_nodup : NoDup (waiting m);
  inv_waiting : forall p, p ∈ waiting m -> γ !! p = Some Sent;
  inv_fits : forall p ph, γ !! p = Some ph -> fits m p ph
}.

(** Every completion in the queue is right for its identifier. *)
Definition truthful m : Prop :=
  forall c e, m_cq m = Some c -> e ∈ cq_Entries c -> ok (cqe_UserData e) (cqe_Res e, cqe_Flags e).

(** ** The logic of clients *)

(** A client that owns the request [p] and knows [k] of it can execute [q]: it keeps
    the invariant, leaves what the goroutine has, and does not panic. *)
Fixpoint client {A} p (k : know) (q : prog Mem A) (Q : A -> know -> Prop) : Prop :=
  match q with
  | Ret a => Q a k
  | Step X f g => forall γ m ph, inv γ m -> γ !! p = Some ph -> knows k ph ->
      exists ph' k', inv (<[p := ph']> γ) (f m).2 /\ (forall x, has_phase x ph -> has_phase x ph') /\
        knows k' ph' /\ client p k' (g (f m).1) Q
  | Panic _ => False
  | Starve => True
  end.

Lemma client_bind {A B} p k (q : prog Mem A) (g : A -> prog Mem B) Q R :
  client p k q Q -> (forall a k', Q a k' -> client p k' (g a) R) -> client p k (q ≫= g) R.
Proof.
  intros Hq HQ. revert k Hq. induction q as [a|X f g' IH|s|]; intros k Hq; [by apply HQ| |done|done].
  intros γ m ph Hi Hp Hk. destruct (Hq γ m ph Hi Hp Hk) as (ph' & k' & H1 & H2 & H3 & H4).
  exists ph', k'. split_and!; [done..|]. by apply IH.
Qed.

(** ** The logic of the goroutine *)

Definition holds h γ : Prop := forall p x, h !! p = Some x -> exists ph, γ !! p = Some ph /\ has_phase x ph.

(** No client learns anything wrong. *)
Definition moved γ γ' : Prop :=
  forall p ph, γ !! p = Some ph -> exists ph', γ' !! p = Some ph' /\ forall k, knows k ph -> knows k ph'.

Fixpoint body {A} h (q : prog Mem A) (Q : A -> gmap nat has -> Prop) : Prop :=
  match q with
  | Ret a => Q a h
  | Step X f g => forall γ m, inv γ m -> truthful m -> holds h γ ->
      exists γ' h', inv γ' (f m).2 /\ moved γ γ' /\ holds h' γ' /\ body h' (g (f m).1) Q
  | _ => True
  end.

Lemma body_bind {A B} h (q : prog Mem A) (g : A -> prog Mem B) Q R :
  body h q Q -> (forall a h', Q a h' -> body h' (g a) R) -> body h (q ≫= g) R.
Proof.
  intros Hq HQ. revert h Hq. induction q as [a|X f g' IH|s|]; intros h Hq; [by apply HQ| |done|done].
  intros γ m Hi Ht Hh. destruct (Hq γ m Hi Ht Hh) as (γ' & h' & H1 & H2 & H3 & H4).
  exists γ', h'. split_and!; [done..|]. by apply IH.
Qed.

Lemma moved_refl γ : moved γ γ.
Proof. intros p ph H. eauto. Qed.

Lemma moved_insert γ p ph ph' :
  γ !! p = Some ph -> (forall k, knows k ph -> knows k ph') -> moved γ (<[p := ph']> γ).
Proof.
  intros Hp Hk p' ph1 Hp'. destruct (decide (p = p')) as [<-|Hne].
  - exists ph'. rewrite lookup_insert_eq. by simplify_eq.
  - exists ph1. by rewrite lookup_insert_ne.
Qed.

(** ** The invariant under changes *)

(** What it looks at. *)
Definition exchange m : gmap nat completionRequest * list nat := (m_reqs m, waiting m).

#[global] Instance exchange_aside : Aside exchange.
Proof. split; intros; by destruct m as [[]]. Qed.

Lemma inv_exchange γ m m' : exchange m' = exchange m -> inv γ m -> inv γ m'.
Proof. intros [= E1 E2] [H1 H2 H3]. split; unfold fits, waiting in *; rewrite ?E1, ?E2; done. Qed.

(** One request changes, and its phase. *)
Lemma inv_update γ m p ph r' ph' :
  inv γ m -> γ !! p = Some ph -> (ph = Sent <-> ph' = Sent) ->
  fits (set_m_reqs (<[p := r']> (m_reqs m)) m) p ph' ->
  inv (<[p := ph']> γ) (set_m_reqs (<[p := r']> (m_reqs m)) m).
Proof.
  intros [H1 H2 H3] Hp Hs Hf. split; [done| |].
  - intros p' Hw. destruct (decide (p = p')) as [<-|Hne].
    + rewrite lookup_insert_eq. f_equal. apply Hs. specialize (H2 p Hw). congruence.
    + rewrite lookup_insert_ne by done. by apply H2.
  - intros p' ph1 Hp'. destruct (decide (p = p')) as [<-|Hne].
    + rewrite lookup_insert_eq in Hp'. by injection Hp' as <-.
    + rewrite lookup_insert_ne in Hp' by done. destruct (H3 p' ph1 Hp') as (r & Hr & Hm).
      exists r. split; [|exact Hm]. cbn. by rewrite lookup_insert_ne.
Qed.

(** A program that leaves requests and channel alone. *)
Lemma body_kept {A} h (q : prog Mem A) :
  keeps exchange q (fun _ => True) -> body h q (fun _ h' => h' = h).
Proof.
  induction q as [a|X f g IH|s|]; intros Hq; [done| |done|done].
  intros γ m Hi Ht Hh. destruct (Hq m) as [E Hg]. exists γ, h.
  split_and!; [by eapply inv_exchange|apply moved_refl|done|by apply IH].
Qed.

(** ** A call of complete *)

Lemma has_own r ph' x : has_phase x (Own r) -> has_phase x ph'.
Proof. destruct x; [done|]. by intros (? & ? & ?). Qed.

Lemma client_req_store p r f :
  cr_done (f r) = cr_done r -> client p (KOwn r) (req_store p f) (fun _ k => k = KOwn (f r)).
Proof.
  intros Hf γ m ph Hi Hp Hk. cbn in Hk. subst ph. destruct (inv_fits _ _ Hi p _ Hp) as (r0 & Hr & -> & Hd & Hw).
  exists (Own (f r)), (KOwn (f r)). cbn. rewrite Hr. cbn. split_and!; [|by apply has_own|done|done].
  eapply inv_update; [done..|]. exists (f r). cbn. rewrite lookup_insert_eq, Hf. done.
Qed.

Lemma client_send fuel p r :
  cr_id r = idof p -> client p (KOwn r) (completions_send fuel p) (fun _ k => k = KAway).
Proof.
  intros Hid. induction fuel as [|fuel IH]; [done|]. intros γ m ph Hi Hp Hk. cbn in Hk. subst ph.
  destruct (inv_fits _ _ Hi p _ Hp) as (r0 & Hr & -> & Hd & Hw). destruct Hi as [H1 H2 H3]. cbn.
  destruct (len _ <? _); cbn; [|exists (Own r), (KOwn r); split_and!; [|by apply has_own|done|done]].
  2: { rewrite insert_id by done. by split. }
  exists Sent, KAway. split_and!; [|by apply has_own|done|done]. split; cbn.
  - apply NoDup_app. split_and!; [done| |apply NoDup_singleton]. intros x Hx ->%list_elem_of_singleton. done.
  - intros p' [Hp'| ->%list_elem_of_singleton]%elem_of_app; [|apply lookup_insert_eq].
    rewrite lookup_insert_ne; [by apply H2|by intros ->].
  - intros p' ph' Hp'. destruct (decide (p = p')) as [<-|Hne].
    + rewrite lookup_insert_eq in Hp'. injection Hp' as <-. exists r. cbn. split_and!; [done..|].
      apply elem_of_app. right. by apply list_elem_of_singleton.
    + rewrite lookup_insert_ne in Hp' by done. destruct (H3 p' ph' Hp') as (r' & Hr' & Hm). exists r'. split; [done|].
      unfold waiting in *. cbn. destruct ph'; rewrite ?elem_of_app, ?not_elem_of_app, ?list_elem_of_singleton; naive_solver.
Qed.

(** The message is there only when the request was answered. *)
Lemma client_recv fuel p :
  client p KAway (done_recv fuel p) (fun _ k => exists res flags, k = KGiven res flags).
Proof.
  induction fuel as [|fuel IH]; [done|]. intros γ m ph Hi Hp Hk.
  destruct (inv_fits _ _ Hi p _ Hp) as (r & Hr & Hf). cbn. rewrite Hr. cbn.
  destruct (cr_done r) as [|d] eqn:Hd.
  - exists ph, KAway. cbn. rewrite insert_id by done. split_and!; [done..|exact IH].
  - destruct ph as [r'| |r'|res flags]; [done|destruct Hf as (? & ? & ?); congruence|destruct Hf as (? & ? & ? & ?); congruence|].
    destruct Hf as (Hid & Hres & Hfl & Hok & Hw). exists (Given res flags), (KGiven res flags). cbn.
    split_and!; [|done|done|by exists res, flags]. eapply inv_update; [done..|]. exists (set_cr_done d r). cbn.
    by rewrite lookup_insert_eq.
Qed.

Lemma client_req_load {A} p res flags (f : completionRequest -> A) (v : A) :
  (forall r, cr_res r = res -> cr_flags r = flags -> f r = v) ->
  client p (KGiven res flags) (req_load p f) (fun a k => a = v /\ k = KGiven res flags).
Proof.
  intros Hv γ m ph Hi Hp Hk. cbn in Hk. subst ph. destruct (inv_fits _ _ Hi p _ Hp) as (r & Hr & Hf).
  exists (Given res flags), (KGiven res flags). cbn. rewrite Hr. cbn. rewrite insert_id by done.
  split_and!; [done..| |done]. apply Hv; apply Hf.
Qed.

Lemma client_put p res flags :
  client p (KGiven res flags) (pool_put p) (fun _ k => k = KGiven res flags).
Proof.
  intros γ m ph Hi Hp Hk. exists ph, (KGiven res flags). cbn. rewrite insert_id by done.
  split_and!; [|done..]. by apply (inv_exchange γ m).
Qed.

(** [complete] after [completionPool.Get]. *)
Definition call_rest (fuel : nat) (reqID : Z) (req : nat) : prog Mem (Z * Z) :=
  req_store req (set_cr_id reqID);;
  req_store req (set_cr_res 0);;
  req_store req (set_cr_flags 0);;
  completions_send fuel req;;
  done_recv fuel req;;
  res ← req_load req cr_res;
  flags ← req_load req cr_flags;
  pool_put req;;
  Ret (res, flags).

Lemma client_call fuel p r :
  client p (KOwn r) (call_rest fuel (idof p) p) (fun a k => k = KGiven a.1 a.2).
Proof.
  unfold call_rest.
  do 3 (eapply client_bind; [by apply client_req_store|intros _ ? ->]).
  eapply client_bind; [by apply client_send|intros _ ? ->].
  eapply client_bind; [apply client_recv|intros _ ? (res & flags & ->)].
  eapply client_bind; [by apply (client_req_load _ _ _ _ res)|intros _ ? [-> ->]].
  eapply client_bind; [by apply (client_req_load _ _ _ _ flags)|intros _ ? [-> ->]].
  eapply client_bind; [apply client_put|intros _ ? ->]. done.
Qed.

(** ** The branches of the goroutine *)

(** A request it holds is not one of the others. *)
Lemma holds_insert h γ p x ph :
  holds h γ -> has_phase x ph -> holds (<[p := x]> h) (<[p := ph]> γ).
Proof.
  intros Hh Hx p' x' Hp'. destruct (decide (p = p')) as [<-|Hne].
  - rewrite lookup_insert_eq in Hp'. injection Hp' as <-. exists ph. by rewrite lookup_insert_eq.
  - rewrite lookup_insert_ne in Hp' by done. destruct (Hh _ _ Hp') as (ph' & H1 & H2). exists ph'. by rewrite lookup_insert_ne.
Qed.

Lemma body_req_store h p r f :
  h !! p = Some (HHeld r) -> cr_id (f r) = cr_id r -> cr_done (f r) = cr_done r ->
  body h (req_store p f) (fun _ h' => h' = <[p := HHeld (f r)]> h).
Proof.
  intros Hp Hid Hd γ m Hi Ht Hh. destruct (Hh p _ Hp) as (ph & Hγ & Hx). cbn in Hx. subst ph.
  destruct (inv_fits _ _ Hi p _ Hγ) as (r0 & Hr & -> & H1 & H2 & H3).
  exists (<[p := Held (f r)]> γ), (<[p := HHeld (f r)]> h). cbn. rewrite Hr. cbn. split_and!.
  - eapply inv_update; [done..|]. exists (f r). cbn. rewrite lookup_insert_eq. split_and!; [done..| | |done]; congruence.
  - eapply moved_insert; [done|]. by intros [].
  - by apply holds_insert.
  - done.
Qed.

Lemma body_done_send fuel h p r :
  h !! p = Some (HHeld r) -> ok (idof p) (cr_res r, cr_flags r) ->
  body h (done_send fuel p) (fun _ h' => h' = <[p := HGiven]> h).
Proof.
  intros Hp Hok. destruct fuel as [|fuel]; [done|]. intros γ m Hi Ht Hh.
  destruct (Hh p _ Hp) as (ph & Hγ & Hx). cbn in Hx. subst ph.
  destruct (inv_fits _ _ Hi p _ Hγ) as (r0 & Hr & -> & H1 & H2 & H3).
  exists (<[p := Given (cr_res r) (cr_flags r)]> γ), (<[p := HGiven]> h). cbn. rewrite Hr. cbn. rewrite H2. cbn.
  split_and!.
  - eapply inv_update; [done..|]. exists (set_cr_done 1 r). cbn. rewrite lookup_insert_eq. done.
  - eapply moved_insert; [done|]. by intros [].
  - apply holds_insert; [done|]. cbn. eauto.
  - done.
Qed.

(** The identifier of a request it holds or has answered is still that of the call. *)
Lemma body_load_id h p x :
  h !! p = Some x -> body h (req_load p cr_id) (fun a h' => a = idof p /\ h' = h).
Proof.
  intros Hp γ m Hi Ht Hh. destruct (Hh p _ Hp) as (ph & Hγ & Hx).
  destruct (inv_fits _ _ Hi p _ Hγ) as (r & Hr & Hf). exists γ, h. cbn. rewrite Hr. cbn.
  split_and!; [done|apply moved_refl|done| |done].
  destruct x; cbn in Hx; [subst ph; apply Hf|]. destruct Hx as (? & ? & ->). apply Hf.
Qed.

Lemma body_cq_entry h i :
  body h (cq_entry i) (fun e h' => ok (cqe_UserData e) (cqe_Res e, cqe_Flags e) /\ h' = h).
Proof.
  intros γ m Hi Ht Hh. exists γ, h. cbn.
  destruct (m_cq m) as [c|] eqn:Hc; cbn; [|by split_and!; [|apply moved_refl|..]].
  destruct (slice_get _ i) as [e|] eqn:He; cbn; (split_and!; [done|apply moved_refl|done|..]); [|done..].
  apply slice_get_Some in He as [_ He%list_elem_of_lookup_2]. by apply (Ht c).
Qed.

(** What is in flight is held, under its own identifier. *)
Definition flying h (inflight : gmap Z nat) : Prop :=
  forall id p, inflight !! id = Some p -> idof p = id /\ exists r, h !! p = Some (HHeld r).

Lemma body_onEntry_body fuel h i v :
  flying h (ev_inflight v) -> body h (onEntry_body fuel i v) (fun v' h' => flying h' (ev_inflight v')).
Proof.
  intros Hfl. unfold onEntry_body. eapply body_bind; [apply body_cq_entry|]. intros e ? [Hok ->].
  destruct (ev_inflight v !! cqe_UserData e) as [p|] eqn:Hp; [|done].
  destruct (Hfl _ _ Hp) as [Hid [r Hr]]. rewrite <- Hid in Hok. cbn zeta.
  eapply body_bind; [by apply body_req_store|intros _ ? ->].
  eapply body_bind; [apply body_req_store; [apply lookup_insert_eq|done..]|intros _ ? ->].
  rewrite insert_insert_eq.
  eapply body_bind; [eapply body_done_send; [apply lookup_insert_eq|done]|intros _ ? ->].
  rewrite insert_insert_eq.
  eapply body_bind; [apply (body_load_id _ p HGiven), lookup_insert_eq|intros id ? [-> ->]].
  intros id' p' Hx. cbn in Hx. apply lookup_delete_Some in Hx as [Hne Hp']. destruct (Hfl _ _ Hp') as [<- [r' Hr']]. split; [done|].
  exists r'. rewrite lookup_insert_ne; [done|]. by intros ->.
Qed.

Lemma body_cq_load {A} h (f : CompletionQueue -> A) : body h (cq_load f) (fun _ h' => h' = h).
Proof. apply body_kept. eauto with kept. Qed.

Lemma body_cq_store h f : body h (cq_store f) (fun _ h' => h' = h).
Proof. apply body_kept. eauto with kept. Qed.

Lemma body_onEntry_loop1 fuel k : forall h i head t v,
  flying h (ev_inflight v) ->
  body h (onEntry_loop1 fuel k i head t v)
    (fun r h' => match r with inl v' | inr v' => flying h' (ev_inflight v') end).
Proof.
  induction k as [|k IH]; intros h i head t v Hfl; [done|]. cbn [onEntry_loop1].
  eapply body_bind; [by apply body_onEntry_body|]. intros v' h' Hfl'.
  destruct (i =? t); [|by apply IH]. eapply body_bind; [apply body_cq_store|]. by intros _ ? ->.
Qed.

Lemma body_onEntry_loop2 fuel k : forall h i v,
  flying h (ev_inflight v) ->
  body h (onEntry_loop2 fuel k i v) (fun v' h' => flying h' (ev_inflight v')).
Proof.
  induction k as [|k IH]; intros h i v Hfl; [done|]. cbn [onEntry_loop2].
  eapply body_bind; [by apply body_onEntry_body|]. intros v' h' Hfl'. by apply IH.
Qed.

Lemma body_onEntry fuel h inflight count :
  flying h inflight -> body h (Ring_onEntry fuel inflight count) (fun i h' => flying h' i).
Proof.
  intros Hfl. unfold Ring_onEntry. do 4 (eapply body_bind; [apply body_cq_load|intros ? ? ->]). cbn zeta.
  eapply body_bind; [by apply body_onEntry_loop1|]. intros [v|v] h' Hv; [done|].
  eapply body_bind; [by apply body_onEntry_loop2|]. intros v' h2 Hv'.
  eapply body_bind; [apply body_cq_store|]. by intros _ ? ->.
Qed.

(** A request that is received from the channel. *)
Lemma receive γ m h p rest :
  inv γ m -> waiting m = p :: rest -> holds h γ -> exists r,
    inv (<[p := Held r]> γ) (upd_ring (set_r_completions rest) m) /\ moved γ (<[p := Held r]> γ) /\
    holds (<[p := HHeld r]> h) (<[p := Held r]> γ).
Proof.
  intros [H1 H2 H3] Hw Hh. rewrite Hw in H1. apply NoDup_cons in H1 as [Hp H1].
  assert (γ !! p = Some Sent) as Hγ by (apply H2; rewrite Hw; left).
  destruct (H3 p _ Hγ) as (r & Hr & Hid & Hd & _). exists r. split_and!.
  - split; [done| |].
    + intros p' Hp'. change (p' ∈ rest) in Hp'. rewrite lookup_insert_ne by (by intros ->).
      apply H2. rewrite Hw. by right.
    + intros p' ph Hp'. destruct (decide (p = p')) as [<-|Hne].
      * rewrite lookup_insert_eq in Hp'. injection Hp' as <-. by exists r.
      * rewrite lookup_insert_ne in Hp' by done. destruct (H3 p' ph Hp') as (r' & Hr' & Hf).
        exists r'. split; [done|]. rewrite Hw in Hf.
        change (waiting (upd_ring (set_r_completions rest) m)) with rest.
        destruct ph; rewrite ?elem_of_cons, ?not_elem_of_cons in Hf; naive_solver.
  - eapply moved_insert; [done|]. by intros [].
  - by apply holds_insert.
Qed.

Lemma flying_insert h inflight p r :
  flying h inflight -> flying (<[p := HHeld r]> h) (<[idof p := p]> inflight).
Proof.
  intros Hfl id' p' [[<- <-]|[Hne Hp']]%lookup_insert_Some.
  - split; [done|]. exists r. apply lookup_insert_eq.
  - destruct (Hfl _ _ Hp') as [<- [r' Hr']]. split; [done|]. exists r'.
    rewrite lookup_insert_ne; [done|]. by intros ->.
Qed.

Context {K : Kernel}.

Lemma body_run_completion fuel h inflight p r :
  flying h inflight -> h !! p = Some (HHeld r) ->
  body h (run_completion fuel inflight p) (fun i h' => flying h' i).
Proof.
  intros Hfl Hp. unfold run_completion. eapply body_bind; [by eapply body_load_id|]. intros ? ? [-> ->]. cbn zeta.
  eapply body_bind; [apply body_kept, kept_run_enter, _|]. intros count ? ->. apply body_onEntry.
  rewrite <- (insert_id h p (HHeld r)) by done. by apply flying_insert.
Qed.

Lemma body_run_retry fuel h inflight :
  flying h inflight -> body h (run_retry fuel inflight) (fun i h' => flying h' i).
Proof.
  intros Hfl. unfold run_retry.
  eapply (body_bind _ _ _ (fun got h' => match got with
    | None => h' = h | Some p => exists r, h' = <[p := HHeld r]> h end)).
  { intros γ m Hi Ht Hh. cbn. destruct (r_completions (m_ring m)) as [|p rest] eqn:E.
    - exists γ, h. split_and!; [done|apply moved_refl|done|done].
    - destruct (receive γ m h p rest Hi E Hh) as (r & H1 & H2 & H3). exists (<[p := Held r]> γ), (<[p := HHeld r]> h).
      split_and!; [done..|]. by exists r. }
  intros [p|] h' Hh'.
  - destruct Hh' as [r ->]. eapply (body_bind _ _ _ (fun i h' => flying h' i)); [|by intros; apply body_onEntry].
    eapply body_bind; [apply (body_load_id _ p (HHeld r)), lookup_insert_eq|]. intros ? ? [-> ->]. cbn zeta.
    eapply body_bind; [apply body_kept, kept_run_enter, _|]. intros count ? ->. by apply flying_insert.
  - subst h'. by apply body_onEntry.
Qed.
End Answers.

(** ** The system *)

(** The requests in the pool are different and were answered. *)
Definition unused (m : Mem) (p : nat) : Prop := exists r, m_reqs m !! p = Some r /\ cr_done r = 0%nat.
Definition pool_ok (m : Mem) : Prop :=
  NoDup (r_completionPool (m_ring m)) /\ Forall (unused m) (r_completionPool (m_ring m)).

(** [completionPool.Get] gives a request that nobody has. *)
Lemma pool_get_spec m taken :
  pool_ok m -> NoDup taken -> Forall (unused m) taken -> (forall p, p ∈ taken -> p ∉ r_completionPool (m_ring m)) ->
  exists p m', (forall A (k : nat -> prog Mem A), exists f, pool_get ≫= k = Step nat f k /\ f m = (p, m')) /\
    pool_ok m' /\ NoDup (taken ++ [p]) /\ Forall (unused m') (taken ++ [p]) /\
    (forall p', p' ∈ taken ++ [p] -> p' ∉ r_completionPool (m_ring m')) /\
    waiting m' = waiting m /\ m_cq m' = m_cq m.
Proof.
  intros [Hnd Hpool] Ht Hun Hdis. destruct (r_completionPool (m_ring m)) as [|p ps] eqn:E.
  - set (p := fresh (dom (m_reqs m))). set (m' := set_m_reqs (<[p := mkCR 0 0 0 0]> (m_reqs m)) m).
    assert (m_reqs m !! p = None) as Hp by apply not_elem_of_dom, is_fresh.
    assert (forall x, unused m x -> unused m' x /\ x <> p) as Hu.
    { intros x (r & Hr & Hd). assert (x <> p) as Hne by congruence. split; [|done]. exists r. cbn.
      by rewrite lookup_insert_ne. }
    exists p, m'. split_and!.
    + intros A k. eexists. split; [reflexivity|]. cbn beta. by rewrite E.
    + split; cbn; rewrite E; [apply NoDup_nil_2|done].
    + apply NoDup_app. split_and!; [done| |apply NoDup_singleton]. intros x Hx ->%list_elem_of_singleton.
      rewrite Forall_forall in Hun. by destruct (Hu p (Hun p Hx)).
    + apply Forall_app. split; [eapply Forall_impl; [done|apply Hu]|]. apply Forall_singleton.
      eexists. cbn. by rewrite lookup_insert_eq.
    + cbn. rewrite E. intros. apply not_elem_of_nil.
    + done.
    + done.
  - apply NoDup_cons in Hnd as [Hp Hnd]. apply Forall_cons in Hpool as [Hup Hpool].
    exists p, (upd_ring (set_r_completionPool ps) m). split_and!.
    + intros A k. eexists. split; [reflexivity|]. cbn beta. by rewrite E.
    + by split.
    + apply NoDup_app. split_and!; [done| |apply NoDup_singleton]. intros x Hx ->%list_elem_of_singleton.
      apply (Hdis p Hx). by left.
    + apply Forall_app. split; [done|]. by apply Forall_singleton.
    + cbn. intros x [Hx| ->%list_elem_of_singleton]%elem_of_app; [|done]. specialize (Hdis x Hx).
      by apply not_elem_of_cons in Hdis as [_ Hdis].
    + done.
    + done.
Qed.

Section System.
Context {K : Kernel} (fuel : nat) (idof : nat -> Z) (ok : Z -> Z * Z -> Prop).
Implicit Types (m : Mem) (γ : gmap nat phase).

(** The client of the request [p], when the phases are [γ]. *)
Definition client_in γ (p : nat) (q : prog Mem (Z * Z)) : Prop :=
  exists k ph, γ !! p = Some ph /\ knows k ph /\
    client idof ok p k q (fun a k' => k' = KGiven a.1 a.2).

Definition loop_in γ (l : loop) : Prop :=
  match l with
  | LSelect inflight | LSend inflight => exists h, holds h γ /\ flying idof h inflight
  | LBody b => exists h, holds h γ /\ body idof ok h b (fun i h' => flying idof h' i)
  | LReturned => True
  end.

Record good (objs : list nat) (s : sys) γ : Prop := {
  good_inv : inv idof ok γ (s_mem s);
  good_clients : Forall2 (client_in γ) objs (s_clients s);
  good_loop : loop_in γ (s_loop s)
}.

Lemma client_in_moved γ γ' p q : moved γ γ' -> client_in γ p q -> client_in γ' p q.
Proof.
  intros Hm (k & ph & Hp & Hk & Hc). destruct (Hm p ph Hp) as (ph' & Hp' & Hk'). exists k, ph'. auto.
Qed.

Lemma holds_client h γ p ph ph' :
  holds h γ -> γ !! p = Some ph -> (forall x, has_phase x ph -> has_phase x ph') -> holds h (<[p := ph']> γ).
Proof.
  intros Hh Hp Hx p' x Hp'. destruct (Hh p' x Hp') as (ph1 & H1 & H2). destruct (decide (p = p')) as [<-|Hne].
  - exists ph'. rewrite lookup_insert_eq. split; [done|]. apply Hx. by simplify_eq.
  - exists ph1. by rewrite lookup_insert_ne.
Qed.

Lemma good_client_step objs i q X f g x ps l retry m m' γ :
  NoDup objs -> good objs (mkSys ps l retry m) γ -> ps !! i = Some q -> q = Step X f g -> f m = (x, m') ->
  exists γ', good objs (mkSys (<[i := g x]> ps) l retry m') γ'.
Proof.
  intros Hnd [Hi Hc Hl] Hps -> Ef. cbn in *.
  destruct (Forall2_lookup_r _ _ _ _ _ Hc Hps) as (p & Hp & k & ph & Hγ & Hk & Hcl).
  destruct (Hcl γ m ph Hi Hγ Hk) as (ph' & k' & H1 & H2 & H3 & H4). rewrite Ef in H1, H4. cbn in H1, H4.
  exists (<[p := ph']> γ). split; cbn; [done| |].
  - apply Forall2_same_length_lookup_2; [by rewrite length_insert; eapply Forall2_length|].
    intros j p' q Hj Hq. destruct (decide (i = j)) as [<-|Hne].
    + rewrite list_lookup_insert_eq in Hq by (by eapply lookup_lt_Some). simplify_eq.
      exists k', ph'. by rewrite lookup_insert_eq.
    + rewrite list_lookup_insert_ne in Hq by done.
      destruct (Forall2_lookup_lr _ _ _ _ _ _ Hc Hj Hq) as (k2 & ph2 & Hγ2 & ?). exists k2, ph2.
      rewrite lookup_insert_ne; [done|]. intros ->. by pose proof (NoDup_lookup _ _ _ _ Hnd Hp Hj).
  - destruct l as [inflight|b|inflight|]; cbn in *; [..|done];
      destruct Hl as (h & Hh & Hl); exists h; (split; [by eapply holds_client|done]).
Qed.

Lemma good_loop_step objs ps l retry m l' retry' m' γ :
  good objs (mkSys ps l retry m) γ -> truthful ok m -> lstep fuel (l, retry, m) (l', retry', m') ->
  exists γ', good objs (mkSys ps l' retry' m') γ'.
Proof.
  intros [Hi Hc Hl] Ht Hs. cbn in *. inversion Hs; subst; cbn in Hl.
  - exists γ. split; cbn; [by apply (inv_exchange idof ok γ m)|done|done].
  - destruct Hl as (h & Hh & Hfl).
    destruct (receive idof ok γ m h cr rest Hi) as (r & H1 & H2 & H3); [done..|].
    exists (<[cr := Held r]> γ). split; cbn; [done|eapply Forall2_impl; [done|intros; by eapply client_in_moved]|].
    exists (<[cr := HHeld r]> h). split; [done|]. eapply body_run_completion; [|apply lookup_insert_eq].
    intros id p Hp. destruct (Hfl id p Hp) as [Hid [r' Hr']]. split; [done|].
    destruct (decide (cr = p)) as [->|Hne]; [exists r; apply lookup_insert_eq|].
    exists r'. by rewrite lookup_insert_ne.
  - destruct Hl as (h & Hh & Hfl). exists γ. split; cbn; [done..|]. exists h. split; [done|by apply body_run_retry].
  - destruct Hl as (h & Hh & Hb). destruct (Hb γ m Hi Ht Hh) as (γ' & h' & H1 & H2 & H3 & H4).
    match goal with E : f m = _ |- _ => rewrite E in H1, H4 end. exists γ'.
    split; cbn; [done|eapply Forall2_impl; [done|intros; by eapply client_in_moved]|]. by exists h'.
  - destruct Hl as (h & Hh & Hb). exists γ. split; cbn; [done..|]. unfold after_body.
    destruct (decide _); by exists h.
  - exists γ. by split.
Qed.
End System.

(** ** All interleavings *)

(** The calls get their requests, one after the other. *)
Lemma begin_calls {K : Kernel} fuel l retry ids : forall prefix taken m s,
  pool_ok m -> NoDup taken -> Forall (unused m) taken -> (forall p, p ∈ taken -> p ∉ r_completionPool (m_ring m)) ->
  sys_run fuel (MClient <$> seq (length prefix) (length ids))
    (mkSys (prefix ++ (Ring_complete fuel <$> ids)) l retry m) = Some s ->
  exists objs m', s = mkSys (prefix ++ zip_with (call_rest fuel) ids objs) l retry m' /\
    length objs = length ids /\ NoDup (taken ++ objs) /\ Forall (unused m') (taken ++ objs) /\
    waiting m' = waiting m /\ m_cq m' = m_cq m.
Proof.
  induction ids as [|id ids IH]; intros prefix taken m s Hpool Hnd Hun Hdis Hrun.
  - injection Hrun as <-. exists [], m. cbn. rewrite !app_nil_r. done.
  - destruct (pool_get_spec m taken Hpool Hnd Hun Hdis) as (p & m1 & Hget & Hpool1 & Hnd1 & Hun1 & Hdis1 & Hw1 & Hc1).
    destruct (Hget _ (call_rest fuel id)) as (f & Ef & Efm).
    destruct (IH (prefix ++ [call_rest fuel id p]) (taken ++ [p]) m1 s) as (objs & m' & -> & Hlen & Hnd' & Hun' & Hw & Hc);
      [done..| |].
    + rewrite <- Hrun. unfold sys_run. cbn [length seq fmap list_fmap foldl]. rewrite length_app, Nat.add_1_r.
      f_equal. cbn. rewrite lookup_app_r, Nat.sub_diag by done. cbn.
      change (Ring_complete fuel id) with (pool_get ≫= call_rest fuel id). rewrite Ef, Efm.
      f_equal. f_equal. rewrite insert_app_r_alt, Nat.sub_diag by done. by rewrite <- app_assoc.
    + exists (p :: objs), m'. rewrite <- !app_assoc in *. cbn. rewrite Hlen, Hw, Hc. split_and!; done.
Qed.

(** The state when all calls have begun. *)
Lemma good_begin {K : Kernel} fuel idof ok ids objs retry m :
  length objs = length ids -> NoDup objs -> Forall (unused m) objs -> waiting m = [] ->
  (forall i p id, objs !! i = Some p -> ids !! i = Some id -> idof p = id) ->
  exists γ, good idof ok objs (mkSys (zip_with (call_rest fuel) ids objs) (LSelect ∅) retry m) γ.
Proof.
  intros Hlen Hnd Hun Hw Hid. rewrite Forall_forall in Hun.
  set (own := fun p => Own (default (mkCR 0 0 0 0) (m_reqs m !! p))).
  set (γ := list_to_map ((fun p => (p, own p)) <$> objs) : gmap nat phase).
  assert (forall p, p ∈ objs -> γ !! p = Some (own p)) as Hin.
  { intros p Hp. apply elem_of_list_to_map_1; [|apply list_elem_of_fmap; by exists p].
    rewrite <- list_fmap_compose. by rewrite list_fmap_id. }
  exists γ. split; cbn.
  - split; [rewrite Hw; apply NoDup_nil_2|rewrite Hw; intros p Hp; by apply not_elem_of_nil in Hp|].
    intros p ph Hp. apply elem_of_list_to_map_2, list_elem_of_fmap in Hp as (p' & [= <- ->] & Hp').
    destruct (Hun p Hp') as (r & Hr & Hd). exists r. unfold own. rewrite Hr, Hw. split_and!; try done. apply not_elem_of_nil.
  - apply Forall2_same_length_lookup_2; [rewrite length_zip_with; lia|].
    intros i p q Hp Hq. rewrite lookup_zip_with in Hq.
    destruct (ids !! i) as [id|] eqn:Ei; [|done]. rewrite Hp in Hq. injection Hq as <-.
    eexists (KOwn _), (own p). split; [apply Hin; by eapply list_elem_of_lookup_2|]. split; [reflexivity|].
    rewrite <- (Hid i p id Hp Ei). apply client_call.
  - exists ∅. split; [intros p x Hp|intros p x Hp]; by rewrite lookup_empty in Hp.
Qed.

(** C10. Clients get the answers of their own requests.  Any number of calls of
    [complete] that have all begun (each has got its request object) before the
    first one ends, interleaved with the completion goroutine and the kernel in any
    way: when every completion the queue ever holds is right for its identifier,
    every call that returns has an answer that is right for its own identifier,
    and no call panics. *)
Theorem complete_sound {K : Kernel} (fuel retry : nat) (ids : list Z) (ok : Z -> Z * Z -> Prop) (m : Mem) (s0 s : sys)
    (Hpool : pool_ok m) (Hwait : r_completions (m_ring m) = [])
    (Hbegin : sys_run fuel (MClient <$> seq 0 (length ids))
      (mkSys (Ring_complete fuel <$> ids) (LSelect ∅) retry m) = Some s0)
    (Hs : rtc (fun s s' => sstep fuel s s' /\ truthful ok (s_mem s)) s0 s) :
  forall i id q, ids !! i = Some id -> s_clients s !! i = Some q ->
    match q with Ret a => ok id a | Panic _ => False | _ => True end.
Proof.
  destruct (begin_calls fuel (LSelect ∅) retry ids [] [] m s0) as (objs & m0 & -> & Hlen & Hnd & Hun & Hw & _);
    [done|apply NoDup_nil_2|done|intros p Hp; by apply not_elem_of_nil in Hp|done|]. cbn [app] in *.
  set (idof := fun p => default 0 ((list_to_map (zip objs ids) : gmap nat Z) !! p)).
  assert (forall i p id, objs !! i = Some p -> ids !! i = Some id -> idof p = id) as Hid.
  { intros i p id Hp Hi. unfold idof. erewrite elem_of_list_to_map_1; [done| |].
    - by rewrite fst_zip by lia.
    - apply list_elem_of_lookup. exists i. rewrite lookup_zip_with, Hp, Hi. done. }
  assert (exists γ, good idof ok objs (mkSys (zip_with (call_rest fuel) ids objs) (LSelect ∅) retry m0) γ) as H0
    by (apply good_begin; [done|done|done|by rewrite Hw|done]).
  assert (exists γ, good idof ok objs s γ) as [γ [Hi Hc Hl]].
  { clear - Hs H0 Hnd. revert H0. induction Hs as [|s1 s2 s3 [H1 Ht] _ IH]; [done|]. intros [γ Hg]. apply IH.
    destruct H1 as [i ps X f k x l retry' m1 m2 Hps Ef|ps l retry' m1 l' retry2 m2 Hl|ps l retry' m1 m2 [v ->]].
    - by eapply good_client_step.
    - by eapply good_loop_step.
    - exists γ. destruct Hg as [Hi Hc Hl]. split; cbn in *; [|done|done].
      apply (inv_exchange idof ok γ m1); [apply aside_view|done]. }
  intros i id q Hi' Hq. destruct (Forall2_lookup_r _ _ _ _ _ Hc Hq) as (p & Hp & k & ph & Hγ & Hk & Hcl).
  destruct q as [a| |s'|]; [|done|done|done]. cbn in Hcl. subst k. cbn in Hk. subst ph.
  destruct (inv_fits _ _ _ _ Hi p _ Hγ) as (r & _ & _ & _ & _ & Hok & _). rewrite (Hid i p id Hp Hi') in Hok.
  by destruct a.
Qed.

(** ** Witness *)

(** A schedule during which a test of the states holds. *)
Fixpoint run_while {K : Kernel} (fuel : nat) (test : sys -> bool) (cs : list move) (s : sys) : option sys :=
  match cs with
  | [] => Some s
  | c :: cs => if test s then s' ← sys_move fuel c s; run_while fuel test cs s' else None
  end.

Lemma run_while_steps {K : Kernel} fuel test cs : forall s s',
  run_while fuel test cs s = Some s' -> rtc (fun s s' => sstep fuel s s' /\ test s = true) s s'.
Proof.
  induction cs as [|c cs IH]; intros s s' E; cbn in E; [by injection E as ->|].
  destruct (test s) eqn:Et; [|done]. destruct (sys_move fuel c s) as [s1|] eqn:E1; [|done].
  eapply rtc_l; [|by apply IH]. split; [by eapply sys_move_step|done].
Qed.

(** The answer of the request [id] is ten times [id]; zero is no request. *)
Definition tenfold (id : Z) (a : Z * Z) : Prop := id = 0 \/ a = (10 * id, 0).
Definition tenfold_test (s : sys) : bool :=
  match m_cq (s_mem s) with
  | Some c => forallb (fun e => (cqe_UserData e =? 0) ||
      ((cqe_Res e =? 10 * cqe_UserData e) && (cqe_Flags e =? 0))) (cq_Entries c)
  | None => true
  end.

Lemma tenfold_truthful s : tenfold_test s = true -> truthful tenfold (s_mem s).
Proof.
  unfold tenfold_test. intros H c e Hc He. rewrite Hc, forallb_forall in H.
  specialize (H e ltac:(by apply list_elem_of_In)). apply orb_true_iff in H as [H%Z.eqb_eq|[H1%Z.eqb_eq H2%Z.eqb_eq]%andb_true_iff];
    [by left|right; by rewrite H1, H2].
Qed.

Lemma complete_sound_witness :
  let K := still_kernel 1 0 in
  exists s0 s,
    sys_run 1 (MClient <$> seq 0 2) (mkSys (Ring_complete 1 <$> [1; 2]) (LSelect ∅) 0 (put_cq two_cq sample_mem)) = Some s0 /\
    rtc (fun s s' => sstep 1 s s' /\ truthful tenfold (s_mem s)) s0 s /\
    s_clients s = [Ret (10, 0); Ret (20, 0)] /\
    forall i id q, [1; 2] !! i = Some id -> s_clients s !! i = Some q ->
      match q with Ret a => tenfold id a | Panic _ => False | _ => True end.
Proof.
  intros K.
  destruct (sys_run 1 (MClient <$> seq 0 2) (mkSys (Ring_complete 1 <$> [1; 2]) (LSelect ∅) 0 (put_cq two_cq sample_mem)))
    as [s0|] eqn:E0; [|by vm_compute in E0].
  destruct (run_while 1 tenfold_test (replicate 4 (MClient 1) ++ replicate 4 (MClient 0) ++ MCompletion ::
    loop_moves 21 ++ replicate 4 (MClient 1) ++ MCompletion :: loop_moves 20 ++ replicate 4 (MClient 0)) s0)
    as [s|] eqn:E; [|vm_compute in E0; injection E0 as <-; by vm_compute in E].
  exists s0, s. split; [done|].
  assert (rtc (fun s s' => sstep 1 s s' /\ truthful tenfold (s_mem s)) s0 s) as Hs.
  { eapply rtc_subrel; [|by eapply run_while_steps]. intros s1 s2 [H1 H2%tenfold_truthful]. done. }
  split; [done|]. split.
  - vm_compute in E0. injection E0 as <-. vm_compute in E. injection E as <-. reflexivity.
  - eapply (complete_sound (K := K) 1 0 [1; 2] tenfold (put_cq two_cq sample_mem) s0 s); [..|exact E0|exact Hs].
    + split; [apply NoDup_nil_2|constructor].
    + reflexivity.
Defined.
