(* ===== verification/Calls.v ===== *)
(** * Blocking operations from call to result (ops.go, ring.go)

    A client that calls blocking operations one after the other, the completion
    goroutine and the kernel: the request is prepared and published, handed to the
    goroutine, taken and completed by the kernel, found in the completion queue and
    answered.  The parts are those of OpsSpec and RunLoopSpec. *)

From stdpp Require Import base list gmap strings relations.
From Stdlib Require Import ZArith Lia.
From S2P Require Import Prelude Prog Consts Types Machine Samples Submission SubmissionSpec Ops OpsSpec Completion RunLoop RunLoopSpec.

(** ** The kernel *)

(** A kernel that takes one entry when it is asked to submit one and one is pending,
    and completes it with the result and the flags that [F] says.  Nothing is
    assumed of calls that ask for another number of submissions. *)
Definition handles (F : SubmitEntry_t -> Z * Z) (K : Kernel) : Prop :=
  forall h call q c x st, asks 1 call -> sq_Head q <> sq_Tail q -> head_entry q = Some x ->
    is_u32 (cq_Overflow c) -> is_u32 (cq_Flags c) -> cq_wf c ->
    let v := @k_enter K h call (Some q) (Some c) st in
    u32 (v_sqHead v) = u32 (sq_Head q + 1) /\
    view_cq v c = posted_cq (mkCQE (sqe_UserData x) (F x).1 (F x).2) c.

(** ** One operation *)

(** The blocking operation of a request. *)
Definition operation (fuel : nat) (r : request) : option (prog Mem err) :=
  match r with
  | RClose fd => Some (Ring_Close fuel fd)
  | RFadvise fd offset n advise => Some (Ring_Fadvise fuel fd offset n advise)
  | RFallocate fd mode offset n => Some (Ring_Fallocate fuel fd mode offset n)
  | RFsync fd flags => Some (Ring_Fsync fuel fd flags)
  | RNop => Some (Ring_Nop fuel)
  | RPollAdd fd mask => Some (Ring_PollAdd fuel fd mask)
  | RStatx dirfd path flags mask statx => Some (Ring_Statx fuel dirfd path flags mask statx)
  | RSend fd b flags => Some (Ring_Send fuel fd b flags)
  | RRecv fd b flags => Some (Ring_Recv fuel fd b flags)
  | _ => None
  end.

Lemma operation_blocking fuel r p : operation fuel r = Some p -> p = blocking fuel (dispatch fuel r).
Proof. by destruct r; intros [= <-]. Qed.

(** What a caller gets for the result of a completion. *)
Definition outcome (res : Z) : err := if res <? 0 then Some (Errno (- res)) else None.

Lemma negErrno_neg res : - 2 ^ 31 < res < 0 -> negErrno res = Errno (- res).
Proof.
  intros H. unfold negErrno. rewrite swrap_id by (unfold is_sint; lia). by rewrite uwrap_id by (unfold is_uint; lia).
Qed.

(** ** A ring between two calls *)

(** Nothing is going on in either queue, and the completions that are still in the
    array are of earlier requests. *)
Record between (m : Mem) (q : SubmitQueue) (c : CompletionQueue) : Prop := {
  bt_idle : idle m q c;
  bt_drained : sq_drained q;
  bt_two : 2 <= len (sq_Entries q);
  bt_overflow : is_u32 (cq_Overflow c);
  bt_flags : is_u32 (cq_Flags c);
  bt_old : Forall (fun x => cqe_UserData x <= r_idx (m_ring m)) (cq_Entries c);
  bt_idx : 0 <= r_idx (m_ring m)
}.

(** The kernel may change the flags and the counter of dropped entries. *)
Lemma view_drained v q f :
  sq_drained q -> u32 (v_sqHead v) = u32 (sq_Head q + 1) -> sq_drained (view_sq v (sq_submit f q)).
Proof.
  intros Hd Hv. destruct (sq_drained_step q f Hd) as [[[H1 H2 H3 H4 H5] H6 H7] H8].
  unfold view_sq. rewrite Hv. split; [split; [split; [exact H1|exact H2|exact H3|exact H4|exact H5]|exact H6|exact H7]|exact H8].
Qed.

(** Operations one after the other. *)
Fixpoint calls (ops : list (prog Mem err)) : prog Mem (list err) :=
  match ops with
  | [] => Ret []
  | p :: ops => e ← p; es ← calls ops; Ret (e :: es)
  end.

(** The outcomes [es] of the requests [rs] with the identifiers after [idx]. *)
Inductive answers (F : SubmitEntry_t -> Z * Z) : Z -> list request -> list err -> Prop :=
| answers_nil idx : answers F idx [] []
| answers_cons idx r rs anon e es :
    e = outcome (F (encode r (idx + 1) anon)).1 -> answers F (idx + 1) rs es ->
    answers F idx (r :: rs) (e :: es).

Section Calls.
Context {K : Kernel} (F : SubmitEntry_t -> Z * Z) (HK : handles F K) (HF : forall x, - 2 ^ 31 < (F x).1) (fuel : nat).

(** One operation of a client, in any context. *)
Lemma call_returns {A} (C : prog Mem err -> prog Mem A) ps i r m q c :
  (forall X f g, C (Step X f g) = Step X f (fun x => C (g x))) ->
  request_ok r -> between m q c -> r_idx (m_ring m) < 2 ^ 64 - 1 ->
  ps !! i = Some (C (blocking (S fuel) (dispatch (S fuel) r))) ->
  exists anon m' q' c',
    rtc (sstep (S fuel)) (mkSys ps (LSelect ∅) 0 m)
      (mkSys (<[i := C (Ret (outcome (F (encode r (r_idx (m_ring m) + 1) anon)).1))]> ps) (LSelect ∅) 0 m') /\
    between m' q' c' /\ r_idx (m_ring m') = r_idx (m_ring m) + 1.
Proof.
  intros HC Hr [Hidle Hd Htwo Hov Hfl Hold Hidx] Hmax Hi.
  assert (next_id m = r_idx (m_ring m) + 1) as Hid by (unfold next_id; apply uwrap_id; unfold is_uint; lia).
  destruct (runs_dispatch fuel r m q Hr (idle_sq _ _ _ Hidle) Hd) as (f & anon & Hrun & Hhead).
  set (q1 := sq_submit f q) in *. set (m1 := bump _) in Hrun. set (x := encode r (next_id m) anon) in *.
  set (e := mkCQE (sqe_UserData x) (F x).1 (F x).2).
  assert (sqe_UserData x = next_id m) as Hx by (unfold x; by destruct r).
  assert (forall h call st, asks 1 call -> let v := k_enter h call (Some (set_sq_entered 1 q1)) (Some c) st in
    u32 (v_sqHead v) = u32 (sq_Head q + 1) /\ view_cq v c = posted_cq e c) as Hv.
  { intros h call st Hask. apply (HK h call (set_sq_entered 1 q1) c x st); [done|exact (submit_pending q f Hd Htwo)|done|done|done|apply Hidle]. }
  assert (idle m1 q1 c) as Hidle1 by (destruct Hidle; split; try done; apply Hd).
  set (k := (fun '(errno, _) => if errno <? 0 then Ret (Some (negErrno errno)) else Ret None) : Z * Z -> prog Mem err).
  destruct (client_completes fuel e (fun p => C (p ≫= k)) (<[i := C (Ring_complete (S fuel) (next_id m) ≫= k)]> ps) i m1 q1 c)
    as (m' & h & call & st & Hask & Hs & Hidle' & Hidx').
  { intros X g h. apply HC. }
  { intros h call st Hcall. by apply Hv. }
  { done. }
  { eapply Forall_impl; [exact Hold|]. cbn. lia. }
  { cbn [e cqe_UserData]. rewrite Hx. apply list_lookup_insert_eq. by eapply lookup_lt_Some. }
  rewrite list_insert_insert_eq in Hs. exists anon, m'. eexists _, _. split_and!; [|split|].
  - rewrite <- (list_insert_id ps i _ Hi) at 1.
    apply (client_next (S fuel) C _ _ _ _ _ _ _ (next_id m, None) m1); [done|by eapply lookup_lt_Some|done|].
    etrans; [exact Hs|]. rewrite <- Hid. fold x. cbn [e cqe_Res cqe_Flags]. unfold outcome.
    change (Ret ((F x).1, (F x).2) ≫= k) with (k ((F x).1, (F x).2)). unfold k.
    destruct (Z.ltb_spec (F x).1 0); [|done]. by rewrite negErrno_neg by (split; [apply HF|done]).
  - exact Hidle'.
  - apply view_drained; [done|by apply Hv].
  - cbn. by autorewrite with slices.
  - done.
  - done.
  - rewrite Hidx'. change (r_idx (m_ring m1)) with (next_id m). cbn. apply Forall_insert; [|cbn; lia].
    eapply Forall_impl; [exact Hold|]. cbn. lia.
  - rewrite Hidx'. change (r_idx (m_ring m1)) with (next_id m). lia.
  - rewrite Hidx'. exact Hid.
Qed.

Lemma calls_return {A} rs ops :
  Forall2 (fun r p => operation (S fuel) r = Some p) rs ops -> Forall request_ok rs ->
  forall (C : prog Mem (list err) -> prog Mem A) m q c,
  (forall X f g, C (Step X f g) = Step X f (fun x => C (g x))) ->
  between m q c -> r_idx (m_ring m) + len rs < 2 ^ 64 ->
  exists es m' q' c',
    rtc (sstep (S fuel)) (mkSys [C (calls ops)] (LSelect ∅) 0 m) (mkSys [C (Ret es)] (LSelect ∅) 0 m') /\
    between m' q' c' /\ answers F (r_idx (m_ring m)) rs es.
Proof.
  induction 1 as [|r p rs ops Hp _ IH]; intros Hok C m q c HC Hb Hmax.
  { exists [], m, q, c. split_and!; [apply rtc_refl|done|constructor]. }
  apply Forall_cons in Hok as [Hr Hok]. apply operation_blocking in Hp as ->.
  assert (len (r :: rs) = 1 + len rs) as Hl by (unfold len; cbn; lia). pose proof (len_nonneg rs).
  destruct (call_returns (fun p => C (p ≫= fun e => es ← calls ops; Ret (e :: es)))
    [C (calls (blocking (S fuel) (dispatch (S fuel) r) :: ops))] 0 r m q c) as (anon & m1 & q1 & c1 & Hs & Hb1 & Hidx);
    [by intros X f g; apply HC|done|done|lia|done|].
  set (e := outcome _) in Hs.
  destruct (IH Hok (fun p => C (p ≫= fun es => Ret (e :: es))) m1 q1 c1) as (es & m' & q' & c' & Hs' & Hb' & Ha);
    [by intros X f g; apply HC|done|lia|].
  exists (e :: es), m', q', c'. split_and!; [etrans; [exact Hs|exact Hs']|done|].
  econstructor; [reflexivity|]. by rewrite <- Hidx.
Qed.
End Calls.

(** C9. Blocking operations can be served, and the served call gets the outcome of
    its own request.  A client calls any number of them, one after the other, with
    non-empty buffers, beside the completion goroutine and a kernel that takes the
    entry when it is asked for one and completes it with a result that it chooses
    for the entry.  From every state of the ring between two calls there is an
    execution in which all calls return, each with the outcome of the completion of
    its own request (no error, or the error number of a negative result), where the
    kernel got the entry of the table for the arguments of the call with the next
    identifier; and the ring is again between two calls, around any number of
    wrap-arounds of both queues.  This is about one execution: not all of them end
    so, since [onEntry] reads the identifier of a request object that its owner may
    have begun to use again (C19); what holds in all of them is C10. *)
Theorem blocking_calls {K : Kernel} (F : SubmitEntry_t -> Z * Z) (fuel : nat) (rs : list request)
    (ops : list (prog Mem err)) (m : Mem) (q : SubmitQueue) (c : CompletionQueue)
    (HK : handles F K) (HF : forall x, - 2 ^ 31 < (F x).1)
    (Hops : Forall2 (fun r p => operation (S fuel) r = Some p) rs ops)
    (Hok : Forall request_ok rs) (Hb : between m q c) (Hmax : r_idx (m_ring m) + len rs < 2 ^ 64) :
  exists es m' q' c',
    rtc (sstep (S fuel)) (mkSys [calls ops] (LSelect ∅) 0 m) (mkSys [Ret es] (LSelect ∅) 0 m') /\
    between m' q' c' /\ answers F (r_idx (m_ring m)) rs es.
Proof. by eapply (calls_return F HK HF fuel rs ops Hops Hok (fun p => p)). Qed.

(** ** Witness *)

(** It takes the entry at the head and completes it. *)
Definition handling_kernel (F : SubmitEntry_t -> Z * Z) : Kernel := {|
  k_answer := fun _ _ => mkSysRes 1 0;
  k_params := fun _ _ p => p;
  k_file := fun _ _ st => (mkSysRes 0 0, st);
  k_enter := fun _ _ q c st =>
    match q, c with
    | Some q, Some c =>
        mkView (sq_Head q + 1) (sq_Flags q) (sq_Dropped q) (cq_Tail c + 1) (cq_Overflow c) (cq_Flags c)
          match head_entry q with
          | Some x => [(cq_tail_pos c, mkCQE (sqe_UserData x) (F x).1 (F x).2)]
          | None => []
          end st
    | _, _ => mkView 0 0 0 0 0 0 [] st
    end
|}.

Lemma handling_handles F : handles F (handling_kernel F).
Proof.
  intros h call q c x st _ Hne Hx Ho Hf Hwf. cbn. rewrite Hx. split; [done|]. unfold view_cq, posted_cq. cbn.
  unfold post, slice_set. cbn [fst snd]. rewrite bool_decide_true by (pose proof (cq_tail_pos_range c Hwf); unfold len in *; lia).
  rewrite (uwrap_id 32 (cq_Overflow c)), (uwrap_id 32 (cq_Flags c)) by done. by destruct c.
Qed.

(** Only [Fsync] fails. *)
Definition fsync_fails (x : SubmitEntry_t) : Z * Z :=
  (match sqe_Opcode x with Fsync => -5 | _ => 0 end, 0).

Lemma blocking_calls_witness :
  let K := handling_kernel fsync_fails in
  exists m', rtc (sstep 1)
    (mkSys [calls [Ring_Nop 1; Ring_Fsync 1 3 0; Ring_Close 1 3]] (LSelect ∅) 0 sample_mem)
    (mkSys [Ret [None; Some (Errno 5); None]] (LSelect ∅) 0 m').
Proof.
  intros K.
  destruct (blocking_calls (K := K) fsync_fails 0 [RNop; RFsync 3 0; RClose 3] [Ring_Nop 1; Ring_Fsync 1 3 0; Ring_Close 1 3]
    sample_mem sample_sq sample_cq) as (es & m' & q' & c' & Hs & _ & Ha).
  - apply handling_handles.
  - intros x. unfold fsync_fails. cbn. by destruct (sqe_Opcode x).
  - repeat constructor.
  - repeat constructor.
  - split; try (vm_compute; done); [|split; [apply sample_sq_open|done]|repeat constructor; vm_compute; done].
    split; try reflexivity; try (vm_compute; discriminate); [apply sample_cq_wf|constructor].
  - vm_compute. done.
  - exists m'. enough (es = [None; Some (Errno 5); None]) as <- by exact Hs.
    inversion_clear Ha as [|? ? ? anon1 e1 es1 -> Ha1]. inversion_clear Ha1 as [|? ? ? anon2 e2 es2 -> Ha2].
    inversion_clear Ha2 as [|? ? ? anon3 e3 es3 -> Ha3]. inversion_clear Ha3. reflexivity.
Defined.
