(* ===== verification/BlockingSpec.v ===== *)
(** * Properties of the blocking operations (ops.go)

    What a blocking operation returns for the completion its request gets.  The
    completion goroutine is the environment here: it takes the request from the
    channel and answers it. *)

From stdpp Require Import base list gmap strings.
From Stdlib Require Import ZArith Lia.
From S2P Require Import Prelude Prog Consts Types Machine Samples Submission SubmissionSpec Ops.

(** The goroutine answers the first request of the channel, if there is one. *)
Definition answer (res flags : Z) (m : Mem) : Mem :=
  match r_completions (m_ring m) with
  | [] => m
  | p :: rest =>
      upd_ring (set_r_completions rest)
        (set_m_reqs (alter (fun r => mkCR (cr_id r) res flags (S (cr_done r))) p (m_reqs m)) m)
  end.

(** It does so from the [n0]-th action on. *)
Definition answers_from (n0 : nat) (res flags : Z) (n : nat) (m : Mem) : Mem :=
  if (n <? n0)%nat then m else answer res flags m.

Section Answers.
Implicit Types (m : Mem).

(** The channel is empty and has room, and the pool hands out a request without
    messages. *)
Definition ready_to_wait m : Prop :=
  r_completions (m_ring m) = [] /\ 1 <= r_completionsCap (m_ring m) /\
  Forall (fun p => exists r, m_reqs m !! p = Some r /\ cr_done r = 0%nat)
    (r_completionPool (m_ring m)).

Lemma answer_idle res flags m : r_completions (m_ring m) = [] -> answer res flags m = m.
Proof. intros H. unfold answer. by rewrite H. Qed.

Lemma run_pool_get env n m :
  ready_to_wait m -> (forall x, r_completions (m_ring x) = [] -> env n x = x) ->
  exists p r m', run env pool_get n m = Done p m' (S n) /\ r_completions (m_ring m') = [] /\
    r_completionsCap (m_ring m') = r_completionsCap (m_ring m) /\
    m_reqs m' !! p = Some r /\ cr_done r = 0%nat.
Proof.
  intros (Hch & Hcap & Hpool) Henv. unfold pool_get. rewrite run_act, Henv by done.
  destruct (r_completionPool (m_ring m)) as [|p ps].
  - eexists _, (mkCR 0 0 0 0), _. split_and!; [done|done|done|apply lookup_insert_eq|done].
  - apply Forall_cons in Hpool as [(r & Hr & Hd) _]. exists p, r. eexists. done.
Qed.

Lemma run_req_store env p f n m r :
  env n m = m -> m_reqs m !! p = Some r ->
  run env (req_store p f) n m = Done tt (set_m_reqs (<[p := f r]> (m_reqs m)) m) (S n).
Proof. intros He H. unfold req_store. rewrite run_try_store, He, H. done. Qed.

Lemma run_req_load {A} env p (f : completionRequest -> A) n m r :
  env n m = m -> m_reqs m !! p = Some r ->
  run env (req_load p f) n m = Done (f r) m (S n).
Proof. intros He H. unfold req_load. rewrite run_try_load, He, H. done. Qed.

(** [complete] among such a goroutine returns the answer. *)
Lemma run_complete fuel reqID n0 res flags n m :
  (n0 <= n)%nat -> ready_to_wait m ->
  exists m' n', run (answers_from n0 res flags) (Ring_complete (S fuel) reqID) n m =
    Done (res, flags) m' n'.
Proof.
  intros Hn Hready. set (env := answers_from n0 res flags).
  assert (forall k x, (n0 <= k)%nat -> r_completions (m_ring x) = [] -> env k x = x) as Henv.
  { intros k x Hk Hx. unfold env, answers_from. case Nat.ltb_spec; [done|]. intros _.
    by apply answer_idle. }
  unfold Ring_complete.
  destruct (run_pool_get env n m Hready) as (p & r & m1 & Hget & Hch & Hcap & Hr & Hd).
  { intros x. by apply Henv. }
  destruct Hready as (_ & Hcap0 & _). rewrite run_bind, Hget.
  rewrite run_bind, (run_req_store env p _ _ m1 r) by (done || (apply Henv; [lia|done])).
  do 2 (erewrite run_bind, run_req_store; [|apply Henv; [lia|done]|apply lookup_insert_eq]).
  rewrite run_bind. cbn [completions_send]. rewrite run_bind, run_act, Henv by (lia || done).
  cbn [m_ring set_m_reqs]. rewrite Hch, (proj2 (Z.ltb_lt _ _)) by (unfold len; cbn; lia).
  cbn [fst snd run]. rewrite run_bind. cbn [done_recv]. rewrite run_bind, run_try_act.
  set (m2 := upd_ring _ _).
  assert (env (S (S (S (S (S n))))) m2 = answer res flags m2) as ->.
  { unfold env, answers_from. by rewrite (proj2 (Nat.ltb_ge _ _)) by lia. }
  cbn. rewrite !insert_insert_eq, lookup_alter_eq, lookup_insert_eq. cbn [fmap option_fmap option_map].
  cbn. rewrite Hd. cbn [run].
  do 2 (erewrite run_bind, run_req_load; [|apply Henv; [lia|done]|apply lookup_insert_eq]).
  rewrite run_bind. unfold pool_put, ring_store. rewrite run_store. cbn [run]. eauto.
Qed.
End Answers.

(** A blocking operation (Close, Fadvise, Fallocate, Fsync, Nop, PollAdd,
    Statx, Send, Recv): once its request is prepared it waits for the answer,
    and returns no error for a nonnegative result and the negated result as the
    error number otherwise. *)
Theorem blocking_result (fuel : nat) (prep : prog Mem (Z * err)) (m m1 : Mem) (id res flags : Z)
    (Hprep : runs prep m (id, None) m1) (Hready : ready_to_wait m1) :
  exists n0 m' n', run (answers_from n0 res flags) (blocking (S fuel) prep) 0 m =
    Done (if res <? 0 then Some (Errno (u64 (i32 (- res)))) else None) m' n'.
Proof.
  destruct (Hprep 0%nat) as [n0 Hrun]. exists n0.
  destruct (run_complete fuel id n0 res flags n0 m1) as (m' & n' & Hc); [lia|done|].
  exists m', n'. unfold blocking. rewrite run_bind.
  destruct (run_quiet_prefix prep (answers_from n0 res flags) 0 m _ _ _ Hrun) as [-> _].
  { intros k x Hk. unfold answers_from. by rewrite (proj2 (Nat.ltb_lt _ _) Hk). }
  cbn beta iota. rewrite run_bind, Hc. cbn beta iota. by destruct (res <? 0).
Qed.

Lemma blocking_result_witness :
  exists n0 m' n', run (answers_from n0 (-9) 0) (Ring_Close 1 33) 0 sample_mem =
    Done (Some (Errno 9)) m' n'.
Proof.
  apply (blocking_result 0 (PrepareClose 1 33) sample_mem
    (match exec (PrepareClose 1 33) sample_mem with Done _ m _ => m | _ => sample_mem end) 1 (-9) 0).
  - intros n. eexists. vm_compute. reflexivity.
  - split_and!; [reflexivity|vm_compute; discriminate|constructor].
Defined.

(** [Splice] reports the flags of the completion, not its result, as the number
    of bytes moved: it takes the two values of [complete] in the wrong order. *)
Theorem Splice_returns_flags (fuel : nat) (inFd : Z) (inOff : var (option Z)) (outFd : Z)
    (outOff : var (option Z)) (n flags : Z) (m m1 : Mem) (id res cflags : Z)
    (Hprep : runs (PrepareSplice (S fuel) inFd inOff outFd outOff n flags) m (id, None) m1)
    (Hready : ready_to_wait m1) (Hres : 0 <= res) :
  exists n0 m' n',
    run (answers_from n0 res cflags) (Ring_Splice (S fuel) inFd inOff outFd outOff n flags) 0 m =
    Done (i64 cflags, None) m' n'.
Proof.
  destruct (Hprep 0%nat) as [n0 Hrun]. exists n0.
  destruct (run_complete fuel id n0 res cflags n0 m1) as (m' & n' & Hc); [lia|done|].
  exists m', n'. unfold Ring_Splice. rewrite run_bind.
  destruct (run_quiet_prefix _ (answers_from n0 res cflags) 0 m _ _ _ Hrun) as [-> _].
  { intros k x Hk. unfold answers_from. by rewrite (proj2 (Nat.ltb_lt _ _) Hk). }
  cbn beta iota. rewrite run_bind, Hc. cbn beta iota. by rewrite (proj2 (Z.ltb_ge _ _) Hres).
Qed.

Lemma Splice_returns_flags_witness :
  exists n0 m' n',
    run (answers_from n0 4096 0) (Ring_Splice 1 3 (mkVar 64 None) 4 (mkVar 72 None) 4096 0) 0 sample_mem =
    Done (0, None) m' n'.
Proof.
  apply (Splice_returns_flags 0 3 (mkVar 64 None) 4 (mkVar 72 None) 4096 0 sample_mem
    (match exec (PrepareSplice 1 3 (mkVar 64 None) 4 (mkVar 72 None) 4096 0) sample_mem with
     | Done _ m _ => m | _ => sample_mem end) 1 4096 0).
  - intros n. eexists. vm_compute. reflexivity.
  - split_and!; [reflexivity|vm_compute; discriminate|constructor].
  - lia.
Defined.
