(* ===== verification/Completer.v ===== *)
(** * The completer (completer.go)

    The goroutine that collects the positions of handled completions and moves
    the head of the completion queue over consecutive ones. *)

From stdpp Require Import base list gmap sets strings relations.
From Stdlib Require Import ZArith Lia.
From S2P Require Import Prelude Prog Consts Types Machine Samples.

(** ** The operations *)

(** [newCompleter]. *)
Definition newCompleter (bufSize : nat) : completer := mkCompleter 0 [] bufSize.

(** [completer.complete]: a send that waits while the buffer is full. *)
Fixpoint completer_complete (fuel : nat) (id : Z) : prog Mem unit :=
  match fuel with
  | O => Starve
  | S fuel =>
      sent ← act (fun m =>
        let c := r_c (m_ring m) in
        if (length (c_seen c) <? c_bufSize c)%nat
        then (true, upd_ring (set_r_c (set_c_seen (c_seen c ++ [id]) c)) m)
        else (false, m));
      if (sent : bool) then Ret tt else completer_complete fuel id
  end.

(** [completer.stop]: the channel has room for eight. *)
Fixpoint completer_stop (fuel : nat) : prog Mem unit :=
  match fuel with
  | O => Starve
  | S fuel =>
      sent ← act (fun m =>
        let c := r_c (m_ring m) in
        if (c_stopCh c <? 8)%nat
        then (true, upd_ring (set_r_c (set_c_stopCh (S (c_stopCh c)) c)) m)
        else (false, m));
      if (sent : bool) then Ret tt else completer_stop fuel
  end.

(** The inner loop: while [curHead+seen] is in [unacked], delete it and count. *)
Fixpoint completer_advance (fuel : nat) (unacked : gset Z) (curHead seen : Z)
  : prog Mem (gset Z * Z) :=
  match fuel with
  | O => Starve
  | S fuel =>
      if bool_decide ((curHead + seen) ∈ unacked)
      then completer_advance fuel (unacked ∖ {[curHead + seen]}) curHead (seen + 1)
      else Ret (unacked, seen)
  end.

(** [case id := <-c.seen].  The loop deletes an element in each iteration, so the
    number of elements bounds it. *)
Definition completer_seen (unacked : gset Z) (id : Z) : prog Mem (gset Z) :=
  let unacked := if bool_decide (id ∈ unacked) then unacked else {[id]} ∪ unacked in
  head ← cq_load cq_Head;
  mask ← cq_load cq_Mask;
  '(unacked, seen) ← completer_advance (S (size unacked)) unacked (Z.land head mask) 0;
  cq_store (fun c => set_cq_Head (u32 (cq_Head c + u32 seen)) c);;
  Ret unacked.

(** ** The goroutine *)

Inductive cloop := CSelect (unacked : gset Z) | CBody (body : prog Mem (gset Z)) | CReturned.

(** [completer.run]. *)
Inductive cstep : cloop * Mem -> cloop * Mem -> Prop :=
| cstep_stop unacked m n :
    c_stopCh (r_c (m_ring m)) = S n ->
    cstep (CSelect unacked, m)
      (CReturned, upd_ring (fun r => set_r_c (set_c_stopCh n (r_c r)) r) m)
| cstep_seen unacked m id ids :
    c_seen (r_c (m_ring m)) = id :: ids ->
    cstep (CSelect unacked, m)
      (CBody (completer_seen unacked id),
       upd_ring (fun r => set_r_c (set_c_seen ids (r_c r)) r) m)
| cstep_act X f k x m m' :
    f m = (x, m') -> cstep (CBody (Step X f k), m) (CBody (k x), m')
| cstep_end unacked m : cstep (CBody (Ret unacked), m) (CSelect unacked, m).

(** ** The head over a set of handled positions *)

(** The number of consecutive elements from [p] on. *)
Fixpoint run_length (fuel : nat) (U : gset Z) (p : Z) : nat :=
  match fuel with
  | O => 0
  | S fuel => if bool_decide (p ∈ U) then S (run_length fuel (U ∖ {[p]}) (p + 1)) else 0
  end.

Definition positions (p : Z) (k : nat) : gset Z := list_to_set (seqZ p (Z.of_nat k)).

Section Advance.
Implicit Types (U : gset Z) (m : Mem).

Lemma elem_of_positions x p k : x ∈ positions p k <-> p <= x < p + Z.of_nat k.
Proof. unfold positions. rewrite elem_of_list_to_set. by rewrite elem_of_seqZ. Qed.

Lemma run_length_spec fuel : forall U p,
  (size U <= fuel)%nat ->
  positions p (run_length fuel U p) ⊆ U /\ (p + Z.of_nat (run_length fuel U p)) ∉ U.
Proof.
  induction fuel as [|fuel IH]; intros U p Hs; cbn.
  - assert (U = ∅) as -> by (apply leibniz_equiv, size_empty_inv; lia). set_solver.
  - case_bool_decide as Hp.
    + destruct (IH (U ∖ {[p]}) (p + 1)) as [H1 H2].
      { rewrite size_difference, size_singleton by set_solver. lia. }
      set (k := run_length fuel _ _) in *. split.
      * intros x Hx%elem_of_positions. destruct (Z.eq_dec x p) as [->|]; [done|].
        assert (x ∈ U ∖ {[p]}) by (apply H1, elem_of_positions; lia). set_solver.
      * replace (p + Z.of_nat (S k)) with (p + 1 + Z.of_nat k) by lia.
        intros Hin. apply H2. apply elem_of_difference. split; [done|].
        rewrite elem_of_singleton. lia.
    + split; [|by rewrite Z.add_0_r]. intros x Hx%elem_of_positions. lia.
Qed.

(** The inner loop ends: it needs as many iterations as there are elements. *)
Lemma runs_advance fuel : forall U p s m,
  (size U <= fuel)%nat ->
  let k := run_length fuel U (p + s) in
  runs (completer_advance (S fuel) U p s) m
    (U ∖ positions (p + s) k, s + Z.of_nat k) m.
Proof.
  induction fuel as [|fuel IH]; intros U p s m Hs; cbn [completer_advance run_length].
  - assert (U = ∅) as -> by (apply leibniz_equiv, size_empty_inv; lia).
    rewrite bool_decide_false by set_solver.
    eapply runs_eq; [apply runs_ret|apply (f_equal2 pair); [set_solver|lia]|done].
  - case_bool_decide as Hp.
    + eapply runs_eq; [apply IH; rewrite size_difference, size_singleton by set_solver; lia| |done].
      rewrite <- Z.add_assoc. replace (p + (s + 1)) with (p + s + 1) by lia.
      set (k := run_length fuel _ _). apply (f_equal2 pair); [|lia].
      apply set_eq. intros x. rewrite !elem_of_difference, elem_of_singleton, !elem_of_positions.
      assert (p + s <= x < p + s + Z.of_nat (S k) <->
              x = p + s \/ p + s + 1 <= x < p + s + 1 + Z.of_nat k) as -> by lia. tauto.
    + eapply runs_eq; [apply runs_ret|apply (f_equal2 pair); [|cbn; lia]|done].
      apply set_eq. intros x. rewrite !elem_of_difference, elem_of_positions. split; [intros Hx; split; [done|lia]|by intros [? _]].
Qed.

Lemma runs_completer_seen U id m c :
  m_cq m = Some c ->
  let U' := {[id]} ∪ U in
  let p := Z.land (cq_Head c) (cq_Mask c) in
  let k := run_length (size U') U' p in
  runs (completer_seen U id) m (U' ∖ positions p k)
    (put_cq (set_cq_Head (u32 (cq_Head c + Z.of_nat k)) c) m).
Proof.
  intros Hm U' p k. unfold completer_seen.
  assert ((if bool_decide (id ∈ U) then U else {[id]} ∪ U) = U') as ->.
  { unfold U'. case_bool_decide; [|done]. set_solver. }
  do 2 (eapply runs_bind; [by apply runs_cq_load|]). fold p.
  eapply runs_bind; [by apply runs_advance|]. rewrite Z.add_0_r. fold k. cbn beta iota.
  eapply runs_bind; [by eapply runs_cq_store|].
  eapply runs_eq; [apply runs_ret|done|]. by rewrite uwrap_add_r.
Qed.

Lemma runs_completer_complete fuel id m :
  (length (c_seen (r_c (m_ring m))) < c_bufSize (r_c (m_ring m)))%nat ->
  runs (completer_complete (S fuel) id) m tt
    (upd_ring (fun r => set_r_c (set_c_seen (c_seen (r_c r) ++ [id]) (r_c r)) r) m).
Proof.
  intros Hroom. cbn [completer_complete]. eapply runs_bind.
  - apply runs_act. rewrite (proj2 (Nat.ltb_lt _ _) Hroom). reflexivity.
  - apply runs_ret.
Qed.

(** The goroutine handles one position. *)
Lemma body_runs (p : prog Mem (gset Z)) U m m' :
  runs p m U m' -> rtc cstep (CBody p, m) (CSelect U, m').
Proof.
  intros Hr. destruct (Hr 0%nat) as [n' H]. clear Hr. revert H. generalize 0%nat as n. revert m.
  induction p as [b|X f g IH|s|]; intros m n H; cbn in H; try done.
  - injection H as -> -> <-. apply rtc_once. constructor.
  - unfold quiet in H at 1. destruct (f m) as [x m1] eqn:E.
    eapply rtc_l; [by apply cstep_act|]. by apply (IH x) with (n := S n).
Qed.
End Advance.

(** ** A sequence of positions *)

Section Sequence.
Context (h : Z) (p0 n : Z).
Implicit Types (U : gset Z) (m : Mem).

(** The positions [A] have been handled, starting with the head at [h] (position
    [p0]); the head has moved by [j]. *)
Definition handled (A : gset Z) (j : nat) U (c : CompletionQueue) : Prop :=
  U = A ∖ positions p0 j /\ positions p0 j ⊆ A /\ (p0 + Z.of_nat j) ∉ A /\
  cq_Head c = u32 (h + Z.of_nat j).

Lemma handled_step A j U c id :
  cq_wf c -> len (cq_Entries c) = n -> h mod n = p0 ->
  id ∉ A -> p0 <= id < n -> (forall x, x ∈ A -> p0 <= x < n) -> 0 <= p0 ->
  handled A j U c ->
  let U' := {[id]} ∪ U in
  let p := Z.land (cq_Head c) (cq_Mask c) in
  let k := run_length (size U') U' p in
  handled ({[id]} ∪ A) (j + k) (U' ∖ positions p k)
    (set_cq_Head (u32 (cq_Head c + Z.of_nat k)) c).
Proof.
  intros Hwf Hn Hp0 Hid Hr HA H0 (HU & Hsub & Hnext & Hhead) U' p k.
  assert (p0 + Z.of_nat j < n) as Hlt.
  { destruct (Z_lt_dec (p0 + Z.of_nat j) n); [done|]. exfalso. apply Hid, Hsub, elem_of_positions. lia. }
  assert (p = p0 + Z.of_nat j) as Hp.
  { unfold p. rewrite (cq_pos_mod c _ Hwf), Hhead, Hn, u32_mod by (rewrite <- Hn; apply Hwf).
    rewrite <- Zplus_mod_idemp_l, Hp0. apply Z.mod_small. lia. }
  destruct (run_length_spec (size U') U' p) as [Hk Hk']; [lia|]. fold k in Hk, Hk'.
  assert (forall x, x ∈ positions p0 (j + k) <-> x ∈ positions p0 j \/ x ∈ positions p k) as Hpos.
  { intros x. rewrite !elem_of_positions. lia. }
  assert (id ∉ positions p0 j) as Hidj by (intros Hx; by apply Hid, Hsub).
  split_and!.
  - apply set_eq. intros x. unfold U'. rewrite HU, !elem_of_difference, !elem_of_union, Hpos.
    rewrite elem_of_difference, elem_of_singleton. naive_solver.
  - intros x [Hx|Hx]%Hpos; [set_solver|]. apply Hk in Hx. set_solver.
  - replace (p0 + Z.of_nat (j + k)) with (p + Z.of_nat k) by lia.
    intros [Hx|Hx]%elem_of_union; apply Hk'; unfold U'; rewrite HU; [set_solver|].
    apply elem_of_union. right. apply elem_of_difference. split; [done|].
    rewrite elem_of_positions. lia.
  - cbn. rewrite Hhead, uwrap_add_l. f_equal. lia.
Qed.

Lemma handle_all ids : forall A j U m c,
  m_cq m = Some c -> cq_wf c -> len (cq_Entries c) = n -> h mod n = p0 -> 0 <= p0 ->
  c_seen (r_c (m_ring m)) = ids -> NoDup ids -> (forall x, x ∈ ids -> x ∉ A) ->
  (forall x, x ∈ ids \/ x ∈ A -> p0 <= x < n) ->
  handled A j U c ->
  exists U' j' m' c', rtc cstep (CSelect U, m) (CSelect U', m') /\
    m_cq m' = Some c' /\ c_seen (r_c (m_ring m')) = [] /\
    handled (list_to_set ids ∪ A) j' U' c'.
Proof.
  induction ids as [|id ids IH]; intros A j U m c Hm Hwf Hn Hp0 H0 Hch Hnd Hni Hr Hh.
  { exists U, j, m, c. split_and!; [done|done|done|]. by rewrite list_to_set_nil, union_empty_l_L. }
  apply NoDup_cons in Hnd as [Hid Hnd].
  set (m1 := upd_ring (fun r => set_r_c (set_c_seen ids (r_c r)) r) m).
  pose proof (runs_completer_seen U id m1 c Hm) as Hrun. cbn zeta in Hrun.
  pose proof (handled_step A j U c id Hwf Hn Hp0) as Hstep.
  set (k := run_length _ _ _) in *.
  destruct (IH ({[id]} ∪ A) (j + k)%nat (({[id]} ∪ U) ∖ positions (Z.land (cq_Head c) (cq_Mask c)) k)
      (put_cq (set_cq_Head (u32 (cq_Head c + Z.of_nat k)) c) m1)
      (set_cq_Head (u32 (cq_Head c + Z.of_nat k)) c))
    as (U' & j' & m' & c' & Hs & Hm' & Hch' & Hh'); try done.
  - destruct Hwf. split; try done. apply uwrap_range. lia.
  - intros x Hx. specialize (Hni x). set_solver.
  - intros x Hx. apply Hr. set_solver.
  - apply Hstep; [apply Hni; set_solver|apply Hr; set_solver|intros; apply Hr; set_solver|done|done].
  - exists U', j', m', c'. split_and!; [|done|done|].
    + eapply rtc_l; [by apply cstep_seen|]. etrans; [by apply body_runs|]. exact Hs.
    + rewrite list_to_set_cons. replace ({[id]} ∪ list_to_set ids ∪ A) with (list_to_set ids ∪ ({[id]} ∪ A) : gset Z) by set_solver. done.
Qed.
End Sequence.

(** The completer moves the head exactly over the handled completions: for
    distinct positions from the head on (up to the end of the array), handed in
    in any order, the goroutine handles them all and leaves the head in front
    of the first position that was not handed in. *)
Theorem completer_head_exact (m : Mem) (c : CompletionQueue) (ids : list Z)
    (Hm : m_cq m = Some c) (Hwf : cq_wf c)
    (Hch : c_seen (r_c (m_ring m)) = ids) (Hnd : NoDup ids)
    (Hr : forall x, x ∈ ids -> cq_head_pos c <= x < len (cq_Entries c)) :
  exists (U : gset Z) (j : nat) m' c', rtc cstep (CSelect ∅, m) (CSelect U, m') /\
    c_seen (r_c (m_ring m')) = [] /\ m_cq m' = Some c' /\
    cq_Head c' = u32 (cq_Head c + Z.of_nat j) /\
    (forall x, cq_head_pos c <= x < cq_head_pos c + Z.of_nat j -> x ∈ ids) /\
    (cq_head_pos c + Z.of_nat j) ∉ ids /\
    (forall x, x ∈ U <-> x ∈ ids /\ cq_head_pos c + Z.of_nat j < x).
Proof.
  pose proof (cq_head_pos_range c Hwf) as Hh.
  destruct (handle_all (cq_Head c) (cq_head_pos c) (len (cq_Entries c)) ids ∅ 0 ∅ m c)
    as (U & j & m' & c' & Hs & Hm' & Hch' & HU & Hsub & Hnext & Hhead); try done.
  - symmetry. by apply cq_pos_mod.
  - lia.
  - intros x [Hx|Hx]; [by apply Hr|set_solver].
  - split_and!; [set_solver|set_solver|set_solver|]. rewrite Z.add_0_r, uwrap_id; [done|apply Hwf].
  - assert (forall x, x ∈ (list_to_set ids ∪ ∅ : gset Z) <-> x ∈ ids) as Hset.
    { intros x. rewrite union_empty_r_L. apply elem_of_list_to_set. }
    exists U, j, m', c'. split_and!; try done.
    + intros x Hx. apply Hset, Hsub, elem_of_positions. lia.
    + by rewrite <- Hset.
    + intros x. rewrite HU, elem_of_difference, Hset, elem_of_positions. split.
      * intros [Hx Hp]. split; [done|]. apply Hr in Hx as Hx'.
        assert (x <> cq_head_pos c + Z.of_nat j) by (intros ->; by apply Hnext, Hset). lia.
      * intros [Hx Hp]. split; [done|lia].
Qed.

Lemma completer_head_exact_witness :
  let m := upd_ring (set_r_c (mkCompleter 0 [3; 1; 0] 512)) sample_mem in
  exists (U : gset Z) (j : nat) m' c', rtc cstep (CSelect ∅, m) (CSelect U, m') /\
    c_seen (r_c (m_ring m')) = [] /\ m_cq m' = Some c' /\
    cq_Head c' = u32 (cq_Head sample_cq + Z.of_nat j) /\
    (forall x, cq_head_pos sample_cq <= x < cq_head_pos sample_cq + Z.of_nat j -> x ∈ [3; 1; 0]) /\
    (cq_head_pos sample_cq + Z.of_nat j) ∉ [3; 1; 0] /\
    (forall x, x ∈ U <-> x ∈ [3; 1; 0] /\ cq_head_pos sample_cq + Z.of_nat j < x).
Proof.
  intros m. apply (completer_head_exact m sample_cq [3; 1; 0]).
  - reflexivity.
  - apply sample_cq_wf.
  - reflexivity.
  - apply (bool_decide_unpack _). vm_compute. exact I.
  - intros x Hx. change (cq_head_pos sample_cq) with 0. change (len (cq_Entries sample_cq)) with 8.
    rewrite !elem_of_cons, elem_of_nil in Hx. lia.
Defined.

(** ** Positions handed in twice *)

(** The goroutine on a sequence of positions, without interference. *)
Fixpoint completer_seen_all (ids : list Z) (unacked : gset Z) : prog Mem (gset Z) :=
  match ids with
  | [] => Ret unacked
  | id :: ids => unacked ← completer_seen unacked id; completer_seen_all ids unacked
  end.

(** It is bad to see a position twice: the second time it stays behind in the
    set, and counts as handled when the head comes around to it again.  On a
    ring of eight, the positions 0, 0, 1, ..., 7 and then 1 of the next round
    move the head to 10, over position 0 of the second round that nobody
    handled. *)
Theorem completer_double_ack :
  exists m' c',
    runs (completer_seen_all [0; 0; 1; 2; 3; 4; 5; 6; 7; 1] ∅) sample_mem ∅ m' /\
    m_cq m' = Some c' /\ cq_Head c' = 10.
Proof.
  eexists (put_cq (set_cq_Head 10 sample_cq) sample_mem), _. split; [|done].
  intros n. eexists. vm_compute. reflexivity.
Qed.
