(* ===== verification/Submitter.v ===== *)
(** * The submitter (submitter.go)

    The goroutine that batches submissions: the first request arms a timer, and
    when it fires the goroutine enters the ring until the kernel has taken as
    many entries as there were requests. *)

From stdpp Require Import base list gmap strings relations.
From Stdlib Require Import ZArith Lia.
From S2P Require Import Prelude Prog Consts Types Machine Samples Submission SubmissionSpec.

(** ** The operations *)

(** [newRingSubmitter]. *)
Definition newRingSubmitter (deadline : Z) : ringSubmitter := mkSubmitter 0 0 deadline.

(** [ringSubmitter.submit]: the channel has room for 128. *)
Fixpoint submitter_submit (fuel : nat) (reqID : Z) : prog Mem unit :=
  match fuel with
  | O => Starve
  | S fuel =>
      sent ← try_act nil_msg (fun m => s ← r_submitter (m_ring m);
        if (rs_work s <? 128)%nat
        then Some (true, upd_ring (set_r_submitter (Some (set_rs_work (S (rs_work s)) s))) m)
        else Some (false, m));
      if (sent : bool) then Ret tt else submitter_submit fuel reqID
  end.

(** [ringSubmitter.stop]: the channel has no buffer; the sender is counted in
    [rs_done] until the goroutine takes its message. *)
Definition submitter_stop : prog Mem unit :=
  try_store nil_msg (fun m => s ← r_submitter (m_ring m);
    Some (upd_ring (set_r_submitter (Some (set_rs_done (S (rs_done s)) s))) m)).

(** ** The goroutine *)

(** A [time.Timer]: stopped, running, or expired with its value in the channel. *)
Inductive timer := TStopped | TArmed | TFired.

(** The variables of the loop. *)
Record svars := mkSV { sv_count : Z; sv_got : Z; sv_active : bool }.

(** At the select; inside [Enter]; at [<-timer.C] after done; returned. *)
Inductive spc :=
| SSelect (v : svars)
| SEnter (v : svars) (p : prog Mem (Z * err))
| SDrain
| SReturned.

(** [timer.Stop()] reports whether it stopped a running timer. *)
Definition timer_stop (t : timer) : bool * timer :=
  match t with TArmed => (true, TStopped) | _ => (false, t) end.

Section Run.
Context `{K : Kernel} (fuel : nat).

(** The call at the label [enter]. *)
Definition enter_again (v : svars) : spc :=
  SEnter v (Ring_Enter fuel (u64 (sv_count v)) 0 EnterGetEvents).

(** What follows the call: an error goes back to the select; fewer entries than
    requests enter again; otherwise the batch is done. *)
Definition after_enter (v : svars) (r : Z * err) : spc :=
  match r with
  | (_, Some _) => SSelect v
  | (n, None) =>
      let seen := i64 (sv_got v + n) in
      if seen <? sv_count v then enter_again (mkSV (sv_count v) seen (sv_active v))
      else SSelect (mkSV 0 0 false)
  end.

(** [case <-s.work]: the timer and the variables. *)
Definition on_work (t : timer) (v : svars) : timer * svars :=
  let '(t, active) := if negb (sv_active v) then (TArmed, true) else (t, sv_active v) in
  (t, mkSV (i64 (sv_count v + 1)) (sv_got v) active).

(** [ringSubmitter.run], from its select on: the preamble stops the new timer
    and drains it, so the loop starts with [TStopped]. *)
Inductive bstep : spc * timer * Mem -> spc * timer * Mem -> Prop :=
| bstep_expire pc m :
    bstep (pc, TArmed, m) (pc, TFired, m)
| bstep_fire v m :
    bstep (SSelect v, TFired, m) (enter_again v, TStopped, m)
| bstep_act v X f k x t m m' :
    f m = (x, m') -> bstep (SEnter v (Step X f k), t, m) (SEnter v (k x), t, m')
| bstep_entered v r t m :
    bstep (SEnter v (Ret r), t, m) (after_enter v r, t, m)
| bstep_work v t m s n :
    r_submitter (m_ring m) = Some s -> rs_work s = S n ->
    bstep (SSelect v, t, m)
      (SSelect (on_work t v).2, (on_work t v).1, upd_ring (set_r_submitter (Some (set_rs_work n s))) m)
| bstep_done v t m s n :
    r_submitter (m_ring m) = Some s -> rs_done s = S n ->
    bstep (SSelect v, t, m)
      (if (timer_stop t).1 then SReturned else SDrain, (timer_stop t).2,
       upd_ring (set_r_submitter (Some (set_rs_done n s))) m)
| bstep_drain m :
    bstep (SDrain, TFired, m) (SReturned, TStopped, m)
| bstep_other pc t m m' : bstep (pc, t, m) (pc, t, m').

(** The state at the start of the loop. *)
Definition submitter_start (m : Mem) : spc * timer * Mem := (SSelect (mkSV 0 0 false), TStopped, m).

(** ** Batching *)

(** A batch is waiting for the timer exactly when the timer is active; and
    nothing is counted without it. *)
Definition batch_ok (s : spc * timer * Mem) : Prop :=
  let '(pc, t, _) := s in
  match pc with
  | SSelect v => (sv_active v = true -> t = TArmed \/ t = TFired) /\
                 (sv_active v = false -> sv_count v = 0 /\ t = TStopped)
  | SEnter v p => t = TStopped /\ returns p (fun r => snd r = None)
  | SDrain | SReturned => True
  end.

Lemma enter_result_ok r : sys_errno r = 0 -> snd (enter_result r) = None.
Proof. intros H. unfold enter_result. by rewrite H. Qed.

(** When io_uring_enter does not fail, [Ring.Enter] returns no error. *)
Lemma returns_Ring_Enter a b fl :
  (forall h c, sys_errno (k_answer h c) = 0) ->
  returns (Ring_Enter fuel a b fl) (fun r => snd r = None).
Proof.
  intros HK. unfold Ring_Enter.
  eapply returns_bind; [apply returns_true|]. intros wake _.
  eapply returns_bind; [apply returns_true|]. intros [] _.
  eapply returns_bind; [apply returns_true|]. intros fd _.
  eapply (returns_bind _ _ (fun r => snd r = None)).
  - unfold Enter, syscall_enter.
    eapply (returns_bind _ _ (fun r => sys_errno r = 0)).
    + eapply returns_bind; [apply returns_true|]. intros [] _. intros m. cbn. apply HK.
    + intros r Hr. rewrite Hr. cbn.
      destruct (Z.ltb_spec (sys_r1 r) 0); [|done].
      exfalso. pose proof (uwrap_nonneg 64 (raw_r1 r)). unfold sys_r1 in *. lia.
  - intros r Hr. eapply returns_bind; [apply returns_true|]. intros [] _. exact Hr.
Qed.

Lemma batch_step s s' :
  (forall h c, sys_errno (k_answer h c) = 0) ->
  bstep s s' -> batch_ok s -> batch_ok s'.
Proof.
  intros HK. destruct 1 as [pc m|v m|v X f k x t m m' Hf|v r t m|v t m s n Hs Hw|v t m s n Hs Hd|m|pc t m m'];
    cbn; try done.
  - destruct pc as [v|v p| |]; cbn; [|by intros []|done|done].
    intros [H1 H2]. split; [auto|]. intros Ha. by destruct (H2 Ha).
  - intros _. split; [done|]. by apply returns_Ring_Enter.
  - intros [Ht Hr]. split; [done|]. specialize (Hr m). by rewrite Hf in Hr.
  - intros [-> Hr]. destruct r as [n [e|]]; cbn in Hr; [done|]. cbn.
    destruct (_ <? _); cbn; [|done]. split; [done|]. by apply returns_Ring_Enter.
  - unfold on_work. destruct (sv_active v); cbn; intros [H1 _]; (split; [|done]); auto.
  - intros _. by destruct (timer_stop t).1.
Qed.

Lemma batch_steps s s' :
  (forall h c, sys_errno (k_answer h c) = 0) ->
  rtc bstep s s' -> batch_ok s -> batch_ok s'.
Proof. intros HK. induction 1; eauto using batch_step. Qed.

(** ** After an error *)

(** The timer counts as active and is not running. *)
Definition wedged (s : spc * timer * Mem) : Prop :=
  let '(pc, t, _) := s in
  match pc with
  | SSelect v => sv_active v = true /\ t = TStopped
  | SDrain => t = TStopped
  | _ => False
  end.

Lemma wedged_step s s' : bstep s s' -> wedged s -> wedged s'.
Proof.
  destruct 1 as [pc m|v m|v X f k x t m m' Hf|v r t m|v t m s n Hs Hw|v t m s n Hs Hd|m|pc t m m'];
    cbn; try done.
  - destruct pc; cbn; naive_solver.
  - naive_solver.
  - unfold on_work. intros [-> ->]. done.
  - intros [_ ->]. done.
Qed.

Lemma wedged_steps s s' : rtc bstep s s' -> wedged s -> wedged s'.
Proof. induction 1; eauto using wedged_step. Qed.
End Run.

(** C38. No request waits without a timer: as long as io_uring_enter does not fail,
    in every state the goroutine can reach with requests counted it is inside
    [Enter], or the timer runs or has expired, so that it will enter. *)
Theorem submitter_flushes {K : Kernel} (fuel : nat) (m : Mem) (s : spc * timer * Mem)
    (HK : forall h c, sys_errno (k_answer h c) = 0)
    (Hs : rtc (bstep fuel) (submitter_start m) s) :
  match s with
  | (SSelect v, t, _) => sv_count v <> 0 -> t = TArmed \/ t = TFired
  | _ => True
  end.
Proof.
  apply batch_steps in Hs; [|done|by split]. destruct s as [[pc t] m'].
  destruct pc as [v| | |]; try done. cbn in Hs. destruct Hs as [H1 H2]. intros Hc.
  destruct (sv_active v); [auto|]. by destruct H2.
Qed.

Lemma submitter_flushes_witness :
  let K := still_kernel 1 0 in
  let m := upd_ring (set_r_submitter (Some (mkSubmitter 0 1 1000))) sample_mem in
  let m' := upd_ring (set_r_submitter (Some (mkSubmitter 0 0 1000))) m in
  rtc (bstep 1) (submitter_start m) (SSelect (mkSV 1 0 true), TArmed, m') /\
  (1 <> 0 -> TArmed = TArmed \/ TArmed = TFired).
Proof.
  intros K m m'.
  assert (rtc (bstep 1) (submitter_start m) (SSelect (mkSV 1 0 true), TArmed, m')) as Hs.
  { apply rtc_once. exact (bstep_work 1 (mkSV 0 0 false) TStopped m (mkSubmitter 0 1 1000) 0 eq_refl eq_refl). }
  split; [exact Hs|].
  refine (submitter_flushes 1 m (SSelect (mkSV 1 0 true), TArmed, m') _ Hs). intros h c. reflexivity.
Defined.

Section Wedge.
Context {K : Kernel} (fuel : nat).

Lemma enter_runs v (p : prog Mem (Z * err)) t m r m' :
  runs p m r m' -> rtc (bstep fuel) (SEnter v p, t, m) (SEnter v (Ret r), t, m').
Proof.
  intros Hr. destruct (Hr 0%nat) as [n' H]. clear Hr. revert H. generalize 0%nat as n. revert m.
  induction p as [b|X f g IH|s|]; intros m n H; cbn in H; try done.
  - injection H as -> -> <-. done.
  - unfold quiet in H at 1. destruct (f m) as [x m1] eqn:E.
    eapply rtc_l; [by apply bstep_act|]. by apply (IH x) with (n := S n).
Qed.
End Wedge.

(** One failed io_uring_enter stops the submitter for good: the error path
    goes back to the select with the timer counted as active although it has
    expired, so no later request arms it again.  From such a state the
    goroutine never enters the ring again, however many requests arrive. *)
Theorem submitter_stuck_after_error {K : Kernel} (fuel : nat) (m : Mem) (q : SubmitQueue)
    (s : ringSubmitter) (n : nat)
    (HK : forall h c, sys_errno (k_answer h c) <> 0)
    (Hs : r_submitter (m_ring m) = Some s) (Hw : rs_work s = S n)
    (Hq : m_sq m = Some q) (He : sq_entered q = 0) :
  exists b, rtc (bstep (S fuel)) (submitter_start m) b /\
    forall b', rtc (bstep (S fuel)) b b' ->
      match b' with (SEnter _ _, _, _) | (SReturned, _, _) => False | _ => True end.
Proof.
  set (m1 := upd_ring (set_r_submitter (Some (set_rs_work n s))) m).
  set (v := mkSV (i64 1) 0 true).
  set (r := k_answer (m_hist m1) (enter_call m1 q (u64 (sv_count v)) 0 EnterGetEvents)).
  exists (SSelect v, TStopped, entered_mem m1 q (u64 (sv_count v)) 0 EnterGetEvents). split.
  - eapply rtc_l; [by eapply bstep_work|]. cbn [on_work sv_active negb].
    eapply rtc_l; [apply bstep_expire|]. eapply rtc_l; [apply bstep_fire|].
    etrans; [apply enter_runs; by apply runs_Ring_Enter|].
    eapply rtc_l; [apply bstep_entered|]. fold v. fold r. unfold enter_result.
    rewrite (proj2 (Z.eqb_neq _ _)) by apply HK. done.
  - intros [[pc t] m'] Hb. apply wedged_steps in Hb; [|done]. by destruct pc.
Qed.

Lemma submitter_stuck_after_error_witness :
  let K := still_kernel 0 11 in
  let m := upd_ring (set_r_submitter (Some (mkSubmitter 0 1 1000))) sample_mem in
  exists b, rtc (bstep 1) (submitter_start m) b /\
    forall b', rtc (bstep 1) b b' ->
      match b' with (SEnter _ _, _, _) | (SReturned, _, _) => False | _ => True end.
Proof.
  intros K m. apply (submitter_stuck_after_error 0 m sample_sq (mkSubmitter 0 1 1000) 0);
    [intros h c; vm_compute; discriminate|reflexivity..].
Defined.

(** Stopping an idle submitter leaves its goroutine behind: with the timer not
    running, the goroutine waits on the timer channel and never returns. *)
Theorem submitter_stop_leaks {K : Kernel} (fuel : nat) (m : Mem) (s : ringSubmitter) (n : nat)
    (Hs : r_submitter (m_ring m) = Some s) (Hd : rs_done s = S n) :
  exists b, bstep fuel (submitter_start m) b /\
    forall b', rtc (bstep fuel) b b' -> exists m', b' = (SDrain, TStopped, m').
Proof.
  eexists. split; [by eapply bstep_done|]. cbn. generalize (upd_ring (set_r_submitter (Some (set_rs_done n s))) m).
  clear. intros m b' Hb. remember (SDrain, TStopped, m) as b eqn:E. revert m E.
  induction Hb as [|b1 b2 b3 Hb _ IH]; intros m ->; [eauto|].
  inversion Hb; subst. by eapply IH.
Qed.

Lemma submitter_stop_leaks_witness :
  let K := still_kernel 1 0 in
  let m := upd_ring (set_r_submitter (Some (mkSubmitter 1 0 1000))) sample_mem in
  exists b, bstep 1 (submitter_start m) b /\
    forall b', rtc (bstep 1) b b' -> exists m', b' = (SDrain, TStopped, m').
Proof.
  intros K m. apply (submitter_stop_leaks 1 m (mkSubmitter 1 0 1000) 0); reflexivity.
Defined.
