(* ===== verification/Register.v ===== *)
(** * Registration (register.go)

    The io_uring_register calls, and the file registry that hands out the offsets
    of registered files. *)

From stdpp Require Import base list gmap strings pretty.
From Stdlib Require Import ZArith Lia.
From S2P Require Import Prelude Prog Consts Types Machine Samples Ops.

(** ** The register calls *)

Section Calls.
Context `{K : Kernel}.

(** The call and the test of its error number, which all of them share: [errno]
    is a [syscall.Errno], an unsigned word. *)
Definition register_call (fd opcode : Z) (args : list Z) (nr : Z) : prog Mem err :=
  r ← syscall (SysRegister (u64 fd) (u64 opcode) args (u64 nr));
  if sys_errno r <? 0 then Ret (Some (Errno (sys_errno r))) else Ret None.

(** [&s[0]] of a slice: a panic when it is empty. *)
Definition first_of (s : list Z) : prog Mem (list Z) :=
  match s with [] => Panic index_msg | _ => Ret s end.

Definition RegisterEventFd (ringFd fd : Z) : prog Mem err :=
  register_call ringFd RegRegisterEventFd [u64 fd] 1.
Definition RegisterEventFdAsync (ringFd fd : Z) : prog Mem err :=
  register_call ringFd RegRegisterEventFdAsync [u64 fd] 1.
Definition UnregisterEventFd (ringFd fd : Z) : prog Mem err :=
  register_call ringFd RegRegisterEventFd [0] 0.
Definition RegisterBuffers (fd : Z) (vecs : list Z) : prog Mem err :=
  args ← first_of vecs; register_call fd RegRegisterBuffers args (len vecs).
Definition UnregisterBuffers (fd : Z) (vecs : list Z) : prog Mem err :=
  args ← first_of vecs; register_call fd RegUnregisterBuffers args (len vecs).
Definition RegisterFiles (fd : Z) (files : list Z) : prog Mem err :=
  args ← first_of files; register_call fd RegRegisterFiles args (len files).
Definition UnregisterFiles (fd : Z) (files : list Z) : prog Mem err :=
  args ← first_of files; register_call fd RegUnregisterFiles args (len files).
Definition ReregisterFiles (fd : Z) (files : list Z) : prog Mem err :=
  args ← first_of files; register_call fd RegRegisterFilesUpdate args (len files).

(** ** The file registry *)

(** [NewFileRegistry]. *)
Definition NewFileRegistry (ringFd : Z) : fileRegistry := mkReg ringFd [] ∅.

Definition slice_msg : string := "slice bounds out of range".

(** An access to the registry, which holds its mutex: one action. *)
Definition reg_act {A} (msg : string) (f : fileRegistry -> option (A * fileRegistry)) : prog Mem A :=
  try_act msg (fun m => reg ← r_fileReg (m_ring m);
    '(a, reg') ← f reg; Some (a, upd_ring (set_r_fileReg (Some reg')) m)).

(** [fileRegistry.Register]. *)
Definition fileRegistry_Register (fd : Z) : prog Mem err :=
  '(ringFd, f) ← reg_act nil_msg (fun reg =>
    let f := reg_f reg ++ [fd] in
    let id := len f - 1 in
    let fID := <[fd := id]> (reg_fID reg) in
    let fID := if id <? 0 then <[fd := 0]> fID else fID in
    Some ((reg_ringFd reg, f), mkReg (reg_ringFd reg) f fID));
  ReregisterFiles ringFd f.

(** [fileRegistry.Unregister]: [append(r.f[:id], r.f[id+1:]...)] panics unless
    [id+1] is at most the length. *)
Definition fileRegistry_Unregister (fd : Z) : prog Mem err :=
  r ← reg_act slice_msg (fun reg =>
    match reg_fID reg !! fd with
    | None => Some (None, reg)
    | Some id =>
        if bool_decide (0 <= id /\ id + 1 <= len (reg_f reg)) then
          let f := take (Z.to_nat id) (reg_f reg) ++ drop (Z.to_nat (id + 1)) (reg_f reg) in
          Some (Some (reg_ringFd reg, f), mkReg (reg_ringFd reg) f (reg_fID reg))
        else None
    end);
  match r with
  | None => Ret (Some (ErrMsg ("fd " +:+ pretty fd +:+ " not registered")))
  | Some (ringFd, f) => UnregisterFiles ringFd f
  end.

(** [fileRegistry.ID]: the offset (zero when there is none) and whether there is
    one. *)
Definition fileRegistry_ID (fd : Z) : prog Mem (Z * bool) :=
  reg_act nil_msg (fun reg =>
    match reg_fID reg !! fd with
    | Some id => Some ((id, true), reg)
    | None => Some ((0, false), reg)
    end).

(** A sequence of registrations, whatever they return, and what they return. *)
Fixpoint register_all (fds : list Z) : prog Mem (list err) :=
  match fds with
  | [] => Ret []
  | fd :: fds => e ← fileRegistry_Register fd; es ← register_all fds; Ret (e :: es)
  end.

(** ** Properties *)

(** Every offset the registry hands out is the place of that file. *)
Definition reg_ok (reg : fileRegistry) : Prop :=
  forall fd id, reg_fID reg !! fd = Some id -> slice_get (reg_f reg) id = Some fd.

Lemma returns_register_call fd opcode args nr :
  returns (register_call fd opcode args nr) (fun e => e = None).
Proof.
  unfold register_call. eapply returns_bind; [apply returns_true|]. intros r _.
  destruct (Z.ltb_spec (sys_errno r) 0); [|done]. exfalso.
  pose proof (uwrap_nonneg 64 (raw_errno r)). unfold sys_errno in *. lia.
Qed.

Lemma first_of_nonempty s : s <> [] -> first_of s = Ret s.
Proof. by destruct s. Qed.

Lemma returns_with_first s fd opcode nr :
  returns (args ← first_of s; register_call fd opcode args nr) (fun e => e = None).
Proof.
  destruct s; [done|]. cbn. apply returns_register_call.
Qed.

Definition registered (reg : fileRegistry) (fd : Z) : fileRegistry :=
  mkReg (reg_ringFd reg) (reg_f reg ++ [fd]) (<[fd := len (reg_f reg)]> (reg_fID reg)).

Lemma runs_register_call fd opcode args nr m :
  exists m', runs (register_call fd opcode args nr) m None m' /\ m_ring m' = m_ring m /\
    m_hist m' = (SysRegister (u64 fd) (u64 opcode) args (u64 nr),
       k_answer (m_hist m) (SysRegister (u64 fd) (u64 opcode) args (u64 nr))) :: m_hist m.
Proof.
  eexists. split; [|split].
  - unfold register_call. eapply runs_bind; [by apply runs_act|].
    destruct (Z.ltb_spec (sys_errno (k_answer (m_hist m)
      (SysRegister (u64 fd) (u64 opcode) args (u64 nr)))) 0); [|apply runs_ret].
    exfalso. pose proof (uwrap_nonneg 64 (raw_errno (k_answer (m_hist m)
      (SysRegister (u64 fd) (u64 opcode) args (u64 nr))))). unfold sys_errno in *. lia.
  - done.
  - done.
Qed.

(** The call that tells the kernel a table of files. *)
Definition update_call (ringFd : Z) (f : list Z) : Syscall :=
  SysRegister (u64 ringFd) (u64 RegRegisterFilesUpdate) f (u64 (len f)).

(** The calls of the registrations of [fds] after those of [f], the last one
    first. *)
Fixpoint update_calls (ringFd : Z) (f fds : list Z) : list Syscall :=
  match fds with
  | [] => []
  | fd :: fds => update_calls ringFd (f ++ [fd]) fds ++ [update_call ringFd (f ++ [fd])]
  end.

Lemma runs_Register fd m reg :
  r_fileReg (m_ring m) = Some reg ->
  exists m', runs (fileRegistry_Register fd) m None m' /\
    r_fileReg (m_ring m') = Some (registered reg fd) /\
    (m_hist m').*1 = update_call (reg_ringFd reg) (reg_f reg ++ [fd]) :: (m_hist m).*1.
Proof.
  intros Hreg.
  assert (len (reg_f reg ++ [fd]) - 1 = len (reg_f reg)) as Hlen by (unfold len; rewrite length_app; cbn; lia).
  destruct (runs_register_call (reg_ringFd reg) RegRegisterFilesUpdate (reg_f reg ++ [fd])
    (len (reg_f reg ++ [fd])) (upd_ring (set_r_fileReg (Some (registered reg fd))) m))
    as (m' & Hrun & Hring & Hhist).
  exists m'. split; [|split; [by rewrite Hring|by rewrite Hhist]].
  unfold fileRegistry_Register. eapply runs_bind.
  - apply runs_try_act. rewrite Hreg. cbn -[len]. rewrite Hlen.
    rewrite (proj2 (Z.ltb_ge _ _)) by apply len_nonneg. reflexivity.
  - cbn beta iota. unfold ReregisterFiles. rewrite first_of_nonempty by by destruct (reg_f reg).
    exact Hrun.
Qed.

Lemma registered_ok reg fd : reg_ok reg -> reg_ok (registered reg fd).
Proof.
  intros Hok fd' id. cbn. rewrite lookup_insert. case_decide as E.
  - intros [= <-]. subst. unfold slice_get. rewrite bool_decide_true by apply len_nonneg.
    unfold len. by rewrite Nat2Z.id, list_lookup_middle.
  - intros Hid. apply Hok, slice_get_Some in Hid as [Hr Hid].
    unfold slice_get. rewrite bool_decide_true by lia. by apply lookup_app_l_Some.
Qed.

Lemma runs_register_all fds : forall m reg,
  r_fileReg (m_ring m) = Some reg -> reg_ok reg ->
  exists m' reg', runs (register_all fds) m (replicate (length fds) None) m' /\
    r_fileReg (m_ring m') = Some reg' /\ reg_ok reg' /\ reg_f reg' = reg_f reg ++ fds /\
    (m_hist m').*1 = update_calls (reg_ringFd reg) (reg_f reg) fds ++ (m_hist m).*1 /\
    forall fd, fd ∈ fds \/ is_Some (reg_fID reg !! fd) -> is_Some (reg_fID reg' !! fd).
Proof.
  induction fds as [|fd fds IH]; intros m reg Hreg Hok.
  - exists m, reg. split_and!; [apply runs_ret|done|done|by rewrite app_nil_r|done|].
    intros fd [Hin|]; [by apply elem_of_nil in Hin|done].
  - destruct (runs_Register fd m reg Hreg) as (m1 & H1 & Hreg1 & Hh1).
    destruct (IH m1 _ Hreg1 (registered_ok reg fd Hok)) as (m' & reg' & H2 & Hreg' & Hok' & Hf & Hh & Hid).
    exists m', reg'. split_and!; [|done|done|by rewrite Hf; cbn; rewrite <- app_assoc| |].
    { eapply runs_bind; [exact H1|]. eapply runs_bind; [exact H2|]. apply runs_ret. }
    { rewrite Hh, Hh1. cbn [registered reg_ringFd reg_f update_calls]. by rewrite <- app_assoc. }
    intros fd' Hin. apply Hid. cbn. rewrite lookup_insert. case_decide; [by right|].
    rewrite elem_of_cons in Hin. naive_solver.
Qed.
End Calls.

(** The register calls never report a failure: [errno] is unsigned and never
    less than zero, so whatever the kernel answers the result is nil. *)
Theorem register_never_fails {K : Kernel} (fd a : Z) (s : list Z) :
  Forall (fun p => returns p (fun e => e = None))
    [RegisterEventFd fd a; RegisterEventFdAsync fd a; UnregisterEventFd fd a;
     RegisterBuffers fd s; UnregisterBuffers fd s;
     RegisterFiles fd s; UnregisterFiles fd s; ReregisterFiles fd s].
Proof.
  repeat constructor; (apply returns_register_call || apply returns_with_first).
Qed.

(** [UnregisterEventFd] makes the call that registers: its opcode is the one of
    [RegisterEventFd], with no descriptor. *)
Theorem UnregisterEventFd_registers {K : Kernel} (ringFd fd : Z) (m : Mem) :
  exists m' r, runs (UnregisterEventFd ringFd fd) m None m' /\
    m_hist m' = (SysRegister (u64 ringFd) RegRegisterEventFd [0] 0, r) :: m_hist m.
Proof.
  destruct (runs_register_call ringFd RegRegisterEventFd [0] 0 m) as (m' & H & _ & Hh).
  eauto.
Qed.

(** C39. Registrations from an empty registry keep the offsets right, whatever the
    kernel answers.  Each one makes one call of io_uring_register with the table of
    the files so far, and returns nil: not because the call succeeded, but because
    the error number is unsigned and is tested for being less than zero, so that a
    file the kernel refused is registered all the same.  In the registry the files
    are in the order of registration, every one of them has an offset, and each
    offset is the place of its file (also when a file is registered twice). *)
Theorem registry_offsets {K : Kernel} (ringFd : Z) (fds : list Z) (m : Mem)
    (Hm : r_fileReg (m_ring m) = Some (NewFileRegistry ringFd)) :
  exists m' reg, runs (register_all fds) m (replicate (length fds) None) m' /\
    (m_hist m').*1 = update_calls ringFd [] fds ++ (m_hist m).*1 /\
    r_fileReg (m_ring m') = Some reg /\ reg_f reg = fds /\
    forall fd, fd ∈ fds -> exists id, runs (fileRegistry_ID fd) m' (id, true) m' /\
      slice_get fds id = Some fd.
Proof.
  destruct (runs_register_all fds m _ Hm) as (m' & reg & Hrun & Hreg & Hok & Hf & Hh & Hid).
  { intros fd id H. done. }
  exists m', reg. split_and!; [done|done|done|done|]. intros fd Hin.
  destruct (Hid fd) as [id Hlk]; [by left|]. exists id. split.
  - eapply runs_eq; [apply runs_try_act; rewrite Hreg; cbn; rewrite Hlk; reflexivity|done|].
    cbn. rewrite <- Hreg. by destruct m' as [[]].
  - cbn in Hf. rewrite <- Hf. by apply Hok.
Qed.

Definition registry_mem : Mem :=
  upd_ring (set_r_fileReg (Some (NewFileRegistry 5))) sample_mem.

(** The kernel refuses every call, with EBADF. *)
Lemma registry_offsets_witness :
  let K := still_kernel (-1) 9 in
  exists m' reg, runs (register_all [10; 11; 10]) registry_mem [None; None; None] m' /\
    (m_hist m').*1 = [SysRegister 5 6 [10; 11; 10] 3; SysRegister 5 6 [10; 11] 2; SysRegister 5 6 [10] 1] /\
    r_fileReg (m_ring m') = Some reg /\ reg_f reg = [10; 11; 10] /\
    forall fd, fd ∈ [10; 11; 10] -> exists id, runs (fileRegistry_ID fd) m' (id, true) m' /\
      slice_get [10; 11; 10] id = Some fd.
Proof. intros K. apply (registry_offsets 5 [10; 11; 10] registry_mem). reflexivity. Defined.

(** [Unregister] leaves the offsets of the files behind: after two files are
    registered and the first one is unregistered (which the kernel is told with
    a nil error), the second one still has offset 1 in a table of one file, and
    unregistering it panics; and the only file of a registry cannot be
    unregistered without a panic either. *)
Theorem registry_unregister {K : Kernel} (ringFd a b : Z) (m m0 : Mem) (Hab : a <> b)
    (Hm : r_fileReg (m_ring m) = Some (registered (registered (NewFileRegistry ringFd) a) b))
    (Hm0 : r_fileReg (m_ring m0) = Some (registered (NewFileRegistry ringFd) a)) :
  (exists m', runs (fileRegistry_Unregister a) m None m' /\
     runs (fileRegistry_ID b) m' (1, true) m' /\
     (reg_f <$> r_fileReg (m_ring m')) = Some [b] /\
     run quiet (fileRegistry_Unregister b) 0 m' = Panicked slice_msg m') /\
  exists m1, run quiet (fileRegistry_Unregister a) 0 m0 = Panicked index_msg m1.
Proof.
  set (fid := <[b := 1]> (<[a := 0]> ∅) : gmap Z Z).
  assert (fid !! a = Some 0) as Ha by (unfold fid; by rewrite lookup_insert_ne, lookup_insert_eq).
  assert (fid !! b = Some 1) as Hb by apply lookup_insert_eq.
  change (r_fileReg (m_ring m) = Some (mkReg ringFd [a; b] fid)) in Hm. clearbody fid.
  split.
  - set (reg1 := mkReg ringFd [b] fid).
    destruct (runs_register_call ringFd RegUnregisterFiles [b] 1
      (upd_ring (set_r_fileReg (Some reg1)) m)) as (m' & Hrun & Hring & _).
    assert (r_fileReg (m_ring m') = Some reg1) as Hreg by (by rewrite Hring).
    exists m'. split_and!.
    + eapply runs_bind; [apply runs_try_act; rewrite Hm; cbn; rewrite Ha; reflexivity|].
      exact Hrun.
    + eapply runs_eq; [apply runs_try_act; rewrite Hreg; cbn; rewrite Hb; reflexivity|done|].
      cbn. rewrite <- Hreg. by destruct m' as [[]].
    + by rewrite Hreg.
    + unfold fileRegistry_Unregister. rewrite run_bind. unfold reg_act. rewrite run_try_act.
      unfold quiet. rewrite Hreg. cbn. by rewrite Hb.
  - unfold fileRegistry_Unregister. eexists. rewrite run_bind. unfold reg_act. rewrite run_try_act.
    unfold quiet at 1 2. rewrite Hm0. cbn. rewrite lookup_insert_eq. reflexivity.
Qed.

Lemma registry_unregister_witness :
  let K := still_kernel 0 0 in
  let reg := registered (NewFileRegistry 5) 10 in
  let m0 := upd_ring (set_r_fileReg (Some reg)) sample_mem in
  let m := upd_ring (set_r_fileReg (Some (registered reg 11))) sample_mem in
  (exists m', runs (fileRegistry_Unregister 10) m None m' /\
     runs (fileRegistry_ID 11) m' (1, true) m' /\
     (reg_f <$> r_fileReg (m_ring m')) = Some [11] /\
     run quiet (fileRegistry_Unregister 11) 0 m' = Panicked slice_msg m') /\
  exists m1, run quiet (fileRegistry_Unregister 10) 0 m0 = Panicked index_msg m1.
Proof.
  intros K reg m0 m. apply (registry_unregister 5 10 11 m m0); [discriminate|reflexivity..].
Defined.
