(* ===== verification/Setup.v ===== *)
(** * Creating and stopping a ring (uring_setup.go, ring.go, ring_option.go)

    [Setup] and [MmapRing], [New] with its options, and [Stop].  [MmapRing]
    computes addresses; [attach] reads the queues at those addresses, which is
    what the pointers it stores mean for the rest of the development. *)

From stdpp Require Import base list gmap strings.
From Stdlib Require Import ZArith Lia.
From S2P Require Import Prelude Prog Consts Types Machine Samples Ops Completer Submitter Register.

(** ** Setup and MmapRing *)

(** [uint32Size], [cqeSize], [sqeSize]. *)
Definition uint32Size : Z := sizeof TU32.
Definition cqeSize : Z := sizeof (TStruct CompletionEntry_fields).
Definition sqeSize : Z := sizeof (TStruct SubmitEntry_fields).

(** Readable and writable, shared and populated: constants of package syscall. *)
Definition mmap_prot : Z := Z.lor 1 2.
Definition mmap_flags : Z := Z.lor 1 32768.

(** The queues as [MmapRing] leaves them: sizes, and addresses for the pointers
    and the slices. *)
Record SQMap := mkSQMap {
  sm_Size : Z; sm_ptr : Z; sm_Head : Z; sm_Tail : Z; sm_Mask : Z; sm_Flags : Z; sm_Dropped : Z;
  sm_Entries : slice; sm_Array : slice
}.
Record CQMap := mkCQMap {
  cm_Size : Z; cm_ptr : Z; cm_Head : Z; cm_Tail : Z; cm_Mask : Z; cm_Overflow : Z; cm_Flags : Z;
  cm_Entries : slice
}.

(** A nil slice, and the zero queues. *)
Definition nil_slice : slice := mkSlice 0 0 0.
Definition zeroSQMap : SQMap := mkSQMap 0 0 0 0 0 0 0 nil_slice nil_slice.
Definition zeroCQMap : CQMap := mkCQMap 0 0 0 0 0 0 0 nil_slice.

(** The two sizes, and whether one mapping holds both rings. *)
Definition singleMmap (p : Params) : bool := negb (Z.land (p_Flags p) FeatSingleMmap =? 0).
Definition ring_sizes (p : Params) : Z * Z :=
  let sqSize := u32 (u64 (so_Array (p_SqOffset p) + u64 (p_SqEntries p * uint32Size))) in
  let cqSize := u32 (u64 (co_Cqes (p_CqOffset p) + u64 (p_CqEntries p * cqeSize))) in
  if singleMmap p then (if sqSize <? cqSize then (cqSize, cqSize) else (sqSize, sqSize))
  else (sqSize, cqSize).

(** Where the parts of the rings are. *)
Definition sq_map (p : Params) (size sqPtr sqePtr : Z) : SQMap :=
  let o := p_SqOffset p in
  let n := i64 (p_SqEntries p) in
  mkSQMap size sqPtr (u64 (sqPtr + so_Head o)) (u64 (sqPtr + so_Tail o)) (u64 (sqPtr + so_RingMask o))
    (u64 (sqPtr + so_Flags o)) (u64 (sqPtr + so_Dropped o))
    (mkSlice sqePtr n n) (mkSlice (u64 (sqPtr + so_Array o)) n n).
Definition cq_map (p : Params) (size cqPtr ptr : Z) : CQMap :=
  let o := p_CqOffset p in
  let n := i64 (p_CqEntries p) in
  mkCQMap size ptr (u64 (cqPtr + co_Head o)) (u64 (cqPtr + co_Tail o)) (u64 (cqPtr + co_RingMask o))
    (u64 (cqPtr + co_Overflow o)) (u64 (cqPtr + co_Flags o))
    (mkSlice (u64 (cqPtr + co_Cqes o)) n n).

Section Setup.
Context `{K : Kernel}.

(** [Setup]: on success the kernel has filled in the parameters. *)
Definition Setup (entries : Z) (params : Params) : prog Mem (Params * (Z * err)) :=
  '(r, params') ← act (fun m =>
    let c := SysSetup (u64 entries) params in
    let r := k_answer (m_hist m) c in
    let params' := if sys_errno r =? 0 then k_params (m_hist m) (u64 entries) params else params in
    ((r, params'), set_m_hist ((c, r) :: m_hist m) m));
  if negb (sys_errno r =? 0) then Ret (params', (0, Some (Errno (sys_errno r))))
  else Ret (params', (i64 (sys_r1 r), None)).

(** [MmapRing]: the queues it leaves, also on the error returns, and the error.
    It does not set [cq.ptr]. *)
Definition MmapRing (fd : Z) (p : Params) (sq : SQMap) (cq : CQMap)
  : prog Mem (SQMap * CQMap * err) :=
  let '(sqSize, cqSize) := ring_sizes p in
  let sq := mkSQMap sqSize (sm_ptr sq) (sm_Head sq) (sm_Tail sq) (sm_Mask sq) (sm_Flags sq)
              (sm_Dropped sq) (sm_Entries sq) (sm_Array sq) in
  let cq := mkCQMap cqSize (cm_ptr cq) (cm_Head cq) (cm_Tail cq) (cm_Mask cq) (cm_Overflow cq)
              (cm_Flags cq) (cm_Entries cq) in
  r ← syscall (SysMmap 0 sqSize mmap_prot mmap_flags (u64 fd) SqRingOffset);
  if negb (sys_errno r =? 0) then
    Ret (sq, cq, Some (WrapErr (Errno (sys_errno r)) "failed to mmap sq ring"))
  else
    let sqPtr := sys_r1 r in
    r ← syscall (SysMmap 0 (u64 (p_SqEntries p * sqeSize)) mmap_prot mmap_flags (u64 fd) SqeRingOffset);
    let full := sq_map p sqSize sqPtr (sys_r1 r) in
    if sys_errno r <? 0 then
      Ret (mkSQMap sqSize sqPtr (sm_Head full) (sm_Tail full) (sm_Mask full) (sm_Flags full)
             (sm_Dropped full) (sm_Entries sq) (sm_Array sq), cq, Some (Errno (u64 (- sys_errno r))))
    else
      if singleMmap p then Ret (full, cq_map p cqSize sqPtr (cm_ptr cq), None)
      else
        r ← syscall (SysMmap 0 cqSize mmap_prot mmap_flags (u64 fd) CqRingOffset);
        if sys_errno r <? 0 then Ret (full, cq, Some (Errno (u64 (- sys_errno r))))
        else Ret (full, cq_map p cqSize (sys_r1 r) (cm_ptr cq), None).
End Setup.

(** ** The queues behind the pointers *)

Section Attach.
(** The contents of mapped memory: words, submission and completion entries. *)
Context (rd : Z -> Z) (rd_sqe : Z -> SubmitEntry_t) (rd_cqe : Z -> CompletionEntry).

(** The elements of a slice whose elements have the given size. *)
Definition elements {A} (f : Z -> A) (size : Z) (s : slice) : list A :=
  (fun i => f (sl_Data s + size * i)) <$> seqZ 0 (sl_Len s).

Definition attach_sq (s : SQMap) : SubmitQueue :=
  mkSQ (sm_Size s) (rd (sm_Head s)) (rd (sm_Tail s)) (rd (sm_Mask s)) (rd (sm_Flags s))
    (rd (sm_Dropped s)) (elements rd uint32Size (sm_Array s)) (elements rd_sqe sqeSize (sm_Entries s))
    (sm_ptr s) 0 0.
Definition attach_cq (c : CQMap) : CompletionQueue :=
  mkCQ (cm_Size c) (rd (cm_Head c)) (rd (cm_Tail c)) (rd (cm_Mask c)) (rd (cm_Overflow c))
    (rd (cm_Flags c)) (elements rd_cqe cqeSize (cm_Entries c)) (cm_ptr c).

(** ** Options *)

Inductive RingOption :=
| WithDebug
| WithEventFd (initval flags : Z) (async : bool)
| WithFileRegistry
| WithID (id : Z)
| WithEnterErrHandler (some : bool)
| WithDeadline (d : Z).

Section New.
Context `{K : Kernel}.

(** [unix.Eventfd]. *)
Definition Eventfd (initval flags : Z) : prog Mem (Z * err) :=
  r ← syscall (SysEventfd (u64 initval) (u64 flags));
  Ret (i64 (sys_r1 r), if sys_errno r =? 0 then None else Some (Errno (sys_errno r))).

Definition apply_option (o : RingOption) : prog Mem err :=
  match o with
  | WithDebug => ring_store (set_r_debug true);; Ret None
  | WithEventFd initval flags async =>
      '(fd, e) ← Eventfd initval flags;
      match e with
      | Some e => Ret (Some e)
      | None =>
          ring_store (set_r_eventFd fd);;
          ringFd ← ring_load r_fd;
          if async then RegisterEventFdAsync ringFd fd else RegisterEventFd ringFd fd
      end
  | WithFileRegistry => ring_store (fun r => set_r_fileReg (Some (NewFileRegistry (r_fd r))) r);; Ret None
  | WithID id => ring_store (set_r_idx (u64 id));; Ret None
  | WithEnterErrHandler some => ring_store (set_r_enterErrHandler some);; Ret None
  | WithDeadline d =>
      ring_store (set_r_deadline d);;
      ring_store (set_r_submitter (Some (newRingSubmitter d)));; Ret None
  end.

Fixpoint apply_options (opts : list RingOption) : prog Mem err :=
  match opts with
  | [] => Ret None
  | o :: opts =>
      e ← apply_option o;
      match e with Some e => Ret (Some e) | None => apply_options opts end
  end.

(** ** New *)

(** [&Params{}]. *)
Definition zeroParams : Params :=
  mkParams 0 0 0 0 0 0 0 [0; 0; 0] (mkSQOff 0 0 0 0 0 0 0 0 0) (mkCQOff 0 0 0 0 0 0 0 [0; 0]).

(** The composite literal. *)
Definition new_ring (fd : Z) (p : Params) (sq : SubmitQueue) (cq : CompletionQueue) : Ring :=
  mkRing fd p (Some cq) (newCompleter 512) (Some sq) 0 false None 0 false None 0 []
    (len (cq_Entries cq)) (-1) [].

(** [New]; the memory holds the new ring.  The goroutines it starts are the
    step relations of [Ring.run] and [completer.run]. *)
Definition New (size : Z) (p : option Params) (opts : list RingOption) : prog Mem err :=
  let p := match p with Some p => p | None => zeroParams end in
  '(p, (fd, e)) ← Setup size p;
  match e with
  | Some e => Ret (Some e)
  | None =>
      '(sq, cq, e) ← MmapRing fd p zeroSQMap zeroCQMap;
      match e with
      | Some e => Ret (Some e)
      | None =>
          ring_store (fun _ => new_ring fd p (attach_sq sq) (attach_cq cq));;
          apply_options opts
      end
  end.

(** ** Stop *)

Definition closeCq : prog Mem err :=
  o ← ring_load r_cq;
  match o with
  | None => Ret None
  | Some cq =>
      r ← syscall (SysMunmap (cq_ptr cq) (cq_Size cq));
      if negb (sys_errno r =? 0) then
        Ret (Some (WrapErr (Errno (sys_errno r)) "failed to munmap cq ring"))
      else ring_store (set_r_cq None);; Ret None
  end.

Definition closeSq : prog Mem err :=
  o ← ring_load r_sq;
  match o with
  | None => Ret None
  | Some sq =>
      r ← syscall (SysMunmap (sq_ptr sq) (sq_Size sq));
      if negb (sys_errno r =? 0) then
        Ret (Some (WrapErr (Errno (sys_errno r)) "failed to munmap sq ring"))
      else ring_store (set_r_sq None);; Ret None
  end.

(** [Ring.Stop]. *)
Definition Ring_Stop : prog Mem err :=
  e ← closeSq;
  match e with
  | Some e => Ret (Some e)
  | None =>
      flags ← ring_load (fun r => p_Flags (r_p r));
      e ← (if Z.land flags FeatSingleMmap =? 0 then closeCq else Ret None);
      match e with
      | Some e => Ret (Some e)
      | None =>
          s ← ring_load r_submitter;
          match s with Some _ => submitter_stop | None => Ret tt end;;
          fd ← ring_load r_fd;
          r ← syscall (SysClose (u64 fd));
          Ret (if sys_errno r =? 0 then None else Some (Errno (sys_errno r)))
      end
  end.
End New.
End Attach.
