(* ===== verification/SetupSpec.v ===== *)
(** * Properties of creating and stopping a ring

    The mappings of [MmapRing] and its errors, the ring [New] returns, and the calls of [Stop]. *)

From stdpp Require Import base list gmap strings.
From Stdlib Require Import ZArith Lia.
From S2P Require Import Prelude Prog Consts Types Machine Samples Ops Submission Ledger Setup.

(** [Reset] makes every field but the padding the initial one; on a whole queue it
    works on copies of the entries. *)
Lemma Reset_body_queue l : forall st, (foldl SubmitQueue_Reset_body st l).1 = st.1.
Proof.
  induction l as [|i l IH]; intros [s entry]; [done|]. cbn [foldl]. rewrite IH.
  unfold SubmitQueue_Reset_body. by destruct (sq_Entries s !! i).
Qed.

(** [SubmitQueue.Reset] resets nothing: its loop variable is a copy of each
    entry, so the queue is the same as before, whatever its entries hold. *)
Theorem SubmitQueue_Reset_no_effect (s : SubmitQueue) : SubmitQueue_Reset s = s.
Proof. unfold SubmitQueue_Reset. by rewrite Reset_body_queue. Qed.

(** ** Mappings *)

(** The answers to the three mmap calls of [MmapRing] after a history. *)
Section Mmap.
Context `{K : Kernel}.
Implicit Types (m : Mem) (p : Params).

Definition mmap1 m fd p : Syscall * SysRes :=
  let c := SysMmap 0 (ring_sizes p).1 mmap_prot mmap_flags (u64 fd) SqRingOffset in (c, k_answer (m_hist m) c).
Definition mmap2 m fd p : Syscall * SysRes :=
  let c := SysMmap 0 (u64 (p_SqEntries p * sqeSize)) mmap_prot mmap_flags (u64 fd) SqeRingOffset in
  (c, k_answer (mmap1 m fd p :: m_hist m) c).
Definition mmap3 m fd p : Syscall * SysRes :=
  let c := SysMmap 0 (ring_sizes p).2 mmap_prot mmap_flags (u64 fd) CqRingOffset in
  (c, k_answer (mmap2 m fd p :: mmap1 m fd p :: m_hist m) c).

(** The calls [MmapRing] makes, latest first, and where it thinks the completion
    ring is. *)
Definition mmap_calls m fd p : history :=
  if singleMmap p then [mmap2 m fd p; mmap1 m fd p]
  else [mmap3 m fd p; mmap2 m fd p; mmap1 m fd p].
Definition cq_addr m fd p : Z :=
  if singleMmap p then sys_r1 (mmap1 m fd p).2 else sys_r1 (mmap3 m fd p).2.

Lemma errno_nonneg r : (sys_errno r <? 0) = false.
Proof.
  apply Z.ltb_ge. apply uwrap_nonneg. lia.
Qed.

Lemma runs_MmapRing fd p sq cq m :
  sys_errno (mmap1 m fd p).2 = 0 ->
  runs (MmapRing fd p sq cq) m
    (sq_map p (ring_sizes p).1 (sys_r1 (mmap1 m fd p).2) (sys_r1 (mmap2 m fd p).2),
     cq_map p (ring_sizes p).2 (cq_addr m fd p) (cm_ptr cq), None)
    (set_m_hist (mmap_calls m fd p ++ m_hist m) m).
Proof.
  intros H1. unfold MmapRing, cq_addr, mmap_calls. unfold mmap3, mmap2, mmap1 in *.
  destruct (ring_sizes p) as [sqSize cqSize] eqn:Es. cbn [fst snd] in *.
  eapply runs_bind; [by apply runs_act|]. rewrite H1. cbn [negb Z.eqb].
  eapply runs_bind; [by apply runs_act|]. cbn beta zeta. rewrite errno_nonneg.
  destruct (singleMmap p).
  - eapply runs_eq; [apply runs_ret|done|by destruct m].
  - eapply runs_bind; [by apply runs_act|]. cbn beta zeta. rewrite errno_nonneg.
    eapply runs_eq; [apply runs_ret|done|by destruct m].
Qed.

(** When the first mapping fails, only the sizes are set. *)
Lemma runs_MmapRing_fails fd p sq cq m :
  sys_errno (mmap1 m fd p).2 <> 0 ->
  runs (MmapRing fd p sq cq) m
    (mkSQMap (ring_sizes p).1 (sm_ptr sq) (sm_Head sq) (sm_Tail sq) (sm_Mask sq) (sm_Flags sq)
       (sm_Dropped sq) (sm_Entries sq) (sm_Array sq),
     mkCQMap (ring_sizes p).2 (cm_ptr cq) (cm_Head cq) (cm_Tail cq) (cm_Mask cq) (cm_Overflow cq)
       (cm_Flags cq) (cm_Entries cq),
     Some (WrapErr (Errno (sys_errno (mmap1 m fd p).2)) "failed to mmap sq ring"))
    (set_m_hist (mmap1 m fd p :: m_hist m) m).
Proof.
  unfold MmapRing, mmap1. destruct (ring_sizes p) as [sqSize cqSize]. cbn [fst snd]. intros E.
  eapply runs_bind; [by apply runs_act|]. rewrite (proj2 (Z.eqb_neq _ _) E). apply runs_ret.
Qed.
End Mmap.

(** The parameters as the kernel documents them: every field in its range and the
    rings smaller than 2^32 bytes. *)
Record params_ok (p : Params) : Prop := {
  pok_sq : pow2_size (p_SqEntries p);
  pok_cq : pow2_size (p_CqEntries p);
  pok_array : 0 <= so_Array (p_SqOffset p);
  pok_sqsize : so_Array (p_SqOffset p) + 4 * p_SqEntries p < 2 ^ 32;
  pok_cqes : 0 <= co_Cqes (p_CqOffset p);
  pok_cqsize : co_Cqes (p_CqOffset p) + 16 * p_CqEntries p < 2 ^ 32
}.

(** A slice of elements of the given size is inside [size] bytes from [ptr] on. *)
Definition inside (s : slice) (elem ptr size : Z) : Prop :=
  ptr <= sl_Data s /\ sl_Data s + elem * sl_Len s <= ptr + size.

Section Bounds.
Context (p : Params) (Hp : params_ok p).

Lemma ring_sizes_bounds :
  so_Array (p_SqOffset p) + 4 * p_SqEntries p <= (ring_sizes p).1 < 2 ^ 32 /\
  co_Cqes (p_CqOffset p) + 16 * p_CqEntries p <= (ring_sizes p).2 < 2 ^ 32 /\
  0 < p_SqEntries p /\ 0 < p_CqEntries p.
Proof.
  destruct Hp as [Hs Hc Ha Has Hq Hcs]. apply pow2_size_pos in Hs, Hc.
  unfold ring_sizes. change uint32Size with 4. change cqeSize with 16.
  rewrite !(uwrap_id 64) by (rewrite ?uwrap_id; unfold is_uint; lia).
  rewrite !uwrap_id by (unfold is_uint; lia).
  destruct (singleMmap p); [|cbn; lia].
  case Z.ltb_spec; cbn; lia.
Qed.

Lemma sq_map_inside sqPtr sqePtr :
  0 <= sqPtr -> sqPtr + (ring_sizes p).1 < 2 ^ 64 ->
  let s := sq_map p (ring_sizes p).1 sqPtr sqePtr in
  inside (sm_Array s) uint32Size sqPtr (ring_sizes p).1 /\
  inside (sm_Entries s) sqeSize sqePtr (u64 (p_SqEntries p * sqeSize)) /\
  sl_Len (sm_Array s) = p_SqEntries p /\ sl_Len (sm_Entries s) = p_SqEntries p.
Proof.
  intros H0 Hb. destruct ring_sizes_bounds as (Hs & _ & Hn & _).
  pose proof (pok_array p Hp). pose proof (pow2_size_u32 _ (pok_sq p Hp)).
  unfold inside. cbn [sm_Array sm_Entries sq_map sl_Data sl_Len]. change uint32Size with 4. change sqeSize with 64.
  rewrite !(swrap_id 64) by (unfold is_sint; lia). rewrite !uwrap_id by (unfold is_uint; lia). lia.
Qed.

Lemma cq_map_inside cqPtr ptr :
  0 <= cqPtr -> cqPtr + (ring_sizes p).2 < 2 ^ 64 ->
  let c := cq_map p (ring_sizes p).2 cqPtr ptr in
  inside (cm_Entries c) cqeSize cqPtr (ring_sizes p).2 /\ sl_Len (cm_Entries c) = p_CqEntries p.
Proof.
  intros H0 Hb. destruct ring_sizes_bounds as (_ & Hc & _ & Hn).
  pose proof (pok_cqes p Hp). pose proof (pow2_size_u32 _ (pok_cq p Hp)).
  unfold inside. cbn [cm_Entries cq_map sl_Data sl_Len]. change cqeSize with 16.
  rewrite !(swrap_id 64) by (unfold is_sint; lia). rewrite !uwrap_id by (unfold is_uint; lia). lia.
Qed.
End Bounds.

(** A mapping of less than 2^40 bytes succeeds and ends below 2^64. *)
Definition mmap_ok (K : Kernel) : Prop := forall h length fd offset,
  0 <= length < 2 ^ 40 ->
  let r := k_answer h (SysMmap 0 length mmap_prot mmap_flags fd offset) in
  sys_errno r = 0 /\ sys_r1 r + length < 2 ^ 64.

Lemma single_sizes p : singleMmap p = true -> (ring_sizes p).1 = (ring_sizes p).2.
Proof. intros H. unfold ring_sizes. rewrite H. by destruct (_ <? _). Qed.

Lemma sys_r1_nonneg r : 0 <= sys_r1 r.
Proof. apply uwrap_nonneg. lia. Qed.

(** C28. With parameters as the kernel documents them, and mappings that succeed,
    every slice [MmapRing] makes lies inside a mapping it made, with the number
    of entries of the parameters: the index array and the completion entries
    inside their rings and the submission entries inside theirs, with one
    mapping for both rings or two. *)
Theorem MmapRing_in_bounds {K : Kernel} (fd : Z) (p : Params) (sq0 : SQMap) (cq0 : CQMap) (m : Mem)
    (Hp : params_ok p) (HK : mmap_ok K) :
  exists sq cq, runs (MmapRing fd p sq0 cq0) m (sq, cq, None)
      (set_m_hist (mmap_calls m fd p ++ m_hist m) m) /\
    inside (sm_Array sq) uint32Size (sys_r1 (mmap1 m fd p).2) (sm_Size sq) /\
    inside (sm_Entries sq) sqeSize (sys_r1 (mmap2 m fd p).2) (u64 (p_SqEntries p * sqeSize)) /\
    inside (cm_Entries cq) cqeSize (cq_addr m fd p) (cm_Size cq) /\
    sl_Len (sm_Array sq) = p_SqEntries p /\ sl_Len (sm_Entries sq) = p_SqEntries p /\
    sl_Len (cm_Entries cq) = p_CqEntries p.
Proof.
  destruct (ring_sizes_bounds p Hp) as (Bs & Bc & _ & _).
  pose proof (pok_array p Hp) as Pa. pose proof (pok_cqes p Hp) as Pe.
  pose proof (pow2_size_pos _ (pok_sq p Hp)) as Ps. pose proof (pow2_size_pos _ (pok_cq p Hp)) as Pc.
  eexists _, _. split; [apply runs_MmapRing, HK; lia|].
  destruct (sq_map_inside p Hp (sys_r1 (mmap1 m fd p).2) (sys_r1 (mmap2 m fd p).2))
    as (H1 & H2 & H3 & H4); [apply sys_r1_nonneg|apply HK; lia|].
  destruct (cq_map_inside p Hp (cq_addr m fd p) (cm_ptr cq0)) as (H5 & H6).
  - unfold cq_addr. destruct (singleMmap p); apply sys_r1_nonneg.
  - unfold cq_addr. destruct (singleMmap p) eqn:E; [rewrite <- single_sizes by done|]; apply HK; lia.
  - done.
Qed.

(** [MmapRing] sees the failure of the first mapping only: the result is the
    wrapped error number when that fails, and nil otherwise, whatever the
    kernel answers to the other mappings. *)
Theorem MmapRing_error {K : Kernel} (fd : Z) (p : Params) (sq0 : SQMap) (cq0 : CQMap) (m : Mem) :
  exists sq cq m', runs (MmapRing fd p sq0 cq0) m
    (sq, cq,
     if sys_errno (mmap1 m fd p).2 =? 0 then None
     else Some (WrapErr (Errno (sys_errno (mmap1 m fd p).2)) "failed to mmap sq ring")) m'.
Proof.
  destruct (Z.eqb_spec (sys_errno (mmap1 m fd p).2) 0) as [E|E].
  - eexists _, _, _. by apply runs_MmapRing.
  - eexists _, _, _. by apply runs_MmapRing_fails.
Qed.

(** ** New *)

Section NewRing.
Context `{K : Kernel}.

(** An option ends and leaves the queues alone. *)
Lemma runs_register_queues ringFd opcode args nr m :
  exists m', runs (Register.register_call ringFd opcode args nr) m None m' /\ m_ring m' = m_ring m.
Proof.
  destruct (Register.runs_register_call ringFd opcode args nr m) as (m' & H & Hr & _). eauto.
Qed.

Definition same_queues (m m' : Mem) : Prop :=
  m_sq m' = m_sq m /\ m_cq m' = m_cq m /\
  r_completionsCap (m_ring m') = r_completionsCap (m_ring m).

Lemma runs_apply_option o m :
  exists e m', runs (apply_option o) m e m' /\ same_queues m m' /\
    (match o with WithEventFd _ _ _ => True | _ => e = None end).
Proof.
  destruct o as [|initval flags async| |id|some|d]; cbn [apply_option].
  2: { unfold Eventfd. set (c := SysEventfd _ _). set (r := k_answer (m_hist m) c).
    set (m1 := set_m_hist ((c, r) :: m_hist m) m).
    set (m2 := upd_ring (set_r_eventFd (i64 (sys_r1 r))) m1).
    assert (exists e m', runs (if async then Register.RegisterEventFdAsync (r_fd (m_ring m)) (i64 (sys_r1 r))
        else Register.RegisterEventFd (r_fd (m_ring m)) (i64 (sys_r1 r))) m2 e m' /\ m_ring m' = m_ring m2)
      as (e & m' & He & Hring).
    { destruct async; eexists; apply runs_register_queues. }
    destruct (sys_errno r =? 0) eqn:E.
    - exists e, m'. split; [|split; [|done]].
      + eapply runs_bind; [eapply runs_bind; [by apply runs_act|apply runs_ret]|].
        fold r. rewrite E. cbn beta iota.
        eapply runs_bind; [by apply runs_store|]. eapply runs_bind; [by apply runs_load|]. exact He.
      + unfold same_queues, m_sq, m_cq. by rewrite Hring.
    - eexists _, _. split; [|split; [|done]].
      + eapply runs_bind; [eapply runs_bind; [by apply runs_act|apply runs_ret]|].
        fold r. rewrite E. apply runs_ret.
      + done. }
  all: eexists None, _; split;
    [repeat (eapply runs_bind; [by apply runs_store|]); apply runs_ret|done].
Qed.

Lemma runs_apply_options opts : forall m,
  exists e m', runs (apply_options opts) m e m' /\ same_queues m m' /\
    (Forall (fun o => match o with WithEventFd _ _ _ => False | _ => True end) opts -> e = None).
Proof.
  induction opts as [|o opts IH]; intros m.
  - exists None, m. split; [apply runs_ret|done].
  - destruct (runs_apply_option o m) as (e & m1 & H1 & (Ha & Hb & Hc) & He). cbn [apply_options].
    destruct e as [e|].
    + exists (Some e), m1. split_and!; [eapply runs_bind; [done|apply runs_ret]|done|].
      intros [Ho _]%Forall_cons. by destruct o.
    + destruct (IH m1) as (e & m2 & H2 & (Ha' & Hb' & Hc') & He'). exists e, m2.
      split_and!; [by eapply runs_bind| |intros [_ Ho]%Forall_cons; auto].
      unfold same_queues. by rewrite Ha', Hb', Hc'.
Qed.

Lemma len_elements {A} (f : Z -> A) size s : 0 <= sl_Len s -> len (elements f size s) = sl_Len s.
Proof. intros H. unfold elements, len. rewrite length_fmap, length_seqZ. lia. Qed.
End NewRing.

(** What the kernel leaves behind for a ring of [p]: the counters are words and
    the masks are one less than the number of entries. *)
Record mapped_ok (rd : Z -> Z) (p : Params) (sqPtr cqPtr : Z) : Prop := {
  mok_sqmask : rd (u64 (sqPtr + so_RingMask (p_SqOffset p))) = p_SqEntries p - 1;
  mok_cqmask : rd (u64 (cqPtr + co_RingMask (p_CqOffset p))) = p_CqEntries p - 1;
  mok_words : forall a, is_u32 (rd a)
}.

(** The queues at the addresses [MmapRing] computes are well formed. *)
Lemma attach_wf rd rd_sqe rd_cqe p sqSize cqSize sqPtr sqePtr cqPtr ptr :
  params_ok p -> mapped_ok rd p sqPtr cqPtr ->
  let q := attach_sq rd rd_sqe (sq_map p sqSize sqPtr sqePtr) in
  let c := attach_cq rd rd_cqe (cq_map p cqSize cqPtr ptr) in
  sq_wf q /\ len (sq_Entries q) = p_SqEntries p /\ cq_wf c /\ len (cq_Entries c) = p_CqEntries p.
Proof.
  intros Hok Hmap q c.
  pose proof (pow2_size_u32 _ (pok_sq p Hok)) as Bs. pose proof (pow2_size_u32 _ (pok_cq p Hok)) as Bc.
  pose proof (pow2_size_pos _ (pok_sq p Hok)) as Ps. pose proof (pow2_size_pos _ (pok_cq p Hok)) as Pc.
  assert (i64 (p_SqEntries p) = p_SqEntries p) as Es by (apply swrap_id; unfold is_sint; lia).
  assert (i64 (p_CqEntries p) = p_CqEntries p) as Ec by (apply swrap_id; unfold is_sint; lia).
  assert (len (sq_Entries q) = p_SqEntries p) as Elen
    by (transitivity (i64 (p_SqEntries p)); [apply len_elements; cbn; lia|done]).
  assert (len (sq_Array q) = p_SqEntries p) as Alen
    by (transitivity (i64 (p_SqEntries p)); [apply len_elements; cbn; lia|done]).
  assert (len (cq_Entries c) = p_CqEntries p) as Clen
    by (transitivity (i64 (p_CqEntries p)); [apply len_elements; cbn; lia|done]).
  split_and!; [|done| |done].
  - split; [rewrite Elen; apply Hok|by rewrite Elen, Alen|rewrite Elen; apply Hmap|apply Hmap|apply Hmap].
  - split; [rewrite Clen; apply Hok|rewrite Clen; apply Hmap|apply Hmap|apply Hmap].
Qed.

Section NewRuns.
Context {K : Kernel} (rd : Z -> Z) (rd_sqe : Z -> SubmitEntry_t) (rd_cqe : Z -> CompletionEntry).
Context (size : Z) (p p' : Params) (fd : Z) (m m1 : Mem) (r : SysRes).

(** Setup and the mappings succeed, and the kernel writes what it documents. *)
Record setup_ok : Prop := {
  su_answer : r = k_answer (m_hist m) (SysSetup (u64 size) p);
  su_errno : sys_errno r = 0;
  su_params : p' = k_params (m_hist m) (u64 size) p;
  su_fd : fd = i64 (sys_r1 r);
  su_mem : m1 = set_m_hist ((SysSetup (u64 size) p, r) :: m_hist m) m;
  su_ok : params_ok p';
  su_mmap : mmap_ok K;
  su_mapped : mapped_ok rd p' (sys_r1 (mmap1 m1 fd p').2) (cq_addr m1 fd p')
}.

(** The queues of the new ring. *)
Definition new_sq : SubmitQueue :=
  attach_sq rd rd_sqe (sq_map p' (ring_sizes p').1 (sys_r1 (mmap1 m1 fd p').2) (sys_r1 (mmap2 m1 fd p').2)).
Definition new_cq : CompletionQueue :=
  attach_cq rd rd_cqe (cq_map p' (ring_sizes p').2 (cq_addr m1 fd p') 0).
Definition new_mem : Mem :=
  upd_ring (fun _ => new_ring fd p' new_sq new_cq) (set_m_hist (mmap_calls m1 fd p' ++ m_hist m1) m1).

Context (H : setup_ok).

Lemma runs_New opts e m' :
  runs (apply_options opts) new_mem e m' -> runs (New rd rd_sqe rd_cqe size (Some p) opts) m e m'.
Proof.
  intros Hopts. destruct H as [Hr Hset Hp' Hfd Hm1 Hok HK Hmap].
  destruct (ring_sizes_bounds p' Hok) as (Bz & _). pose proof (pok_array p' Hok).
  pose proof (pow2_size_pos _ (pok_sq p' Hok)) as Ps.
  unfold New, Setup.
  eapply runs_bind; [eapply runs_bind; [by apply runs_act|]|].
  { rewrite <- Hr, Hset. cbn [negb Z.eqb]. apply runs_ret. }
  rewrite <- ?Hr, <- ?Hp', <- ?Hfd. cbn beta iota. rewrite <- Hm1.
  eapply runs_bind; [apply (runs_MmapRing (K := K)), HK; lia|]. cbn beta iota.
  eapply runs_bind; [by apply runs_store|]. exact Hopts.
Qed.

Lemma new_queues :
  sq_wf new_sq /\ len (sq_Entries new_sq) = p_SqEntries p' /\
  cq_wf new_cq /\ len (cq_Entries new_cq) = p_CqEntries p'.
Proof. apply attach_wf; apply H. Qed.
End NewRuns.

(** The mapped rings of a new instance are zeroed. *)
Record zeroed (rd : Z -> Z) (rd_cqe : Z -> CompletionEntry) (p : Params) (sqPtr cqPtr : Z) : Prop := {
  zd_sqhead : rd (u64 (sqPtr + so_Head (p_SqOffset p))) = 0;
  zd_sqtail : rd (u64 (sqPtr + so_Tail (p_SqOffset p))) = 0;
  zd_cqhead : rd (u64 (cqPtr + co_Head (p_CqOffset p))) = 0;
  zd_cqtail : rd (u64 (cqPtr + co_Tail (p_CqOffset p))) = 0;
  zd_cqes : forall a, cqe_UserData (rd_cqe a) = 0
}.

(** C24. [New] makes a ring all the other theorems apply to: when setup and the
    mappings succeed and the kernel has written what it documents, [New] ends,
    with an error only if an option that makes an eventfd fails, and both
    queues are well formed, as long as the kernel was asked, with the barrier
    open and no writers. *)
Theorem New_well_formed {K : Kernel} (rd : Z -> Z) (rd_sqe : Z -> SubmitEntry_t)
    (rd_cqe : Z -> CompletionEntry) (size : Z) (p p' : Params) (fd : Z) (opts : list RingOption)
    (m m1 : Mem) (r : SysRes) (Hset : setup_ok rd size p p' fd m m1 r) :
  exists e m' q c, runs (New rd rd_sqe rd_cqe size (Some p) opts) m e m' /\
    (Forall (fun o => match o with WithEventFd _ _ _ => False | _ => True end) opts -> e = None) /\
    m_sq m' = Some q /\ sq_wf q /\ len (sq_Entries q) = p_SqEntries p' /\
    sq_entered q = 0 /\ sq_writes q = 0 /\
    m_cq m' = Some c /\ cq_wf c /\ len (cq_Entries c) = p_CqEntries p' /\
    r_completionsCap (m_ring m') = p_CqEntries p' /\ cq_ptr c = 0.
Proof.
  destruct (runs_apply_options opts (new_mem rd rd_sqe rd_cqe p' fd m1))
    as (e & m' & Hopts & (Hsq & Hcq & Hcap) & He).
  destruct (new_queues rd rd_sqe rd_cqe size p p' fd m m1 r Hset) as (H1 & H2 & H3 & H4).
  exists e, m', (new_sq rd rd_sqe p' fd m1), (new_cq rd rd_cqe p' fd m1). split_and!; try done.
  - by eapply runs_New.
  - by rewrite Hcap.
Qed.

Lemma runs_WithEventFd {K : Kernel} initval flags async m :
  (forall h c, sys_errno (k_answer h c) = 0) ->
  exists m', runs (apply_option (WithEventFd initval flags async)) m None m' /\
    r_eventFd (m_ring m') = i64 (sys_r1 (k_answer (m_hist m) (SysEventfd (u64 initval) (u64 flags)))).
Proof.
  intros Hok. destruct async; (eexists; split;
    [eapply runs_bind; [eapply runs_bind; [by apply runs_act|rewrite Hok; apply runs_ret]|];
     cbn beta iota; eapply runs_bind; [by apply runs_store|]; eapply runs_bind; [by apply runs_load|];
     eapply runs_bind; [by apply runs_act|]; cbn beta; rewrite errno_nonneg; apply runs_ret
    |reflexivity]).
Qed.

(** The accessors on a new ring: its descriptor is that of setup, and [EventFd] is
    -1 until [WithEventFd] has made one. *)
Theorem new_accessors {K : Kernel} (rd : Z -> Z) (rd_sqe : Z -> SubmitEntry_t)
    (rd_cqe : Z -> CompletionEntry) (size : Z) (p p' : Params) (fd : Z) (m m1 : Mem) (r : SysRes)
    (Hset : setup_ok rd size p p' fd m m1 r) :
  exists m', runs (New rd rd_sqe rd_cqe size (Some p) []) m None m' /\
    runs Ring_Fd m' fd m' /\ runs Ring_EventFd m' (-1) m' /\ runs Ring_FileRegistry m' None m' /\
    (forall initval flags async, (forall h c, sys_errno (k_answer h c) = 0) ->
      exists m'', runs (apply_option (WithEventFd initval flags async)) m' None m'' /\
        runs Ring_EventFd m'' (i64 (sys_r1 (k_answer (m_hist m') (SysEventfd (u64 initval) (u64 flags))))) m'').
Proof.
  exists (new_mem rd rd_sqe rd_cqe p' fd m1).
  split_and!; [eapply runs_New; [done|apply runs_ret]|by apply runs_load..|].
  intros initval flags async Hok.
  destruct (runs_WithEventFd initval flags async (new_mem rd rd_sqe rd_cqe p' fd m1) Hok) as (m'' & H1 & H2).
  exists m''. split; [done|]. by apply runs_load.
Qed.

(** A kernel for the sample ring: setup fills in the sample parameters, and the
    mappings are at fixed addresses. *)
Definition setup_kernel : Kernel := {|
  k_answer := fun _ c =>
    match c with
    | SysMmap _ length _ _ _ offset => mkSysRes (if offset =? SqRingOffset then 4096 else 8192) 0
    | SysSetup _ _ => mkSysRes 5 0
    | _ => mkSysRes 0 0
    end;
  k_params := fun _ _ _ => sample_params;
  k_file := fun _ _ st => (mkSysRes 0 0, st);
  k_enter := fun _ _ _ _ st => mkView 0 0 0 0 0 0 [] st
|}.

Definition sample_rd (a : Z) : Z :=
  if a =? 4096 + 256 then 3 else if a =? 8192 + 260 then 7 else 0.

Lemma sample_params_ok : params_ok sample_params.
Proof.
  split; try (vm_compute; (discriminate || reflexivity)); [exists 2|exists 3]; split; (lia || done).
Qed.

Lemma setup_kernel_mmap : mmap_ok setup_kernel.
Proof.
  intros h length fd offset Hl r. unfold r. cbn [k_answer setup_kernel].
  destruct (offset =? SqRingOffset); (split; [reflexivity|]);
    unfold sys_r1; cbn [raw_r1]; rewrite uwrap_id by (unfold is_uint; lia); lia.
Qed.

Lemma MmapRing_in_bounds_witness :
  let K := setup_kernel in
  let p := sample_params in
  exists sq cq, runs (MmapRing 5 p zeroSQMap zeroCQMap) sample_mem (sq, cq, None)
      (set_m_hist (mmap_calls sample_mem 5 p ++ m_hist sample_mem) sample_mem) /\
    inside (sm_Array sq) uint32Size (sys_r1 (mmap1 sample_mem 5 p).2) (sm_Size sq) /\
    inside (sm_Entries sq) sqeSize (sys_r1 (mmap2 sample_mem 5 p).2) (u64 (p_SqEntries p * sqeSize)) /\
    inside (cm_Entries cq) cqeSize (cq_addr sample_mem 5 p) (cm_Size cq) /\
    sl_Len (sm_Array sq) = p_SqEntries p /\ sl_Len (sm_Entries sq) = p_SqEntries p /\
    sl_Len (cm_Entries cq) = p_CqEntries p.
Proof.
  intros K p. apply (MmapRing_in_bounds (K := setup_kernel) 5 sample_params zeroSQMap zeroCQMap sample_mem);
    [apply sample_params_ok|apply setup_kernel_mmap].
Defined.

Lemma New_well_formed_witness :
  let K := setup_kernel in
  exists e m' q c,
    runs (New sample_rd (fun _ => zeroSQE) (fun _ => mkCQE 0 0 0) 4 (Some zeroParams) [WithDebug; WithID 7])
      sample_mem e m' /\
    (Forall (fun o => match o with WithEventFd _ _ _ => False | _ => True end) [WithDebug; WithID 7] ->
       e = None) /\
    m_sq m' = Some q /\ sq_wf q /\ len (sq_Entries q) = 4 /\
    sq_entered q = 0 /\ sq_writes q = 0 /\
    m_cq m' = Some c /\ cq_wf c /\ len (cq_Entries c) = 8 /\
    r_completionsCap (m_ring m') = 8 /\ cq_ptr c = 0.
Proof.
  intros K.
  apply (New_well_formed (K := setup_kernel) sample_rd (fun _ => zeroSQE) (fun _ => mkCQE 0 0 0) 4
    zeroParams sample_params 5 [WithDebug; WithID 7] sample_mem
    (set_m_hist ((SysSetup (u64 4) zeroParams, mkSysRes 5 0) :: m_hist sample_mem) sample_mem)
    (mkSysRes 5 0)).
  split; try reflexivity.
  - apply sample_params_ok.
  - apply setup_kernel_mmap.
  - split; [vm_compute; reflexivity|vm_compute; reflexivity|].
    intros a. unfold sample_rd, is_uint. destruct (a =? _); [lia|]. destruct (a =? _); lia.
Defined.

(** ** Errors of New *)

(** The calls that give a descriptor or a mapping back. *)
Definition gives_back (c : Syscall) : bool :=
  match c with SysClose _ | SysMunmap _ _ => true | _ => false end.
Definition given_back (m : Mem) : list Syscall := List.filter gives_back (fst <$> m_hist m).

Section NewErrors.
Context {K : Kernel}.

Abbreviation holds p := (keeps given_back p (fun _ => True)).

Lemma holds_syscall c : gives_back c = false -> holds (syscall c).
Proof. intros Hc. apply keeps_act. intros m. unfold given_back. cbn. by rewrite Hc. Qed.

Lemma holds_register fd op args nr : holds (Register.register_call fd op args nr).
Proof.
  unfold Register.register_call. apply kept_bind; [by apply holds_syscall|].
  intros r. by destruct (_ <? _).
Qed.
Hint Resolve holds_register : kept.
Hint Extern 1 (keeps _ (syscall _) _) => by apply holds_syscall : kept.
Hint Extern 1 (keeps _ (ring_store _) _) => by apply keeps_store : kept.

Lemma holds_MmapRing fd p sq cq : holds (MmapRing fd p sq cq).
Proof. unfold MmapRing. destruct (ring_sizes p). kept_steps. Qed.

Lemma holds_options opts : holds (apply_options opts).
Proof.
  induction opts as [|o opts IH]; [done|]. cbn [apply_options]. apply kept_bind.
  - destruct o; cbn [apply_option]; unfold Eventfd, Register.RegisterEventFd, Register.RegisterEventFdAsync;
      kept_steps.
  - by intros [].
Qed.
Hint Resolve holds_MmapRing holds_options : kept.

Lemma holds_New rd rd_sqe rd_cqe size p opts : holds (New rd rd_sqe rd_cqe size p opts).
Proof.
  unfold New, Setup. apply kept_bind.
  - apply kept_bind; [by apply keeps_act|]. intros []. kept_steps.
  - intros [p' [fd e]]. kept_steps.
Qed.

End NewErrors.

(** A failed io_uring_setup. *)
Lemma runs_New_fails {K : Kernel} rd rd_sqe rd_cqe size p opts m :
  let c := SysSetup (u64 size) p in
  let r := k_answer (m_hist m) c in
  sys_errno r <> 0 ->
  runs (New rd rd_sqe rd_cqe size (Some p) opts) m (Some (Errno (sys_errno r)))
    (set_m_hist ((c, r) :: m_hist m) m).
Proof.
  intros c r Hr. unfold New, Setup.
  eapply runs_bind; [eapply runs_bind; [by apply runs_act|]|].
  { cbn beta iota. fold c r. rewrite (proj2 (Z.eqb_neq _ _) Hr). cbn [negb]. apply runs_ret. }
  apply runs_ret.
Qed.

(** C25. The errors of [New].  When io_uring_setup fails, [New] returns its error
    number and makes no other call; when the first mapping fails it returns that
    error, wrapped, and neither touches the ring.  On no path, failing options
    included, does it close the descriptor that io_uring_setup returned or unmap
    what it mapped. *)
Theorem New_errors {K : Kernel} (rd : Z -> Z) (rd_sqe : Z -> SubmitEntry_t)
    (rd_cqe : Z -> CompletionEntry) (size : Z) (p : Params) (opts : list RingOption) (m : Mem) :
  let c := SysSetup (u64 size) p in
  let r := k_answer (m_hist m) c in
  let m1 := set_m_hist ((c, r) :: m_hist m) m in
  let first := mmap1 m1 (i64 (sys_r1 r)) (k_params (m_hist m) (u64 size) p) in
  (sys_errno r <> 0 ->
     runs (New rd rd_sqe rd_cqe size (Some p) opts) m (Some (Errno (sys_errno r))) m1) /\
  (sys_errno r = 0 -> sys_errno first.2 <> 0 ->
     runs (New rd rd_sqe rd_cqe size (Some p) opts) m
       (Some (WrapErr (Errno (sys_errno first.2)) "failed to mmap sq ring"))
       (set_m_hist (first :: m_hist m1) m)) /\
  (forall e m', runs (New rd rd_sqe rd_cqe size (Some p) opts) m e m' -> given_back m' = given_back m).
Proof.
  intros c r m1 first. split_and!.
  - by apply runs_New_fails.
  - intros Hr Hm. unfold New, Setup.
    eapply runs_bind; [eapply runs_bind; [by apply runs_act|]|].
    { cbn beta iota. fold c r. rewrite Hr. cbn [negb Z.eqb]. apply runs_ret. }
    cbn beta iota. fold c r m1. eapply runs_bind; [by apply runs_MmapRing_fails|]. apply runs_ret.
  - intros e m' H. destruct (H 0%nat) as [n E]. by eapply keeps_run, E; apply holds_New.
Qed.

(** A kernel without memory for mappings. *)
Definition no_mmap_kernel : Kernel := {|
  k_answer := fun _ c =>
    match c with
    | SysMmap _ _ _ _ _ _ => mkSysRes 0 12
    | SysSetup _ _ => mkSysRes 5 0
    | _ => mkSysRes 0 0
    end;
  k_params := fun _ _ _ => sample_params;
  k_file := fun _ _ st => (mkSysRes 0 0, st);
  k_enter := fun _ _ _ _ st => mkView 0 0 0 0 0 0 [] st
|}.

Lemma New_errors_witness :
  let K := no_mmap_kernel in
  exists m', runs (New sample_rd (fun _ => zeroSQE) (fun _ => mkCQE 0 0 0) 4 (Some zeroParams) [])
      sample_mem (Some (WrapErr (Errno 12) "failed to mmap sq ring")) m' /\
    given_back m' = given_back sample_mem.
Proof.
  intros K.
  destruct (New_errors (K := no_mmap_kernel) sample_rd (fun _ => zeroSQE) (fun _ => mkCQE 0 0 0) 4
              zeroParams [] sample_mem) as (_ & H1 & H2).
  assert (He : sys_errno (mkSysRes 0 12) <> 0) by (vm_compute; discriminate).
  specialize (H1 eq_refl He). eexists. split; [exact H1|]. exact (H2 _ _ H1).
Defined.

(** ** Stop *)

(** [Stop] of a ring without a submitter and with two mappings: it unmaps both
    rings by the addresses the queues carry, forgets the queues and closes the
    descriptor, in this order; the mapping of the submission entries stays.  A
    second [Stop] closes the descriptor once more. *)
Theorem Ring_Stop_spec {K : Kernel} (m : Mem) (q : SubmitQueue) (c : CompletionQueue)
    (HK : forall h call, sys_errno (k_answer h call) = 0)
    (Hq : m_sq m = Some q) (Hc : m_cq m = Some c)
    (Hfl : Z.land (p_Flags (r_p (m_ring m))) FeatSingleMmap = 0)
    (Hs : r_submitter (m_ring m) = None) :
  exists m' m'', runs Ring_Stop m None m' /\ m_sq m' = None /\ m_cq m' = None /\
    (fst <$> m_hist m') =
      SysClose (u64 (r_fd (m_ring m))) :: SysMunmap (cq_ptr c) (cq_Size c)
        :: SysMunmap (sq_ptr q) (sq_Size q) :: (fst <$> m_hist m) /\
    runs Ring_Stop m' None m'' /\
    (fst <$> m_hist m'') = SysClose (u64 (r_fd (m_ring m))) :: (fst <$> m_hist m').
Proof.
  eexists _, _. split; [|split; [|split; [|split; [|split]]]].
  - unfold Ring_Stop, closeSq.
    eapply runs_bind; [eapply runs_bind; [apply runs_load; exact Hq|];
      eapply runs_bind; [by apply runs_act|]; rewrite HK; cbn [negb Z.eqb];
      eapply runs_bind; [by apply runs_store|]; apply runs_ret|].
    cbn beta iota. eapply runs_bind; [apply runs_load; cbn; reflexivity|]. rewrite Hfl. cbn [Z.eqb].
    unfold closeCq.
    eapply runs_bind; [eapply runs_bind; [apply runs_load; exact Hc|];
      eapply runs_bind; [by apply runs_act|]; rewrite HK; cbn [negb Z.eqb];
      eapply runs_bind; [by apply runs_store|]; apply runs_ret|].
    cbn beta iota. eapply runs_bind; [apply runs_load; exact Hs|].
    eapply runs_bind; [apply runs_ret|]. eapply runs_bind; [by apply runs_load|].
    eapply runs_bind; [by apply runs_act|]. rewrite HK. apply runs_ret.
  - done.
  - done.
  - done.
  - unfold Ring_Stop, closeSq, closeCq.
    eapply runs_bind; [eapply runs_bind; [by apply runs_load|]; apply runs_ret|].
    eapply runs_bind; [apply runs_load; cbn; reflexivity|]. rewrite Hfl. cbn [Z.eqb].
    eapply runs_bind; [eapply runs_bind; [by apply runs_load|]; apply runs_ret|].
    eapply runs_bind; [apply runs_load; exact Hs|].
    eapply runs_bind; [apply runs_ret|]. eapply runs_bind; [by apply runs_load|].
    eapply runs_bind; [by apply runs_act|]. rewrite HK. apply runs_ret.
  - done.
Qed.

Lemma Ring_Stop_spec_witness :
  let K := still_kernel 0 0 in
  exists m' m'', runs Ring_Stop sample_mem None m' /\ m_sq m' = None /\ m_cq m' = None /\
    (fst <$> m_hist m') =
      SysClose 5 :: SysMunmap 8192 192 :: SysMunmap 4096 336 :: (fst <$> m_hist sample_mem) /\
    runs Ring_Stop m' None m'' /\ (fst <$> m_hist m'') = SysClose 5 :: (fst <$> m_hist m').
Proof.
  intros K. apply (Ring_Stop_spec (K := still_kernel 0 0) sample_mem sample_sq sample_cq);
    try reflexivity.
Defined.
