(* ===== verification/Stopping.v ===== *)
(** * What Stop leaves running (ring.go)

    [Ring.run] returns when it receives from the channel [stop] of the ring, and
    the goroutine of the completer when it receives from [stopCh].  No operation of
    the package sends to these channels, [Stop] included, so both goroutines outlive
    the ring: [Ring.run] stays at its select, and when a request is waiting there
    after [Stop] has forgotten the queues it dereferences a nil pointer. *)

From stdpp Require Import base list gmap strings relations.
From Stdlib Require Import ZArith Lia.
From S2P Require Import Prelude Prog Consts Types Machine Samples Submission Ops OpsSpec Concurrency.
From S2P Require Import Completion RunLoop Ledger RunLoopBound Submitter Setup.

(** ** The messages in the two channels *)

Definition stop_messages (m : Mem) : nat * nat := (r_stop (m_ring m), c_stopCh (r_c (m_ring m))).

#[global] Instance stop_messages_aside : Aside stop_messages.
Proof. split; intros; by destruct m as [[]]. Qed.
#[global] Instance stop_messages_aside_reqs : AsideReqs stop_messages.
Proof. by intros r []. Qed.

Abbreviation silent p := (keeps stop_messages p (fun _ => True)).

(** ** The operations of the package *)

(** The calls goroutines make on a ring: requests and [Enter] as in Concurrency.v,
    blocking operations, [Splice], and [Stop]. *)
Inductive api :=
| ACall (c : call)
| ABlocking (r : request)
| ASplice (inFd : Z) (inOff : var (option Z)) (outFd : Z) (outOff : var (option Z)) (n flags : Z)
| AStop.

Section Silent.
Context {K : Kernel} (fuel : nat).

Definition api_prog (a : api) : prog Mem unit :=
  match a with
  | ACall c => call_prog fuel c
  | ABlocking r => blocking fuel (dispatch fuel r);; Ret tt
  | ASplice inFd inOff outFd outOff n flags => Ring_Splice fuel inFd inOff outFd outOff n flags;; Ret tt
  | AStop => Ring_Stop;; Ret tt
  end.

(** A goroutine makes its calls one after the other. *)
Fixpoint api_client (l : list api) : prog Mem unit :=
  match l with
  | [] => Ret tt
  | a :: l => api_prog a;; api_client l
  end.

Lemma silent_prepare fill : (forall i, silent (fill i)) -> silent (prepare fuel fill).
Proof.
  intros Hf. eapply keeps_bind; [apply keeps_SubmitEntry, _|].
  intros [[i|] rdy] Hr; [|done]. cbn beta iota in *.
  apply kept_bind; [apply Hf|intros _]. apply kept_bind; [exact Hr|intros _]. kept_steps.
Qed.

Lemma silent_elem0 s : silent (elem0 s).
Proof. unfold elem0. by destruct (_ <? _). Qed.
Hint Resolve silent_elem0 : kept.

Lemma silent_dispatch r : silent (dispatch fuel r).
Proof. destruct r; apply silent_prepare; intros i; kept_steps. Qed.

Lemma silent_completions_send k p : silent (completions_send k p).
Proof.
  induction k as [|k IH]; [done|]. cbn [completions_send].
  apply kept_bind; [|by intros []]. apply keeps_act. intros m. by destruct (_ <? _).
Qed.

Lemma silent_done_recv k p : silent (done_recv k p).
Proof.
  induction k as [|k IH]; [done|]. cbn [done_recv].
  apply kept_bind; [|by intros []]. apply keeps_try_act. intros m a m' E.
  destruct (m_reqs m !! p) as [r|]; [|done]. cbn in E. by destruct (cr_done r); simplify_eq.
Qed.
Hint Resolve silent_completions_send silent_done_recv : kept.

Lemma silent_complete id : silent (Ring_complete fuel id).
Proof.
  unfold Ring_complete. apply kept_bind.
  { apply keeps_act. intros m. by destruct (r_completionPool (m_ring m)). }
  intros req. unfold pool_put, ring_store. kept_steps. by apply keeps_store.
Qed.
Hint Resolve silent_complete silent_dispatch : kept.

Lemma silent_syscall c : silent (syscall c).
Proof. by apply keeps_act. Qed.
Lemma silent_ring_store f :
  (forall r, r_stop (f r) = r_stop r /\ c_stopCh (r_c (f r)) = c_stopCh (r_c r)) -> silent (ring_store f).
Proof. intros Hf. apply keeps_store. intros m. unfold stop_messages. cbn. by destruct (Hf (m_ring m)) as [-> ->]. Qed.
Hint Resolve silent_syscall : kept.
Hint Extern 1 (keeps _ (ring_store _) _) => by apply silent_ring_store : kept.

Lemma silent_Stop : silent Ring_Stop.
Proof.
  unfold Ring_Stop, closeSq, closeCq, submitter_stop. kept_steps.
  all: apply keeps_try_store; intros m m' E; destruct (r_submitter (m_ring m)); by simplify_eq/=.
Qed.

Lemma silent_api a : silent (api_prog a).
Proof.
  destruct a as [[r|f|x y z]|r|inFd inOff outFd outOff n flags|]; cbn [api_prog call_prog].
  - kept_steps.
  - unfold submit. eapply keeps_bind; [apply keeps_SubmitEntry, _|].
    intros [[i|] rdy] Hr; [|done]. cbn beta iota in *. apply kept_bind; [kept_steps|done].
  - kept_steps.
  - unfold blocking. kept_steps.
  - apply kept_bind; [|done].
    apply kept_bind; [apply (silent_dispatch (RSplice inFd inOff outFd outOff n flags))|].
    intros []. kept_steps.
  - apply kept_bind; [apply silent_Stop|done].
Qed.

Lemma silent_client l : silent (api_client l).
Proof. induction l as [|a l IH]; [done|]. cbn. by apply kept_bind; [apply silent_api|]. Qed.
End Silent.

(** ** The goroutine *)

Record stays (n : nat) (s : system unit) : Prop := {
  stays_empty : stop_messages (s_mem s) = (0%nat, n);
  stays_clients : Forall (fun p => silent p) (s_clients s);
  stays_loop : match s_loop s with LBody p => silent p | LReturned => False | _ => True end
}.

Section Loop.
Context {K : Kernel} (fuel : nat).

Hint Extern 1 (keeps _ (run_enter _ _) _) => by apply kept_run_enter, _ : kept.

Lemma silent_run_completion inflight cr : silent (run_completion fuel inflight cr).
Proof. unfold run_completion. kept_steps. Qed.

Lemma silent_run_retry inflight : silent (run_retry fuel inflight).
Proof.
  unfold run_retry. apply kept_bind.
  { apply keeps_act. intros m. by destruct (r_completions (m_ring m)). }
  intros got. kept_steps.
Qed.

Lemma stays_lstep n ps l retry m l' retry' m' :
  stays n (mkSys ps l retry m) -> lstep fuel (l, retry, m) (l', retry', m') ->
  stays n (mkSys ps l' retry' m').
Proof.
  intros [H0 Hc Hl] Hst. cbn in *.
  inversion Hst as [? ? ? ? E|? ? ? cr rest E| |? ? ? ? ? ? ? E| |]; subst; split; cbn in *; try done.
  - unfold stop_messages in H0. simplify_eq. lia.
  - unfold stop_messages in H0. simplify_eq. lia.
  - apply silent_run_completion.
  - apply silent_run_retry.
  - destruct (Hl m) as [Hm _]. rewrite E in Hm. by rewrite <- H0.
  - destruct (Hl m) as [_ Hk]. by rewrite E in Hk.
  - unfold after_body. by case_decide.
Qed.

Lemma stays_sstep n s s' : stays n s -> sstep fuel s s' -> stays n s'.
Proof.
  intros Hs. destruct 1 as [i ps X f k x l retry m m' Hi Hf|ps l retry m l' retry' m' Hl|ps l retry m m' [v ->]].
  - destruct Hs as [H0 Hc Hl]. cbn in *.
    destruct (Forall_lookup_1 _ _ _ _ Hc Hi m) as [Hm Hk]. rewrite Hf in Hm, Hk. split; cbn in *.
    + by rewrite Hm.
    + by apply Forall_insert.
    + done.
  - by eapply stays_lstep.
  - destruct Hs as [H0 Hc Hl]. by split.
Qed.

Lemma stays_reachable n s s' : stays n s -> rtc (sstep fuel) s s' -> stays n s'.
Proof. intros Hs. induction 1; eauto using stays_sstep. Qed.

(** A branch that panics when it runs alone can do so in the system. *)
Lemma body_panics (ps : list (prog Mem unit)) retry p n m e m' :
  run quiet p n m = Panicked e m' ->
  rtc (sstep fuel) (mkSys ps (LBody p) retry m) (mkSys ps (LBody (Panic e)) retry m').
Proof.
  revert n m. induction p as [a|X f k IH|s|]; intros n m H; cbn in H; try done.
  - unfold quiet in H at 1. destruct (f m) as [x m1] eqn:E.
    eapply rtc_l; [apply sstep_loop; by eapply lstep_act|]. by eapply IH.
  - by injection H as -> ->.
Qed.

Lemma run_completion_nil inflight cr m r :
  m_reqs m !! cr = Some r -> m_sq m = None ->
  run quiet (run_completion fuel inflight cr) 0 m = Panicked nil_msg m.
Proof.
  intros Hr Hq.
  unfold run_completion, run_enter, Ring_Enter, SubmitQueue_NeedWakeup, req_load, sq_load, try_load, try_act.
  cbv beta iota delta [mbind prog_mbind prog_bind act run quiet]. rewrite Hr. cbn. by rewrite Hq.
Qed.
End Loop.

(** C21. [Ring.run] outlives the ring.  However many goroutines use the ring, also
    to [Stop] it, and whatever the kernel does, the goroutine of [Ring.run] never
    returns: nothing is ever sent to its channel [stop], nor to the channel [stopCh]
    that would end the goroutine of the completer.  Where a request is
    waiting for it when [Stop] has forgotten the submission queue, taking the
    request ends in a nil pointer panic. *)
Theorem run_survives_Stop (K : Kernel) (fuel : nat) (clients : list (list api)) (m : Mem)
    (s : system unit) (H0 : r_stop (m_ring m) = 0%nat)
    (Hr : rtc (sstep fuel) (mkSys (api_client fuel <$> clients) (LSelect ∅) 0 m) s) :
  s_loop s <> LReturned /\ r_stop (m_ring (s_mem s)) = 0%nat /\
  c_stopCh (r_c (m_ring (s_mem s))) = c_stopCh (r_c (m_ring m)) /\
  forall inflight cr rest r,
    s_loop s = LSelect inflight -> m_sq (s_mem s) = None ->
    r_completions (m_ring (s_mem s)) = cr :: rest -> m_reqs (s_mem s) !! cr = Some r ->
    exists m', rtc (sstep fuel) s (mkSys (s_clients s) (LBody (Panic nil_msg)) (s_retry s) m').
Proof.
  assert (stays (c_stopCh (r_c (m_ring m))) s) as [Hs _ Hl].
  { eapply stays_reachable; [|exact Hr]. split; [unfold stop_messages; cbn; by rewrite H0| |done].
    cbn. apply Forall_fmap, Forall_true. intros l. apply silent_client. }
  unfold stop_messages in Hs. injection Hs as Hs Hsc.
  split_and!; [by intros E; rewrite E in Hl|done|done|]. destruct s as [ps l retry m1]. cbn.
  intros inflight cr rest r -> Hq Hc Hreq. eexists.
  eapply rtc_l; [apply sstep_loop; by eapply lstep_completion|].
  eapply body_panics, run_completion_nil; [exact Hreq|exact Hq].
Qed.

(** ** Witness: Stop while a call waits for its completion *)

Definition stop_clients : list (list api) := [[ABlocking RNop]; [AStop]].

Definition stop_start : system unit :=
  mkSys (api_client (K := still_kernel 0 0) 2 <$> stop_clients) (LSelect ∅) 0 sample_mem.

(** The first goroutine has sent its request, then the second stops the ring. *)
Definition stop_moves : list move := replicate 21 (MClient 0) ++ replicate 9 (MClient 1).

Definition stop_system : system unit :=
  default stop_start (sys_run (H := still_kernel 0 0) 2 stop_moves stop_start).

Lemma stop_system_reached : rtc (sstep (H := still_kernel 0 0) 2) stop_start stop_system.
Proof.
  apply (sys_run_steps 2 stop_moves). unfold stop_system.
  assert (is_Some (sys_run (H := still_kernel 0 0) 2 stop_moves stop_start)) as [s Hs].
  { apply is_Some_alt. vm_compute. exact I. }
  by rewrite Hs.
Qed.

Lemma stop_system_state :
  s_loop stop_system = LSelect ∅ /\ m_sq (s_mem stop_system) = None /\
  r_completions (m_ring (s_mem stop_system)) = [0%nat] /\
  exists r, m_reqs (s_mem stop_system) !! 0%nat = Some r.
Proof. split_and!; [vm_compute; reflexivity..|]. eexists. vm_compute. reflexivity. Qed.

Lemma run_survives_Stop_witness :
  s_loop stop_system <> LReturned /\
  exists m', rtc (sstep (H := still_kernel 0 0) 2) stop_system
    (mkSys (s_clients stop_system) (LBody (Panic nil_msg)) (s_retry stop_system) m').
Proof.
  destruct (run_survives_Stop (still_kernel 0 0) 2 stop_clients sample_mem stop_system
              ltac:(vm_compute; reflexivity) stop_system_reached) as (H1 & _ & _ & H2).
  destruct stop_system_state as (Hl & Hq & Hc & r & Hr).
  split; [exact H1|]. exact (H2 ∅ 0%nat [] r Hl Hq Hc Hr).
Defined.
