(* ===== verification/FileIO.v ===== *)
(** * File I/O on a ring (read_writer.go, ring.go)

    [ringFIO]: reads and writes of a file through the ring, with its own file
    offset in a cell of the heap, and [Ring.fileReadWriter] that makes one. *)

From stdpp Require Import base list gmap strings.
From Stdlib Require Import ZArith Lia.
From S2P Require Import Prelude Prog Consts Types Machine Submission Ops Completer Register.

(** [ringFIO]: the descriptor (an [int32]), the descriptor of the [os.File], and
    the address of the offset. *)
Record ringFIO := mkFIO { fio_fd : Z; fio_file : Z; fio_fOffset : nat }.

(** [atomic.LoadInt64] and [atomic.StoreInt64]. *)
Definition cell_load (a : nat) : prog Mem Z := try_load nil_msg (fun m => m_cells m !! a).
Definition cell_store (a : nat) (v : Z) : prog Mem unit :=
  try_store nil_msg (fun m => _ ← m_cells m !! a; Some (set_m_cells (<[a := v]> (m_cells m)) m)).

Section FileIO.
Context `{K : Kernel} (fuel : nat).
Implicit Types (i : ringFIO).

(** ** getCqe *)

(** A matching completion at [x]: an error is returned; otherwise the offset moves
    and the position goes to the completer. *)
Definition fio_found i (x : Z) (cqe : CompletionEntry) : prog Mem (Z * err) :=
  if cqe_Res cqe <? 0 then Ret (0, Some (negErrno (cqe_Res cqe)))
  else
    o ← cell_load (fio_fOffset i);
    cell_store (fio_fOffset i) (i64 (o + cqe_Res cqe));;
    completer_complete fuel x;;
    Ret (cqe_Res cqe, None).

(** A pass returns, jumps back to [findCqe], or comes to the end of a loop. *)
Inductive fpass := FReturn (r : Z * err) | FAgain | FEnd.

Fixpoint fio_loop i (reqID : Z) (k : nat) (x end_ : Z) : prog Mem fpass :=
  match k with
  | O => Ret FEnd
  | S k =>
      cqe ← cq_entry x;
      if cqe_UserData cqe =? reqID then r ← fio_found i x cqe; Ret (FReturn r)
      else if x =? end_ then Ret FAgain
      else fio_loop i reqID k (x + 1) end_
  end.

Definition fio_pass i (reqID : Z) : prog Mem fpass :=
  head ← cq_load cq_Head;
  tail ← cq_load cq_Tail;
  mask ← cq_load cq_Mask;
  n ← cq_load (fun c => len (cq_Entries c));
  let x := Z.land head mask in
  r ← fio_loop i reqID (Z.to_nat (n - x)) x (Z.land tail mask);
  match r with
  | FReturn _ | FAgain => Ret r
  | FEnd =>
      tail ← cq_load cq_Tail;
      mask ← cq_load cq_Mask;
      let end_ := Z.land tail mask in
      r ← fio_loop i reqID (Z.to_nat end_) 0 end_;
      match r with
      | FReturn _ => Ret r
      | _ => Ret FAgain
      end
  end.

Fixpoint fio_find (tries : nat) i (reqID : Z) : prog Mem (Z * err) :=
  match tries with
  | O => Starve
  | S tries =>
      r ← fio_pass i reqID;
      match r with
      | FReturn x => Ret x
      | _ => fio_find tries i reqID
      end
  end.

(** [ringFIO.getCqe]. *)
Definition fio_getCqe i (reqID count min : Z) : prog Mem (Z * err) :=
  e ← (if (0 <? count) || (0 <? min) then
         '(_, e) ← Ring_Enter fuel (u64 count) (u64 min) EnterGetEvents; Ret e
       else Ret None);
  match e with
  | Some e => Ret (0, Some e)
  | None => fio_find fuel i reqID
  end.

(** ** Operations *)

(** The stores the four operations share; they differ in the opcode, the flags and
    the offset. *)
Definition fio_fill i (op : Opcode) (b : slice) (flags : Z) (offset : prog Mem Z) (sqe : Z)
  : prog Mem unit :=
  sqe .=(set_sqe_Opcode) op;;
  id ← Ring_ID; sqe .=(set_sqe_UserData) id;;
  sqe .=(set_sqe_Fd) (fio_fd i);;
  sqe .=(set_sqe_Len) (u32 (sl_Len b));;
  sqe .=(set_sqe_Flags) flags;;
  o ← offset; sqe .=(set_sqe_Offset) (u64 o);;
  a ← elem0 b; sqe .=(set_sqe_Addr) (u64 a).

(** [ringFIO.PrepareWrite] and [PrepareRead]: the identifier, the callback and the
    error. *)
Definition fio_prepare i (op : Opcode) (b : slice) (flags : Z) : prog Mem (Z * prog Mem unit * err) :=
  '(sqe, rdy) ← Ring_SubmitEntry fuel;
  match sqe with
  | None => Ret (0, Ret tt, Some errRingUnavailable)
  | Some s =>
      fio_fill i op b flags (cell_load (fio_fOffset i)) s;;
      e ← sq_entry s;
      Ret (sqe_UserData e, rdy, None)
  end.
Definition fio_PrepareWrite i (b : slice) (flags : Z) := fio_prepare i Write b flags.
Definition fio_PrepareRead i (b : slice) (flags : Z) := fio_prepare i Read b flags.

(** The result of a read: nothing read is the end of the file. *)
Definition read_result (r : Z * err) : Z * err :=
  match r with
  | (_, Some e) => (0, Some e)
  | (n, None) => if n =? 0 then (n, Some EOF) else (n, None)
  end.

Definition fio_Write i (b : slice) : prog Mem (Z * err) :=
  '(id, rdy, e) ← fio_PrepareWrite i b 0;
  match e with
  | Some e => Ret (0, Some e)
  | None => rdy;; fio_getCqe i id 1 1
  end.

Definition fio_Read i (b : slice) : prog Mem (Z * err) :=
  '(id, rdy, e) ← fio_PrepareRead i b 0;
  match e with
  | Some e => Ret (0, Some e)
  | None => rdy;; r ← fio_getCqe i id 1 1; Ret (read_result r)
  end.

Definition fio_WriteAt i (b : slice) (o : Z) : prog Mem (Z * err) :=
  '(sqe, rdy) ← Ring_SubmitEntry fuel;
  match sqe with
  | None => Ret (0, Some errRingUnavailable)
  | Some s =>
      fio_fill i Write b 0 (Ret o) s;;
      rdy;;
      e ← sq_entry s;
      fio_getCqe i (sqe_UserData e) 1 1
  end.

Definition fio_ReadAt i (b : slice) (o : Z) : prog Mem (Z * err) :=
  '(sqe, rdy) ← Ring_SubmitEntry fuel;
  match sqe with
  | None => Ret (0, Some errRingUnavailable)
  | Some s =>
      fio_fill i Read b 0 (Ret o) s;;
      rdy;;
      e ← sq_entry s;
      r ← fio_getCqe i (sqe_UserData e) 1 1;
      Ret (read_result r)
  end.

Definition fio_Close i : prog Mem err :=
  '(id, e) ← PrepareClose fuel (fio_fd i);
  match e with
  | Some e => Ret (Some e)
  | None => '(_, e) ← fio_getCqe i id 1 1; Ret e
  end.

(** [io.SeekStart], [io.SeekCurrent], [io.SeekEnd]. *)
Definition SeekStart : Z := 0.
Definition SeekCurrent : Z := 1.
Definition SeekEnd : Z := 2.

(** [ringFIO.Seek]; [f.Stat] is the system call with the size as its result. *)
Definition fio_Seek i (offset whence : Z) : prog Mem (Z * err) :=
  if whence =? SeekStart then
    cell_store (fio_fOffset i) offset;; Ret (0, None)
  else if whence =? SeekCurrent then
    o ← cell_load (fio_fOffset i);
    cell_store (fio_fOffset i) (i64 (o + offset));; Ret (0, None)
  else if whence =? SeekEnd then
    r ← syscall_file (SysStat (fio_file i));
    if negb (sys_errno r =? 0) then Ret (0, Some (Errno (sys_errno r)))
    else cell_store (fio_fOffset i) (i64 (i64 (sys_r1 r) - offset));; Ret (0, None)
  else Ret (0, Some (ErrMsg "unknown whence")).

(** [Ring.fileReadWriter]: the file is moved to its start
    and the offset is a new cell. *)
Definition Ring_fileReadWriter (fd : Z) : prog Mem (option ringFIO * err) :=
  r ← syscall (SysSeek fd 0 0);
  if negb (sys_errno r =? 0) then Ret (None, Some (Errno (sys_errno r)))
  else
    a ← act (fun m =>
      let a := fresh (dom (m_cells m)) in
      (a, set_m_cells (<[a := i64 (sys_r1 r)]> (m_cells m)) m));
    let rw := mkFIO (i32 fd) fd a in
    reg ← ring_load r_fileReg;
    match reg with
    | None => Ret (Some rw, None)
    | Some _ => e ← fileRegistry_Register fd; Ret (Some rw, e)
    end.

(** [ReadWriteSeekerCloser] (consts.go), and a ring file as one. *)
Record ReadWriteSeekerCloser := mkRWSC {
  rw_Read : slice -> prog Mem (Z * err);
  rw_Write : slice -> prog Mem (Z * err);
  rw_Seek : Z -> Z -> prog Mem (Z * err);
  rw_Close : prog Mem err;
  rw_ReadAt : slice -> Z -> prog Mem (Z * err);
  rw_WriteAt : slice -> Z -> prog Mem (Z * err)
}.
Definition ring_rw (i : ringFIO) : ReadWriteSeekerCloser :=
  mkRWSC (fio_Read i) (fio_Write i) (fio_Seek i) (fio_Close i) (fio_ReadAt i) (fio_WriteAt i).

(** [Ring.FileReadWriter]. *)
Definition Ring_FileReadWriter (fd : Z) : prog Mem (option ReadWriteSeekerCloser * err) :=
  '(rw, e) ← Ring_fileReadWriter fd;
  Ret (option_map ring_rw rw, e).
End FileIO.
