(* ===== verification/FileIOSpec.v ===== *)
(** * Properties of file I/O on a ring

    A transfer from the submission entry to the completion and the file offset,
    and the offsets [Seek] stores. *)

From stdpp Require Import base list gmap strings.
From Stdlib Require Import ZArith Lia.
From S2P Require Import Prelude Prog Consts Types Machine Samples Submission SubmissionSpec Ops.
From S2P Require Import OpsSpec Completion CompletionSpec SearchSpec RunLoop RunLoopSpec Completer FileIO.

Section Submit.
Context `{K : Kernel} (fuel : nat).
Implicit Types (m : Mem) (q : SubmitQueue) (i : ringFIO).

(** What the stores make of an entry. *)
Definition fio_entry i (op : Opcode) (b : slice) (flags o id : Z) (e : SubmitEntry_t) : SubmitEntry_t :=
  mkSQE op flags (sqe_Ioprio e) (fio_fd i) (u64 o) (u64 (sl_Data b)) (u32 (sl_Len b))
    (sqe_UFlags e) id (sqe_Anon0 e).

Lemma put_entry_ext s g h m :
  (forall e, g e = h e) -> put_entry s g m = put_entry s h m.
Proof.
  intros H. unfold put_entry. destruct (m_sq m); [|done]. do 2 f_equal.
  apply list_alter_ext; auto.
Qed.

Lemma m_cells_put_entry s g m : m_cells (put_entry s g m) = m_cells m.
Proof. unfold put_entry. by destruct (m_sq m). Qed.

Lemma runs_fio_fill i op b flags offset o s m :
  claimed s m -> 0 < sl_Len b ->
  (forall m', m_cells m' = m_cells m -> runs offset m' o m') ->
  runs (fio_fill i op b flags offset s) m tt
    (put_entry s (fio_entry i op b flags o (next_id m)) (bump m)).
Proof.
  intros Hc Hb Ho. unfold fio_fill.
  eapply runs_bind; [by apply runs_update|].
  eapply runs_bind; [by apply runs_act|]. cbn beta.
  change (upd_ring _ _) with (bump (put_entry s (set_sqe_Opcode op) m)).
  rewrite bump_put_entry.
  do 4 (eapply runs_bind; [apply runs_update; repeat apply claimed_put_entry; done|];
        rewrite put_entry_put_entry).
  eapply runs_bind; [apply Ho; by rewrite m_cells_put_entry|].
  eapply runs_bind; [apply runs_update; by apply claimed_put_entry|].
  rewrite put_entry_put_entry. unfold elem0. rewrite (proj2 (Z.ltb_lt _ _) Hb).
  eapply runs_bind; [apply runs_ret|].
  eapply runs_eq; [apply runs_update; by apply claimed_put_entry|done|].
  rewrite put_entry_put_entry. apply put_entry_ext. intros e.
  cbn. do 2 f_equal. unfold next_id. unfold put_entry. by destruct (m_sq m).
Qed.

(** The memory after the entry is filled in and published. *)
Definition fio_submitted i op b flags o m q : Mem :=
  bump (add_claim (sq_tail_pos q) (put_sq (sq_submit (fio_entry i op b flags o (next_id m)) q) m)).

Lemma runs_fio_entry i op b flags offset o m q :
  m_sq m = Some q -> sq_open q -> 0 < sl_Len b ->
  (forall m', m_cells m' = m_cells m -> runs offset m' o m') ->
  exists rdy m1 m2 e, rdy = ready (S fuel) (sq_tail_pos q + 1) (sq_Head q) (sq_Mask q) /\
    runs (Ring_SubmitEntry (S fuel)) m (Some (sq_tail_pos q), rdy) m1 /\
    runs (fio_fill i op b flags offset (sq_tail_pos q)) m1 tt m2 /\
    runs (sq_entry (sq_tail_pos q)) m2 e m2 /\ sqe_UserData e = next_id m /\
    runs rdy m2 tt (fio_submitted i op b flags o m q) /\
    runs (sq_entry (sq_tail_pos q)) (fio_submitted i op b flags o m q) e
      (fio_submitted i op b flags o m q).
Proof.
  intros Hm Ho Hb Hoff. pose proof (sqo_wf q Ho) as Hwf. destruct Ho as [_ He Hw].
  pose proof (sq_tail_pos_range q Hwf) as Hpos.
  destruct (slice_get_in (sq_Entries q) (sq_tail_pos q)) as [e Hget]; [done|].
  set (g := fio_entry i op b flags o (next_id m)).
  set (m1 := add_claim (sq_tail_pos q) (put_sq (sq_claim q) m)).
  set (q2 := set_sq_Entries (alter g (Z.to_nat (sq_tail_pos q)) (sq_Entries (sq_claim q))) (sq_claim q)).
  assert (slice_get (sq_Entries q2) (sq_tail_pos q) = Some (g (SubmitEntry_Reset e))) as Hget2.
  { by do 2 apply slice_get_alter_eq. }
  eexists _, m1, (put_sq q2 (bump m1)), (g (SubmitEntry_Reset e)). split; [reflexivity|]. split_and!.
  - by apply runs_SubmitEntry.
  - apply (runs_fio_fill i op b flags offset o (sq_tail_pos q) m1); [|done|done].
    eexists _, _. split; [done|]. by apply slice_get_alter_eq.
  - by eapply runs_sq_entry.
  - done.
  - eapply runs_eq; [apply (runs_ready _ q2); [done| |cbn; by autorewrite with slices|]|done|].
    + apply (sq_wf_update q); cbn; autorewrite with slices; auto with slices.
    + cbn. rewrite uwrap_id by (unfold is_uint; lia). lia.
    + unfold m1, q2, fio_submitted, g. destruct m as [[] ? ? ? ? ? ? ? ?], q.
      unfold bump, add_claim, put_sq, sq_submit, sq_publish. cbn in *.
      rewrite (uwrap_id 32 (_ + 1)) by (unfold is_uint; lia).
      by rewrite Z.add_simpl_r, uwrap_id by (unfold is_uint; lia).
  - eapply runs_sq_entry; [done|]. exact Hget2.
Qed.
End Submit.

Section Find.
Context (fuel : nat).
Implicit Types (m : Mem) (c : CompletionQueue) (i : ringFIO).

Lemma find_from_cons es id x k e :
  0 <= x -> slice_get es x = Some e ->
  find_from es id x (S k) =
  if decide (cqe_UserData e = id) then Some x else find_from es id (x + 1) k.
Proof.
  intros Hx He. unfold find_from. rewrite (drop_cons_slice _ _ e) by done. cbn [take list_find].
  case_decide; cbn; [f_equal; lia|].
  replace (S (Z.to_nat x)) with (Z.to_nat (x + 1)) by lia.
  destruct (list_find _ _) as [[]|]; cbn; [f_equal; lia|done].
Qed.

Lemma runs_fio_loop i id end_ j e r m m' c k : forall x,
  m_cq m = Some c -> 0 <= x -> x + Z.of_nat k <= len (cq_Entries c) ->
  find_from (cq_Entries c) id x k = Some j -> (forall y, x <= y < j -> y <> end_) ->
  slice_get (cq_Entries c) j = Some e -> runs (fio_found fuel i j e) m r m' ->
  runs (fio_loop fuel i id k x end_) m (FReturn r) m'.
Proof.
  induction k as [|k IH]; intros x Hm Hx Hk Hf He Hj Hr; [done|].
  destruct (slice_get_in (cq_Entries c) x) as [e' He']; [lia|].
  rewrite (find_from_cons _ _ _ _ e') in Hf by done. cbn [fio_loop].
  eapply runs_bind; [by eapply (runs_cq_entry _ c)|].
  case_decide as Hid.
  - simplify_eq. rewrite (proj2 (Z.eqb_eq _ _)) by done.
    eapply runs_bind; [exact Hr|]. apply runs_ret.
  - rewrite (proj2 (Z.eqb_neq _ _)) by done.
    assert (x < j) as Hlt by (apply find_from_Some in Hf; lia).
    rewrite (proj2 (Z.eqb_neq x end_)) by (apply He; lia).
    apply IH; [done|lia|lia|done|intros y Hy; apply He; lia|done|done].
Qed.

Lemma runs_fio_loop_none i id end_ m c k : forall x,
  m_cq m = Some c -> 0 <= x -> x + Z.of_nat k <= len (cq_Entries c) ->
  find_from (cq_Entries c) id x k = None -> ~ (x <= end_ < x + Z.of_nat k) ->
  runs (fio_loop fuel i id k x end_) m FEnd m.
Proof.
  induction k as [|k IH]; intros x Hm Hx Hk Hf He; [apply runs_ret|].
  destruct (slice_get_in (cq_Entries c) x) as [e' He']; [lia|].
  rewrite (find_from_cons _ _ _ _ e') in Hf by done. cbn [fio_loop].
  eapply runs_bind; [by eapply (runs_cq_entry _ c)|]. case_decide; [done|].
  rewrite !(proj2 (Z.eqb_neq _ _)) by (done || lia). apply IH; [done|lia|lia|done|lia].
Qed.

(** Where the search finds the completion, in the order of the ring. *)
Definition fio_position (c : CompletionQueue) (id : Z) : option Z :=
  let h := cq_head_pos c in
  let t := cq_tail_pos c in
  if h <=? t then find_from (cq_Entries c) id h (Z.to_nat (t + 1 - h))
  else
    match find_from (cq_Entries c) id h (Z.to_nat (len (cq_Entries c) - h)) with
    | Some j => Some j
    | None => find_from (cq_Entries c) id 0 (Z.to_nat t)
    end.

Lemma find_from_more es id x k k' j :
  (k <= k')%nat -> find_from es id x k = Some j -> find_from es id x k' = Some j.
Proof.
  intros Hk. unfold find_from. set (l := drop _ es).
  destruct (list_find _ (take k l)) as [[n e]|] eqn:E; [|done]. intros Hj.
  apply list_find_Some in E as (Hn & He & Hall). apply lookup_take_Some in Hn as [Hn Hlt].
  assert (list_find (fun e => cqe_UserData e = id) (take k' l) = Some (n, e)) as ->; [|done].
  apply list_find_Some. split_and!; [by rewrite lookup_take_lt by lia|done|].
  intros n' e' Hn' Hlt'. apply (Hall n' e'); [|done].
  apply lookup_take_Some in Hn' as [Hn' _]. by rewrite lookup_take_lt by lia.
Qed.

Lemma runs_fio_find tries i id m c j e r m' :
  m_cq m = Some c -> cq_wf c -> fio_position c id = Some j ->
  slice_get (cq_Entries c) j = Some e -> runs (fio_found fuel i j e) m r m' ->
  runs (fio_find fuel (S tries) i id) m r m'.
Proof.
  intros Hm Hwf Hpos He Hr. cbn [fio_find]. apply (runs_bind _ _ m (FReturn r) m'); [|apply runs_ret].
  unfold fio_pass, fio_position in *. cbn zeta in Hpos.
  pose proof (cq_head_pos_range c Hwf) as Hh. pose proof (cq_tail_pos_range c Hwf) as Ht.
  do 4 (eapply runs_bind; [by apply runs_cq_load|]). cbn zeta. fold (cq_head_pos c) (cq_tail_pos c).
  revert Hpos. case Z.leb_spec; intros Hle Hpos.
  - apply (runs_bind _ _ m (FReturn r) m'); [|apply runs_ret].
    apply (runs_fio_loop i id _ j e r m m' c); [done|lia|lia| | |done|done].
    + eapply find_from_more; [|exact Hpos]. lia.
    + apply find_from_Some in Hpos; lia.
  - destruct (find_from _ _ (cq_head_pos c) _) as [j1|] eqn:E1; simplify_eq.
    + apply (runs_bind _ _ m (FReturn r) m'); [|apply runs_ret].
      apply (runs_fio_loop i id _ j e r m m' c); [done|lia|lia|done| |done|done].
      apply find_from_Some in E1; lia.
    + eapply runs_bind; [apply (runs_fio_loop_none i id _ m c); [done|lia|lia|done|lia]|].
      do 2 (eapply runs_bind; [by apply runs_cq_load|]). cbn zeta. fold (cq_tail_pos c).
      apply (runs_bind _ _ m (FReturn r) m'); [|apply runs_ret].
      apply (runs_fio_loop i id _ j e r m m' c); [done|lia|lia|done| |done|done].
      apply find_from_Some in Hpos; lia.
Qed.
End Find.

(** ** A transfer *)

(** A quiet ring, a file whose offset is [o], a buffer, and a kernel that takes the
    request and completes it with [e] when it is entered. *)
Record fio_ready {K : Kernel} (i : ringFIO) (b : slice) (o : Z) (e : CompletionEntry)
    (m : Mem) (q : SubmitQueue) (c : CompletionQueue) : Prop := {
  fr_sq : m_sq m = Some q;
  fr_open : sq_open q;
  fr_cq : m_cq m = Some c;
  fr_wf : cq_wf c;
  fr_empty : cq_Head c = cq_Tail c;
  fr_two : 2 <= len (cq_Entries c);
  fr_cell : m_cells m !! fio_fOffset i = Some o;
  fr_buf : 0 < sl_Len b;
  fr_room : (length (c_seen (r_c (m_ring m))) < c_bufSize (r_c (m_ring m)))%nat;
  fr_id : cqe_UserData e = next_id m;
  fr_errno : forall h call, sys_errno (k_answer h call) = 0;
  fr_posts : posts K e c
}.

(** What a transfer leaves: the entry the kernel was handed, the file offset, and
    the positions given to the completer. *)
Record transferred (i : ringFIO) (op : Opcode) (b : slice) (offset o : Z) (e : CompletionEntry)
    (m : Mem) (q : SubmitQueue) (c : CompletionQueue) (m' : Mem) : Prop := {
  tr_entry : exists q' anon, m_sq m' = Some q' /\
    slice_get (sq_Entries q') (sq_tail_pos q) =
      Some (mkSQE op 0 0 (fio_fd i) (u64 offset) (u64 (sl_Data b)) (u32 (sl_Len b)) 0
              (cqe_UserData e) anon);
  tr_offset : m_cells m' !! fio_fOffset i =
    Some (if cqe_Res e <? 0 then o else i64 (o + cqe_Res e));
  tr_seen : c_seen (r_c (m_ring m')) =
    c_seen (r_c (m_ring m)) ++ (if cqe_Res e <? 0 then [] else [cq_tail_pos c])
}.

Section Transfer.
Context {K : Kernel} (fuel : nat).
Context (i : ringFIO) (b : slice) (o : Z) (e : CompletionEntry).
Context (m : Mem) (q : SubmitQueue) (c : CompletionQueue).
Context (H : fio_ready i b o e m q c).

Definition transfer_result : Z * err :=
  if cqe_Res e <? 0 then (0, Some (negErrno (cqe_Res e))) else (cqe_Res e, None).

Lemma posted_position : fio_position (posted_cq e c) (cqe_UserData e) = Some (cq_tail_pos c).
Proof.
  pose proof (fr_wf _ _ _ _ _ _ _ H) as Hwf.
  pose proof (posted_wf e c Hwf) as Hwf'. pose proof (cq_head_pos_range _ Hwf') as Hh.
  assert (cq_head_pos (posted_cq e c) = cq_tail_pos c) as E.
  { unfold cq_head_pos, cq_tail_pos. cbn. by rewrite (fr_empty _ _ _ _ _ _ _ H). }
  assert (slice_get (cq_Entries (posted_cq e c)) (cq_tail_pos c) = Some e) as Hget.
  { cbn. apply slice_get_insert_eq. auto with slices. }
  unfold fio_position. cbn zeta. rewrite E in *.
  case Z.leb_spec; intros Hle.
  - destruct (Z.to_nat _) as [|k] eqn:Ek; [lia|].
    rewrite (find_from_cons _ _ _ _ e) by (done || lia). by rewrite decide_True.
  - destruct (Z.to_nat (len _ - _)) as [|k] eqn:Ek; [lia|].
    rewrite (find_from_cons _ _ _ _ e) by (done || lia). by rewrite decide_True.
Qed.

(** From the published entry to the result. *)
Lemma runs_fio_getCqe op offset :
  let ms := fio_submitted i op b 0 offset m q in
  exists m', runs (fio_getCqe (S fuel) i (next_id m) 1 1) ms transfer_result m' /\
    transferred i op b offset o e m q c m'.
Proof.
  intros ms. destruct H as [Hsq Ho Hcq Hwf Hem Htwo Hcell Hbuf Hroom Hid HK Hpost].
  set (q1 := sq_submit (fio_entry i op b 0 offset (next_id m)) q).
  assert (sq_entered q1 = 0) as He by apply Ho.
  set (m1 := entered_mem ms q1 (u64 1) (u64 1) EnterGetEvents).
  assert (m_cq m1 = Some (posted_cq e c)) as Hcq1.
  { assert (m_cq ms = Some c) as Hms by exact Hcq.
    change (view_cq (k_enter (m_hist ms) (enter_call ms q1 (u64 1) (u64 1) EnterGetEvents)
      (Some (set_sq_entered 1 q1)) (m_cq ms) (m_store ms)) <$> m_cq ms = Some (posted_cq e c)).
    rewrite Hms. cbn. f_equal. apply Hpost. }
  assert (exists q2 anon, m_sq m1 = Some q2 /\ slice_get (sq_Entries q2) (sq_tail_pos q) =
      Some (mkSQE op 0 0 (fio_fd i) (u64 offset) (u64 (sl_Data b)) (u32 (sl_Len b)) 0
              (cqe_UserData e) anon)) as Hentry.
  { destruct (slice_get_in (sq_Entries q) (sq_tail_pos q)) as [x Hx];
      [apply sq_tail_pos_range, Ho|].
    eexists _, (sqe_Anon0 x). split; [reflexivity|]. cbn. rewrite Hid.
    change (mkSQE op 0 0 (fio_fd i) (u64 offset) (u64 (sl_Data b)) (u32 (sl_Len b)) 0 (next_id m)
      (sqe_Anon0 x)) with (fio_entry i op b 0 offset (next_id m) (SubmitEntry_Reset x)).
    by do 2 apply slice_get_alter_eq. }
  assert (exists m', runs (fio_found (S fuel) i (cq_tail_pos c) e) m1 transfer_result m' /\
    transferred i op b offset o e m q c m') as (m' & Hf & Ht).
  { unfold fio_found, transfer_result. destruct (cqe_Res e <? 0) eqn:Er.
    - exists m1. split; [apply runs_ret|]. split; rewrite ?Er; [done|done|].
      by rewrite app_nil_r.
    - eexists. split.
      + eapply runs_bind; [apply runs_try_load; exact Hcell|].
        eapply runs_bind; [apply runs_try_store; cbn; rewrite Hcell; reflexivity|].
        eapply runs_bind; [by apply runs_completer_complete|]. apply runs_ret.
      + split; rewrite ?Er; [exact Hentry|cbn; apply lookup_insert_eq|done]. }
  exists m'. split; [|done]. unfold fio_getCqe. cbn [orb Z.ltb].
  eapply runs_bind.
  { change ((0 <? 1) || (0 <? 1)) with true. cbn iota.
    eapply runs_bind; [by apply (runs_Ring_Enter fuel _ _ _ ms q1)|].
    unfold enter_result. rewrite HK. apply runs_ret. }
  cbn beta iota. fold m1.
  eapply (runs_fio_find (S fuel) fuel i (next_id m) m1 (posted_cq e c) (cq_tail_pos c) e);
    [done|by apply posted_wf|rewrite <- Hid; apply posted_position| |done].
  cbn. apply slice_get_insert_eq. auto with slices.
Qed.

Lemma runs_fio_rw op :
  exists rdy m1 m', runs (fio_prepare (S fuel) i op b 0) m (next_id m, rdy, None) m1 /\
    runs (rdy;; fio_getCqe (S fuel) i (next_id m) 1 1) m1 transfer_result m' /\
    transferred i op b o o e m q c m'.
Proof.
  destruct (runs_fio_entry fuel i op b 0 (cell_load (fio_fOffset i)) o m q)
    as (rdy & m1 & m2 & x & _ & H1 & H2 & H3 & Hx & H4 & _); [apply H|apply H|apply H| |].
  { intros m' Hc. apply runs_try_load. rewrite Hc. apply H. }
  destruct (runs_fio_getCqe op o) as (m' & Hg & Ht).
  exists rdy, m2, m'. split_and!; [|by eapply runs_bind|done].
  unfold fio_prepare. eapply runs_bind; [exact H1|]. cbn beta iota.
  eapply runs_bind; [exact H2|]. eapply runs_bind; [exact H3|]. rewrite Hx. apply runs_ret.
Qed.

Lemma runs_fio_at op offset :
  exists m', runs ('(sqe, rdy) ← Ring_SubmitEntry (S fuel);
      match sqe with
      | None => Ret (0, Some errRingUnavailable)
      | Some s =>
          fio_fill i op b 0 (Ret offset) s;; rdy;;
          x ← sq_entry s; fio_getCqe (S fuel) i (sqe_UserData x) 1 1
      end) m transfer_result m' /\
    transferred i op b offset o e m q c m'.
Proof.
  destruct (runs_fio_entry fuel i op b 0 (Ret offset) offset m q)
    as (rdy & m1 & m2 & x & _ & H1 & H2 & _ & Hx & H4 & H5); [apply H|apply H|apply H| |].
  { intros m' _. apply runs_ret. }
  destruct (runs_fio_getCqe op offset) as (m' & Hg & Ht). exists m'. split; [|done].
  eapply runs_bind; [exact H1|]. cbn beta iota. eapply runs_bind; [exact H2|].
  eapply runs_bind; [exact H4|]. eapply runs_bind; [exact H5|]. by rewrite Hx.
Qed.
End Transfer.

(** C31. [Write] and [Read] on a quiet ring, with a call of io_uring_enter that
    succeeds: the kernel is handed one entry with the
    descriptor, the file offset, the address and the length of the buffer; the
    call returns the result of its completion, a negative one as the error
    number, a read of nothing as the end of the file; the file offset moves by
    the bytes transferred and the position of the completion goes to the
    completer.  A completion with an error is not given to the completer. *)
Theorem fio_read_write {K : Kernel} (fuel : nat) (i : ringFIO) (b : slice) (o : Z)
    (e : CompletionEntry) (m : Mem) (q : SubmitQueue) (c : CompletionQueue)
    (H : fio_ready i b o e m q c) :
  (exists m', runs (fio_Write (S fuel) i b) m
      (if cqe_Res e <? 0 then (0, Some (negErrno (cqe_Res e))) else (cqe_Res e, None)) m' /\
    transferred i Write b o o e m q c m') /\
  exists m', runs (fio_Read (S fuel) i b) m
      (if cqe_Res e <? 0 then (0, Some (negErrno (cqe_Res e)))
       else if cqe_Res e =? 0 then (0, Some EOF) else (cqe_Res e, None)) m' /\
    transferred i Read b o o e m q c m'.
Proof.
  split.
  - destruct (runs_fio_rw fuel i b o e m q c H Write) as (rdy & m1 & m' & H1 & H2 & Ht).
    exists m'. split; [|done]. eapply runs_bind; [exact H1|]. exact H2.
  - destruct (runs_fio_rw fuel i b o e m q c H Read) as (rdy & m1 & m' & H1 & H2 & Ht).
    exists m'. split; [|done]. unfold fio_Read. eapply runs_bind; [exact H1|]. cbn beta iota.
    eapply runs_eq; [by apply (runs_bind_map _ _ read_result)| |reflexivity].
    unfold transfer_result, read_result. destruct (cqe_Res e <? 0); [done|].
    case Z.eqb_spec; [by intros ->|done].
Qed.

(** [WriteAt] and [ReadAt] transfer at the given offset and also move the file
    offset, although the interfaces [io.WriterAt] and [io.ReaderAt] they
    implement leave it alone. *)
Theorem fio_at_moves_offset {K : Kernel} (fuel : nat) (i : ringFIO) (b : slice) (o at_ : Z)
    (e : CompletionEntry) (m : Mem) (q : SubmitQueue) (c : CompletionQueue)
    (H : fio_ready i b o e m q c) (Hres : 0 < cqe_Res e) :
  (exists m', runs (fio_WriteAt (S fuel) i b at_) m (cqe_Res e, None) m' /\
    transferred i Write b at_ o e m q c m' /\
    m_cells m' !! fio_fOffset i = Some (i64 (o + cqe_Res e))) /\
  exists m', runs (fio_ReadAt (S fuel) i b at_) m (cqe_Res e, None) m' /\
    transferred i Read b at_ o e m q c m' /\
    m_cells m' !! fio_fOffset i = Some (i64 (o + cqe_Res e)).
Proof.
  assert (transfer_result e = (cqe_Res e, None)) as E.
  { unfold transfer_result. by rewrite (proj2 (Z.ltb_ge _ _)) by lia. }
  assert (forall op m', transferred i op b at_ o e m q c m' ->
    m_cells m' !! fio_fOffset i = Some (i64 (o + cqe_Res e))) as Hoff.
  { intros op m' Ht. rewrite (tr_offset _ _ _ _ _ _ _ _ _ _ Ht).
    by rewrite (proj2 (Z.ltb_ge _ _)) by lia. }
  split.
  - destruct (runs_fio_at fuel i b o e m q c H Write at_) as (m' & H1 & Ht).
    exists m'. rewrite E in H1. split_and!; [exact H1|done|by eapply Hoff].
  - destruct (runs_fio_at fuel i b o e m q c H Read at_) as (m' & H1 & Ht).
    exists m'. rewrite E in H1. split_and!; [|done|by eapply Hoff].
    intros n. destruct (H1 n) as [n' En]. exists n'. revert En. unfold fio_ReadAt.
    rewrite !run_bind. destruct (run quiet (Ring_SubmitEntry (S fuel)) n m) as [[[s|] rdy] m2 n2| |];
      [|done|done|done].
    rewrite !run_bind. destruct (run quiet (fio_fill _ _ _ _ _ _) n2 m2) as [? m3 n3| |]; [|done|done].
    rewrite !run_bind. destruct (run quiet rdy n3 m3) as [? m4 n4| |]; [|done|done].
    rewrite !run_bind. destruct (run quiet (sq_entry s) n4 m4) as [x m5 n5| |]; [|done|done].
    rewrite run_bind. intros ->. cbn. by rewrite (proj2 (Z.eqb_neq _ _)) by lia.
Qed.

(** [Seek] on every branch: it stores the offset from the start, adds to the
    current one, or stores the size {e minus} the offset; in all three cases it
    returns 0 and not the new offset as [io.Seeker] asks; any other origin is an
    error. *)
Theorem fio_Seek_spec {K : Kernel} (i : ringFIO) (o offset whence : Z) (m : Mem)
    (Hcell : m_cells m !! fio_fOffset i = Some o) :
  let r := (k_file (m_hist m) (SysStat (fio_file i)) (m_store m)).1 in
  exists m', runs (fio_Seek i offset whence) m
      (0, if whence =? SeekEnd
          then (if sys_errno r =? 0 then None else Some (Errno (sys_errno r)))
          else if (whence =? SeekStart) || (whence =? SeekCurrent) then None
          else Some (ErrMsg "unknown whence")) m' /\
    m_cells m' !! fio_fOffset i =
      Some (if whence =? SeekStart then offset
            else if whence =? SeekCurrent then i64 (o + offset)
            else if (whence =? SeekEnd) && (sys_errno r =? 0) then i64 (i64 (sys_r1 r) - offset)
            else o).
Proof.
  intros r. unfold fio_Seek. assert (forall v m', m_cells m' = m_cells m ->
    runs (cell_store (fio_fOffset i) v;; Ret (0, None : err)) m' (0, None)
      (set_m_cells (<[fio_fOffset i := v]> (m_cells m)) m')) as Hst.
  { intros v m' Hc. eapply runs_bind; [apply runs_try_store; rewrite Hc, Hcell; reflexivity|].
    rewrite <- Hc. apply runs_ret. }
  destruct (Z.eqb_spec whence SeekStart) as [->|H0]; [|destruct (Z.eqb_spec whence SeekCurrent) as [->|H1];
    [|destruct (Z.eqb_spec whence SeekEnd) as [->|H2]]].
  - eexists. split; [by apply Hst|]. cbn. apply lookup_insert_eq.
  - eexists. split; [eapply runs_bind; [by apply runs_try_load|]; by apply Hst|].
    cbn. apply lookup_insert_eq.
  - unfold r. destruct (k_file (m_hist m) (SysStat (fio_file i)) (m_store m)) as [res st] eqn:Ek. cbn [fst].
    destruct (sys_errno res =? 0) eqn:E; eexists; (split; [eapply runs_bind; [apply runs_act; by rewrite Ek|];
      cbn beta; rewrite E; cbn [negb]|]).
    + by apply Hst.
    + cbn. apply lookup_insert_eq.
    + apply runs_ret.
    + exact Hcell.
  - eexists. split; [apply runs_ret|done].
Qed.

(** ** Witnesses *)

Definition file_mem : Mem := set_m_cells {[0%nat := 100]} sample_mem.
Definition sample_fio : ringFIO := mkFIO 9 9 0.
Definition sample_buf : slice := mkSlice 65536 4096 4096.

Lemma sample_fio_ready :
  @fio_ready (posting_kernel (mkCQE 1 512 0)) sample_fio sample_buf 100 (mkCQE 1 512 0)
    file_mem sample_sq sample_cq.
Proof.
  split; try reflexivity.
  - apply sample_sq_open.
  - apply sample_cq_wf.
  - vm_compute. discriminate.
  - cbn. lia.
  - intros h call q st. vm_compute. reflexivity.
Qed.

Lemma fio_read_write_witness :
  let K := posting_kernel (mkCQE 1 512 0) in
  let e := mkCQE 1 512 0 in
  (exists m', runs (fio_Write 1 sample_fio sample_buf) file_mem (512, None) m' /\
    transferred sample_fio Write sample_buf 100 100 e file_mem sample_sq sample_cq m') /\
  exists m', runs (fio_Read 1 sample_fio sample_buf) file_mem (512, None) m' /\
    transferred sample_fio Read sample_buf 100 100 e file_mem sample_sq sample_cq m'.
Proof.
  intros K e. exact (fio_read_write (K := K) 0 sample_fio sample_buf 100 e file_mem sample_sq
    sample_cq sample_fio_ready).
Defined.

Lemma fio_at_moves_offset_witness :
  let K := posting_kernel (mkCQE 1 512 0) in
  let e := mkCQE 1 512 0 in
  (exists m', runs (fio_WriteAt 1 sample_fio sample_buf 7) file_mem (512, None) m' /\
    transferred sample_fio Write sample_buf 7 100 e file_mem sample_sq sample_cq m' /\
    m_cells m' !! 0%nat = Some 612) /\
  exists m', runs (fio_ReadAt 1 sample_fio sample_buf 7) file_mem (512, None) m' /\
    transferred sample_fio Read sample_buf 7 100 e file_mem sample_sq sample_cq m' /\
    m_cells m' !! 0%nat = Some 612.
Proof.
  intros K e. refine (fio_at_moves_offset (K := K) 0 sample_fio sample_buf 100 7 e file_mem sample_sq
    sample_cq sample_fio_ready _). reflexivity.
Defined.

Lemma fio_Seek_spec_witness :
  let K := still_kernel 5000 0 in
  exists m', runs (fio_Seek sample_fio 10 SeekEnd) file_mem (0, None) m' /\
    m_cells m' !! 0%nat = Some 4990.
Proof.
  intros K. exact (fio_Seek_spec (K := K) sample_fio 100 10 SeekEnd file_mem eq_refl).
Defined.
