(* ===== verification/Rely.v ===== *)
(** * A client of the ring among the completer

    The goroutine of the completer changes two things behind a client's back:
    the head of the completion queue and the channel of handled positions.  A
    program that does not look at them is [blind], and its sequential run is its
    run among the completer.  [wp] is a program logic for the others: between any
    two actions of the client the completer may have made any number of steps
    ([rely]), and the client itself only hands in positions ([guar]). *)

From stdpp Require Import base list gmap strings.
From Stdlib Require Import ZArith Lia.
From S2P Require Import Prelude Prog Consts Types Machine.

(** ** What the completer changes *)

Definition m_seen (m : Mem) : list Z := c_seen (r_c (m_ring m)).
Definition m_head (m : Mem) : option Z := cq_Head <$> m_cq m.

Definition upd_hs (h : Z) (s : list Z) (m : Mem) : Mem :=
  upd_ring (fun r => set_r_c (set_c_seen s (r_c r)) (set_r_cq (set_cq_Head h <$> r_cq r) r)) m.

(** What nobody changes: whether there are queues, the size and the mask of the
    completion queue, the capacity of the channel and the stop requests. *)
Definition stat (m : Mem) : option (Z * Z) * nat * nat :=
  (match m_sq m with
   | Some _ => (fun c => (len (cq_Entries c), cq_Mask c)) <$> m_cq m
   | None => None
   end, c_bufSize (r_c (m_ring m)), c_stopCh (r_c (m_ring m))).

(** There is room in the channel. *)
Definition has_room (m : Mem) : Prop := (length (m_seen m) < c_bufSize (r_c (m_ring m)))%nat.

Section Logic.
(** The number of completion entries, and whether the completer is assumed to keep
    up, so that the channel has room whenever the client looks at it. *)
Context (n : Z) (keeps_up : bool).

(** All completions before the [T]-th were handed in, in order; those still in the
    channel and perhaps the one before, which the completer has in its hands, are
    not behind the head yet. *)
Definition seen_ok (T : Z) (m : Mem) : Prop :=
  let k := Z.of_nat (length (m_seen m)) in
  exists b, stat m = (Some (n, n - 1), b, 0%nat) /\ pow2_size n /\
    (1 <= b)%nat /\ k <= Z.of_nat b /\ Z.of_nat b + 3 <= n /\
    m_seen m = (fun t => t mod n) <$> seqZ (T - k) k /\
    (m_head m = Some (u32 (T - k)) \/ m_head m = Some (u32 (T - k - 1))).

(** What the completer may do when the [T]-th completion is the next to be handed
    in. *)
Definition rely (T : Z) (m m' : Mem) : Prop :=
  (exists h s, m' = upd_hs h s m) /\
  (seen_ok T m -> seen_ok T m' /\ (keeps_up = true -> has_room m')).

(** What the client does: nothing to the head, and at most the next position to
    the channel. *)
Definition guar (T : Z) (m : Mem) (T' : Z) (m' : Mem) : Prop :=
  stat m' = stat m /\ m_head m' = m_head m /\
  (T' = T /\ m_seen m' = m_seen m \/
   T' = T + 1 /\ has_room m /\ m_seen m' = m_seen m ++ [T mod n]).

(** [wp p Q T m]: from the memory [m], with [T] completions handed in, [p] among
    the completer does not panic, and returns a value and a memory that satisfy
    [Q]; it does not starve when the completer keeps up. *)
Fixpoint wp {A} (p : prog Mem A) (Q : A -> Z -> Mem -> Prop) (T : Z) (m : Mem) : Prop :=
  match p with
  | Ret a => Q a T m
  | Step X f k => forall m', rely T m m' ->
      exists T', guar T m' T' (snd (f m')) /\ wp (k (fst (f m'))) Q T' (snd (f m'))
  | Panic _ => False
  | Starve => keeps_up = false
  end.

Lemma wp_bind {A B} (p : prog Mem A) (k : A -> prog Mem B) Q R T m :
  wp p Q T m -> (forall a T' m', Q a T' m' -> wp (k a) R T' m') -> wp (p ≫= k) R T m.
Proof.
  intros Hp HQ. revert T m Hp.
  induction p as [a|X f g IH|s|]; intros T m Hp; [by apply HQ| |done|done].
  intros m' Hr. destruct (Hp m' Hr) as (T' & ? & ?). exists T'. split; [done|by apply IH].
Qed.

Lemma wp_mono {A} (p : prog Mem A) (Q R : A -> Z -> Mem -> Prop) T m :
  wp p Q T m -> (forall a T' m', Q a T' m' -> R a T' m') -> wp p R T m.
Proof.
  intros Hp HQ. revert T m Hp. induction p as [a|X f g IH|s|]; intros T m Hp; cbn in *; auto.
  intros m' Hr. destruct (Hp m' Hr) as (T' & ? & ?). eauto.
Qed.

(** The run among an environment that is within the rely. *)
Lemma wp_run {A} env (p : prog Mem A) Q i T m :
  (forall i T m, rely T m (env i m)) -> wp p Q T m ->
  match run env p i m with
  | Done a m' _ => exists T', Q a T' m'
  | Panicked _ _ => False
  | Starved _ => keeps_up = false
  end.
Proof.
  intros He. revert i T m. induction p as [a|X f k IH|s|]; intros i T m Hp; cbn in *; eauto.
  destruct (Hp (env i m) (He i T m)) as (T' & _ & Hk).
  destruct (f (env i m)) as [x m']. by eapply IH.
Qed.

(** ** Blind programs *)

Definition both (m : Mem) : Prop := is_Some (m_sq m) /\ is_Some (m_cq m).

Lemma upd_hs_upd h s h' s' m : upd_hs h s (upd_hs h' s' m) = upd_hs h s m.
Proof. destruct m as [[? ? [[]|] ? ? ? ? ? ? ? ? ? ? ? ? ?] ? ? ? ? ? ? ? ?]; done. Qed.

Lemma upd_hs_own h m : m_head m = Some h -> upd_hs h (m_seen m) m = m.
Proof.
  unfold m_head, m_cq. destruct m as [[? ? [[]|] [] ? ? ? ? ? ? ? ? ? ? ? ?] ? ? ? ? ? ? ? ?]; cbn; [|done].
  by intros [= <-].
Qed.

Lemma m_seen_upd h s m : m_seen (upd_hs h s m) = s.
Proof. done. Qed.
Lemma m_head_upd h s m : is_Some (m_cq m) -> m_head (upd_hs h s m) = Some h.
Proof. intros [c Hc]. unfold m_head, m_cq in *. cbn. by rewrite Hc. Qed.
Lemma stat_upd h s m : stat (upd_hs h s m) = stat m.
Proof. unfold stat, m_sq, m_cq. cbn. by destruct (r_sq (m_ring m)), (r_cq (m_ring m)). Qed.

Lemma both_upd h s m : both m -> both (upd_hs h s m).
Proof. intros [? [c Hc]]. split; [done|]. unfold m_cq in *. cbn. rewrite Hc. eauto. Qed.

Lemma both_stat m : both m <-> is_Some (stat m).1.1.
Proof.
  unfold both, stat. cbn. destruct (m_sq m), (m_cq m); cbn; rewrite ?is_Some_alt; naive_solver.
Qed.

(** [seen_ok] is about the head, the channel and what does not change. *)
Lemma seen_ok_eq T m m' :
  stat m' = stat m -> m_head m' = m_head m -> m_seen m' = m_seen m ->
  seen_ok T m -> seen_ok T m'.
Proof. intros H1 H2 H3. unfold seen_ok. by rewrite H1, H2, H3. Qed.

(** The client keeps the order of the channel. *)
Lemma guar_seen_ok T T' m m' : seen_ok T m -> guar T m T' m' -> seen_ok T' m'.
Proof.
  intros (b & Hst & Hp & Hb1 & Hb2 & Hb3 & Hl & Hh) (Hst' & Hh' & Hs).
  exists b. rewrite Hst', Hh'. destruct Hs as [[-> Es]|(-> & Hr & Es)]; rewrite Es in *; [done|].
  assert (c_bufSize (r_c (m_ring m)) = b) as Eb by (unfold stat in Hst; by simplify_eq).
  unfold has_room in Hr. rewrite length_app. cbn [length]. set (k := length (m_seen m)) in *.
  replace (Z.of_nat (k + 1)) with (Z.of_nat k + 1) by lia.
  replace (T + 1 - (Z.of_nat k + 1)) with (T - Z.of_nat k) by lia.
  split_and!; [done|done|done|lia|done| |done].
  rewrite seqZ_app, fmap_app, <- Hl by lia. f_equal.
  replace (T - Z.of_nat k + Z.of_nat k) with T by lia. done.
Qed.

(** A program that neither looks at the head and the channel nor changes them, and
    returns values that satisfy [P]. *)
Fixpoint blind_to {A} (P : A -> Prop) (p : prog Mem A) : Prop :=
  match p with
  | Ret a => P a
  | Step X f k =>
      (forall m, both m ->
        (forall h s, f (upd_hs h s m) = (fst (f m), upd_hs h s (snd (f m)))) /\
        stat (snd (f m)) = stat m) /\
      forall x, blind_to P (k x)
  | _ => True
  end.
Definition blind {A} (p : prog Mem A) : Prop := blind_to (fun _ => True) p.

Lemma blind_to_bind {A B} (p : prog Mem A) (k : A -> prog Mem B) P Q :
  blind_to P p -> (forall a, P a -> blind_to Q (k a)) -> blind_to Q (p ≫= k).
Proof.
  intros Hp Hk. induction p as [a|X f g IH|s|]; [by apply Hk| |done|done].
  destruct Hp as [H1 H2]. split; [done|]. intros x. by apply IH.
Qed.

Lemma blind_to_blind {A} (p : prog Mem A) P : blind_to P p -> blind p.
Proof. unfold blind. induction p as [a|X f g IH|s|]; cbn; [done| |done|done]. intros [? ?]. eauto. Qed.

Lemma blind_bind {A B} (p : prog Mem A) (k : A -> prog Mem B) :
  blind p -> (forall a, blind (k a)) -> blind (p ≫= k).
Proof. intros Hp Hk. eapply blind_to_bind; [exact Hp|]. intros a _. apply Hk. Qed.

Lemma blind_stat {A} (p : prog Mem A) m a m' :
  blind p -> both m -> runs p m a m' -> stat m' = stat m.
Proof.
  intros Hp Hb Hr. destruct (Hr 0%nat) as [i' H]. clear Hr. revert H. generalize 0%nat as i. revert m Hp Hb.
  unfold blind. induction p as [b|X f k IH|e|]; intros m Hp Hb i H; cbn in *; [| |done|done].
  - by injection H as <- <- <-.
  - destruct Hp as [Hf Hk]. unfold quiet in *. destruct (Hf m Hb) as [Hc Hs].
    destruct (f m) as [x m1]. cbn in *. rewrite <- Hs. eapply IH; [done| |done].
    apply both_stat. rewrite Hs. by apply both_stat.
Qed.

(** An action of a blind program. *)
Lemma blind_guar T m m1 :
  both m -> stat m1 = stat m -> (forall h s, m_head m = Some h -> s = m_seen m -> m1 = upd_hs h s m1) ->
  guar T m T m1.
Proof.
  intros Hb Hs Hc. destruct (proj2 Hb) as [c Hcq].
  assert (m1 = upd_hs (cq_Head c) (m_seen m) m1) as E.
  { apply Hc; [unfold m_head; by rewrite Hcq|done]. }
  split_and!; [done| |left; split; [done|by rewrite E]].
  rewrite E, m_head_upd; [unfold m_head; by rewrite Hcq|].
  apply both_stat. rewrite Hs. by apply both_stat.
Qed.

(** The memory is [M], up to the head and the channel, and the next completion to
    be handed in is the [T]-th. *)
Definition near (M : Mem) (T : Z) (m : Mem) : Prop :=
  both M /\ (exists h s, m = upd_hs h s M) /\ seen_ok T m.

Lemma near_rely M T m m' :
  near M T m -> rely T m m' -> near M T m' /\ (keeps_up = true -> has_room m').
Proof.
  intros (Hb & (h & s & ->) & Hs) [(h' & s' & ->) Hok]. destruct (Hok Hs) as [Hs' Hr].
  split; [|done]. split_and!; [done| |done]. rewrite upd_hs_upd. eauto.
Qed.

Lemma near_both M T m : near M T m -> both m.
Proof. intros (Hb & (h & s & ->) & _). by apply both_upd. Qed.

(** A blind program among the completer is its sequential run, up to the head and
    the channel. *)
Lemma wp_blind {A} (p : prog Mem A) Q T m M a M' :
  blind p -> near M T m -> runs p M a M' ->
  (forall m', near M' T m' -> Q a T m') -> wp p Q T m.
Proof.
  unfold blind. intros Hp Hn Hr HQ. revert m M Hp Hn Hr.
  induction p as [b|X f k IH|e|]; intros m M Hp Hn Hr; destruct (Hr 0%nat) as [n' H]; cbn in H; try done.
  - injection H as <- <- <-. by apply HQ.
  - cbn. intros m1 Hm1. destruct (near_rely M T m m1 Hn Hm1) as [Hn1 _].
    destruct Hn1 as (Hb & (h & s & ->) & Hok). destruct Hp as [Hf Hk].
    destruct (Hf M Hb) as [Hc Hs]. exists T. rewrite (Hc h s). cbn [fst snd].
    assert (both (snd (f M))) as Hb' by (apply both_stat; rewrite Hs; by apply both_stat). split.
    + apply blind_guar; [by apply both_upd|by rewrite !stat_upd|].
      intros h' s' Hh ->. rewrite m_head_upd in Hh by apply Hb. injection Hh as <-.
      rewrite m_seen_upd. by rewrite upd_hs_upd.
    + apply (IH _ _ (snd (f M))); [done| |].
      * split_and!; [done|eauto|]. apply (seen_ok_eq T (upd_hs h s M)); [by rewrite !stat_upd| |done|done].
        rewrite !m_head_upd; [done|apply Hb|apply Hb'].
      * unfold quiet in H at 1. destruct (f M). by eapply run_runs.
Qed.

Lemma wp_blind_bind {A B} (p : prog Mem A) (k : A -> prog Mem B) R T m M a M' :
  blind p -> near M T m -> runs p M a M' ->
  (forall m', near M' T m' -> wp (k a) R T m') -> wp (p ≫= k) R T m.
Proof.
  intros Hp Hn Hr HR. eapply (wp_bind _ _ (fun v T' m' => v = a /\ T' = T /\ near M' T m')).
  - by eapply wp_blind.
  - intros ? ? m' (-> & -> & Hn'). by apply HR.
Qed.
End Logic.

(** ** Blind actions *)

Create HintDb blind.
#[export] Hint Resolve blind_bind : blind.

(** An action that does not look at the head and the channel. *)
Ltac blind_prim :=
  split; [|intros []; cbn; by repeat case_match];
  intros m [[q Hq] [c Hc]];
  destruct m as [[? ? ? [] ? ? ? ? ? ? ? ? ? ? ? ?] ? ? ? ? ? ? ? ?];
  unfold m_sq, m_cq, stat in *; cbn in *; subst; split; [intros h s|]; cbn;
  repeat match goal with |- context [@mbind option _ _ _ _ ?x] => destruct x; cbn end;
  repeat (case_match; simplify_eq/=); (done || by destruct c).

Section Blind.
Lemma blind_sq_load {A} (f : SubmitQueue -> A) : blind (sq_load f).
Proof. blind_prim. Qed.
Lemma blind_sq_store f : blind (sq_store f).
Proof. blind_prim. Qed.
Lemma blind_sq_cas get set old new : blind (sq_cas get set old new).
Proof. blind_prim. Qed.
Lemma blind_sq_update_entry i f : blind (sq_update_entry i f).
Proof. blind_prim. Qed.
Lemma blind_sq_entry i : blind (sq_entry i).
Proof. blind_prim. Qed.
Lemma blind_sq_store_array i v : blind (sq_store_array i v).
Proof. blind_prim. Qed.
Lemma blind_cq_entry i : blind (cq_entry i).
Proof. blind_prim. Qed.
Lemma blind_cq_load {A} (f : CompletionQueue -> A) :
  (forall h c, f (set_cq_Head h c) = f c) -> blind (cq_load f).
Proof.
  intros Hf. split; [|by intros []]. intros m [Hq [c Hc]].
  unfold try_load, m_cq in *. split; [intros h s; cbn|]; unfold m_cq; cbn; rewrite Hc; cbn; [|done].
  by rewrite Hf.
Qed.
Lemma blind_syscall `{K : Kernel} call : blind (syscall call).
Proof. blind_prim. Qed.
Lemma blind_syscall_file `{K : Kernel} call : blind (syscall_file call).
Proof. blind_prim. Qed.
End Blind.

#[export] Hint Resolve blind_sq_load blind_sq_store blind_sq_cas blind_sq_update_entry
  blind_sq_entry blind_sq_store_array blind_cq_entry blind_syscall blind_syscall_file : blind.
