(* ===== verification/CompleterRely.v ===== *)
(** * The goroutine of the completer and its clients

    The steps of the goroutine are within what [Rely] assumes of it, also when the
    positions wrap around the queue.  So a client that was verified with [wp] can
    be interleaved with the goroutine in any way. *)

From stdpp Require Import base list gmap sets strings relations.
From Stdlib Require Import ZArith Lia.
From S2P Require Import Prelude Prog Consts Types Machine Samples Completer Rely.

(** ** The goroutine *)

Section Goroutine.
Context (n : Z).
Implicit Types (m : Mem).

(** The rest of [completer_seen ∅ id] after its first and its second action. *)
Definition seen1 (id h : Z) : prog Mem (gset Z) :=
  mask ← cq_load cq_Mask;
  '(unacked, seen) ← completer_advance 2 {[id]} (Z.land h mask) 0;
  cq_store (fun c => set_cq_Head (u32 (cq_Head c + u32 seen)) c);; Ret unacked.
Definition seen2 : prog Mem (gset Z) :=
  cq_store (fun c => set_cq_Head (u32 (cq_Head c + 1)) c);; Ret ∅.

Lemma completer_seen_one id : completer_seen ∅ id = (h ← cq_load cq_Head; seen1 id h).
Proof.
  unfold completer_seen. rewrite bool_decide_false by set_solver.
  rewrite union_empty_r_L, size_singleton. done.
Qed.

Lemma seen_advance id h :
  h = id -> completer_advance 2 {[id]} h 0 = Ret (∅, 1).
Proof.
  intros ->. cbn. rewrite Z.add_0_r, bool_decide_true by set_solver.
  rewrite bool_decide_false by set_solver.
  by replace ({[id]} ∖ {[id]} : gset Z) with (∅ : gset Z) by set_solver.
Qed.

(** Where the goroutine is when [T] completions were handed in: waiting, with the
    head in front of those in the channel, or handling the one before. *)
Definition at_work (l : cloop) (T : Z) (m : Mem) : Prop :=
  let t := T - Z.of_nat (length (m_seen m)) in
  match l with
  | CSelect unacked => unacked = ∅ /\ m_head m = Some (u32 t)
  | CBody b =>
      m_head m = Some (u32 (t - 1)) /\
        (b = completer_seen ∅ ((t - 1) mod n) \/ b = seen1 ((t - 1) mod n) (u32 (t - 1)) \/ b = seen2) \/
      m_head m = Some (u32 t) /\ b = Ret ∅
  | CReturned => False
  end.

(** The next action of a program. *)
Definition next_act {A} (p : prog Mem A) (m : Mem) : option (prog Mem A * Mem) :=
  match p with Step X f k => Some (k (fst (f m)), snd (f m)) | _ => None end.

Lemma next_cq_load {A B} (f : CompletionQueue -> A) (k : A -> prog Mem B) m c :
  m_cq m = Some c -> next_act (cq_load f ≫= k) m = Some (k (f c), m).
Proof.
  intros Hc. unfold next_act, cq_load, cq_store, try_load, try_store, try_act, mbind, prog_mbind, prog_bind.
  by rewrite Hc.
Qed.

Lemma next_cq_store {B} f (k : unit -> prog Mem B) m c :
  m_cq m = Some c -> next_act (cq_store f ≫= k) m = Some (k tt, put_cq (f c) m).
Proof.
  intros Hc. unfold next_act, cq_load, cq_store, try_load, try_store, try_act, mbind, prog_mbind, prog_bind.
  by rewrite Hc.
Qed.

(** Taking a position off the channel. *)
Lemma at_work_take T m id ids :
  seen_ok n T m -> m_seen m = id :: ids ->
  m_head m = Some (u32 (T - Z.of_nat (length (m_seen m)))) ->
  let m' := upd_ring (fun r => set_r_c (set_c_seen ids (r_c r)) r) m in
  rely n false T m m' /\ at_work (CBody (completer_seen ∅ id)) T m'.
Proof.
  intros Hok Hch Hh m'. destruct (Hok) as (b & Hst & Hp & Hb1 & Hb2 & Hb3 & Hl & _).
  rewrite Hch in Hb2, Hl, Hh. cbn [length] in *. rewrite Nat2Z.inj_succ, <- Z.add_1_r in *.
  set (k := Z.of_nat (length ids)) in *. assert (0 <= k) by lia.
  rewrite seqZ_cons in Hl by lia. cbn in Hl. injection Hl as Hid Hids.
  replace (Z.pred (k + 1)) with k in Hids by lia.
  replace (Z.succ (T - (k + 1))) with (T - k) in Hids by lia.
  replace (T - (k + 1)) with (T - k - 1) in * by lia.
  split.
  - split.
    + exists (u32 (T - k - 1)), ids. unfold m'. unfold m_head, m_cq in Hh.
      destruct m as [[? ? [[]|] ? ? ? ? ? ? ? ? ? ? ? ? ?] ? ? ? ? ? ? ? ?]; cbn in *; [|done]. by simplify_eq.
    + intros _. split; [|done]. exists b. change (m_seen m') with ids. fold k.
      split_and!; [done|done|done|lia|done|done|by right].
  - left. change (m_seen m') with ids. fold k. split; [done|left]. by rewrite Hid.
Qed.

(** Moving the head over it. *)
Lemma at_work_store T m c :
  seen_ok n T m -> m_cq m = Some c ->
  m_head m = Some (u32 (T - Z.of_nat (length (m_seen m)) - 1)) ->
  let m' := put_cq (set_cq_Head (u32 (cq_Head c + 1)) c) m in
  rely n false T m m' /\ at_work (CBody (Ret ∅)) T m'.
Proof.
  intros Hok Hc Hh m'. destruct (Hok) as (b & Hst & Hp & Hb1 & Hb2 & Hb3 & Hl & _).
  assert (m_head m' = Some (u32 (T - Z.of_nat (length (m_seen m))))) as Hh'.
  { unfold m_head in *. rewrite Hc in Hh. cbn in Hh. injection Hh as Hh. cbn. f_equal.
    rewrite Hh, uwrap_add_l. f_equal. lia. }
  assert (stat m' = stat m) as Hs' by (unfold stat, m_cq, m_sq in *; cbn; by rewrite Hc).
  split; [split|right; done].
  - exists (u32 (cq_Head c + 1)), (m_seen m). unfold m', m_cq in *.
    destruct m as [[? ? [[]|] [] ? ? ? ? ? ? ? ? ? ? ? ?] ? ? ? ? ? ? ? ?]; cbn in *; [|done]. by simplify_eq.
  - intros _. split; [|done]. exists b. change (m_seen m') with (m_seen m). rewrite Hs', Hh'.
    split_and!; try done. by left.
Qed.

(** Every step of the goroutine changes the head and the channel only, and keeps
    track of the completions that are to be handled. *)
Lemma at_work_step l l' T m m' :
  seen_ok n T m -> at_work l T m -> cstep (l, m) (l', m') ->
  rely n false T m m' /\ at_work l' T m'.
Proof.
  intros Hok Hw Hs.
  assert (exists c, m_cq m = Some c /\ cq_Mask c = n - 1 /\ pow2_size n) as (c & Hc & Hmask & Hp).
  { destruct Hok as (b & Hst & Hp & _ & _ & _ & _ & Hh). unfold stat in Hst.
    destruct (m_sq m), (m_cq m) as [c|]; simplify_eq/=. eauto. }
  assert (rely n false T m m) as Hrefl.
  { split; [|done]. exists (cq_Head c), (m_seen m). symmetry. apply upd_hs_own. unfold m_head. by rewrite Hc. }
  inversion Hs as [U ? j Hstop|U ? id ids Hch|X f k x ? ? Hf|U ?]; subst; clear Hs.
  - destruct Hok as (b & Hst & _). exfalso. unfold stat in Hst. rewrite Hstop in Hst. simplify_eq.
  - destruct Hw as [-> Hh]. by apply at_work_take.
  - assert (next_act (Step X f k) m = Some (k x, m')) as Hn by (cbn; by rewrite Hf).
    destruct Hw as [[Hh Hb]|[_ [=]]].
    unfold m_head in Hh. rewrite Hc in Hh. injection Hh as Hh.
    set (t := T - Z.of_nat (length (m_seen m))) in *.
    destruct Hb as [E|[E|E]]; rewrite E in Hn.
    + rewrite completer_seen_one, (next_cq_load _ _ _ c Hc), Hh in Hn. injection Hn as <- <-.
      split; [done|]. left. fold t. unfold m_head. rewrite Hc. cbn. rewrite Hh. eauto.
    + unfold seen1 in Hn. rewrite (next_cq_load _ _ _ c Hc), Hmask, land_mask, u32_mod, seen_advance in Hn by done.
      injection Hn as <- <-. split; [done|]. left. fold t. unfold m_head. rewrite Hc. cbn. rewrite Hh. eauto.
    + unfold seen2 in Hn. rewrite (next_cq_store _ _ _ c Hc) in Hn. injection Hn as <- <-.
      apply at_work_store; [done|done|]. unfold m_head. rewrite Hc. cbn. by rewrite Hh.
  - split; [done|]. destruct Hw as [[_ [E|[E|E]]]|[Hh [= ->]]]; [done..|]. done.
Qed.
End Goroutine.

(** ** A client and the goroutine *)

(** One step of the client or of the goroutine. *)
Inductive fstep {A} : prog Mem A * cloop * Mem -> prog Mem A * cloop * Mem -> Prop :=
| fstep_client X f k x l m m' : f m = (x, m') -> fstep (Step X f k, l, m) (k x, l, m')
| fstep_completer p l l' m m' : cstep (l, m) (l', m') -> fstep (p, l, m) (p, l', m').

Section Pool.
Context (n : Z) {A : Type} (Q : A -> Z -> Mem -> Prop).
Implicit Types (m : Mem).

Lemma rely_refl T m : seen_ok n T m -> rely n false T m m.
Proof.
  intros Hok. split; [|done]. destruct Hok as (b & Hst & _). unfold stat in Hst.
  destruct (m_sq m), (m_cq m) as [c|] eqn:Hc; simplify_eq/=.
  exists (cq_Head c), (m_seen m). symmetry. apply upd_hs_own. unfold m_head. by rewrite Hc.
Qed.

Lemma rely_trans T m1 m2 m3 : rely n false T m1 m2 -> rely n false T m2 m3 -> rely n false T m1 m3.
Proof.
  intros [(h & s & ->) H1] [(h' & s' & ->) H2]. rewrite upd_hs_upd in *. split; [eauto|].
  intros Hok. by apply H2, H1.
Qed.

(** A client that was verified is at some point of its proof, and the goroutine has
    done since what it may. *)
Definition pool_wp (s : prog Mem A * cloop * Mem) : Prop :=
  let '(p, l, m) := s in
  exists T m0, wp n false p Q T m0 /\ rely n false T m0 m /\ seen_ok n T m /\ at_work n l T m.

(** The client's step: at most one more position in the channel. *)
Lemma at_work_guar l T T' m m' :
  seen_ok n T m -> at_work n l T m -> guar n T m T' m' -> seen_ok n T' m' ->
  at_work n l T' m'.
Proof.
  intros Hok Hw (Hst & Hh & Hs) Hok'. unfold at_work in *. rewrite Hh.
  replace (T' - Z.of_nat (length (m_seen m'))) with (T - Z.of_nat (length (m_seen m))); [done|].
  destruct Hs as [[-> ->]|(-> & _ & ->)]; [done|]. rewrite length_app. cbn. lia.
Qed.

(** Every step of the client and of the goroutine. *)
Lemma pool_wp_step s s' : pool_wp s -> fstep s s' -> pool_wp s'.
Proof.
  intros Hs Hf. destruct Hf as [X f k x l m m' Hf|p l l' m m' Hc]; destruct Hs as (T & m0 & Hwp & Hr & Hok & Hw).
  - destruct (Hwp m Hr) as (T' & Hg & Hk). rewrite Hf in Hg, Hk. cbn in Hg, Hk.
    pose proof (guar_seen_ok n T T' m m' Hok Hg) as Hok'.
    exists T', m'. split_and!; [done|by apply rely_refl|done|by apply (at_work_guar l T T' m m')].
  - destruct (at_work_step n l l' T m m' Hok Hw Hc) as [Hr' Hw'].
    exists T, m0. split_and!; [done|by eapply rely_trans|by apply Hr'|done].
Qed.

(** A verified client among the goroutine, in any interleaving: it does not panic,
    and what it returns satisfies its postcondition, up to later steps of the
    goroutine. *)
Lemma pool_wp_steps p l T m s :
  wp n false p Q T m -> seen_ok n T m -> at_work n l T m -> rtc fstep (p, l, m) s ->
  match s with
  | (Ret a, _, m') => exists T' m0, Q a T' m0 /\ rely n false T' m0 m'
  | (Panic _, _, _) => False
  | _ => True
  end.
Proof.
  intros Hwp Hok Hw Hs. assert (pool_wp s) as Hp.
  { assert (pool_wp (p, l, m)) as H0 by (exists T, m; split_and!; [done|by apply rely_refl|done|done]).
    clear - H0 Hs. induction Hs; eauto using pool_wp_step. }
  destruct s as [[[] l'] m']; cbn in Hp; try done.
  - destruct Hp as (T' & m0 & HQ & Hr & _). eauto.
  - by destruct Hp as (T' & m0 & [] & _).
Qed.
End Pool.

(** ** Positions handed in in order *)

Section InOrder.
Context (n : Z).
Implicit Types (m : Mem).

(** Some client hands in the next position with [complete], which ends when there
    is room for it, or the goroutine makes a step. *)
Inductive hstep : Z * cloop * Mem -> Z * cloop * Mem -> Prop :=
| hstep_push T l m m' :
    runs (completer_complete 1 (T mod n)) m tt m' -> hstep (T, l, m) (T + 1, l, m')
| hstep_completer T l l' m m' : cstep (l, m) (l', m') -> hstep (T, l, m) (T, l', m').

(** [complete] ends when the channel has room, and the position is its last then. *)
Lemma completer_complete_runs id m m' :
  runs (completer_complete 1 id) m tt m' <->
  has_room m /\ m' = upd_ring (fun r => set_r_c (set_c_seen (c_seen (r_c r) ++ [id]) (r_c r)) r) m.
Proof.
  split; [|intros [Hr ->]; by apply runs_completer_complete].
  intros Hr. destruct (decide (has_room m)) as [Hroom|Hroom].
  - split; [done|]. by destruct (runs_det _ _ _ _ _ _ Hr (runs_completer_complete 0 id m Hroom)) as [_ ->].
  - destruct (Hr 0%nat) as [k E]. exfalso. revert E. unfold completer_complete.
    rewrite run_bind, run_act. unfold quiet. unfold has_room, m_seen in Hroom.
    rewrite (proj2 (Nat.ltb_ge _ _)) by lia. done.
Qed.

Lemma hstep_ok T l m T' l' m' :
  seen_ok n T m /\ at_work n l T m -> hstep (T, l, m) (T', l', m') ->
  seen_ok n T' m' /\ at_work n l' T' m'.
Proof.
  intros [Hok Hw] Hs. inversion Hs as [? ? ? ? Hrun|? ? ? ? ? Hc]; subst; clear Hs.
  - apply completer_complete_runs in Hrun as [Hr ->].
    match goal with |- seen_ok _ _ ?x /\ _ => set (m1 := x) in * end.
    assert (guar n T m (T + 1) m1) as Hg by (split_and!; [done|done|right; done]).
    pose proof (guar_seen_ok n T _ m m1 Hok Hg) as Hok'. split; [done|by apply (at_work_guar n l' T _ m)].
  - destruct (at_work_step n l l' T' m m' Hok Hw Hc) as [Hr Hw']. split; [by apply Hr|done].
Qed.

(** The goroutine finishes with the position it has in its hands. *)
Lemma body_finish T m b :
  seen_ok n T m -> at_work n (CBody b) T m ->
  exists m', rtc cstep (CBody b, m) (CSelect ∅, m') /\ m_seen m' = m_seen m /\
    seen_ok n T m' /\ at_work n (CSelect ∅) T m'.
Proof.
  intros Hok [[Hh Hb]|[Hh ->]].
  2: { exists m. split_and!; [apply rtc_once; constructor|done..]. }
  assert (exists c, m_cq m = Some c /\ cq_Mask c = n - 1 /\ pow2_size n) as (c & Hc & Hmask & Hp).
  { destruct (Hok) as (b' & Hst & Hp & _). unfold stat in Hst.
    destruct (m_sq m), (m_cq m) as [c|]; simplify_eq/=. eauto. }
  set (m' := put_cq (set_cq_Head (u32 (cq_Head c + 1)) c) m). exists m'.
  destruct (at_work_store n T m c Hok Hc Hh) as [Hr [[_ [E|[E|E]]]|[Hw _]]]; [done..|]. fold m' in Hr, Hw.
  split_and!; [|done|by apply Hr|split; [done|exact Hw]].
  assert (runs seen2 m ∅ m') as H2 by (eapply runs_bind; [by apply runs_cq_store|apply runs_ret]).
  unfold m_head in Hh. rewrite Hc in Hh. injection Hh as Hh.
  set (t := T - Z.of_nat (length (m_seen m))) in *.
  assert (runs (seen1 ((t - 1) mod n) (u32 (t - 1))) m ∅ m') as H1.
  { eapply runs_bind; [by apply runs_cq_load|]. rewrite Hmask, land_mask, u32_mod, seen_advance by done.
    exact H2. }
  apply body_runs. destruct Hb as [->|[->| ->]]; [|done|done].
  rewrite completer_seen_one. eapply runs_bind; [by apply runs_cq_load|]. by rewrite Hh.
Qed.

(** It empties the channel. *)
Lemma select_drain T ids : forall m,
  m_seen m = ids -> seen_ok n T m -> at_work n (CSelect ∅) T m ->
  exists m', rtc cstep (CSelect ∅, m) (CSelect ∅, m') /\ m_seen m' = [] /\ m_head m' = Some (u32 T).
Proof.
  induction ids as [|id ids IH]; intros m Hs Hok [_ Hh].
  - exists m. rewrite Hs in Hh. cbn in Hh. rewrite Z.sub_0_r in Hh. done.
  - destruct (at_work_take n T m id ids Hok Hs Hh) as [Hr Hw].
    match type of Hr with rely _ _ _ _ ?x => set (m1 := x) in * end.
    destruct (body_finish T m1 _ (proj1 (proj2 Hr Hok)) Hw) as (m2 & Hs2 & Hseen & Hok2 & Hw2).
    destruct (IH m2) as (m3 & Hs3 & H3); [by rewrite Hseen|done|done|].
    exists m3. split; [|done]. eapply rtc_l; [by apply cstep_seen|]. by etrans.
Qed.
End InOrder.

(** C26. Completions that are handed in in the order of the queue, with [complete] of
    the completer, by clients that are interleaved with its goroutine in any way and
    as often as the queue wraps around, on a queue with at least three entries more
    than the channel has places ([seen_ok]): the head is never in front of what was handed in, and behind it by at
    most the channel and the position the goroutine has in its hands; and from
    every such state the goroutine alone empties the channel and leaves the head
    exactly behind the last completion that was handed in. *)
Theorem completer_in_order (n T0 T : Z) (m0 m : Mem) (l : cloop)
    (Hok : seen_ok n T0 m0) (Hw : at_work n (CSelect ∅) T0 m0)
    (Hs : rtc (hstep n) (T0, CSelect ∅, m0) (T, l, m)) :
  (exists d, 0 <= d <= Z.of_nat (c_bufSize (r_c (m_ring m))) + 1 /\ m_head m = Some (u32 (T - d))) /\
  exists m', rtc cstep (l, m) (CSelect ∅, m') /\ m_seen m' = [] /\ m_head m' = Some (u32 T).
Proof.
  assert (seen_ok n T m /\ at_work n l T m) as [Hok' Hw'].
  { revert Hok Hw. clear - Hs. remember (T0, CSelect ∅, m0) as s eqn:E. revert T0 m0 E.
    generalize (CSelect ∅) as l0. remember (T, l, m) as s' eqn:E'. revert E'.
    induction Hs as [s|s [[T1 l1] m1] s' H1 _ IH]; intros E' l0 T0 m0 E Hok Hw; subst.
    - by injection E as -> -> ->.
    - destruct (hstep_ok n T0 l0 m0 T1 l1 m1) as [? ?]; [done|done|]. by eapply IH. }
  split.
  - destruct Hok' as (b & Hst & _ & _ & Hb & _ & _ & Hh).
    assert (c_bufSize (r_c (m_ring m)) = b) as -> by (unfold stat in Hst; by simplify_eq).
    destruct Hh as [Hh|Hh]; [exists (Z.of_nat (length (m_seen m)))|exists (Z.of_nat (length (m_seen m)) + 1)].
    + split; [lia|done].
    + split; [lia|]. rewrite Hh. do 2 f_equal. lia.
  - destruct l as [U|b|]; [|..|done].
    + destruct Hw' as [-> Hh]. by eapply select_drain.
    + destruct (body_finish n T m b Hok' Hw') as (m1 & Hs1 & _ & Hok1 & Hw1).
      destruct (select_drain n T _ m1 eq_refl Hok1 Hw1) as (m2 & Hs2 & H2). exists m2. split; [by etrans|done].
Qed.

(** The last position of the sample queue and the first of its next round, handed
    in one after the other. *)
Lemma completer_in_order_witness :
  let m seen := upd_ring (set_r_c (mkCompleter 0 seen 4)) (put_cq (set_cq_Head 7 sample_cq) sample_mem) in
  (exists d, 0 <= d <= 5 /\ m_head (m [7; 0]) = Some (u32 (9 - d))) /\
  exists m', rtc cstep (CSelect ∅, m [7; 0]) (CSelect ∅, m') /\ m_seen m' = [] /\ m_head m' = Some 9.
Proof.
  intros m. refine (completer_in_order 8 7 9 (m []) (m [7; 0]) (CSelect ∅) _ _ _).
  - exists 4%nat. split_and!; [done|exists 3; split; [lia|done]|lia|cbn; lia|lia|done|by left].
  - split; done.
  - eapply rtc_l; [apply (hstep_push 8 7 (CSelect ∅) (m []) (m [7]))|].
    { apply completer_complete_runs. split; [unfold has_room; cbn; lia|done]. }
    eapply rtc_l; [apply (hstep_push 8 8 (CSelect ∅) (m [7]) (m [7; 0]))|done].
    apply completer_complete_runs. split; [unfold has_room; cbn; lia|done].
Defined.
