(* ===== verification/RingFile.v ===== *)
(** * Files on a ring, among the completer

    The operations of [ringFIO] at the level of contents: with a kernel that
    serves requests, and whatever the completer does in between, a read stores the
    next bytes of the file in the buffer and a write stores the buffer in the
    file. *)

From stdpp Require Import base list gmap strings.
From Stdlib Require Import ZArith Lia.
From S2P Require Import Prelude Prog Consts Types Machine Samples Submission SubmissionSpec Ops.
From S2P Require Import OpsSpec Files Completer FileIO FileIOSpec RunLoopSpec Rely.

(** ** Blind operations *)

Section Blind.
Context {K : Kernel}.

Lemma blind_claim_tail old new pos : blind (claim_tail old new pos).
Proof. blind_prim. Qed.
Lemma blind_ID : blind Ring_ID.
Proof. blind_prim. Qed.
Lemma blind_cell_load a : blind (cell_load a).
Proof. blind_prim. Qed.
Lemma blind_cell_store a v : blind (cell_store a v).
Proof. blind_prim. Qed.
Lemma blind_make_bytes alloc k : blind (make_bytes alloc k).
Proof. blind_prim. Qed.
Lemma blind_new_bytes alloc bs : blind (new_bytes alloc bs).
Proof. blind_prim. Qed.
Lemma blind_ring_fd : blind (ring_load r_fd).
Proof. blind_prim. Qed.
Lemma blind_elem0 b : blind (elem0 b).
Proof. unfold elem0. by destruct (_ <? _). Qed.
Lemma blind_slice_to b k : blind (slice_to b k).
Proof. unfold slice_to. by destruct (_ && _). Qed.
End Blind.
#[export] Hint Resolve blind_claim_tail blind_ID blind_cell_load blind_cell_store
  blind_make_bytes blind_new_bytes blind_ring_fd blind_elem0 blind_slice_to : blind.

(** The next step of a program built from blind ones. *)
Ltac blind_step := first
  [ done | solve [eauto with blind]
  | apply blind_bind; [|intros ?]
  | match goal with |- blind (match ?x with _ => _ end) => destruct x end ].
Ltac blind_all := repeat blind_step.

Section BlindOps.
Context {K : Kernel}.

Lemma blind_completeWrite fuel : blind (completeWrite fuel).
Proof. induction fuel; cbn [completeWrite]; blind_all. Qed.
Lemma blind_ready fuel next head mask : blind (ready fuel next head mask).
Proof. unfold ready. pose proof blind_completeWrite. blind_all. Qed.
Lemma blind_to_SubmitEntry fuel : blind_to (fun r => blind (snd r)) (Ring_SubmitEntry fuel).
Proof.
  induction fuel as [|fuel IH]; [done|]. cbn [Ring_SubmitEntry].
  do 4 (eapply blind_to_bind; [apply blind_sq_load|intros ? _]). destruct (_ <=? _).
  - eapply blind_to_bind; [apply blind_claim_tail|intros [] _; [cbn [negb]|exact IH]].
    eapply blind_to_bind; [apply blind_sq_load|intros ? _]. destruct (negb _); [exact IH|].
    eapply blind_to_bind; [apply blind_sq_store|intros _ _].
    eapply blind_to_bind; [apply blind_sq_update_entry|intros _ _]. apply blind_ready.
  - eapply blind_to_bind; [apply blind_sq_cas|intros _ _]. exact IH.
Qed.
Lemma blind_enterLock fuel : blind (enterLock fuel).
Proof. induction fuel; cbn [enterLock]; blind_all. Qed.
End BlindOps.
#[export] Hint Resolve blind_ready blind_enterLock : blind.

(** A program that claims an entry. *)
Ltac blind_claim :=
  eapply blind_to_bind; [by apply blind_to_SubmitEntry|intros [? ?] ?; cbn [snd] in *];
  match goal with |- blind_to _ ?p => change (blind p) end; blind_all.

Lemma len_view_cq v c : len (cq_Entries (view_cq v c)) = len (cq_Entries c).
Proof.
  cbn. generalize (cq_Entries c). induction (v_posts v) as [|w ws IH]; intros es; [done|].
  cbn [foldl]. rewrite IH. unfold post, slice_set. case_bool_decide; [|done]. apply len_insert.
Qed.

Section Served.
Context {K : Kernel} (lim : history -> nat) (HK : serves lim K).

Lemma blind_syscall_enter fd minComplete flags : blind (syscall_enter (SysEnter fd 1 minComplete flags)).
Proof.
  apply blind_bind; [blind_prim|intros _]. split; [|done]. intros m [[q Hq] [c Hc]].
  destruct m as [[? ? ? [] ? ? ? ? ? ? ? ? ? ? ? ?] ? ? ? ? ? ? ? ?].
  unfold m_sq, m_cq, stat in *. cbn in *. subst.
  split; [intros h s|]; cbn; unfold m_sq, m_cq; cbn; rewrite !(sv_enter lim K HK).
  - change (serve_view (lim m_hist) q (set_cq_Head h c) m_store)
      with (serve_view (lim m_hist) q c m_store). by destruct c.
  - pose proof (len_view_cq (serve_view (lim m_hist) q c m_store) c) as E. cbn in E. by rewrite E.
Qed.
Hint Resolve blind_syscall_enter : blind.

Lemma blind_Ring_Enter fuel minComplete flags :
  blind (Ring_Enter fuel (u64 1) minComplete flags).
Proof.
  unfold Ring_Enter, SubmitQueue_NeedWakeup, Enter, enterUnlock. change (u64 (u64 1)) with 1. blind_all.
Qed.

Lemma blind_fio_prepare fuel i op b flags : blind (fio_prepare fuel i op b flags).
Proof. unfold fio_prepare, fio_fill. blind_claim. Qed.

Lemma blind_PrepareClose fuel fd : blind (PrepareClose fuel fd).
Proof.
  unfold PrepareClose, prepare. blind_claim.
Qed.
End Served.

(** ** Between two requests *)

(** The rings are at rest: nothing is to be submitted, [T] completions were posted,
    all with identifiers up to [idx], the last one given out. *)
Record resting (T : Z) (st : Store) (cells : gmap nat Z) (idx : Z) (m : Mem) : Prop := {
  rt_sq : exists q, m_sq m = Some q /\ sq_drained q /\ 2 <= len (sq_Entries q);
  rt_cq : exists c, m_cq m = Some c /\ cq_Tail c = u32 T /\
    Forall (fun e => 0 <= cqe_UserData e <= idx) (cq_Entries c);
  rt_store : m_store m = st;
  rt_cells : m_cells m = cells;
  rt_idx : r_idx (m_ring m) = idx
}.

Section Near.
Context (n : Z).
Implicit Types (m M : Mem) (c : CompletionQueue).

Lemma resting_upd T st cells idx h s m :
  resting T st cells idx m -> resting T st cells idx (upd_hs h s m).
Proof.
  intros [Hq (c & Hc & Ht & He) Hst Hcells Hidx]. split; [done| |done..].
  exists (set_cq_Head h c). unfold m_cq in *. cbn. by rewrite Hc.
Qed.

Lemma near_refl T m : seen_ok n T m -> near n m T m.
Proof.
  intros H. assert (both m) as Hb.
  { apply both_stat. destruct H as (b & -> & _). eauto. }
  split_and!; [done| |done]. destruct (proj2 Hb) as [c Hc].
  exists (cq_Head c), (m_seen m). symmetry. apply upd_hs_own. unfold m_head. by rewrite Hc.
Qed.

Lemma near_resting T T' st cells idx M m :
  near n M T m -> resting T' st cells idx M -> resting T' st cells idx m.
Proof. intros (_ & (h & s & ->) & _) H. by apply resting_upd. Qed.

(** The size and the mask of the completion queue. *)
Lemma near_cq M T m c :
  near n M T m -> m_cq M = Some c ->
  len (cq_Entries c) = n /\ cq_Mask c = n - 1 /\ pow2_size n.
Proof.
  intros (Hb & (h & s & ->) & (b & Hs & Hp & _)) Hc. rewrite stat_upd in Hs.
  unfold stat in Hs. destruct (proj1 Hb) as [q Hq]. rewrite Hq, Hc in Hs. cbn in Hs. by simplify_eq.
Qed.

(** A load of something else than the head. *)
Lemma wp_cq_load keeps_up {A} (f : CompletionQueue -> A) Q T M m c :
  near n M T m -> m_cq M = Some c -> (forall h c, f (set_cq_Head h c) = f c) ->
  (forall m', near n M T m' -> Q (f c) T m') -> wp n keeps_up (cq_load f) Q T m.
Proof.
  intros Hn Hc Hf HQ. eapply wp_blind; [by apply blind_cq_load|done|by apply runs_cq_load|done].
Qed.

(** The head is at most as far behind as the channel is long, and one more. *)
Lemma wp_cq_head keeps_up Q T M m :
  near n M T m ->
  (forall d m', 0 <= d <= n - 2 -> near n M T m' -> Q (u32 (T - d)) T m') ->
  wp n keeps_up (cq_load cq_Head) Q T m.
Proof.
  intros Hn HQ m1 Hr. destruct (near_rely n _ M T m m1 Hn Hr) as [Hn1 _]. exists T.
  destruct (proj2 (near_both _ _ _ _ Hn1)) as [c Hc]. unfold try_load. rewrite Hc. cbn. split.
  - split_and!; [done|done|by left].
  - destruct (proj2 (proj2 Hn1)) as (b & _ & _ & Hb1 & Hb2 & Hb3 & _ & Hh). unfold m_head in Hh. rewrite Hc in Hh.
    set (k := Z.of_nat (length (m_seen m1))) in *.
    destruct Hh as [Hh|Hh]; injection Hh as ->.
    + apply HQ; [lia|done].
    + replace (T - k - 1) with (T - (k + 1)) by lia. apply HQ; [lia|done].
Qed.
End Near.

(** ** Finding a completion *)

Section Finding.
Context {K : Kernel} (n : Z) (keeps_up : bool) (fuel : nat).
Context (i : ringFIO) (M : Mem) (T : Z) (c : CompletionQueue) (id : Z) (e : CompletionEntry).
Context (Hc : m_cq M = Some c) (Htail : cq_Tail c = u32 (T + 1)).
Context (He : slice_get (cq_Entries c) (T mod n) = Some e) (Hid : cqe_UserData e = id).
(** The identifier is in no other entry. *)
Context (Hother : forall y e', y <> T mod n -> slice_get (cq_Entries c) y = Some e' ->
  cqe_UserData e' <> id).
Implicit Types (m : Mem).
Notation wp := (wp n keeps_up).
Notation near := (near n).

Lemma wp_cq_entry Q m y e' :
  near M T m -> slice_get (cq_Entries c) y = Some e' ->
  (forall m', near M T m' -> Q e' T m') -> wp (cq_entry y) Q T m.
Proof. intros Hn Hy HQ. eapply wp_blind; [eauto with blind|done|by eapply runs_cq_entry|done]. Qed.

(** A loop over positions that include the entry. *)
Lemma wp_fio_loop Q end_ k : forall x m,
  near M T m -> 0 <= x -> x + Z.of_nat k <= len (cq_Entries c) ->
  x <= T mod n < x + Z.of_nat k -> (forall y, x <= y < T mod n -> y <> end_) ->
  (forall m', near M T m' -> wp (fio_found fuel i (T mod n) e) Q T m') ->
  wp (fio_loop fuel i id k x end_) (fun r T' m' => exists v, r = FReturn v /\ Q v T' m') T m.
Proof.
  induction k as [|k IH]; intros x m Hn Hx Hk Hj Hend Hf; [lia|]. cbn [fio_loop].
  destruct (slice_get_in (cq_Entries c) x) as [e' He']; [lia|].
  eapply wp_bind; [by eapply (wp_cq_entry (fun v T' m' => v = e' /\ T' = T /\ near M T m'))|].
  cbn. intros ? ? m' (-> & -> & Hn'). destruct (decide (x = T mod n)) as [->|Hne].
  - simplify_eq. rewrite Z.eqb_refl. eapply wp_bind; [by apply Hf|]. cbn. eauto.
  - rewrite (proj2 (Z.eqb_neq (cqe_UserData e') id)) by (by eapply Hother).
    rewrite (proj2 (Z.eqb_neq x end_)) by (apply Hend; lia).
    apply IH; [done|lia|lia|lia|intros y Hy; apply Hend; lia|done].
Qed.

(** A loop over others. *)
Lemma wp_fio_loop_none end_ k : forall x m,
  near M T m -> 0 <= x -> x + Z.of_nat k <= len (cq_Entries c) ->
  ~ (x <= T mod n < x + Z.of_nat k) -> ~ (x <= end_ < x + Z.of_nat k) ->
  wp (fio_loop fuel i id k x end_) (fun r T' m' => r = FEnd /\ T' = T /\ near M T m') T m.
Proof.
  induction k as [|k IH]; intros x m Hn Hx Hk Hj Hend; [done|]. cbn [fio_loop].
  destruct (slice_get_in (cq_Entries c) x) as [e' He']; [lia|].
  eapply wp_bind; [by eapply (wp_cq_entry (fun v T' m' => v = e' /\ T' = T /\ near M T m'))|].
  cbn. intros ? ? m' (-> & -> & Hn').
  rewrite (proj2 (Z.eqb_neq (cqe_UserData e') id)) by (eapply Hother; [|done]; lia).
  rewrite (proj2 (Z.eqb_neq x end_)) by lia.
  apply IH; [done|lia|lia|lia|lia].
Qed.

(** Where a head [d] behind the entry is. *)
Lemma head_position d :
  pow2_size n -> 0 <= d <= n - 2 ->
  let p := T mod n in let x := (T - d) mod n in let t := (T + 1) mod n in
  0 <= x < n /\ 0 <= p < n /\
  (x <= p /\ (forall y, x <= y < p -> y <> t) \/ p + 1 < x /\ t = p + 1).
Proof.
  intros Hp Hd p x t. pose proof (pow2_size_pos n Hp) as Hn.
  pose proof (Z.mod_pos_bound (T - d) n Hn). pose proof (Z.mod_pos_bound T n Hn).
  assert (t = if p =? n - 1 then 0 else p + 1) as Ht.
  { unfold t. rewrite <- mod_succ_mod. fold p. case Z.eqb_spec; intros E.
    - rewrite E, Z.sub_add. by apply Z.mod_same; lia.
    - apply Z.mod_small. lia. }
  assert (x = p - d \/ x = p - d + n) as Hx.
  { unfold x. rewrite Zminus_mod. fold p. rewrite (Z.mod_small d) by lia.
    destruct (Z_le_dec d p); [left; apply Z.mod_small; lia|right].
    rewrite <- (Z_mod_plus_full _ 1), Z.mul_1_l. apply Z.mod_small. lia. }
  split_and!; [lia..|]. rewrite Ht.
  destruct Hx as [Hx|Hx].
  - left. split; [lia|]. intros y Hy. case Z.eqb_spec; lia.
  - right. split; [lia|]. case Z.eqb_spec; lia.
Qed.

Lemma wp_fio_find Q tries m :
  near M T m -> (forall m', near M T m' -> wp (fio_found fuel i (T mod n) e) Q T m') ->
  wp (fio_find fuel (S tries) i id) Q T m.
Proof.
  intros Hn Hf. destruct (near_cq n M T m c Hn Hc) as (Hlen & Hmask & Hp). cbn [fio_find].
  apply (wp_bind _ _ _ _ (fun r T' m' => exists v, r = FReturn v /\ Q v T' m')).
  2: { intros ? T' m' (v & -> & HQ). exact HQ. }
  unfold fio_pass.
  eapply wp_bind; [apply (wp_cq_head n keeps_up (fun h T' m' =>
    exists d, h = u32 (T - d) /\ 0 <= d <= n - 2 /\ T' = T /\ near M T m') T M m Hn); by eauto|].
  cbn. intros ? ? m1 (d & -> & Hd & -> & Hn1). clear m Hn.
  do 3 (eapply wp_bind; [eapply (wp_cq_load n keeps_up _ (fun v T' m' => v = _ /\ T' = T /\ near M T m'));
    by eauto|]; cbn beta; intros ? ? m (-> & -> & Hn); clear m1 Hn1; rename m into m1, Hn into Hn1).
  cbn zeta. rewrite ?Hmask, ?Htail, !land_mask, !u32_mod, ?Hlen by done.
  destruct (head_position d Hp Hd) as (Hx & Hpos & [[Hle Hend]|[Hlt Ht]]).
  - eapply wp_bind; [apply (wp_fio_loop Q); [done|lia|lia|lia|done|done]|].
    cbn. intros ? T' m' (v & -> & HQ). cbn. eauto.
  - eapply wp_bind; [apply wp_fio_loop_none; [done|lia|lia|lia|lia]|].
    cbn. intros ? ? m (-> & -> & Hn).
    do 2 (eapply wp_bind; [eapply (wp_cq_load n keeps_up _ (fun v T' m' => v = _ /\ T' = T /\ near M T m'));
      by eauto|]; cbn beta; intros ? ? m' (-> & -> & Hn'); clear m Hn; rename m' into m, Hn' into Hn).
    cbn zeta. rewrite ?Hmask, ?Htail, land_mask, u32_mod by done.
    eapply wp_bind; [apply (wp_fio_loop Q); [done|lia|lia|lia|lia|done]|].
    cbn. intros ? T' m' (v & -> & HQ). cbn. eauto.
Qed.
End Finding.

(** ** Handing in a position *)

Section HandIn.
Context {K : Kernel} (n : Z) (keeps_up : bool).
Implicit Types (m M : Mem).
Notation wp := (wp n keeps_up).
Notation near := (near n).

Lemma wp_completer_complete Q M T fuel : forall m,
  near M T m -> (forall m', near M (T + 1) m' -> Q tt (T + 1) m') ->
  wp (completer_complete (S fuel) (T mod n)) Q T m.
Proof.
  induction fuel as [|fuel IH]; intros m Hn HQ; cbn [completer_complete]; intros m1 Hr;
    destruct (near_rely n keeps_up M T m m1 Hn Hr) as [Hn1 Hroom]; clear m Hn Hr.
  all: destruct (length (c_seen (r_c (m_ring m1))) <? c_bufSize (r_c (m_ring m1)))%nat eqn:El.
  1,3: exists (T + 1); cbn [fst snd];
    set (m' := upd_ring _ m1);
    assert (guar n T m1 (T + 1) m') as Hg
      by (split_and!; [done|done|right; split_and!; [done|by apply Nat.ltb_lt|done]]);
    (split; [exact Hg|]); apply HQ; destruct Hn1 as (Hb & (h & s & E) & Hok);
    (split_and!; [done| |by apply (guar_seen_ok n T _ m1)]);
    exists h, (m_seen m1 ++ [T mod n]); rewrite <- (upd_hs_upd _ _ h s), <- E; unfold m';
    rewrite E; clear; destruct M as [[? ? [[]|] [] ? ? ? ? ? ? ? ? ? ? ? ?] ? ? ? ? ? ? ? ?]; done.
  all: apply Nat.ltb_ge in El; exists T; cbn [fst snd]; (split; [split_and!; [done|done|by left]|]).
  - destruct keeps_up; [|done]. specialize (Hroom eq_refl). unfold has_room, m_seen in Hroom. lia.
  - by apply IH.
Qed.

(** A completion without an error. *)
Lemma wp_fio_found Q M T m fuel i e o :
  near M T m -> m_cells M !! fio_fOffset i = Some o -> 0 <= cqe_Res e ->
  (forall m', near (set_m_cells (<[fio_fOffset i := i64 (o + cqe_Res e)]> (m_cells M)) M) (T + 1) m' ->
    Q (cqe_Res e, None) (T + 1) m') ->
  wp (fio_found (S fuel) i (T mod n) e) Q T m.
Proof.
  intros Hn Ho Hres HQ. unfold fio_found. rewrite (proj2 (Z.ltb_ge _ _)) by done.
  eapply wp_blind_bind; [eauto with blind|exact Hn|by apply runs_try_load|intros m1 Hn1].
  eapply wp_blind_bind; [eauto with blind|exact Hn1|apply runs_try_store; by rewrite Ho|intros m2 Hn2].
  set (M' := set_m_cells _ M) in *.
  eapply wp_bind; [apply (wp_completer_complete (fun _ T' m' => T' = T + 1 /\ near M' (T + 1) m')
    M' T fuel m2 Hn2); by eauto|].
  cbn. intros _ ? m3 (-> & Hn3). by apply HQ.
Qed.
End HandIn.

(** ** One request *)

Section Request.
Context {K : Kernel} (lim : history -> nat) (HK : serves lim K).
Implicit Types (m M : Mem) (q : SubmitQueue) (c : CompletionQueue).

(** The memory after the kernel has served the only request [g] describes. *)
Lemma enter_served g m q c e res st' :
  m_sq m = Some (sq_submit g q) -> sq_drained q -> 2 <= len (sq_Entries q) -> m_cq m = Some c ->
  slice_get (sq_Entries q) (sq_tail_pos q) = Some e ->
  transfer (lim (m_hist m)) (g (SubmitEntry_Reset e)) (m_store m) = (res, st') ->
  let m' := entered_mem m (sq_submit g q) (u64 1) (u64 1) EnterGetEvents in
  exists q' c', m_sq m' = Some q' /\ sq_drained q' /\ 2 <= len (sq_Entries q') /\ m_cq m' = Some c' /\
    cq_Tail c' = u32 (cq_Tail c + 1) /\
    cq_Entries c' = post (cq_Entries c) (cq_tail_pos c, mkCQE (sqe_UserData (g (SubmitEntry_Reset e))) res 0) /\
    m_store m' = st' /\ m_cells m' = m_cells m /\ r_idx (m_ring m') = r_idx (m_ring m).
Proof.
  intros Hq Hd Htwo Hc He Ht m'. destruct (Hd) as [Ho Hht]. pose proof (sqo_wf q Ho) as Hwf.
  set (call := enter_call m (sq_submit g q) (u64 1) (u64 1) EnterGetEvents).
  assert (k_enter (m_hist m) call (Some (set_sq_entered 1 (sq_submit g q))) (m_cq m) (m_store m) =
    mkView (sq_Head q + 1) (sq_Flags q) (sq_Dropped q) (cq_Tail c + 1) (cq_Overflow c) (cq_Flags c)
      [(cq_tail_pos c, mkCQE (sqe_UserData (g (SubmitEntry_Reset e))) res 0)] st') as E.
  { unfold call, enter_call. change (u64 (u64 1)) with 1. rewrite Hc, (sv_enter lim K HK). unfold serve_view.
    rewrite (proj2 (Z.eqb_neq _ _) (submit_pending q g Hd Htwo) :
      (sq_Head (set_sq_entered 1 (sq_submit g q)) =? sq_Tail (set_sq_entered 1 (sq_submit g q))) = false).
    change (sq_head_pos (set_sq_entered 1 (sq_submit g q))) with (sq_head_pos q). cbn.
    rewrite Hht, slice_get_insert_eq by (rewrite (sqwf_array q Hwf); auto with slices). cbn.
    rewrite !(slice_get_alter_eq _ _ (SubmitEntry_Reset e) g) by (by apply slice_get_alter_eq).
    by rewrite Ht. }
  unfold m', entered_mem. fold call. rewrite E. unfold apply_view, m_sq, m_cq in *. cbn. rewrite Hq, Hc.
  eexists _, _. split; [reflexivity|]. split; [|split; [by cbn; autorewrite with slices|done]].
  destruct (sq_drained_step q g Hd) as [[[] ? ?] Hpos]. split; [split; [|done..]; split; done|done].
Qed.

Context (n : Z) (keeps_up : bool) (fuel : nat).
Notation wp := (wp n keeps_up).
Notation near := (near n).

(** From a published request to its result. *)
Lemma wp_fio_getCqe i g q c T st cells idx o res st' M m :
  near M T m -> m_sq M = Some (sq_submit g q) -> sq_drained q -> 2 <= len (sq_Entries q) ->
  m_cq M = Some c -> cq_Tail c = u32 T ->
  Forall (fun e => 0 <= cqe_UserData e <= idx) (cq_Entries c) ->
  m_store M = st -> m_cells M = cells -> r_idx (m_ring M) = idx + 1 ->
  cells !! fio_fOffset i = Some o -> 0 <= idx -> (forall x, sqe_UserData (g x) = idx + 1) ->
  (forall x, transfer (lim (m_hist M)) (g (SubmitEntry_Reset x)) st = (res, st')) -> 0 <= res ->
  wp (fio_getCqe (S fuel) i (idx + 1) 1 1) (fun r T' m' => r = (res, None) /\ T' = T + 1 /\
    resting (T + 1) st' (<[fio_fOffset i := i64 (o + res)]> cells) (idx + 1) m' /\ seen_ok n (T + 1) m') T m.
Proof.
  intros Hn Hq Hd Htwo Hc Htail Hids Hst Hcells Hidx Ho H0 Hg Htr Hres.
  pose proof (sqo_wf q (proj1 Hd)) as Hwf.
  destruct (slice_get_in (sq_Entries q) (sq_tail_pos q)) as [x Hx]; [by apply sq_tail_pos_range|].
  destruct (enter_served g M q c x res st' Hq Hd Htwo Hc Hx) as
    (q' & c' & Hq' & Hd' & Htwo' & Hc' & Htail' & Hents & Hst' & Hcells' & Hidx'); [by rewrite Hst|].
  set (M1 := entered_mem M (sq_submit g q) (u64 1) (u64 1) EnterGetEvents) in *.
  destruct (near_cq n M T m c Hn Hc) as (Hlen & Hmask & Hp).
  pose proof (pow2_size_pos n Hp) as Hn0. pose proof (Z.mod_pos_bound T n Hn0) as HT.
  assert (cq_tail_pos c = T mod n) as Hpos.
  { unfold cq_tail_pos. by rewrite Htail, Hmask, land_mask, u32_mod. }
  rewrite Hpos, Hg in Hents. unfold post in Hents. cbn in Hents.
  rewrite slice_set_in in Hents by lia.
  unfold fio_getCqe. change ((0 <? 1) || (0 <? 1)) with true. cbn iota.
  eapply wp_blind_bind; [|exact Hn| |].
  { apply blind_bind; [by eapply blind_Ring_Enter|by intros []]. }
  { eapply runs_bind; [by apply (runs_Ring_Enter fuel _ _ _ M (sq_submit g q)), Hd|].
    unfold enter_result, enter_call. change (u64 (u64 1)) with 1. rewrite (sv_answer lim K HK). apply runs_ret. }
  fold M1. cbn beta iota. intros m1 Hn1.
  apply (wp_fio_find n keeps_up (S fuel) i M1 T c' (idx + 1) (mkCQE (idx + 1) res 0));
    [done|by rewrite Htail', Htail, uwrap_add_l| |done| |done|].
  - rewrite Hents. by apply slice_get_insert_eq; lia.
  - rewrite Hents. intros y e' Hy He'. rewrite slice_get_insert_ne in He' by lia.
    apply slice_get_Some in He' as [_ He'%(Forall_lookup_1 _ _ _ _ Hids)]. lia.
  - intros m2 Hn2. eapply (wp_fio_found n keeps_up _ M1); [done|by rewrite Hcells', Hcells|done|].
    intros m3 Hn3. split_and!; [done|done| |by apply Hn3]. cbn in Hn3.
    eapply near_resting; [exact Hn3|]. split.
    + eauto.
    + exists c'. split_and!; [done|by rewrite Htail', Htail, uwrap_add_l|]. rewrite Hents.
      apply Forall_insert; [|cbn; lia]. eapply Forall_impl; [exact Hids|]. cbn. lia.
    + exact Hst'.
    + change (<[fio_fOffset i := i64 (o + res)]> (m_cells M1) = <[fio_fOffset i := i64 (o + res)]> cells).
      by rewrite Hcells', Hcells.
    + change (r_idx (m_ring M1) = idx + 1). by rewrite Hidx'.
Qed.
End Request.

(** ** The operations *)

Section Operations.
Context {K : Kernel} (lim : history -> nat) (HK : serves lim K).
Context (n : Z) (keeps_up : bool) (fuel : nat).
Implicit Types (m M : Mem) (i : ringFIO).
Notation wp := (wp n keeps_up).
Notation near := (near n).

(** The rings are at rest, with the completer behind by at most the channel. *)
Definition at_rest (T : Z) (st : Store) (cells : gmap nat Z) (idx : Z) (m : Mem) : Prop :=
  resting T st cells idx m /\ seen_ok n T m /\ 0 <= idx.

(** A transfer: whatever [F] does with the result, the result is the kernel's. *)
Lemma wp_fio_rw {A} i op b (F : Z -> prog Mem A) (E : error -> prog Mem A) Q R T st cells idx o m :
  (forall id T m, wp (fio_getCqe (S fuel) i id 1 1) R T m -> wp (F id) Q T m) ->
  at_rest T st cells idx m -> idx < 2 ^ 64 - 1 -> cells !! fio_fOffset i = Some o -> 0 < sl_Len b ->
  (forall L, (1 <= L)%nat -> exists res st',
    (forall id anon, transfer L (mkSQE op 0 0 (fio_fd i) (u64 o) (u64 (sl_Data b)) (u32 (sl_Len b)) 0 id anon) st =
      (res, st')) /\ 0 <= res /\
    forall m', at_rest (T + 1) st' (<[fio_fOffset i := i64 (o + res)]> cells) (idx + 1) m' ->
      R (res, None) (T + 1) m') ->
  wp ('(id, rdy, e) ← fio_prepare (S fuel) i op b 0;
      match e with
      | Some e => E e
      | None => rdy;; F id
      end) Q T m.
Proof.
  intros HF ([(q & Hq & Hd & Htwo) (c & Hc & Htail & Hids) Hst Hcells Hidx] & Hok & H0) Hmax Ho Hb Hk.
  assert (next_id m = idx + 1) as Hid by (unfold next_id; rewrite Hidx; apply uwrap_id; unfold is_uint; lia).
  destruct (runs_fio_entry (S fuel - 1) i op b 0 (cell_load (fio_fOffset i)) o m q Hq (proj1 Hd) Hb)
    as (rdy & m1 & m2 & x & Hrdy & H1 & H2 & H3 & Hx & H4 & _).
  { intros m' Hm'. apply runs_try_load. by rewrite Hm', Hcells. }
  rewrite Nat.sub_succ, Nat.sub_0_r in *.
  destruct (Hk (lim (m_hist m)) (sv_lim lim K HK _)) as (res & st' & Htr & Hres & Hnext).
  eapply wp_blind_bind; [by apply blind_fio_prepare|by apply near_refl| |intros m3 Hn3].
  { unfold fio_prepare. eapply runs_bind; [exact H1|]. cbn beta iota.
    eapply runs_bind; [exact H2|]. eapply runs_bind; [exact H3|]. rewrite Hx. apply runs_ret. }
  cbn beta iota. rewrite Hid.
  eapply wp_blind_bind; [rewrite Hrdy; apply blind_ready|exact Hn3|exact H4|intros m4 Hn4].
  apply HF. eapply wp_mono.
  - eapply (wp_fio_getCqe lim HK n keeps_up fuel i (fio_entry i op b 0 o (idx + 1)) q c T st cells idx o res st');
      try done.
    + cbn. by rewrite Hid.
    + intros y. apply Htr.
  - cbn. intros ? ? m5 (-> & -> & Hrest & Hok5). apply Hnext. split_and!; [done|done|lia].
Qed.

(** [Read] stores the next bytes of the file, at least one unless it is at the end,
    and moves the offset behind them. *)
Lemma wp_fio_Read i b Q T st cells idx o content old m :
  at_rest T st cells idx m -> idx < 2 ^ 64 - 1 -> cells !! fio_fOffset i = Some o ->
  0 <= o < 2 ^ 62 -> 0 < sl_Len b < 2 ^ 32 ->
  st_files st !! fio_fd i = Some content -> st_bufs st !! u64 (sl_Data b) = Some old ->
  (forall L m', (1 <= L)%nat -> let bs := read_at L content o (sl_Len b) in
    at_rest (T + 1) (set_st_bufs (<[u64 (sl_Data b) := overwrite old bs]> (st_bufs st)) st)
      (<[fio_fOffset i := o + len bs]> cells) (idx + 1) m' ->
    Q (len bs, if len bs =? 0 then Some EOF else None) (T + 1) m') ->
  wp (fio_Read (S fuel) i b) Q T m.
Proof.
  intros Hat Hmax Ho Hor Hb Hf Hbuf HQ.
  apply (wp_fio_rw i Read b (fun id => r ← fio_getCqe (S fuel) i id 1 1; Ret (read_result r))
    (fun e => Ret (0, Some e)) Q (fun r T' m' => Q (read_result r) T' m') T st cells idx o m);
    [intros; by eapply wp_bind|done|done|done|lia|].
  intros L HL. set (bs := read_at L content o (sl_Len b)).
  pose proof (read_at_length L content o (sl_Len b)) as Hlen. fold bs in Hlen.
  exists (len bs), (set_st_bufs (<[u64 (sl_Data b) := overwrite old bs]> (st_bufs st)) st).
  split; [|split; [apply len_nonneg|]].
  - intros id anon. unfold transfer, read_file. cbn.
    rewrite Hf, Hbuf, !uwrap_id by (unfold is_uint; lia). done.
  - intros m' Hm'. rewrite swrap_id in Hm' by (unfold is_sint, len; lia).
    specialize (HQ L m' HL Hm'). cbn. fold bs in HQ. by destruct (len bs =? 0).
Qed.

(** [Write] stores the buffer in the file at the offset and moves the offset behind
    it. *)
Lemma wp_fio_Write i b Q T st cells idx o content buf m :
  at_rest T st cells idx m -> idx < 2 ^ 64 - 1 -> cells !! fio_fOffset i = Some o ->
  0 <= o < 2 ^ 62 -> 0 < sl_Len b < 2 ^ 32 ->
  st_files st !! fio_fd i = Some content -> st_bufs st !! u64 (sl_Data b) = Some buf ->
  (forall m', let bs := take (Z.to_nat (sl_Len b)) buf in
    at_rest (T + 1) (set_st_files (<[fio_fd i := splice content (Z.to_nat o) bs]> (st_files st)) st)
      (<[fio_fOffset i := o + len bs]> cells) (idx + 1) m' ->
    Q (len bs, None) (T + 1) m') ->
  wp (fio_Write (S fuel) i b) Q T m.
Proof.
  intros Hat Hmax Ho Hor Hb Hf Hbuf HQ.
  apply (wp_fio_rw i Write b (fun id => fio_getCqe (S fuel) i id 1 1) (fun e => Ret (0, Some e)) Q Q
    T st cells idx o m); [done|done|done|done|lia|].
  intros L HL. set (bs := take (Z.to_nat (sl_Len b)) buf).
  assert (len bs <= sl_Len b) as Hlen by (unfold bs, len; rewrite length_take; lia).
  eexists (len bs), _. split; [|split; [apply len_nonneg|]].
  - intros id anon. unfold transfer, write_file. cbn.
    rewrite Hf, Hbuf, !uwrap_id by (unfold is_uint; lia). reflexivity.
  - intros m' Hm'. rewrite swrap_id in Hm' by (unfold is_sint, len in *; lia). by apply HQ.
Qed.

(** A read or write at a given offset up to its result. *)
Lemma wp_fio_at {A} i op b at_ (F : Z -> prog Mem A) (E : prog Mem A) Q R T st cells idx o m :
  (forall id T m, wp (fio_getCqe (S fuel) i id 1 1) R T m -> wp (F id) Q T m) ->
  at_rest T st cells idx m -> idx < 2 ^ 64 - 1 -> cells !! fio_fOffset i = Some o -> 0 < sl_Len b ->
  (forall L, (1 <= L)%nat -> exists res st',
    (forall id anon, transfer L (mkSQE op 0 0 (fio_fd i) (u64 at_) (u64 (sl_Data b)) (u32 (sl_Len b)) 0 id anon) st =
      (res, st')) /\ 0 <= res /\
    forall m', at_rest (T + 1) st' (<[fio_fOffset i := i64 (o + res)]> cells) (idx + 1) m' ->
      R (res, None) (T + 1) m') ->
  wp ('(sqe, rdy) ← Ring_SubmitEntry (S fuel);
      match sqe with
      | None => E
      | Some s => fio_fill i op b 0 (Ret at_) s;; rdy;; e ← sq_entry s; F (sqe_UserData e)
      end) Q T m.
Proof.
  intros HF ([(q & Hq & Hd & Htwo) (c & Hc & Htail & Hids) Hst Hcells Hidx] & Hok & H0) Hmax Ho Hb Hk.
  assert (next_id m = idx + 1) as Hid by (unfold next_id; rewrite Hidx; apply uwrap_id; unfold is_uint; lia).
  destruct (runs_fio_entry fuel i op b 0 (Ret at_) at_ m q Hq (proj1 Hd) Hb)
    as (rdy & m1 & m2 & x & Hrdy & H1 & H2 & _ & Hx & H4 & H5); [intros; apply runs_ret|].
  destruct (Hk (lim (m_hist m)) (sv_lim lim K HK _)) as (res & st' & Htr & Hres & Hnext).
  eapply wp_blind_bind; [by eapply blind_to_blind, blind_to_SubmitEntry|by apply near_refl|exact H1|intros m3 Hn3].
  cbn beta iota.
  eapply wp_blind_bind; [unfold fio_fill; blind_all|exact Hn3|exact H2|intros m4 Hn4].
  eapply wp_blind_bind; [rewrite Hrdy; apply blind_ready|exact Hn4|exact H4|intros m5 Hn5].
  eapply wp_blind_bind; [apply blind_sq_entry|exact Hn5|exact H5|intros m6 Hn6].
  rewrite Hx, Hid. apply HF. eapply wp_mono.
  - eapply (wp_fio_getCqe lim HK n keeps_up fuel i (fio_entry i op b 0 at_ (idx + 1)) q c T st cells idx o res st');
      try done.
    + cbn. by rewrite Hid.
    + intros y. apply Htr.
  - cbn. intros ? ? m7 (-> & -> & Hrest & Hok7). apply Hnext. split_and!; [done|done|lia].
Qed.

(** [WriteAt] stores the buffer at the given offset, and moves the offset of the
    file too. *)
Lemma wp_fio_WriteAt i b at_ Q T st cells idx o content buf m :
  at_rest T st cells idx m -> idx < 2 ^ 64 - 1 -> cells !! fio_fOffset i = Some o ->
  0 <= o < 2 ^ 62 -> 0 <= at_ < 2 ^ 62 -> 0 < sl_Len b < 2 ^ 32 ->
  st_files st !! fio_fd i = Some content -> st_bufs st !! u64 (sl_Data b) = Some buf ->
  (forall m', let bs := take (Z.to_nat (sl_Len b)) buf in
    at_rest (T + 1) (set_st_files (<[fio_fd i := splice content (Z.to_nat at_) bs]> (st_files st)) st)
      (<[fio_fOffset i := o + len bs]> cells) (idx + 1) m' ->
    Q (len bs, None) (T + 1) m') ->
  wp (fio_WriteAt (S fuel) i b at_) Q T m.
Proof.
  intros Hat Hmax Ho Hor Har Hb Hf Hbuf HQ.
  apply (wp_fio_at i Write b at_ (fun id => fio_getCqe (S fuel) i id 1 1)
    (Ret (0, Some errRingUnavailable)) Q Q T st cells idx o m); [done|done|done|done|lia|].
  intros L HL. set (bs := take (Z.to_nat (sl_Len b)) buf) in *.
  assert (len bs <= sl_Len b) as Hlen by (unfold bs, len; rewrite length_take; lia).
  eexists (len bs), _. split; [|split; [apply len_nonneg|]].
  - intros id anon. unfold transfer, write_file. cbn.
    rewrite Hf, Hbuf, !uwrap_id by (unfold is_uint; lia). reflexivity.
  - intros m' Hm'. apply HQ. pose proof (len_nonneg bs).
    rewrite swrap_id in Hm' by (unfold is_sint; lia). exact Hm'.
Qed.

(** [ReadAt] reads at the given offset, and moves the offset of the file too. *)
Lemma wp_fio_ReadAt i b at_ Q T st cells idx o content old m :
  at_rest T st cells idx m -> idx < 2 ^ 64 - 1 -> cells !! fio_fOffset i = Some o ->
  0 <= o < 2 ^ 62 -> 0 <= at_ < 2 ^ 62 -> 0 < sl_Len b < 2 ^ 32 ->
  st_files st !! fio_fd i = Some content -> st_bufs st !! u64 (sl_Data b) = Some old ->
  (forall L m', (1 <= L)%nat -> let bs := read_at L content at_ (sl_Len b) in
    at_rest (T + 1) (set_st_bufs (<[u64 (sl_Data b) := overwrite old bs]> (st_bufs st)) st)
      (<[fio_fOffset i := o + len bs]> cells) (idx + 1) m' ->
    Q (len bs, if len bs =? 0 then Some EOF else None) (T + 1) m') ->
  wp (fio_ReadAt (S fuel) i b at_) Q T m.
Proof.
  intros Hat Hmax Ho Hor Har Hb Hf Hbuf HQ.
  apply (wp_fio_at i Read b at_ (fun id => r ← fio_getCqe (S fuel) i id 1 1; Ret (read_result r))
    (Ret (0, Some errRingUnavailable)) Q (fun r T' m' => Q (read_result r) T' m') T st cells idx o m);
    [intros; by eapply wp_bind|done|done|done|lia|].
  intros L HL. set (bs := read_at L content at_ (sl_Len b)).
  pose proof (read_at_length L content at_ (sl_Len b)) as Hlen. fold bs in Hlen.
  exists (len bs), (set_st_bufs (<[u64 (sl_Data b) := overwrite old bs]> (st_bufs st)) st).
  split; [|split; [apply len_nonneg|]].
  - intros id anon. unfold transfer, read_file. cbn.
    rewrite Hf, Hbuf, !uwrap_id by (unfold is_uint; lia). done.
  - intros m' Hm'. rewrite swrap_id in Hm' by (unfold is_sint, len; lia).
    specialize (HQ L m' HL Hm'). cbn. fold bs in HQ. by destruct (len bs =? 0).
Qed.

(** [Close] goes through the ring as well. *)
Lemma wp_fio_Close i Q T st cells idx o m :
  at_rest T st cells idx m -> idx < 2 ^ 64 - 1 -> cells !! fio_fOffset i = Some o ->
  0 <= o < 2 ^ 62 -> i32 (fio_fd i) = fio_fd i -> is_Some (st_files st !! fio_fd i) ->
  (forall m', at_rest (T + 1) st cells (idx + 1) m' -> Q None (T + 1) m') ->
  wp (fio_Close (S fuel) i) Q T m.
Proof.
  intros ([(q & Hq & Hd & Htwo) (c & Hc & Htail & Hids) Hst Hcells Hidx] & Hok & H0) Hmax Ho Hor Hfd [content Hf] HQ.
  assert (next_id m = idx + 1) as Hid by (unfold next_id; rewrite Hidx; apply uwrap_id; unfold is_uint; lia).
  unfold fio_Close.
  eapply wp_blind_bind; [by apply blind_PrepareClose|by apply near_refl| |intros m1 Hn1].
  { eapply runs_prepare; [exact Hq|apply Hd|intros ?; repeat fill_step|done]. }
  cbn beta iota. rewrite Hid in *.
  eapply wp_bind.
  - eapply (wp_fio_getCqe lim HK n keeps_up fuel i _ q c T st cells idx o 0 st); [exact Hn1|reflexivity|try done..].
    intros x. unfold transfer. cbn. by rewrite Hfd, Hf.
  - cbn. intros ? ? m2 (-> & -> & Hrest & Hok2). apply HQ. split_and!; [|done|lia].
    rewrite Z.add_0_r, swrap_id in Hrest by (unfold is_sint; lia). by rewrite insert_id in Hrest.
Qed.
End Operations.
