(* ===== verification/Cp.v ===== *)
(** * Copying a file (examples/cp)

    The two programs of the example: [iouring.go] copies through a ring,
    [stdio.go] with the [os] package.  [log.Fatal] ends the process: it is the
    result [Some]. *)

From stdpp Require Import base list gmap strings.
From Stdlib Require Import ZArith Lia.
From S2P Require Import Prelude Prog Consts Types Machine Ops Files Setup FileIO.

(** What the programs use of a file: the methods of [ReadWriteSeekerCloser] and of
    [os.File]. *)
Record File := mkFile {
  f_Read : slice -> prog Mem (Z * err);
  f_Write : slice -> prog Mem (Z * err);
  f_Close : prog Mem err
}.

Section Cp.
Context {K : Kernel}.
(** The allocator, the contents of mapped memory after setup, and the fuel of the
    loops of the library. *)
Context (alloc : Store -> Z -> Z).
Context (rd : Z -> Z) (rd_sqe : Z -> SubmitEntry_t) (rd_cqe : Z -> CompletionEntry).
Context (fuel : nat).

Definition rw_file (f : ReadWriteSeekerCloser) : File :=
  mkFile (rw_Read f) (rw_Write f) (rw_Close f).
Definition ring_file (i : ringFIO) : File := rw_file (ring_rw fuel i).
Definition os_file (fd : Z) : File :=
  mkFile (os_Read fd) (fun b => os_Write fuel fd b 0) (os_Close fd).

(** The loop; in [iouring.go] a read of nothing ends it too. *)
Fixpoint copy_loop (zero_ends : bool) (rounds : nat) (r w : File) (buf : slice) : prog Mem err :=
  match rounds with
  | O => Starve
  | S rounds =>
      '(n, e) ← f_Read r buf;
      match e with
      | Some EOF => Ret None
      | Some e => Ret (Some e)
      | None =>
          if zero_ends && (n =? 0) then Ret None
          else
            b ← slice_to buf n;
            '(_, e) ← f_Write w b;
            match e with
            | Some e => Ret (Some e)
            | None => copy_loop zero_ends rounds r w buf
            end
      end
  end.

(** The loop and the two calls of [Close]. *)
Definition copy_and_close (zero_ends : bool) (rounds : nat) (r w : File) (buf : slice) : prog Mem err :=
  e ← copy_loop zero_ends rounds r w buf;
  match e with
  | Some e => Ret (Some e)
  | None =>
      e ← f_Close r;
      match e with
      | Some e => Ret (Some e)
      | None => f_Close w
      end
  end.

(** [os.O_RDWR|os.O_CREATE|os.O_TRUNC] and [0644]. *)
Definition O_RDWR : Z := 2.
Definition O_CREATE : Z := 64.
Definition O_TRUNC : Z := 512.
Definition dst_flags : Z := Z.lor O_RDWR (Z.lor O_CREATE O_TRUNC).
Definition dst_perm : Z := 420.

(** [iouring.go] from [os.Open] on. *)
Definition iouring_copy (rounds : nat) (bufSize : Z) (srcName dstName : string) : prog Mem err :=
  '(src, e) ← os_Open srcName;
  match e with
  | Some e => Ret (Some e)
  | None =>
      '(dst, e) ← os_OpenFile dstName dst_flags dst_perm;
      match e with
      | Some e => Ret (Some e)
      | None =>
          '(r, e) ← Ring_FileReadWriter fuel src;
          match e with
          | Some e => Ret (Some e)
          | None =>
              '(w, e) ← Ring_FileReadWriter fuel dst;
              match e with
              | Some e => Ret (Some e)
              | None =>
                  buf ← make_bytes alloc bufSize;
                  match r, w with
                  | Some r, Some w => copy_and_close true rounds (rw_file r) (rw_file w) buf
                  | _, _ => Panic nil_msg
                  end
              end
          end
      end
  end.

(** [main] of [iouring.go], with the value of the flag and the other arguments. *)
Definition iouring_params : Params :=
  mkParams 0 0 0 0 0 FeatNoDrop 0 [0; 0; 0] (mkSQOff 0 0 0 0 0 0 0 0 0) (mkCQOff 0 0 0 0 0 0 0 [0; 0]).
Definition iouring_main (rounds : nat) (bufSize : Z) (args : list string) : prog Mem err :=
  e ← New rd rd_sqe rd_cqe 4096 (Some iouring_params) [];
  match e with
  | Some e => Ret (Some e)
  | None =>
      match args with
      | [src; dst] => iouring_copy rounds bufSize src dst
      | _ => Ret (Some (ErrMsg "expected src dst"))
      end
  end.

(** [unix.Fadvise]. *)
Definition Fadvise (fd offset length advice : Z) : prog Mem err :=
  r ← syscall (SysFadvise (u64 fd) (u64 offset) (u64 length) (u64 advice));
  Ret (if sys_errno r =? 0 then None else Some (Errno (sys_errno r))).

(** [log.Fatalf("expected src dst: %v", args)]: [%v] prints a slice of strings in
    brackets. *)
Definition usage (args : list string) : error :=
  ErrMsg ("expected src dst: [" +:+ String.concat " " args +:+ "]").

(** [main] of [stdio.go]; it reports any error of the first [os.Open] as missing
    arguments. *)
Definition stdio_main (rounds : nat) (bufSize : Z) (args : list string) : prog Mem err :=
  match args with
  | [srcName; dstName] =>
      '(src, e) ← os_Open srcName;
      match e with
      | Some _ => Ret (Some (usage args))
      | None =>
          '(dst, e) ← os_OpenFile dstName dst_flags dst_perm;
          match e with
          | Some e => Ret (Some e)
          | None =>
              e ← Fadvise src 0 0 3;
              match e with
              | Some e => Ret (Some e)
              | None =>
                  buf ← make_bytes alloc bufSize;
                  copy_and_close false rounds (os_file src) (os_file dst) buf
              end
          end
      end
  | _ => Ret (Some (usage args))
  end.
End Cp.
