(* ===== verification/CpSpec.v ===== *)
(** * Properties of the copy programs

    The loop copies, against an interface of the two files; the interface is
    discharged for files on a ring among the completer, and for [os.File]. *)

From stdpp Require Import base list gmap strings.
From Stdlib Require Import ZArith Lia.
From S2P Require Import Prelude Prog Consts Types Machine Samples Submission SubmissionSpec Ops.
From S2P Require Import Files Completer FileIO Setup SetupSpec Rely RingFile Cp.

(** ** The loop *)

(** What the loop needs of the two files: [copied o] is the state with [o] bytes
    copied, [loaded o k] with [k] more in the buffer. *)
Class Copying (n : Z) (keeps_up : bool) (r w : File) (buf : slice) (content : list Z)
    (copied : Z -> Z -> Mem -> Prop) (loaded : Z -> Z -> Z -> Mem -> Prop)
    (closed : Z -> Mem -> Prop) : Prop := {
  cp_read : forall o T m, copied o T m -> 0 <= o <= len content ->
    wp n keeps_up (f_Read r buf) (fun v T' m' => exists k,
      v = (k, if k =? 0 then Some EOF else None) /\ 0 <= k <= sl_Len buf /\ o + k <= len content /\
      (k = 0 -> o = len content) /\ loaded o k T' m') T m;
  cp_write : forall o k T m, loaded o k T m -> 0 < k <= sl_Len buf -> o + k <= len content ->
    wp n keeps_up (f_Write w (mkSlice (sl_Data buf) k (sl_Cap buf)))
      (fun v T' m' => snd v = None /\ copied (o + k) T' m') T m;
  cp_close : forall T m, loaded (len content) 0 T m ->
    wp n keeps_up (e ← f_Close r; match e with Some e => Ret (Some e) | None => f_Close w end)
      (fun v T' m' => v = None /\ closed T' m') T m
}.

Section Loop.
Context (n : Z) (keeps_up : bool) (r w : File) (buf : slice) (content : list Z).
Context (copied : Z -> Z -> Mem -> Prop) (loaded : Z -> Z -> Z -> Mem -> Prop).
Context (closed : Z -> Mem -> Prop).
Context {C : Copying n keeps_up r w buf content copied loaded closed}.
Context (zero_ends : bool) (Hcap : sl_Len buf <= sl_Cap buf).

(** Every round copies a byte, so the loop ends. *)
Lemma wp_copy_loop rounds : forall o T m,
  copied o T m -> 0 <= o <= len content -> len content - o < Z.of_nat rounds ->
  wp n keeps_up (copy_loop zero_ends rounds r w buf)
    (fun v T' m' => v = None /\ loaded (len content) 0 T' m') T m.
Proof.
  induction rounds as [|rounds IH]; intros o T m Hm Ho Hr; [lia|]. cbn [copy_loop].
  eapply wp_bind; [by apply (cp_read o T m)|].
  cbn beta. intros ? T' m' (k & -> & Hk & Hok & Hend & Hl). cbn beta iota.
  destruct (Z.eqb_spec k 0) as [->|Hk0].
  - rewrite Hend in Hl by done. split; done.
  - rewrite andb_false_r. unfold slice_to.
    rewrite (proj2 (Z.leb_le 0 k)), (proj2 (Z.leb_le k (sl_Cap buf))) by lia. cbn [andb].
    change (wp n keeps_up ('(_, e) ← f_Write w (mkSlice (sl_Data buf) k (sl_Cap buf));
      match e with Some e => Ret (Some e) | None => copy_loop zero_ends rounds r w buf end)
      (fun v T' m' => v = None /\ loaded (len content) 0 T' m') T' m').
    eapply wp_bind; [apply (cp_write o k T' m'); [done|lia|done]|].
    cbn beta. intros [? ?] T2 m2 (Hv & Hc). cbn in Hv. subst. apply (IH (o + k)); [done|lia|lia].
Qed.

Lemma wp_copy_and_close rounds T m :
  copied 0 T m -> len content < Z.of_nat rounds ->
  wp n keeps_up (copy_and_close zero_ends rounds r w buf) (fun v T' m' => v = None /\ closed T' m') T m.
Proof.
  intros Hm Hr. unfold copy_and_close. pose proof (len_nonneg content).
  eapply wp_bind; [apply (wp_copy_loop rounds 0); [done|lia|lia]|].
  cbn beta. intros ? T' m' [-> Hl]. by apply cp_close.
Qed.
End Loop.

(** ** Files on a ring *)

Section RingFiles.
Context {K : Kernel} (lim : history -> nat) (HK : serves lim K).
Context (n : Z) (keeps_up : bool) (fuel : nat).
Context (r w : ringFIO) (buf : slice) (content : list Z) (idx0 : Z).
Context (Hcells : fio_fOffset r <> fio_fOffset w) (Hfds : fio_fd r <> fio_fd w).
Context (Hrfd : i32 (fio_fd r) = fio_fd r) (Hwfd : i32 (fio_fd w) = fio_fd w).
Context (Hbuf : 0 < sl_Len buf < 2 ^ 32) (Hsize : len content < 2 ^ 62) (Hidx : idx0 < 2 ^ 62).

(** The rings at rest, [o] bytes copied, [k] more in the buffer, and [j] requests made. *)
Record ring_state (o k j T : Z) (st : Store) (cells : gmap nat Z) (idx : Z) (old : list Z) (m : Mem) : Prop := {
  rs_rest : at_rest n T st cells idx m;
  rs_o : 0 <= o;
  rs_idx : idx <= idx0 + j;
  rs_src : st_files st !! fio_fd r = Some content;
  rs_dst : st_files st !! fio_fd w = Some (take (Z.to_nat o) content);
  rs_buf : st_bufs st !! u64 (sl_Data buf) = Some old;
  rs_len : len old = sl_Len buf;
  rs_old : take (Z.to_nat k) old = take (Z.to_nat k) (drop (Z.to_nat o) content);
  rs_r : cells !! fio_fOffset r = Some (o + k);
  rs_w : cells !! fio_fOffset w = Some o
}.
Definition ring_copied (o T : Z) (m : Mem) : Prop :=
  exists st cells idx old, ring_state o 0 (2 * o) T st cells idx old m.
Definition ring_loaded (o k T : Z) (m : Mem) : Prop :=
  exists st cells idx old, ring_state o k (2 * o + 1) T st cells idx old m.
Definition ring_closed (T : Z) (m : Mem) : Prop :=
  st_files (m_store m) !! fio_fd r = Some content /\ st_files (m_store m) !! fio_fd w = Some content.

Lemma ring_read o T m :
  ring_copied o T m -> 0 <= o <= len content ->
  wp n keeps_up (fio_Read (S fuel) r buf) (fun v T' m' => exists k,
    v = (k, if k =? 0 then Some EOF else None) /\ 0 <= k <= sl_Len buf /\ o + k <= len content /\
    (k = 0 -> o = len content) /\ ring_loaded o k T' m') T m.
Proof.
  intros (st & cells & idx & old & [Hrest Ho0 Hi Hs Hd Hb Hl _ Hr Hw]) Ho. rewrite Z.add_0_r in Hr.
  eapply (wp_fio_Read lim HK n keeps_up fuel r buf _ T st cells idx o content old m);
    [done|lia|done|lia|done|done|done|].
  intros L m' HL bs Hm'. exists (len bs).
  pose proof (read_at_length L content o (sl_Len buf)) as Hlen.
  destruct (read_at_prefix L content o (sl_Len buf)) as [Ebs Hle]. fold bs in Hlen, Ebs, Hle.
  split_and!; [done|apply len_nonneg|unfold len in *; lia|unfold len in *; lia| |].
  - intros H0. assert (bs = []) as E by (destruct bs; [done|discriminate H0]).
    apply read_at_nil in E; [|done|lia]. unfold len in *. lia.
  - eexists _, _, _, _. split; [exact Hm'|lia|lia|done|done|apply lookup_insert_eq| | |apply lookup_insert_eq|].
    + unfold len in *. rewrite overwrite_length; lia.
    + unfold len. rewrite Nat2Z.id, overwrite_take. exact Ebs.
    + by rewrite lookup_insert_ne.
Qed.

Lemma ring_write o k T m :
  ring_loaded o k T m -> 0 < k <= sl_Len buf -> o + k <= len content ->
  wp n keeps_up (fio_Write (S fuel) w (mkSlice (sl_Data buf) k (sl_Cap buf)))
    (fun v T' m' => snd v = None /\ ring_copied (o + k) T' m') T m.
Proof.
  intros (st & cells & idx & old & [Hrest Ho0 Hi Hs Hd Hb Hl Ho Hr Hw]) Hk Hok.
  eapply (wp_fio_Write lim HK n keeps_up fuel w _ _ T st cells idx o _ old m);
    [done|unfold len in *; lia|done|lia|cbn; lia|done|done|].
  cbn [sl_Len sl_Data]. intros m' Hm'. set (bs := take (Z.to_nat k) old) in *.
  assert (len bs = k) as Ek by (unfold bs, len in *; rewrite length_take; lia).
  split; [done|]. rewrite Ek in Hm'.
  eexists _, _, _, old. split; [exact Hm'|lia|lia|cbn; by rewrite lookup_insert_ne|cbn|done|done|done| |].
  - rewrite lookup_insert_eq. f_equal.
    rewrite Ho, splice_take by (unfold len in *; lia). f_equal. lia.
  - rewrite lookup_insert_ne by done. by rewrite Z.add_0_r.
  - apply lookup_insert_eq.
Qed.

Lemma ring_close T m :
  ring_loaded (len content) 0 T m ->
  wp n keeps_up (e ← fio_Close (S fuel) r; match e with Some e => Ret (Some e) | None => fio_Close (S fuel) w end)
    (fun v T' m' => v = None /\ ring_closed T' m') T m.
Proof.
  intros (st & cells & idx & old & [Hrest _ Hi Hs Hd Hb Hl Ho Hr Hw]). pose proof (len_nonneg content).
  rewrite Z.add_0_r in Hr. unfold len in Hd. rewrite Nat2Z.id, take_ge in Hd by done.
  eapply wp_bind.
  - eapply (wp_fio_Close lim HK n keeps_up fuel r (fun v T' m' => v = None /\
      exists idx, idx <= idx0 + 2 * len content + 2 /\ at_rest n T' st cells idx m'));
      [done|lia|done|lia|done|by eauto|].
    intros m' Hm'. split; [done|]. exists (idx + 1). split; [lia|done].
  - cbn. intros ? T' m' (-> & idx' & Hi' & Hm').
    eapply (wp_fio_Close lim HK n keeps_up fuel w); [done|lia|done|lia|done|by eauto|].
    intros m2 ([] & _). split; [done|]. unfold ring_closed. by rewrite rt_store.
Qed.

#[export] Instance ring_copying :
  Copying n keeps_up (ring_file (S fuel) r) (ring_file (S fuel) w) buf content
    ring_copied ring_loaded ring_closed.
Proof. split; [apply ring_read|apply ring_write|apply ring_close]. Qed.
End RingFiles.

(** ** Files of the os package *)

Section OsFiles.
Context {K : Kernel} (lim : history -> nat) (HK : serves lim K).
Context (n : Z) (keeps_up : bool) (fuel : nat).
Context (r w : Z) (buf : slice) (content : list Z).
Context (Hfds : r <> w) (Hbuf : 0 < sl_Len buf < 2 ^ 32) (Hsize : len content < 2 ^ 62).
Context (Hclose : forall h fd, sys_errno (k_answer h (SysClose fd)) = 0).
Notation wp := (wp n keeps_up).

Lemma wp_syscall_file call Q T m :
  (forall m', m_store m' = snd (k_file (m_hist m) call (m_store m)) ->
    Q (fst (k_file (m_hist m) call (m_store m))) T m') ->
  wp (syscall_file call) Q T m.
Proof.
  intros HQ m1 [(h & s & ->) _]. exists T.
  change (m_hist (upd_hs h s m)) with (m_hist m). change (m_store (upd_hs h s m)) with (m_store m).
  destruct (k_file (m_hist m) call (m_store m)) as [res st]. cbn in *. split; [|by apply HQ].
  split_and!; [done|done|by left].
Qed.

Lemma wp_syscall call Q T m :
  (forall m', m_store m' = m_store m -> Q (k_answer (m_hist m) call) T m') -> wp (syscall call) Q T m.
Proof.
  intros HQ m1 [(h & s & ->) _]. exists T. cbn. split; [|by apply HQ]. split_and!; [done|done|by left].
Qed.

Record os_state (o k : Z) (old : list Z) (st : Store) : Prop := {
  os_o : 0 <= o;
  os_k : k <= maxRW;
  os_src : st_files st !! r = Some content;
  os_dst : st_files st !! w = Some (take (Z.to_nat o) content);
  os_buf : st_bufs st !! u64 (sl_Data buf) = Some old;
  os_len : len old = sl_Len buf;
  os_old : take (Z.to_nat k) old = take (Z.to_nat k) (drop (Z.to_nat o) content);
  os_r : st_pos st !! r = Some (o + k);
  os_w : st_pos st !! w = Some o
}.
Definition os_copied (o T : Z) (m : Mem) : Prop := exists old, os_state o 0 old (m_store m).
Definition os_loaded (o k T : Z) (m : Mem) : Prop := exists old, os_state o k old (m_store m).
Definition os_closed (T : Z) (m : Mem) : Prop :=
  st_files (m_store m) !! r = Some content /\ st_files (m_store m) !! w = Some content.

Lemma os_read o T m :
  os_copied o T m -> 0 <= o <= len content ->
  wp (os_Read r buf) (fun v T' m' => exists k,
    v = (k, if k =? 0 then Some EOF else None) /\ 0 <= k <= sl_Len buf /\ o + k <= len content /\
    (k = 0 -> o = len content) /\ os_loaded o k T' m') T m.
Proof.
  intros (old & [Ho0 _ Hs Hd Hb Hl _ Hr Hw]) Ho. rewrite Z.add_0_r in Hr. unfold os_Read.
  rewrite (proj2 (Z.eqb_neq (sl_Len buf) 0)) by lia.
  set (a := Z.min (sl_Len buf) maxRW). assert (0 < a <= sl_Len buf /\ a <= maxRW) as Ha by (unfold a, maxRW; lia).
  rewrite (uwrap_id 64 a) by (unfold is_uint; lia).
  eapply (wp_bind _ _ _ _ (fun v T' m' => exists k, v = mkSysRes k 0 /\ 0 <= k <= a /\ o + k <= len content /\
    (k = 0 -> o = len content) /\ os_loaded o k T' m')).
  - apply wp_syscall_file. rewrite (sv_read lim K HK). unfold file_call, read_file. rewrite Hs, Hb, Hr. cbn [default id].
    set (L := lim (m_hist m)). set (bs := read_at L content o a).
    pose proof (read_at_length L content o a) as Hlen.
    destruct (read_at_prefix L content o a) as [Ebs Hle]. fold bs in Hlen, Ebs, Hle.
    cbn [fst snd]. rewrite (proj2 (Z.ltb_ge (len bs) 0)) by apply len_nonneg. cbn [fst snd].
    intros m' Hm'. exists (len bs). split_and!; [done|apply len_nonneg|unfold len in *; lia|unfold len in *; lia| |].
    + intros H0. assert (bs = []) as E by (destruct bs; [done|discriminate H0]).
      apply read_at_nil in E; [|apply HK|lia]. unfold len in *. lia.
    + exists (overwrite old bs). rewrite Hm'. split; cbn; [done|unfold len in *; lia|done|done| | | | |].
      * apply lookup_insert_eq.
      * unfold len in *. rewrite overwrite_length; lia.
      * unfold len. rewrite Nat2Z.id, overwrite_take. exact Ebs.
      * rewrite lookup_alter_eq, Hr. cbn. f_equal. lia.
      * by rewrite lookup_alter_ne.
  - cbn beta. intros ? T' m' (k & -> & Hk & Hok & Hend & Hl'). cbn [sys_errno raw_errno negb Z.eqb].
    change (u64 0 =? 0) with true. cbn [negb]. unfold sys_r1. cbn [raw_r1].
    rewrite uwrap_id by (unfold is_uint; lia).
    destruct (Z.eqb_spec k 0) as [->|Hk0]; exists k || exists 0.
    + split_and!; try done; lia.
    + rewrite swrap_id by (unfold is_sint; lia). rewrite (proj2 (Z.eqb_neq k 0) Hk0). split_and!; try done; lia.
Qed.

Lemma os_write o k T m :
  os_loaded o k T m -> 0 < k <= sl_Len buf -> o + k <= len content ->
  wp (os_Write (S fuel) w (mkSlice (sl_Data buf) k (sl_Cap buf)) 0)
    (fun v T' m' => snd v = None /\ os_copied (o + k) T' m') T m.
Proof.
  intros (old & [Ho0 Hmax Hs Hd Hb Hl Ho Hr Hw]) Hk Hok. cbn [os_Write sl_Len sl_Data].
  rewrite Z.add_0_r, Z.sub_0_r, Z.min_l, (uwrap_id 64 k) by (unfold is_uint, maxRW in *; lia).
  eapply (wp_bind _ _ _ _ (fun v T' m' => v = mkSysRes k 0 /\ os_copied (o + k) T' m')).
  - apply wp_syscall_file. rewrite (sv_write lim K HK). unfold file_call, write_file. rewrite Hd, Hb, Hw. cbn [default id].
    set (bs := take (Z.to_nat k) old) in *.
    assert (len bs = k) as Ek by (unfold bs, len in *; rewrite length_take; lia). cbn [fst snd].
    rewrite Ek, (proj2 (Z.ltb_ge k 0)) by lia. cbn [fst snd]. intros m' Hm'. split; [done|].
    exists old. rewrite Hm'. split; cbn; [lia|unfold maxRW; lia|by rewrite lookup_insert_ne| |done|done|done| |].
    + rewrite lookup_insert_eq. f_equal.
      rewrite Ho, splice_take by (unfold len in *; lia). f_equal. lia.
    + rewrite lookup_alter_ne by done. by rewrite Z.add_0_r.
    + rewrite lookup_alter_eq, Hw. cbn. f_equal. lia.
  - cbn beta. intros ? T' m' (-> & Hc). unfold sys_errno, sys_r1. cbn [raw_errno raw_r1].
    change (u64 0 =? 0) with true. cbn [negb].
    rewrite uwrap_id, swrap_id by (unfold is_uint, is_sint, maxRW in *; lia). by rewrite Z.eqb_refl.
Qed.

Lemma os_close T m :
  os_loaded (len content) 0 T m ->
  wp (e ← os_Close r; match e with Some e => Ret (Some e) | None => os_Close w end)
    (fun v T' m' => v = None /\ os_closed T' m') T m.
Proof.
  intros (old & [_ _ Hs Hd _ _ _ _ _]). unfold len in Hd. rewrite Nat2Z.id, take_ge in Hd by done.
  assert (forall fd T m, os_closed T m -> wp (os_Close fd) (fun v T' m' => v = None /\ os_closed T' m') T m) as Hc.
  { intros fd T1 m1 [H1 H2].
    eapply (wp_bind _ _ _ _ (fun v T' m' => sys_errno v = 0 /\ os_closed T' m')).
    - apply wp_syscall. intros m' Hm'. split; [apply Hclose|]. unfold os_closed. by rewrite Hm'.
    - cbn beta. intros v T' m' [-> Hm']. done. }
  eapply wp_bind; [by apply Hc|]. cbn beta. intros ? T' m' [-> Hm']. by apply Hc.
Qed.

#[export] Instance os_copying :
  Copying n keeps_up (os_file (S fuel) r) (os_file (S fuel) w) buf content os_copied os_loaded os_closed.
Proof. split; [apply os_read|apply os_write|apply os_close]. Qed.
End OsFiles.
