(* ===== verification/CpMain.v ===== *)
(** * The copy programs from start to end

    [main] of iouring.go creates its ring, opens the two files and copies; [main]
    of stdio.go does without the ring.  Both end, report no error and leave a copy
    of the source. *)

From stdpp Require Import base list gmap strings relations.
From Stdlib Require Import ZArith Lia.
From S2P Require Import Prelude Prog Consts Types Machine Samples Submission SubmissionSpec Ops.
From S2P Require Import Files Completer FileIO Setup SetupSpec Rely CompleterRely RingFile Cp CpSpec.

(** ** Opening *)

(** The two names are different files: the source has [content], the destination
    is created or truncated; the other calls on the two files succeed. *)
Record opens (K : Kernel) (src dst : string) (sfd dfd : Z) (content : list Z) : Prop := {
  op_src : forall h st, k_file h (SysOpen src 0 0) st = (mkSysRes sfd 0, open_file sfd content st);
  op_dst : forall h st, k_file h (SysOpen dst dst_flags dst_perm) st = (mkSysRes dfd 0, open_file dfd [] st);
  op_seek : forall h fd, k_answer h (SysSeek fd 0 0) = mkSysRes 0 0;
  op_advise : forall h fd offset length advice,
    sys_errno (k_answer h (SysFadvise fd offset length advice)) = 0;
  op_close : forall h fd, sys_errno (k_answer h (SysClose fd)) = 0;
  op_sfd : 0 <= sfd < 2 ^ 31;
  op_dfd : 0 <= dfd < 2 ^ 31;
  op_other : sfd <> dfd
}.

Section Open.
Context {K : Kernel}.
Implicit Types (m : Mem).

Lemma runs_fileReadWriter fd m :
  k_answer (m_hist m) (SysSeek fd 0 0) = mkSysRes 0 0 -> r_fileReg (m_ring m) = None ->
  let a := fresh (dom (m_cells m)) in
  runs (Ring_fileReadWriter fd) m (Some (mkFIO (i32 fd) fd a), None)
    (set_m_cells (<[a := 0]> (m_cells m))
      (set_m_hist ((SysSeek fd 0 0, mkSysRes 0 0) :: m_hist m) m)).
Proof.
  intros Hk Hreg a. unfold Ring_fileReadWriter. eapply runs_bind; [apply runs_act; rewrite Hk; reflexivity|].
  cbn beta iota. eapply runs_bind; [by apply runs_act|]. cbn beta.
  eapply runs_bind; [apply runs_load; exact Hreg|]. apply runs_ret.
Qed.

Lemma runs_FileReadWriter fuel fd m :
  k_answer (m_hist m) (SysSeek fd 0 0) = mkSysRes 0 0 -> r_fileReg (m_ring m) = None ->
  let a := fresh (dom (m_cells m)) in
  runs (Ring_FileReadWriter fuel fd) m (Some (ring_rw fuel (mkFIO (i32 fd) fd a)), None)
    (set_m_cells (<[a := 0]> (m_cells m))
      (set_m_hist ((SysSeek fd 0 0, mkSysRes 0 0) :: m_hist m) m)).
Proof. intros Hk Hreg a. eapply runs_bind; [by apply runs_fileReadWriter|apply runs_ret]. Qed.

Lemma fresh_cell_ne (a : nat) (v : Z) (cells : gmap nat Z) : a <> fresh (dom (<[a := v]> cells)).
Proof.
  intros E. apply (is_fresh (dom (<[a := v]> cells))). rewrite <- E. apply elem_of_dom. rewrite lookup_insert_eq. eauto.
Qed.

Lemma blind_os_OpenFile name flags perm : blind (os_OpenFile name flags perm).
Proof. unfold os_OpenFile. blind_all. Qed.

Lemma blind_ring_fileReg : blind (ring_load r_fileReg).
Proof. blind_prim. Qed.

Lemma blind_fileReadWriter fd : blind (Ring_fileReadWriter fd).
Proof.
  unfold Ring_fileReadWriter. apply blind_bind; [eauto with blind|intros r].
  destruct (negb _); [done|]. apply blind_bind; [blind_prim|intros a].
  apply blind_bind; [apply blind_ring_fileReg|]. intros [reg|]; [|done].
  unfold Register.fileRegistry_Register, Register.ReregisterFiles, Register.register_call, Register.first_of.
  assert (forall A msg (f : fileRegistry -> option (A * fileRegistry)), blind (Register.reg_act msg f)) as Hact
    by (intros; blind_prim).
  blind_all.
Qed.

Lemma blind_FileReadWriter fuel fd : blind (Ring_FileReadWriter fuel fd).
Proof. apply blind_bind; [apply blind_fileReadWriter|]. by intros []. Qed.

(** Opening a file and wrapping it, on a ring at rest. *)
Lemma wp_open_rw n keeps_up fuel name flags perm tfd content (k : ReadWriteSeekerCloser -> prog Mem err) Q T st cells idx m :
  (forall h st, k_file h (SysOpen name (u64 flags) (u64 perm)) st = (mkSysRes tfd 0, open_file tfd content st)) ->
  0 <= tfd < 2 ^ 31 -> (forall h fd, k_answer h (SysSeek fd 0 0) = mkSysRes 0 0) ->
  at_rest n T st cells idx m -> r_fileReg (m_ring m) = None ->
  (forall a m', at_rest n T (open_file tfd content st) (<[a := 0]> cells) idx m' ->
    wp n keeps_up (k (ring_rw fuel (mkFIO tfd tfd a))) Q T m') ->
  wp n keeps_up
    ('(f, e) ← os_OpenFile name flags perm;
     match e with
     | Some e => Ret (Some e)
     | None =>
         '(rw, e) ← Ring_FileReadWriter fuel f;
         match e, rw with
         | Some e, _ => Ret (Some e)
         | None, None => Panic nil_msg
         | None, Some rw => k rw
         end
     end) Q T m.
Proof.
  intros Hopen Htfd Hseek (Hrest & Hok & H0) Hreg Hk. destruct Hrest as [Hq Hc Hst Hcells Hid].
  eapply wp_blind_bind; [apply blind_os_OpenFile|by apply near_refl| |intros m1 Hn1].
  { apply runs_os_OpenFile; [apply Hopen|done]. }
  match type of Hn1 with near _ ?M _ _ => set (M1 := M) in Hn1 end.
  eapply wp_blind_bind; [apply blind_FileReadWriter|exact Hn1| |intros m2 Hn2].
  { apply (runs_FileReadWriter fuel tfd M1); [apply Hseek|done]. }
  cbn beta iota. replace (i32 tfd) with tfd by (symmetry; apply swrap_id; unfold is_sint; lia).
  eapply Hk. rewrite <- Hst, <- Hcells. split_and!; [|apply Hn2|done].
  eapply near_resting; [exact Hn2|]. split; [done|done|reflexivity|reflexivity|done].
Qed.

(** A buffer, new or of given bytes. *)
Lemma wp_bytes_rest {A} n keeps_up p bs sl (k : slice -> prog Mem A) Q T st cells idx m :
  blind p -> (forall m, runs p m (sl (m_store m))
    (set_m_store (set_st_bufs (<[sl_Data (sl (m_store m)) := bs]> (st_bufs (m_store m))) (m_store m)) m)) ->
  at_rest n T st cells idx m ->
  (forall m', at_rest n T (set_st_bufs (<[sl_Data (sl st) := bs]> (st_bufs st)) st) cells idx m' ->
    wp n keeps_up (k (sl st)) Q T m') ->
  wp n keeps_up (s ← p; k s) Q T m.
Proof.
  intros Hp Hr (Hrest & Hok & H0) Hk. destruct Hrest as [Hq Hc Hst Hcells Hid].
  eapply wp_blind_bind; [exact Hp|by apply near_refl|apply Hr|intros m1 Hn1]. rewrite Hst in *.
  apply Hk. split_and!; [|apply Hn1|done].
  eapply near_resting; [exact Hn1|]. by split.
Qed.
End Open.

(** ** Copying on a ring at rest *)

Section RingCopy.
Context {K : Kernel} (lim : history -> nat) (HK : serves lim K).
Context (alloc : Store -> Z -> Z) (Halloc : forall st k, is_u64 (alloc st k)).
Context (src dst : string) (sfd dfd : Z) (content : list Z).
Context (Hopen : opens K src dst sfd dfd content) (Hsize : len content < 2 ^ 62).
Context (bufSize : Z) (Hbuf : 0 < bufSize < 2 ^ 32) (rounds : nat) (Hrounds : len content < Z.of_nat rounds).
Context (n : Z) (keeps_up : bool) (fuel : nat).

(** A copy of the source. *)
Definition is_copy (m : Mem) : Prop :=
  st_files (m_store m) !! sfd = Some content /\ st_files (m_store m) !! dfd = Some content.

Lemma wp_iouring_copy T st cells idx m :
  at_rest n T st cells idx m -> idx < 2 ^ 62 -> r_fileReg (m_ring m) = None ->
  wp n keeps_up (iouring_copy alloc (S fuel) rounds bufSize src dst)
    (fun v T' m' => v = None /\ is_copy m') T m.
Proof.
  intros (Hrest & Hok & H0) Hidx Hreg. pose proof Hopen as [Hs Hd Hseek _ _ Hsfd Hdfd Hother].
  unfold iouring_copy.
  eapply wp_blind_bind; [apply blind_os_OpenFile|by apply near_refl| |intros m1 Hn1].
  { apply runs_os_OpenFile; [apply Hs|done]. }
  eapply wp_blind_bind; [apply blind_os_OpenFile|exact Hn1| |intros m2 Hn2].
  { apply runs_os_OpenFile; [apply Hd|done]. }
  match type of Hn2 with near _ ?M _ _ => set (M2 := M) in Hn2 end.
  eapply wp_blind_bind; [apply blind_FileReadWriter|exact Hn2| |intros m3 Hn3].
  { apply (runs_FileReadWriter (S fuel) sfd M2); [apply Hseek|done]. }
  match type of Hn3 with near _ ?M _ _ => set (M3 := M) in Hn3 end.
  eapply wp_blind_bind; [apply blind_FileReadWriter|exact Hn3| |intros m4 Hn4].
  { apply (runs_FileReadWriter (S fuel) dfd M3); [apply Hseek|done]. }
  set (a1 := fresh (dom (m_cells M2))) in *. set (a2 := fresh (dom (m_cells M3))) in *.
  eapply wp_blind_bind; [apply blind_make_bytes|exact Hn4|by apply runs_act|intros m5 Hn5].
  clear m1 m2 m3 m4 Hn1 Hn2 Hn3 Hn4. cbn beta iota in *.
  set (a := alloc _ _) in *.
  destruct Hrest as [Hq Hc Hst Hcells Hid].
  assert (a1 <> a2) as Ha by apply (fresh_cell_ne a1 0 (m_cells m)).
  pose proof (Halloc _ _ : is_u64 a) as Hau.
  assert (i32 sfd = sfd /\ i32 dfd = dfd) as [Es Ed] by (split; apply swrap_id; unfold is_sint; lia).
  set (r := mkFIO (i32 sfd) sfd a1). set (w := mkFIO (i32 dfd) dfd a2).
  set (buf := mkSlice a bufSize bufSize).
  assert (Copying n keeps_up (ring_file (S fuel) r) (ring_file (S fuel) w) buf content
    (ring_copied n r w buf content idx) (ring_loaded n r w buf content idx) (ring_closed r w content)) as C.
  { apply (ring_copying lim HK); cbn; rewrite ?Es, ?Ed; done. }
  eapply wp_mono; [apply (wp_copy_and_close n keeps_up _ _ _ content _ _ _ (C := C))|].
  - cbn. lia.
  - unfold ring_copied, r, w, buf. cbn. rewrite Es, Ed. eexists _, _, idx, _. split.
    + split_and!; [|apply Hn5|done]. eapply near_resting; [exact Hn5|]. split; [done|done|reflexivity|reflexivity|done].
    + lia.
    + lia.
    + cbn. rewrite lookup_insert_ne by done. apply lookup_insert_eq.
    + cbn. apply lookup_insert_eq.
    + cbn. rewrite uwrap_id by done. apply lookup_insert_eq.
    + unfold len. rewrite length_replicate. cbn. lia.
    + done.
    + cbn. rewrite lookup_insert_ne by done. apply lookup_insert_eq.
    + cbn. apply lookup_insert_eq.
  - done.
  - cbn. intros ? T' m' [-> [H1 H2]]. cbn in *. rewrite Es, Ed in *. done.
Qed.
End RingCopy.

(** ** The ring of [New] is at rest *)

Lemma new_at_rest {K : Kernel} rd rd_sqe rd_cqe size p p' fd m m1 r :
  setup_ok rd size p p' fd m m1 r ->
  zeroed rd rd_cqe p' (sys_r1 (mmap1 m1 fd p').2) (cq_addr m1 fd p') ->
  2 <= p_SqEntries p' -> 515 <= p_CqEntries p' ->
  at_rest (p_CqEntries p') 0 (m_store m) (m_cells m) 0 (new_mem rd rd_sqe rd_cqe p' fd m1).
Proof.
  intros H [Hsh Hst Hch Hct Hes] Htwo Hn.
  destruct (new_queues rd rd_sqe rd_cqe size p p' fd m m1 r H) as (Hsq & Hsl & Hcq & Hcl).
  set (q := new_sq rd rd_sqe p' fd m1) in *. set (c := new_cq rd rd_cqe p' fd m1) in *.
  assert (m1 = set_m_hist ((SysSetup (u64 size) p, r) :: m_hist m) m) as Em by apply H.
  split_and!; [|exists 512%nat|done].
  - split; [|exists c; split_and!; [done|exact Hct|]|by rewrite Em|by rewrite Em|done].
    + exists q. split; [done|]. split; [split; [split; [done|done|cbn; lia]|]|by rewrite Hsl].
      unfold sq_head_pos, sq_tail_pos. f_equal. transitivity 0; [exact Hsh|symmetry; exact Hst].
    + unfold c, new_cq, attach_cq, elements. cbn. apply Forall_fmap, Forall_true. intros i. cbn. rewrite Hes. lia.
  - split_and!; [|by rewrite <- Hcl; apply Hcq|lia|cbn; lia|lia|done|left].
    + change ((Some (len (cq_Entries c), cq_Mask c), 512%nat, 0%nat) =
        (Some (p_CqEntries p', p_CqEntries p' - 1), 512%nat, 0%nat)).
      rewrite <- Hcl. do 4 f_equal. apply Hcq.
    + unfold m_head, m_cq. cbn. f_equal. exact Hch.
Qed.

(** The environment begins with the [i]-th action. *)
Definition starts_at {M} (i : nat) (env : nat -> M -> M) (j : nat) (m : M) : M :=
  if (j <? i)%nat then m else env j m.

Lemma starts_at_run {M A} (p : prog M A) i env j m :
  (i <= j)%nat -> run (starts_at i env) p j m = run env p j m.
Proof.
  revert j m. induction p as [a|X f k IH|s|]; intros j m Hj; cbn; try done.
  unfold starts_at at 1. rewrite (proj2 (Nat.ltb_ge j i) Hj). destruct (f (env j m)). apply IH. lia.
Qed.

(** A program whose first part is quiet. *)
Lemma run_after_quiet {M A B} (p : prog M A) (k : A -> prog M B) m a m' :
  runs p m a m' -> exists i, forall env,
    run (starts_at i env) (p ≫= k) 0 m = run env (k a) i m'.
Proof.
  intros Hr. destruct (Hr 0%nat) as [i Hi]. exists i. intros env. rewrite run_bind.
  destruct (run_quiet_prefix p (starts_at i env) 0 m a m' i Hi) as [-> _].
  - intros j x Hj. unfold starts_at. by rewrite (proj2 (Nat.ltb_lt j i) Hj).
  - by apply starts_at_run.
Qed.

(** A program that creates a ring and goes on with [p], which was verified. *)
Lemma run_new_then {K : Kernel} rd rd_sqe rd_cqe size p p' fd m m1 r (k : prog Mem err) Q :
  setup_ok rd size p p' fd m m1 r ->
  wp (p_CqEntries p') true k Q 0 (new_mem rd rd_sqe rd_cqe p' fd m1) ->
  exists i, forall env, (forall i T m, rely (p_CqEntries p') true T m (env i m)) ->
    exists v T m' i', run (starts_at i env)
        (e ← New rd rd_sqe rd_cqe size (Some p) [];
         match e with Some e => Ret (Some e) | None => k end) 0 m = Done v m' i' /\ Q v T m'.
Proof.
  intros Hset Hwp. set (mr := new_mem rd rd_sqe rd_cqe p' fd m1) in *.
  assert (runs (New rd rd_sqe rd_cqe size (Some p) []) m None mr) as Hnew
    by (eapply runs_New; [done|apply runs_ret]).
  destruct (run_after_quiet _ (fun e => match e with Some e => Ret (Some e) | None => k end) m None mr Hnew) as [i Hi].
  exists i. intros env Henv. rewrite Hi.
  pose proof (wp_run _ _ env k Q i 0 mr Henv Hwp) as H.
  destruct (run env k i mr) as [v m' i'|s m'|m']; [|done|done]. destruct H as [T HQ]. eauto 10.
Qed.

(** C6. [cp] of the example, through the ring: [main] creates the ring, opens the
    files and copies.  With a kernel that serves requests (its reads may be short
    in any way, its writes are complete), a ring of at least two submission
    entries and 515 completion entries, a buffer of any size below 2^32, and a
    completer that keeps up but is otherwise scheduled in any way between the actions of
    [main], [main] ends without an error and the destination has the contents of
    the source.  The rings wrap around as often as needed, and as many rounds of
    the loop as the file has bytes, and one, are enough. *)
Theorem iouring_main_copies {K : Kernel} (lim : history -> nat) (alloc : Store -> Z -> Z)
    (rd : Z -> Z) (rd_sqe : Z -> SubmitEntry_t) (rd_cqe : Z -> CompletionEntry)
    (src dst : string) (sfd dfd : Z) (content : list Z) (bufSize : Z) (fuel rounds : nat)
    (p' : Params) (fd : Z) (m m1 : Mem) (r : SysRes)
    (HK : serves lim K) (Hopen : opens K src dst sfd dfd content)
    (Halloc : forall st k, is_u64 (alloc st k))
    (Hset : setup_ok rd 4096 iouring_params p' fd m m1 r)
    (Hzero : zeroed rd rd_cqe p' (sys_r1 (mmap1 m1 fd p').2) (cq_addr m1 fd p'))
    (Hsq : 2 <= p_SqEntries p') (Hentries : 515 <= p_CqEntries p')
    (Hsize : len content < 2 ^ 62) (Hbuf : 0 < bufSize < 2 ^ 32) (Hrounds : len content < Z.of_nat rounds) :
  exists i, forall env, (forall i T m, rely (p_CqEntries p') true T m (env i m)) ->
    exists m' i', run (starts_at i env)
        (iouring_main alloc rd rd_sqe rd_cqe (S fuel) rounds bufSize [src; dst]) 0 m = Done None m' i' /\
      st_files (m_store m') !! sfd = Some content /\ st_files (m_store m') !! dfd = Some content.
Proof.
  destruct (run_new_then rd rd_sqe rd_cqe 4096 iouring_params p' fd m m1 r
    (iouring_copy alloc (S fuel) rounds bufSize src dst) (fun v T m => v = None /\ is_copy sfd dfd content m) Hset)
    as [i Hi].
  - pose proof (new_at_rest rd rd_sqe rd_cqe 4096 _ p' fd m m1 r Hset Hzero Hsq Hentries).
    by eapply (wp_iouring_copy lim HK).
  - exists i. intros env Henv. destruct (Hi env Henv) as (v & T & m' & i' & Hrun & -> & Hcopy). eauto.
Qed.

(** ** Copying without a ring *)

Section OsCopy.
Context {K : Kernel} (lim : history -> nat) (HK : serves lim K).
Context (alloc : Store -> Z -> Z) (Halloc : forall st k, is_u64 (alloc st k)).
Context (src dst : string) (sfd dfd : Z) (content : list Z).
Context (Hopen : opens K src dst sfd dfd content) (Hsize : len content < 2 ^ 62).
Context (bufSize : Z) (Hbuf : 0 < bufSize < 2 ^ 32) (rounds : nat) (Hrounds : len content < Z.of_nat rounds).
Context (n : Z) (keeps_up : bool) (fuel : nat).
Notation wp := (wp n keeps_up).

Lemma wp_os_OpenFile name flags perm fd f Q T m :
  (forall h st, k_file h (SysOpen name (u64 flags) (u64 perm)) st = (mkSysRes fd 0, f st)) ->
  0 <= fd < 2 ^ 31 -> (forall m', m_store m' = f (m_store m) -> Q (fd, None) T m') ->
  wp (os_OpenFile name flags perm) Q T m.
Proof.
  intros Hk Hfd HQ. unfold os_OpenFile.
  eapply (wp_bind _ _ _ _ (fun v T' m' => v = mkSysRes fd 0 /\ T' = T /\ m_store m' = f (m_store m))).
  - apply wp_syscall_file. rewrite Hk. done.
  - cbn beta. intros ? ? m' (-> & -> & Hm'). unfold sys_errno, sys_r1. cbn [raw_errno raw_r1].
    change (u64 0 =? 0) with true. rewrite uwrap_id, swrap_id by (unfold is_uint, is_sint; lia). by apply HQ.
Qed.

Lemma wp_make_bytes k Q T m :
  (forall m', let a := alloc (m_store m) k in
    m_store m' = set_st_bufs (<[a := replicate (Z.to_nat k) 0]> (st_bufs (m_store m))) (m_store m) ->
    Q (mkSlice a k k) T m') ->
  wp (make_bytes alloc k) Q T m.
Proof.
  intros HQ m1 [(h & s & ->) _]. exists T. split; [split_and!; [done|done|by left]|]. by apply HQ.
Qed.

Lemma wp_stdio_main T m :
  wp (stdio_main alloc (S fuel) rounds bufSize [src; dst])
    (fun v T' m' => v = None /\ is_copy sfd dfd content m') T m.
Proof.
  pose proof Hopen as [Hs Hd _ Hadv Hclose Hsfd Hdfd Hother]. unfold stdio_main, os_Open.
  eapply wp_bind; [apply (wp_os_OpenFile src 0 0 sfd (open_file sfd content) (fun v T' m' => v = (sfd, None) /\
    m_store m' = open_file sfd content (m_store m)) T m Hs); done|].
  cbn beta. intros ? T1 m1 [-> H1]. cbn beta iota.
  eapply wp_bind; [apply (wp_os_OpenFile dst dst_flags dst_perm dfd (open_file dfd [])
    (fun v T' m' => v = (dfd, None) /\ m_store m' = open_file dfd [] (m_store m1)) T1 m1 Hd); done|].
  cbn beta. intros ? T2 m2 [-> H2]. cbn beta iota.
  eapply (wp_bind _ _ _ _ (fun v T' m' => v = None /\ m_store m' = m_store m2)).
  { eapply (wp_bind _ _ _ _ (fun v T' m' => sys_errno v = 0 /\ m_store m' = m_store m2)).
    - apply wp_syscall. intros m' Hm'. by rewrite Hadv.
    - cbn beta. intros v T' m' [-> Hm']. done. }
  cbn beta. intros ? T3 m3 [-> H3]. cbn beta iota.
  set (a := alloc (m_store m3) bufSize). pose proof (Halloc (m_store m3) bufSize : is_u64 a) as Ha.
  eapply (wp_bind _ _ _ _ (fun v T' m' => v = mkSlice a bufSize bufSize /\
    m_store m' = set_st_bufs (<[a := replicate (Z.to_nat bufSize) 0]> (st_bufs (m_store m3))) (m_store m3))).
  { by apply wp_make_bytes. }
  cbn beta. intros ? T4 m4 [-> H4]. set (buf := mkSlice a bufSize bufSize).
  assert (Copying n keeps_up (os_file (S fuel) sfd) (os_file (S fuel) dfd) buf content
    (os_copied sfd dfd buf content) (os_loaded sfd dfd buf content) (os_closed sfd dfd content)) as C
    by (by apply (os_copying lim HK)).
  apply (wp_copy_and_close n keeps_up _ _ _ content _ _ _ (C := C)); [cbn; lia| |done].
  exists (replicate (Z.to_nat bufSize) 0). rewrite H4, H3, H2, H1. split; cbn; try done.
  - rewrite lookup_insert_ne by done. apply lookup_insert_eq.
  - apply lookup_insert_eq.
  - rewrite uwrap_id by done. apply lookup_insert_eq.
  - unfold len. rewrite length_replicate. lia.
  - rewrite lookup_insert_ne by done. apply lookup_insert_eq.
  - apply lookup_insert_eq.
Qed.
End OsCopy.

(** C7. The two programs of the example agree, on a kernel that takes the request
    it is asked for and completes every write ([serves]: a read may be short in
    any way, a write may not, and [iouring_short_write] below shows that the
    copies differ on a kernel whose writes are short), and on a ring of at least
    two submission entries and 515 completion entries, with a source of less than
    2^62 bytes and a buffer of less than 2^32.  In every interleaving of
    the copy through the ring with the goroutine of the completer, also when the
    completer does not keep up, the program does not panic, and if it ends then
    without an error and with the two files exactly as the program without the
    ring leaves them, which ends as well.  That the copy through the ring ends is
    not stated here: C6 is about that, with a completer that keeps up. *)
Theorem cp_programs_agree {K : Kernel} (lim : history -> nat) (alloc : Store -> Z -> Z)
    (rd : Z -> Z) (rd_sqe : Z -> SubmitEntry_t) (rd_cqe : Z -> CompletionEntry)
    (src dst : string) (sfd dfd : Z) (content : list Z) (bufSize : Z) (fuel rounds : nat)
    (p' : Params) (fd : Z) (m m1 : Mem) (r : SysRes)
    (HK : serves lim K) (Hopen : opens K src dst sfd dfd content)
    (Halloc : forall st k, is_u64 (alloc st k))
    (Hset : setup_ok rd 4096 iouring_params p' fd m m1 r)
    (Hzero : zeroed rd rd_cqe p' (sys_r1 (mmap1 m1 fd p').2) (cq_addr m1 fd p'))
    (Hsq : 2 <= p_SqEntries p') (Hentries : 515 <= p_CqEntries p')
    (Hsize : len content < 2 ^ 62) (Hbuf : 0 < bufSize < 2 ^ 32) (Hrounds : len content < Z.of_nat rounds) :
  exists mr m2, runs (New rd rd_sqe rd_cqe 4096 (Some iouring_params) []) m None mr /\
    runs (stdio_main alloc (S fuel) rounds bufSize [src; dst]) m None m2 /\
    forall s, rtc fstep (iouring_copy alloc (S fuel) rounds bufSize src dst, CSelect ∅, mr) s ->
      match s with
      | (Ret v, _, m') => v = None /\
          st_files (m_store m') !! sfd = st_files (m_store m2) !! sfd /\
          st_files (m_store m') !! dfd = st_files (m_store m2) !! dfd
      | (Panic _, _, _) => False
      | _ => True
      end.
Proof.
  pose proof (new_at_rest rd rd_sqe rd_cqe 4096 _ p' fd m m1 r Hset Hzero Hsq Hentries) as Hrest.
  set (mr := new_mem rd rd_sqe rd_cqe p' fd m1) in *.
  assert (forall i T m, rely 0 true T m (quiet i m)) as Hquiet.
  { intros i T x. unfold quiet. split; [|intros (b & _ & Hp%pow2_size_pos & _); lia].
    destruct (m_cq x) as [c|] eqn:Hc; [|exists 0, (m_seen x)].
    - exists (cq_Head c), (m_seen x). symmetry. apply upd_hs_own. unfold m_head. by rewrite Hc.
    - unfold m_cq in Hc. destruct x as [[? ? ? [] ? ? ? ? ? ? ? ? ? ? ? ?] ? ? ? ? ? ? ? ?]. cbn in *. by subst. }
  pose proof (wp_run 0 true quiet _ _ 0 0 m Hquiet (wp_stdio_main lim HK alloc Halloc src dst sfd dfd content
    Hopen bufSize Hbuf rounds Hrounds 0 true fuel 0 m)) as Hstdio.
  destruct (run quiet _ 0 m) as [v m2 i2|s m'|m'] eqn:E; [|done|done]. destruct Hstdio as (_ & -> & Hcopy2).
  exists mr, m2. split_and!; [eapply runs_New; [done|apply runs_ret]|by eapply run_runs|].
  intros s Hs. eapply (pool_wp_steps _ _ _ _ 0) in Hs; [|by eapply (wp_iouring_copy lim HK)|by apply Hrest|].
  - destruct s as [[[v|X f k|msg|] l] m']; [|done..]. destruct Hs as (T' & m0 & [-> Hcopy] & [(h & s & ->) _]).
    destruct Hcopy as [H1 H2], Hcopy2 as [H3 H4]. rewrite H3, H4. done.
  - split; [done|]. exact (f_equal Some (zd_cqhead _ _ _ _ _ Hzero)).
Qed.

(** ** Witnesses *)

(** A completer that has always handled everything. *)
Definition drain (m : Mem) : Mem :=
  upd_hs (u32 (default 0 (m_head m) + Z.of_nat (length (m_seen m)))) [] m.

Lemma drain_rely n T m : rely n true T m (drain m).
Proof.
  split; [unfold drain; eauto|]. intros (b & Hst & Hp & Hb1 & Hb2 & Hb3 & Hl & Hh).
  assert (both m) as Hb by (apply both_stat; rewrite Hst; cbn; eauto).
  assert (c_bufSize (r_c (m_ring m)) = b) as Eb by (unfold stat in Hst; by simplify_eq).
  set (k := Z.of_nat (length (m_seen m))) in *. split; [|intros _; unfold has_room; cbn; lia].
  exists b. unfold drain. fold k. rewrite stat_upd, m_seen_upd, m_head_upd by apply Hb. cbn [length Z.of_nat].
  split_and!; [done|done|done|lia|done|done|]. rewrite Z.sub_0_r.
  destruct Hh as [-> | ->]; [left|right]; cbn; rewrite uwrap_add_l; do 2 f_equal; lia.
Qed.

(** A kernel with a source of five bytes; reads return at most three. *)
Definition cp_content : list Z := [104; 101; 108; 108; 111].
Definition cp_params : Params :=
  mkParams 4096 8192 0 0 0 FeatNoDrop 0 [0; 0; 0]
    (mkSQOff 0 64 256 264 276 272 320 0 0) (mkCQOff 128 192 260 268 284 320 280 [0; 0]).
Definition cp_rd (a : Z) : Z :=
  if a =? 2 ^ 24 + 256 then 4095 else if a =? 2 ^ 26 + 260 then 8191 else 0.
Definition cp_lim (h : history) : nat := 3.
Definition cp_kernel : Kernel := {|
  k_answer := fun _ c =>
    match c with
    | SysSetup _ _ => mkSysRes 5 0
    | SysEnter _ _ _ _ => mkSysRes 1 0
    | SysMmap _ _ _ _ _ offset =>
        mkSysRes (if offset =? SqRingOffset then 2 ^ 24 else if offset =? SqeRingOffset then 2 ^ 25 else 2 ^ 26) 0
    | _ => mkSysRes 0 0
    end;
  k_params := fun _ _ _ => cp_params;
  k_file := fun h c st =>
    match c with
    | SysOpen name _ _ =>
        if String.eqb name "src" then (mkSysRes 7 0, open_file 7 cp_content st)
        else (mkSysRes 8 0, open_file 8 [] st)
    | _ => file_call (cp_lim h) c st
    end;
  k_enter := fun h _ q c st =>
    match q, c with
    | Some q, Some c => serve_view (cp_lim h) q c st
    | _, _ => mkView 0 0 0 0 0 0 [] st
    end
|}.

Lemma cp_serves : serves cp_lim cp_kernel.
Proof. split; try done. intros h. unfold cp_lim. lia. Qed.

Lemma cp_opens : opens cp_kernel "src" "dst" 7 8 cp_content.
Proof. split; try done. Qed.

Definition cp_mem_on (m : Mem) (size : Z) : Mem :=
  set_m_hist ((SysSetup (u64 size) iouring_params, mkSysRes 5 0) :: m_hist m) m.
Definition cp_mem : Z -> Mem := cp_mem_on sample_mem.

Lemma cp_setup m size :
  @setup_ok cp_kernel cp_rd size iouring_params cp_params 5 m (cp_mem_on m size) (mkSysRes 5 0).
Proof.
  split; try reflexivity.
  - split; try (vm_compute; (discriminate || reflexivity)); [exists 12|exists 13]; split; (lia || done).
  - intros h length fd offset Hl. cbn. destruct (offset =? SqRingOffset), (offset =? SqeRingOffset);
      (split; [done|]); unfold sys_r1; cbn [raw_r1]; rewrite uwrap_id by (unfold is_uint; lia); lia.
  - split; [vm_compute; reflexivity|vm_compute; reflexivity|].
    intros a. unfold cp_rd, is_uint. destruct (a =? _); [lia|]. destruct (a =? _); lia.
Qed.

Lemma cp_zeroed m size :
  zeroed cp_rd (fun _ => mkCQE 0 0 0) cp_params (sys_r1 (@mmap1 cp_kernel (cp_mem_on m size) 5 cp_params).2)
    (@cq_addr cp_kernel (cp_mem_on m size) 5 cp_params).
Proof. split; try (vm_compute; reflexivity). Qed.

Lemma iouring_main_copies_witness :
  let K := cp_kernel in
  exists i m' i', run (starts_at i (fun _ => drain))
      (iouring_main (fun _ _ => 65536) cp_rd (fun _ => zeroSQE) (fun _ => mkCQE 0 0 0) 1 6 4 ["src"; "dst"]) 0
      sample_mem = Done None m' i' /\
    st_files (m_store m') !! 7 = Some cp_content /\ st_files (m_store m') !! 8 = Some cp_content.
Proof.
  intros K.
  destruct (iouring_main_copies (K := cp_kernel) cp_lim (fun _ _ => 65536) cp_rd (fun _ => zeroSQE)
    (fun _ => mkCQE 0 0 0) "src" "dst" 7 8 cp_content 4 0 6 cp_params 5 sample_mem (cp_mem 4096) (mkSysRes 5 0)
    cp_serves cp_opens) as [i Hi];
    [by intros; unfold is_uint; lia|apply cp_setup|apply cp_zeroed|vm_compute; done..|].
  exists i. apply Hi. intros j T m. apply drain_rely.
Defined.

Lemma cp_programs_agree_witness :
  let K := cp_kernel in
  let copy := iouring_copy (fun _ _ => 65536) 1 6 4 "src" "dst" in
  exists mr m2,
    runs (New cp_rd (fun _ => zeroSQE) (fun _ => mkCQE 0 0 0) 4096 (Some iouring_params) []) sample_mem None mr /\
    runs (stdio_main (fun _ _ => 65536) 1 6 4 ["src"; "dst"]) sample_mem None m2 /\
    forall s, rtc fstep (copy, CSelect ∅, mr) s ->
      match s with
      | (Ret v, _, m') => v = None /\
          st_files (m_store m') !! 7 = st_files (m_store m2) !! 7 /\
          st_files (m_store m') !! 8 = st_files (m_store m2) !! 8
      | (Panic _, _, _) => False
      | _ => True
      end.
Proof.
  intros K copy.
  apply (cp_programs_agree (K := cp_kernel) cp_lim (fun _ _ => 65536) cp_rd (fun _ => zeroSQE)
    (fun _ => mkCQE 0 0 0) "src" "dst" 7 8 cp_content 4 0 6 cp_params 5 sample_mem (cp_mem 4096) (mkSysRes 5 0)
    cp_serves cp_opens);
    [by intros; unfold is_uint; lia|apply cp_setup|apply cp_zeroed|vm_compute; done..].
Defined.

(** ** Short writes *)

(** A kernel whose writes transfer at most two bytes. *)
Definition short_kernel : Kernel := {|
  k_answer := @k_answer cp_kernel;
  k_params := @k_params cp_kernel;
  k_file := @k_file cp_kernel;
  k_enter := fun h _ q c st =>
    match q, c with
    | Some q, Some c =>
        let short e := match sqe_Opcode e with Write => set_sqe_Len (Z.min 2 (sqe_Len e)) e | _ => e end in
        serve_view (cp_lim h) (set_sq_Entries (short <$> sq_Entries q) q) c st
    | _, _ => mkView 0 0 0 0 0 0 [] st
    end
|}.

(** Two open files on the sample ring, and a buffer. *)
Definition short_mem : Mem :=
  set_m_cells {[0%nat := 0; 1%nat := 0]}
    (set_m_store (open_file 7 cp_content (open_file 8 [] (mkStore {[65536 := [0; 0; 0; 0]]} ∅ ∅))) sample_mem).

(** [iouring.go] ignores how much [Write] has written, and [Write] of [ringFIO]
    reports a short write without an error: with a kernel that writes two bytes at
    a time the program ends without an error, and the destination is not a copy. *)
Theorem iouring_short_write :
  let K := short_kernel in
  exists m', runs (copy_and_close true 6 (ring_file 1 (mkFIO 7 7 0)) (ring_file 1 (mkFIO 8 8 1))
      (mkSlice 65536 4 4)) short_mem None m' /\
    st_files (m_store m') !! 7 = Some [104; 101; 108; 108; 111] /\
    st_files (m_store m') !! 8 = Some [104; 101; 108; 111].
Proof.
  intros K. eexists. split; [apply exec_runs; vm_compute; done|]. split; vm_compute; done.
Qed.
