(* ===== verification/FileModel.v ===== *)
(** * Ring files against an abstract file (read_writer.go)

    An abstract file is its contents and an offset; [acall] says what each method
    of [ReadWriteSeekerCloser] does to it.  Sequences of calls on any number of
    ring files refine sequences of abstract calls, beside the completer goroutine
    and with a kernel that serves requests. *)

From stdpp Require Import base list gmap strings relations.
From Stdlib Require Import ZArith Lia.
From S2P Require Import Prelude Prog Consts Types Machine Samples Submission SubmissionSpec Ops OpsSpec.
From S2P Require Import Files Completer FileIO FileIOSpec Setup SetupSpec Rely CompleterRely RingFile Cp CpMain.

(** ** Calls *)

Inductive fcall :=
| CRead (b : slice)
| CWrite (b : slice)
| CReadAt (b : slice) (off : Z)
| CWriteAt (b : slice) (off : Z)
| CSeek (off whence : Z).

Definition invoke (f : ReadWriteSeekerCloser) (c : fcall) : prog Mem (Z * err) :=
  match c with
  | CRead b => rw_Read f b
  | CWrite b => rw_Write f b
  | CReadAt b off => rw_ReadAt f b off
  | CWriteAt b off => rw_WriteAt f b off
  | CSeek off whence => rw_Seek f off whence
  end.

(** Calls on the files of a list, and their results. *)
Fixpoint session (fs : list ReadWriteSeekerCloser) (calls : list (nat * fcall)) : prog Mem (list (Z * err)) :=
  match calls with
  | [] => Ret []
  | (j, c) :: calls =>
      match fs !! j with
      | None => Panic index_msg
      | Some f => r ← invoke f c; rs ← session fs calls; Ret (r :: rs)
      end
  end.

(** ** The abstract file *)

(** A call on the descriptor [fd] of a file with the offset [o].  A read returns at
    most [L] bytes, and some unless it is at the end; reads and writes at a given
    offset move the offset of the file by what they transfer, and [Seek] returns
    zero.  [Seek] from the end takes its argument from the length of the contents,
    as the code does, and fails on a descriptor with no file. *)
Inductive acall (fd : Z) : fcall -> Store -> Z -> Z * err -> Store -> Z -> Prop :=
| acall_read b st o content old L bs :
    st_files st !! fd = Some content -> st_bufs st !! sl_Data b = Some old ->
    (1 <= L)%nat -> bs = read_at L content o (sl_Len b) ->
    acall fd (CRead b) st o (len bs, if len bs =? 0 then Some EOF else None)
      (set_st_bufs (<[sl_Data b := overwrite old bs]> (st_bufs st)) st) (o + len bs)
| acall_write b st o content buf bs :
    st_files st !! fd = Some content -> st_bufs st !! sl_Data b = Some buf ->
    bs = take (Z.to_nat (sl_Len b)) buf ->
    acall fd (CWrite b) st o (len bs, None)
      (set_st_files (<[fd := splice content (Z.to_nat o) bs]> (st_files st)) st) (o + len bs)
| acall_read_at b off st o content old L bs :
    st_files st !! fd = Some content -> st_bufs st !! sl_Data b = Some old ->
    (1 <= L)%nat -> bs = read_at L content off (sl_Len b) ->
    acall fd (CReadAt b off) st o (len bs, if len bs =? 0 then Some EOF else None)
      (set_st_bufs (<[sl_Data b := overwrite old bs]> (st_bufs st)) st) (o + len bs)
| acall_write_at b off st o content buf bs :
    st_files st !! fd = Some content -> st_bufs st !! sl_Data b = Some buf ->
    bs = take (Z.to_nat (sl_Len b)) buf ->
    acall fd (CWriteAt b off) st o (len bs, None)
      (set_st_files (<[fd := splice content (Z.to_nat off) bs]> (st_files st)) st) (o + len bs)
| acall_seek_start off st o :
    acall fd (CSeek off SeekStart) st o (0, None) st off
| acall_seek_current off st o :
    acall fd (CSeek off SeekCurrent) st o (0, None) st (i64 (o + off))
| acall_seek_end off st o content :
    st_files st !! fd = Some content ->
    acall fd (CSeek off SeekEnd) st o (0, None) st (i64 (len content - off))
| acall_seek_end_error off st o :
    st_files st !! fd = None ->
    acall fd (CSeek off SeekEnd) st o (0, Some (Errno EBADF)) st o
| acall_seek_unknown off whence st o :
    whence ∉ [SeekStart; SeekCurrent; SeekEnd] ->
    acall fd (CSeek off whence) st o (0, Some (ErrMsg "unknown whence")) st o.

(** A sequence of calls on files with these descriptors; [offs] are their offsets. *)
Inductive acalls (fds : list Z) : list (nat * fcall) -> Store -> list Z -> list (Z * err) -> Store -> list Z -> Prop :=
| acalls_nil st offs : acalls fds [] st offs [] st offs
| acalls_cons j c calls fd st offs o r st1 o1 rs st2 offs2 :
    fds !! j = Some fd -> offs !! j = Some o ->
    acall fd c st o r st1 o1 -> acalls fds calls st1 (<[j := o1]> offs) rs st2 offs2 ->
    acalls fds ((j, c) :: calls) st offs (r :: rs) st2 offs2.

(** The file and the buffer exist and the offsets are not absurd. *)
Definition usable (fd : Z) (b : slice) (st : Store) (off : Z) : Prop :=
  is_Some (st_files st !! fd) /\ is_Some (st_bufs st !! sl_Data b) /\
  is_u64 (sl_Data b) /\ 0 < sl_Len b < 2 ^ 32 /\ 0 <= off < 2 ^ 62.

Definition callable (fd : Z) (c : fcall) (st : Store) (o : Z) : Prop :=
  match c with
  | CRead b | CWrite b => usable fd b st o
  | CReadAt b off | CWriteAt b off => usable fd b st o /\ 0 <= off < 2 ^ 62
  | CSeek _ _ => True
  end.

(** Every call of the sequence is callable, whatever those before it returned. *)
Fixpoint legal (fds : list Z) (calls : list (nat * fcall)) (st : Store) (offs : list Z) : Prop :=
  match calls with
  | [] => True
  | (j, c) :: calls =>
      exists fd o, fds !! j = Some fd /\ offs !! j = Some o /\ callable fd c st o /\
      forall r st' o', acall fd c st o r st' o' -> legal fds calls st' (<[j := o']> offs)
  end.

(** ** Ring files *)

(** The offsets are in cells of their own. *)
Record offsets (fl : list ringFIO) (offs : list Z) (cells : gmap nat Z) : Prop := {
  of_nodup : NoDup (fio_fOffset <$> fl);
  of_cells : forall j i o, fl !! j = Some i -> offs !! j = Some o -> cells !! fio_fOffset i = Some o;
  of_length : length offs = length fl
}.

Lemma offsets_insert fl offs cells j i o :
  offsets fl offs cells -> fl !! j = Some i ->
  offsets fl (<[j := o]> offs) (<[fio_fOffset i := o]> cells).
Proof.
  intros [Hnd Hc Hl] Hj. split; [done| |by rewrite length_insert].
  intros j' i' o' Hj' Ho'. destruct (decide (j = j')) as [<-|Hne].
  - rewrite list_lookup_insert_eq in Ho' by (rewrite Hl; by eapply lookup_lt_Some). simplify_eq.
    apply lookup_insert_eq.
  - rewrite list_lookup_insert_ne in Ho' by done. rewrite lookup_insert_ne; [by eapply Hc|].
    intros E. apply Hne. eapply (NoDup_lookup _ _ _ (fio_fOffset i) Hnd); rewrite list_lookup_fmap.
    + by rewrite Hj.
    + by rewrite Hj', E.
Qed.

Section Refines.
Context {K : Kernel} (lim : history -> nat) (HK : serves lim K) (n : Z) (keeps_up : bool) (fuel : nat).
Implicit Types (m : Mem) (i : ringFIO).
Notation wp := (wp n keeps_up).
Notation at_rest := (at_rest n).

Lemma blind_fio_Seek i off whence : blind (fio_Seek i off whence).
Proof. unfold fio_Seek. blind_all. Qed.

Lemma runs_fio_Seek i off whence m o :
  m_cells m !! fio_fOffset i = Some o -> fio_file i = fio_fd i ->
  exists r o' h, acall (fio_fd i) (CSeek off whence) (m_store m) o r (m_store m) o' /\
    runs (fio_Seek i off whence) m r (set_m_cells (<[fio_fOffset i := o']> (m_cells m)) (set_m_hist h m)).
Proof.
  intros Ho Hsame. unfold fio_Seek.
  assert (forall v h, runs (cell_store (fio_fOffset i) v;; Ret (0, None : err)) (set_m_hist h m) (0, None)
      (set_m_cells (<[fio_fOffset i := v]> (m_cells m)) (set_m_hist h m))) as Hst.
  { intros v h. eapply runs_bind; [apply runs_try_store; cbn; rewrite Ho; reflexivity|]. apply runs_ret. }
  assert (m = set_m_hist (m_hist m) m) as Em by by destruct m.
  assert (forall h, set_m_cells (<[fio_fOffset i := o]> (m_cells m)) (set_m_hist h m) = set_m_hist h m) as Eo.
  { intros h. rewrite insert_id by done. by destruct m. }
  destruct (Z.eqb_spec whence SeekStart) as [->|H0]; [|destruct (Z.eqb_spec whence SeekCurrent) as [->|H1];
    [|destruct (Z.eqb_spec whence SeekEnd) as [->|H2]]].
  - eexists _, _, (m_hist m). split; [constructor|]. rewrite Em at 1. apply Hst.
  - eexists _, _, (m_hist m). split; [constructor|]. eapply runs_bind; [by apply runs_try_load|].
    rewrite Em at 1. apply Hst.
  - set (r := k_file (m_hist m) (SysStat (fio_file i)) (m_store m)).
    pose proof (sv_stat lim K HK (m_hist m) (fio_file i) (m_store m)) as Er. fold r in Er. cbn [file_call] in Er.
    assert (runs (syscall_file (SysStat (fio_file i))) m r.1
      (set_m_hist ((SysStat (fio_file i), r.1) :: m_hist m) m)) as Hstat.
    { apply runs_act. fold r. rewrite Er. by case_match; destruct m. }
    rewrite Hsame in Er. destruct (st_files (m_store m) !! fio_fd i) as [content|] eqn:Hf; rewrite Er in Hstat.
    + eexists _, _, _. split; [by apply acall_seek_end|]. eapply runs_bind; [exact Hstat|].
      cbn beta. change (negb (sys_errno (mkSysRes (len content) 0) =? 0)) with false. cbn iota.
      replace (i64 (len content - off)) with (i64 (i64 (sys_r1 (mkSysRes (len content) 0)) - off)); [apply Hst|].
      unfold sys_r1. cbn [raw_r1].
      by rewrite swrap_uwrap, swrap_sub_l.
    + eexists _, o, _. split; [by apply acall_seek_end_error|]. rewrite Eo.
      eapply runs_bind; [exact Hstat|]. apply runs_ret.
  - eexists _, o, (m_hist m). split; [apply acall_seek_unknown; set_solver|]. rewrite Eo, <- Em. apply runs_ret.
Qed.

(** Each call refines its abstract call. *)
Lemma wp_invoke i c Q T st cells idx o m :
  at_rest T st cells idx m -> idx < 2 ^ 64 - 1 -> cells !! fio_fOffset i = Some o -> fio_file i = fio_fd i ->
  callable (fio_fd i) c st o ->
  (forall r T' st' o' idx' m', acall (fio_fd i) c st o r st' o' -> idx' <= idx + 1 ->
    at_rest T' st' (<[fio_fOffset i := o']> cells) idx' m' -> Q r T' m') ->
  wp (invoke (ring_rw (S fuel) i) c) Q T m.
Proof.
  intros Hat Hmax Ho Hsame Hc HQ.
  destruct c as [b|b|b off|b off|off whence]; cbn [callable invoke ring_rw rw_Read rw_Write rw_ReadAt rw_WriteAt rw_Seek] in *.
  - destruct Hc as ([content Hf] & [old Hb] & Hu & Hl & Hor). pose proof (uwrap_id 64 _ Hu) as Eu.
    eapply (wp_fio_Read lim HK); [done..|by rewrite Eu|]. rewrite Eu. intros L m' HL bs Hm'.
    eapply HQ; [by econstructor|reflexivity|exact Hm'].
  - destruct Hc as ([content Hf] & [buf Hb] & Hu & Hl & Hor). pose proof (uwrap_id 64 _ Hu) as Eu.
    eapply (wp_fio_Write lim HK); [done..|by rewrite Eu|]. intros m' bs Hm'.
    eapply HQ; [by econstructor|reflexivity|exact Hm'].
  - destruct Hc as [([content Hf] & [old Hb] & Hu & Hl & Hor) Har]. pose proof (uwrap_id 64 _ Hu) as Eu.
    eapply (wp_fio_ReadAt lim HK); [done..|by rewrite Eu|]. rewrite Eu. intros L m' HL bs Hm'.
    eapply HQ; [by econstructor|reflexivity|exact Hm'].
  - destruct Hc as [([content Hf] & [buf Hb] & Hu & Hl & Hor) Har]. pose proof (uwrap_id 64 _ Hu) as Eu.
    eapply (wp_fio_WriteAt lim HK); [done..|by rewrite Eu|]. intros m' bs Hm'.
    eapply HQ; [by econstructor|reflexivity|exact Hm'].
  - destruct Hat as ([Hq Hcq Hst Hcells Hidx] & Hok & H0).
    destruct (runs_fio_Seek i off whence m o) as (r & o' & h & Ha & Hr); [by rewrite Hcells|done|].
    eapply wp_blind; [apply blind_fio_Seek|by apply near_refl|exact Hr|]. intros m' Hn.
    rewrite Hst in Ha. eapply (HQ _ _ _ _ idx); [exact Ha|lia|]. split_and!; [|apply Hn|done].
    eapply near_resting; [exact Hn|]. split; [done|done|done|by cbn; rewrite Hcells|done].
Qed.

Lemma wp_session fl calls : Forall (fun i => fio_file i = fio_fd i) fl -> forall T st cells idx offs m,
  at_rest T st cells idx m -> idx + Z.of_nat (length calls) < 2 ^ 64 - 1 -> offsets fl offs cells ->
  legal (fio_fd <$> fl) calls st offs ->
  wp (session (ring_rw (S fuel) <$> fl) calls) (fun rs _ m' =>
    exists st' offs', acalls (fio_fd <$> fl) calls st offs rs st' offs' /\
      m_store m' = st' /\ offsets fl offs' (m_cells m')) T m.
Proof.
  intros Hsame. induction calls as [|[j c] calls IH]; intros T st cells idx offs m Hat Hidx Hoff Hleg.
  - exists st, offs. destruct Hat as ([_ _ Hst Hcells _] & _). rewrite Hcells. split_and!; [constructor|done|done].
  - cbn [session legal] in *. destruct Hleg as (fd & o & Hfd & Ho & Hc & Hnext).
    rewrite list_lookup_fmap in Hfd. destruct (fl !! j) as [i|] eqn:Hi; [|done]. injection Hfd as <-.
    rewrite list_lookup_fmap, Hi. cbn [fmap option_fmap option_map].
    cbn [length] in Hidx. eapply (wp_bind _ _ _ _ (fun r T' m' => exists st' o' idx',
      acall (fio_fd i) c st o r st' o' /\ idx' <= idx + 1 /\ at_rest T' st' (<[fio_fOffset i := o']> cells) idx' m')).
    { eapply wp_invoke; [done|lia|by eapply of_cells| |done|by eauto 10]. by eapply Forall_lookup_1 in Hsame. }
    cbn beta. intros r T' m' (st' & o' & idx' & Ha & Hle & Hat').
    eapply wp_bind; [eapply (IH _ _ _ idx'); [exact Hat'|lia|by eapply offsets_insert|by eapply Hnext]|].
    cbn beta. intros rs T2 m2 (st2 & offs2 & Hcs & Hst2 & Hoff2). exists st2, offs2. split_and!; [|done|done].
    econstructor; [by rewrite list_lookup_fmap, Hi|done|done|done].
Qed.
End Refines.

(** C8. Ring files are files.  Any sequence of reads, writes, reads and writes at an
    offset and seeks on any number of ring files, where every transfer is on a file
    and a buffer that exist, with a buffer that is not empty and offsets from 0 to
    2^62 ([legal]), on a ring at rest whose completion queue has at least three
    entries more than the channel of the completer has places (with the 512 places
    of [New], at least 1024 entries: the small rings are outside, because a
    completer that is behind by the channel leaves no entry for the next
    completion), with a kernel that takes the request it is asked for and completes
    every write: it ends, beside a completer that
    keeps up and is otherwise scheduled in any way, and its results, the contents
    of files and buffers and the offsets at the end are those of a run of the
    abstract files; the same holds in every interleaving with the completer
    goroutine when the sequence has ended, and it never panics. *)
Theorem ring_files_refine {K : Kernel} (lim : history -> nat) (n : Z) (places fuel : nat) (fl : list ringFIO)
    (calls : list (nat * fcall)) (st : Store) (cells : gmap nat Z) (T idx : Z) (offs : list Z) (m : Mem)
    (HK : serves lim K) (Hrest : resting T st cells idx m)
    (Hring : stat m = (Some (n, n - 1), places, 0%nat)) (Hn : pow2_size n)
    (Hplaces : 1 <= Z.of_nat places <= n - 3)
    (Hhead : m_head m = Some (u32 T)) (Hseen : m_seen m = [])
    (Hidx : 0 <= idx /\ idx + Z.of_nat (length calls) < 2 ^ 64 - 1)
    (Hsame : Forall (fun i => fio_file i = fio_fd i) fl) (Hoff : offsets fl offs cells)
    (Hleg : legal (fio_fd <$> fl) calls st offs) :
  let refines rs m' := exists st' offs', acalls (fio_fd <$> fl) calls st offs rs st' offs' /\
    m_store m' = st' /\ offsets fl offs' (m_cells m') in
  let p := session (ring_rw (S fuel) <$> fl) calls in
  (forall env, (forall i T m, rely n true T m (env i m)) ->
    exists rs m' i', run env p 0 m = Done rs m' i' /\ refines rs m') /\
  (forall s, rtc fstep (p, CSelect ∅, m) s ->
    match s with (Ret rs, _, m') => refines rs m' | (Panic _, _, _) => False | _ => True end).
Proof.
  intros refines p. destruct Hidx as [H0 Hidx].
  assert (at_rest n T st cells idx m) as Hat.
  { split_and!; [done| |done]. exists places. rewrite Hseen. cbn. rewrite Z.sub_0_r. split_and!; (done || lia || by left). }
  assert (forall k, wp n k p (fun rs _ m' => refines rs m') T m) as Hwp by (intros k; by eapply (wp_session lim HK)).
  split.
  - intros env Henv. pose proof (wp_run _ _ env p _ 0 T m Henv (Hwp true)) as H.
    destruct (run env p 0 m) as [rs m' i'|e m'|m']; [|done|done]. destruct H as [T' H]. eauto.
  - intros s Hs.
    eapply (pool_wp_steps _ _ _ _ T) in Hs; [|apply Hwp|apply Hat|].
    2: { split; [done|]. rewrite Hseen, Hhead. do 2 f_equal. cbn. lia. }
    destruct s as [[[rs|X f k|msg|] l] m']; [|done..]. destruct Hs as (T' & m0 & Hq & [(h & s & ->) _]). exact Hq.
Qed.

(** ** Sequences that are always legal *)

(** The files and buffers exist, and writes and seeks are to places in the first half
    of the range: from the start, forward from the offset, or back from the end by
    no more than the length. *)
Definition plain (fd : Z) (c : fcall) (st : Store) : Prop :=
  match c with
  | CRead b | CWrite b => usable fd b st 0
  | CReadAt b off | CWriteAt b off => usable fd b st off /\ off <= 2 ^ 61
  | CSeek off whence =>
      whence = SeekStart /\ 0 <= off <= 2 ^ 61 \/ whence = SeekCurrent /\ 0 <= off <= 2 ^ 32 \/
      whence = SeekEnd /\ 0 <= off /\ exists content, st_files st !! fd = Some content /\ off <= len content
  end.

(** No file and no buffer disappears, and no file gets shorter. *)
Definition grows (st st' : Store) : Prop :=
  (forall x content, st_files st !! x = Some content ->
    exists content', st_files st' !! x = Some content' /\ len content <= len content') /\
  (forall x, is_Some (st_bufs st !! x) -> is_Some (st_bufs st' !! x)).

(** No file is longer than [B]. *)
Definition within (B : Z) (st : Store) : Prop := forall x content, st_files st !! x = Some content -> len content <= B.

Lemma grows_bufs a x st : grows st (set_st_bufs (<[a := x]> (st_bufs st)) st).
Proof.
  split; [by eauto using Z.le_refl|]. intros y Hy. cbn. destruct (decide (a = y)) as [->|Hne].
  - rewrite lookup_insert_eq. eauto.
  - by rewrite lookup_insert_ne.
Qed.

Lemma length_splice content o bs :
  len (splice content o bs) = Z.max (len content) (Z.of_nat o + len bs).
Proof. unfold len, splice. rewrite !length_app, length_take, length_replicate, length_drop. lia. Qed.

Lemma grows_splice fd content o bs st :
  st_files st !! fd = Some content ->
  grows st (set_st_files (<[fd := splice content o bs]> (st_files st)) st).
Proof.
  intros Hf. split; [|done]. intros y c Hy. cbn. destruct (decide (fd = y)) as [->|Hne].
  - rewrite lookup_insert_eq. simplify_eq. eexists. split; [done|]. rewrite length_splice. lia.
  - rewrite lookup_insert_ne by done. eauto using Z.le_refl.
Qed.

Lemma within_splice B B' fd content o bs st :
  within B st -> B <= B' -> st_files st !! fd = Some content -> Z.of_nat o + len bs <= B' ->
  within B' (set_st_files (<[fd := splice content o bs]> (st_files st)) st).
Proof.
  intros Hw HB Hf Hb y c Hy. cbn in Hy. apply lookup_insert_Some in Hy as [[<- <-]|[_ Hy]].
  - rewrite length_splice. specialize (Hw _ _ Hf). lia.
  - specialize (Hw _ _ Hy). lia.
Qed.

Lemma usable_grows fd b st st' off : grows st st' -> usable fd b st off -> usable fd b st' off.
Proof.
  intros [H1 H2] ([c Hf] & Hb & Hr). destruct (H1 _ _ Hf) as (c' & Hf' & _).
  exact (conj (ex_intro _ c' Hf') (conj (H2 _ Hb) Hr)).
Qed.

Lemma plain_grows fd c st st' : grows st st' -> plain fd c st -> plain fd c st'.
Proof.
  intros Hg. destruct c; cbn; intros H; try (by eapply usable_grows); try (by destruct H; split; [eapply usable_grows|]).
  destruct H as [H|[H|(? & ? & content & Hf & Hl)]]; [by left|by right; left|right; right].
  destruct (proj1 Hg _ _ Hf) as (content' & Hf' & Hl'). split_and!; [done|done|].
  exists content'. split; [done|lia].
Qed.

(** The offset and the lengths of the files grow by less than 2^32, or to where a
    seek asks. *)
Lemma plain_acall B fd c st o r st' o' :
  plain fd c st -> within B st -> 0 <= o <= B -> 2 ^ 61 <= B < 2 ^ 62 -> acall fd c st o r st' o' ->
  grows st st' /\ within (B + 2 ^ 32) st' /\ 0 <= o' <= B + 2 ^ 32.
Proof.
  intros Hp Hw Ho HB Ha.
  assert (within (B + 2 ^ 32) st) as Hw' by (intros x y Hx; specialize (Hw _ _ Hx); lia).
  assert (forall (b : slice) (bs : list Z), 0 < sl_Len b < 2 ^ 32 -> (length bs <= Z.to_nat (sl_Len b))%nat ->
    0 <= len bs < 2 ^ 32) as Hlen by (unfold len; lia).
  destruct Ha as [b ? ? content ? L bs Hf ? ? ->|b ? ? content buf bs Hf ? ->|b off ? ? content ? L bs Hf ? ? ->|
    b off ? ? content buf bs Hf ? ->|off|off|off ? ? content Hf|off ? ? Hf|off whence ? ? Hn]; cbn in Hp.
  - pose proof (Hlen b _ (proj1 (proj2 (proj2 (proj2 Hp)))) (read_at_length L content o (sl_Len b))).
    split_and!; [apply grows_bufs|done|lia|lia].
  - assert (0 <= len (take (Z.to_nat (sl_Len b)) buf) < 2 ^ 32) by (apply (Hlen b); [apply Hp|rewrite length_take; lia]).
    split_and!; [by apply grows_splice|apply (within_splice B); (done || lia)|lia|lia].
  - destruct Hp as [Hp _].
    pose proof (Hlen b _ (proj1 (proj2 (proj2 (proj2 Hp)))) (read_at_length L content off (sl_Len b))).
    split_and!; [apply grows_bufs|done|lia|lia].
  - destruct Hp as [Hp Hoff]. pose proof (proj2 (proj2 (proj2 (proj2 Hp)))).
    assert (0 <= len (take (Z.to_nat (sl_Len b)) buf) < 2 ^ 32) by (apply (Hlen b); [apply Hp|rewrite length_take; lia]).
    split_and!; [by apply grows_splice|apply (within_splice B); (done || lia)|lia|lia].
  - split; [by split; eauto using Z.le_refl|]. split; [done|]. destruct Hp as [?|[[[=] ?]|[[=] ?]]]. lia.
  - split; [by split; eauto using Z.le_refl|]. split; [done|]. destruct Hp as [[[=] ?]|[[_ ?]|[[=] ?]]].
    rewrite swrap_id by (unfold is_sint; lia). lia.
  - split; [by split; eauto using Z.le_refl|]. split; [done|]. destruct Hp as [[[=] ?]|[[[=] ?]|(_ & ? & ? & Hf' & ?)]].
    rewrite Hf in Hf'. injection Hf' as <-. specialize (Hw _ _ Hf). rewrite swrap_id by (unfold is_sint; lia). lia.
  - destruct Hp as [[[=] ?]|[[[=] ?]|(_ & ? & ? & Hf' & ?)]]. congruence.
  - destruct Hp as [[-> _]|[[-> _]|[-> _]]]; set_solver.
Qed.

Lemma legal_plain fds calls : forall st offs B,
  Forall (fun jc => exists fd, fds !! jc.1 = Some fd /\ plain fd jc.2 st) calls -> within B st ->
  Forall (fun o => 0 <= o <= B) offs -> length offs = length fds -> 2 ^ 61 <= B ->
  B + Z.of_nat (length calls) * 2 ^ 32 < 2 ^ 62 -> legal fds calls st offs.
Proof.
  induction calls as [|[j c] calls IH]; intros st offs B Hc Hw Ho Hl HB Hmax; [done|].
  apply Forall_cons in Hc as [(fd & Hfd & Hp) Hc]. cbn [length fst snd] in *.
  destruct (lookup_lt_is_Some_2 offs j) as [o Hoj]; [rewrite Hl; by eapply lookup_lt_Some|].
  pose proof (Forall_lookup_1 _ _ _ _ Ho Hoj) as Hor. cbn in Hor.
  exists fd, o. split_and!; [done|done| |].
  - destruct c; cbn in *; try done; [destruct Hp as (? & ? & ? & ? & ?)..|destruct Hp as ((? & ? & ? & ? & ?) & ?)|
      destruct Hp as ((? & ? & ? & ? & ?) & ?)]; unfold usable; split_and!; (done || lia).
  - intros r st' o' Ha.
    destruct (plain_acall B fd c st o r st' o' Hp) as (Hg & Hw' & Ho'); [done|done|lia|done|].
    apply (IH st' _ (B + 2 ^ 32)); [|done| | |lia|lia].
    + eapply Forall_impl; [exact Hc|]. intros [j' c'] (fd' & ? & ?). exists fd'. split; [done|by eapply plain_grows].
    + apply Forall_insert; [|cbn; lia]. eapply Forall_impl; [exact Ho|]. cbn. lia.
    + by rewrite length_insert.
Qed.

(** ** Witness *)

(** A file of five bytes with two ring files on it and another one that is empty;
    a buffer with three bytes and one with room for eight. *)
Definition model_store : Store :=
  mkStore {[100 := [97; 98; 99]; 200 := replicate 8 0]} {[7 := cp_content; 8 := []]} ∅.
Definition model_files : list ringFIO := [mkFIO 7 7 0; mkFIO 7 7 1; mkFIO 8 8 2].
Definition model_mem : Mem :=
  set_m_store model_store (set_m_cells {[0%nat := 0; 1%nat := 0; 2%nat := 0]} sample_mem).
Definition small : slice := mkSlice 100 3 3.
Definition large : slice := mkSlice 200 8 8.

(** Writes through the first file at its end, and reads the last two bytes back
    through the second; the third is moved on by one byte and written to. *)
Definition model_calls : list (nat * fcall) :=
  [(0%nat, CSeek 0 SeekEnd); (0%nat, CWrite small); (1%nat, CSeek 2 SeekEnd); (1%nat, CRead large);
   (2%nat, CWriteAt small 2); (2%nat, CSeek 1 SeekCurrent); (2%nat, CWrite small)].

Lemma model_legal : legal (fio_fd <$> model_files) model_calls model_store [0; 0; 0].
Proof.
  apply (legal_plain _ _ _ _ (2 ^ 61)).
  - repeat (apply Forall_cons; split; [eexists; (split; [reflexivity|])|]); [..|apply Forall_nil; done];
      unfold plain, usable, is_uint; cbn; first [by split_and!; (done || lia || eauto)|by right; left; split_and!|idtac].
    1, 2: right; right; split_and!; [done|done|eexists; split; [reflexivity|done]].
  - intros x c Hx. unfold model_store in Hx. cbn in Hx.
    apply lookup_insert_Some in Hx as [[<- <-]|[_ Hx]]; [by vm_compute|].
    apply lookup_singleton_Some in Hx as [<- <-]. by vm_compute.
  - repeat constructor; lia.
  - done.
  - lia.
  - vm_compute. done.
Qed.

Definition model_ring : Mem :=
  @new_mem cp_kernel cp_rd (fun _ => zeroSQE) (fun _ => mkCQE 0 0 0) cp_params 5 (cp_mem_on model_mem 4096).

Lemma ring_files_refine_witness :
  let K := cp_kernel in
  let p := session (ring_rw 1 <$> model_files) model_calls in
  let refines rs m' := exists st' offs',
    acalls (fio_fd <$> model_files) model_calls model_store [0; 0; 0] rs st' offs' /\
    m_store m' = st' /\ offsets model_files offs' (m_cells m') in
  (exists rs m' i', run (fun _ => drain) p 0 model_ring = Done rs m' i' /\ refines rs m') /\
  (forall s, rtc fstep (p, CSelect ∅, model_ring) s ->
    match s with (Ret rs, _, m') => refines rs m' | (Panic _, _, _) => False | _ => True end).
Proof.
  intros K p refines.
  destruct (new_at_rest cp_rd (fun _ => zeroSQE) (fun _ => mkCQE 0 0 0) 4096 iouring_params cp_params 5 model_mem
    _ _ (cp_setup model_mem 4096) (cp_zeroed model_mem 4096)) as [Hrest _]; [vm_compute; done..|].
  destruct (ring_files_refine (K := cp_kernel) cp_lim (p_CqEntries cp_params) 512 0 model_files model_calls
    model_store (m_cells model_mem) 0 0 [0; 0; 0] model_ring cp_serves Hrest) as [H1 H2];
    [vm_compute; reflexivity|exists 13; vm_compute; by split_and!|vm_compute; by split|vm_compute; reflexivity
    |reflexivity|vm_compute; by split|by repeat constructor| |apply model_legal|].
  - split; [repeat constructor; set_solver| |done].
    intros j i o Hi Ho. destruct j as [|[|[|j]]]; cbn in Hi, Ho; simplify_eq; reflexivity.
  - split; [|exact H2]. apply H1. intros i T m. apply drain_rely.
Defined.
