(* ===== verification/Standalone.v ===== *)
(** * A program without the library (examples/standalone)

    The example has its own structures, its own [Setup], [MmapRing] and [Enter],
    and a [main] that works on the mapped queues directly: it writes a temporary
    file and reads it back through the ring in two halves.  [log.Fatal] ends the
    process: it is the result [Some]. *)

From stdpp Require Import base list gmap strings.
From Stdlib Require Import ZArith Lia Ascii.
From S2P Require Import Prelude Prog Consts Types Machine Ops Files Setup.

(** ** Structures *)

Definition Sqe_fields : list gotype :=
  [TU8; TU8; TU16; TI32; TU64; TU64; TU32; TI32; TU64; TArr 24 TU8].
Definition Cqe_fields : list gotype := [TU64; TI32; TU32].
Definition SqOffset_fields : list gotype :=
  [TU32; TU32; TU32; TU32; TU32; TU32; TU32; TU32; TU64].
Definition CqOffset_fields : list gotype :=
  [TU32; TU32; TU32; TU32; TU32; TU32; TArr 2 TU64].
Definition sa_Params_fields : list gotype :=
  [TU32; TU32; TU32; TU32; TU32; TU32; TU32; TArr 3 TU32; TStruct SqOffset_fields; TStruct CqOffset_fields].

Definition sa_uint32Size : Z := sizeof TU32.
Definition sa_cqeSize : Z := sizeof (TStruct Cqe_fields).
Definition sa_sqeSize : Z := sizeof (TStruct Sqe_fields).

(** The constants of the program. *)
Definition sa_SqRingOffset : Z := 0.
Definition sa_CqRingOffset : Z := 0x8000000.
Definition sa_SqeRingOffset : Z := 0x10000000.
Definition sa_EnterGetEvents : Z := Z.shiftl 1 0.

Section Program.
Context {K : Kernel}.

(** ** Setup, MmapRing and Enter *)

Definition sa_Setup (entries : Z) (params : Params) : prog Mem (Params * (Z * err)) :=
  '(r, params') ← act (fun m =>
    let c := SysSetup (u64 entries) params in
    let r := k_answer (m_hist m) c in
    let params' := if sys_errno r =? 0 then k_params (m_hist m) (u64 entries) params else params in
    ((r, params'), set_m_hist ((c, r) :: m_hist m) m));
  if negb (sys_errno r =? 0) then Ret (params', (0, Some (Errno (sys_errno r))))
  else Ret (params', (i64 (sys_r1 r), None)).

(** The queues as it leaves them; there are no [ptr] fields, and the completion
    queue has no flags. *)
Definition sa_MmapRing (fd : Z) (p : Params) (sq : SQMap) (cq : CQMap) : prog Mem (SQMap * CQMap * err) :=
  let o := p_SqOffset p in
  let n := i64 (p_SqEntries p) in
  let sqSize := u32 (u64 (so_Array o + u64 (p_SqEntries p * sa_uint32Size))) in
  let sq := mkSQMap sqSize (sm_ptr sq) (sm_Head sq) (sm_Tail sq) (sm_Mask sq) (sm_Flags sq)
              (sm_Dropped sq) (sm_Entries sq) (sm_Array sq) in
  r ← syscall (SysMmap 0 sqSize mmap_prot mmap_flags (u64 fd) sa_SqRingOffset);
  if negb (sys_errno r =? 0) then Ret (sq, cq, Some (Errno (sys_errno r)))
  else
    let sqPtr := sys_r1 r in
    let sq := mkSQMap sqSize (sm_ptr sq) (u64 (sqPtr + so_Head o)) (u64 (sqPtr + so_Tail o))
                (u64 (sqPtr + so_RingMask o)) (u64 (sqPtr + so_Flags o)) (u64 (sqPtr + so_Dropped o))
                (sm_Entries sq) (sm_Array sq) in
    r ← syscall (SysMmap 0 (u64 (p_SqEntries p * sa_sqeSize)) mmap_prot mmap_flags (u64 fd) sa_SqeRingOffset);
    if negb (sys_errno r =? 0) then Ret (sq, cq, Some (Errno (sys_errno r)))
    else
      let sq := mkSQMap sqSize (sm_ptr sq) (sm_Head sq) (sm_Tail sq) (sm_Mask sq) (sm_Flags sq)
                  (sm_Dropped sq) (mkSlice (sys_r1 r) n n) (mkSlice (u64 (sqPtr + so_Array o)) n n) in
      let o := p_CqOffset p in
      let n := i64 (p_CqEntries p) in
      let cqSize := u32 (u64 (co_Cqes o + u64 (p_CqEntries p * sa_cqeSize))) in
      let cq := mkCQMap cqSize (cm_ptr cq) (cm_Head cq) (cm_Tail cq) (cm_Mask cq) (cm_Overflow cq)
                  (cm_Flags cq) (cm_Entries cq) in
      r ← syscall (SysMmap 0 cqSize mmap_prot mmap_flags (u64 fd) sa_CqRingOffset);
      if negb (sys_errno r =? 0) then Ret (sq, cq, Some (Errno (sys_errno r)))
      else
        let cqPtr := sys_r1 r in
        Ret (sq, mkCQMap cqSize (cm_ptr cq) (u64 (cqPtr + co_Head o)) (u64 (cqPtr + co_Tail o))
                   (u64 (cqPtr + co_RingMask o)) (u64 (cqPtr + co_Overflow o)) (cm_Flags cq)
                   (mkSlice (u64 (cqPtr + co_Cqes o)) n n), None).

Definition sa_Enter (fd toSubmit minComplete flags : Z) : prog Mem (Z * err) :=
  r ← syscall_enter (SysEnter (u64 fd) (u64 toSubmit) (u64 minComplete) (u64 flags));
  if negb (sys_errno r =? 0) then Ret (0, Some (Errno (sys_errno r)))
  else Ret (i64 (sys_r1 r), None).

(** ** main *)

Context (alloc : Store -> Z -> Z).
Context (rd : Z -> Z) (rd_sqe : Z -> SubmitEntry_t) (rd_cqe : Z -> CompletionEntry).
(** The name [ioutil.TempFile] finds. *)
Context (tmpName : string) (fuel : nat).

Definition sa_content : list Z := bytes_of "testing  1,2,3".

(** The bytes of a buffer. *)
Definition bytes_at (b : slice) : prog Mem (list Z) :=
  try_load nil_msg (fun m => take (Z.to_nat (sl_Len b)) <$> st_bufs (m_store m) !! sl_Data b).

(** [ioutil.TempFile]: an exclusively created file. *)
Definition TempFile : prog Mem (Z * err) := os_OpenFile tmpName 194 384.

(** [f.Seek(0, 0)]. *)
Definition os_Seek (fd offset whence : Z) : prog Mem err :=
  r ← syscall (SysSeek fd offset whence);
  Ret (if sys_errno r =? 0 then None else Some (Errno (sys_errno r))).

(** [xs[:2]] of a mapped slice, which the program prints. *)
Definition sq_first_two : prog Mem (list SubmitEntry_t) :=
  try_load "slice bounds out of range" (fun m => q ← m_sq m;
    if 2 <=? len (sq_Entries q) then Some (take 2 (sq_Entries q)) else None).
Definition cq_first_two : prog Mem (list CompletionEntry) :=
  try_load "slice bounds out of range" (fun m => c ← m_cq m;
    if 2 <=? len (cq_Entries c) then Some (take 2 (cq_Entries c)) else None).

(** The search: the index starts at the masked head and runs up to the tail, which
    is not masked. *)
Fixpoint sa_search (k : nat) (i cqIdx : Z) (readBuff : slice) (offset : Z) (exContent : list Z)
  : prog Mem (Z * list Z) :=
  match k with
  | O => Ret (offset, exContent)
  | S k =>
      e ← cq_entry cqIdx;
      '(offset, exContent) ←
        (if cqe_UserData e =? u64 (i + 1) then
           bs ← bytes_at readBuff;
           cq_store (fun c => set_cq_Head (u32 (cq_Head c + 1)) c);;
           e ← cq_entry cqIdx;
           Ret (u64 (offset + u64 (cqe_Res e)), exContent ++ bs)
         else Ret (offset, exContent));
      sa_search k i (cqIdx + 1) readBuff offset exContent
  end.

(** The end of a round: what was completed.  A result [inl] is [log.Fatal]; the
    values its text quotes are left out. *)
Definition sa_collect (i : Z) (readBuff : slice) (offset : Z) (exContent : list Z)
  : prog Mem (error + Z * list Z) :=
  cqTail ← cq_load cq_Tail;
  cqHead ← cq_load cq_Head;
  if cqHead =? cqTail then Ret (inl (ErrMsg "No entries"))
  else
    _ ← cq_load cq_Head; _ ← cq_load cq_Tail; _ ← cq_first_two;
    mask ← cq_load cq_Mask;
    let cqIdx := Z.land cqHead mask in
    r ← sa_search (Z.to_nat (cqTail - cqIdx)) i cqIdx readBuff offset exContent;
    Ret (inr r).

(** One round. *)
Definition sa_round (ringFd tmpFd i offset : Z) (exContent : list Z) : prog Mem (error + Z * list Z) :=
  readBuff ← make_bytes alloc (len sa_content / 2);
  sqTail ← sq_load sq_Tail;
  mask ← sq_load sq_Mask;
  let sqIdx := Z.land sqTail mask in
  sqIdx .=(set_sqe_Opcode) Read;;
  sqIdx .=(set_sqe_Fd) (i32 tmpFd);;
  sqIdx .=(set_sqe_Offset) offset;;
  sqIdx .=(set_sqe_Len) (u32 (sl_Len readBuff));;
  sqIdx .=(set_sqe_UserData) (u64 (i + 1));;
  a ← elem0 readBuff; sqIdx .=(set_sqe_Addr) (u64 a);;
  head ← sq_load sq_Head;
  mask ← sq_load sq_Mask;
  sq_store_array sqIdx (Z.land head mask);;
  sq_store (fun q => set_sq_Tail (u32 (sq_Tail q + 1)) q);;
  _ ← sq_load sq_Head; _ ← sq_load sq_Tail; _ ← sq_first_two;
  '(n, e) ← sa_Enter ringFd 1 1 sa_EnterGetEvents;
  match e with
  | Some e => Ret (inl e)
  | None =>
      if negb (n =? 1) then Ret (inl (ErrMsg "expected 1 completed entry"))
      else sa_collect i readBuff offset exContent
  end.

(** [for i := 0; i < 2; i++]. *)
Fixpoint sa_rounds (k : nat) (ringFd tmpFd i offset : Z) (exContent : list Z) : prog Mem (error + list Z) :=
  match k with
  | O => Ret (inr exContent)
  | S k =>
      r ← sa_round ringFd tmpFd i offset exContent;
      match r with
      | inl e => Ret (inl e)
      | inr (offset, exContent) => sa_rounds k ringFd tmpFd (i + 1) offset exContent
      end
  end.

(** The ring: [&Params{}], [Setup] and [MmapRing] into zero queues. *)
Definition sa_ring (ringFd : Z) (p : Params) : prog Mem err :=
  '(sq, cq, e) ← sa_MmapRing ringFd p zeroSQMap zeroCQMap;
  match e with
  | Some e => Ret (Some e)
  | None =>
      ring_store (fun r => set_r_sq (Some (attach_sq rd rd_sqe sq))
        (set_r_cq (Some (attach_cq rd rd_cqe cq)) r));; Ret None
  end.

(** [main]; [os.Remove] is deferred, and [log.Fatal] skips it. *)
Definition sa_main : prog Mem err :=
  '(tmpFile, e) ← TempFile;
  match e with
  | Some e => Ret (Some e)
  | None =>
      content ← new_bytes alloc sa_content;
      '(_, e) ← os_Write fuel tmpFile content 0;
      match e with
      | Some e => Ret (Some e)
      | None =>
          e ← os_Seek tmpFile 0 0;
          match e with
          | Some e => Ret (Some e)
          | None =>
              '(p, (ringFd, e)) ← sa_Setup 8 zeroParams;
              match e with
              | Some e => Ret (Some e)
              | None =>
                  e ← sa_ring ringFd p;
                  match e with
                  | Some e => Ret (Some e)
                  | None =>
                      r ← sa_rounds 2 ringFd tmpFile 0 0 [];
                      match r with
                      | inl e => Ret (Some e)
                      | inr exContent =>
                          bs ← bytes_at content;
                          if bool_decide (bs = exContent) then
                            _ ← syscall (SysUnlink tmpName); Ret None
                          else Ret (Some (ErrMsg "Expected other content"))
                      end
                  end
              end
          end
      end
  end.
End Program.
