(* ===== verification/StandaloneSpec.v ===== *)
(** * Properties of the standalone program

    Its structures have the layout of the library's, its [MmapRing] does what the
    library's does except for errors, and [main] reads back what it wrote. *)

From stdpp Require Import base list gmap strings.
From Stdlib Require Import ZArith Lia.
From S2P Require Import Prelude Prog Consts Types Machine Samples Submission SubmissionSpec Ops OpsSpec.
From S2P Require Import Files Setup SetupSpec Standalone.

(** ** Layout *)

(** The structures shared with the kernel, in the library and in the standalone
    program, have the layout of the kernel's: an io_uring_sqe is 64 bytes, an
    io_uring_cqe 16, with all fields at the same offsets in both programs; the
    fields of the parameters and of the two offset tables inside them are at the
    kernel's offsets.  The parameters of the standalone program have the kernel's
    120 bytes; those of the library are 8 bytes longer. *)
Example layouts_agree :
  sqeSize = 64 /\ sa_sqeSize = 64 /\
  field_offsets 0 SubmitEntry_fields = [0; 1; 2; 4; 8; 16; 24; 28; 32; 40] /\
  field_offsets 0 Sqe_fields = field_offsets 0 SubmitEntry_fields /\
  cqeSize = 16 /\ sa_cqeSize = 16 /\
  field_offsets 0 CompletionEntry_fields = [0; 8; 12] /\
  field_offsets 0 Cqe_fields = field_offsets 0 CompletionEntry_fields /\
  uint32Size = 4 /\ sa_uint32Size = 4 /\
  field_offsets 0 Params_fields = [0; 4; 8; 12; 16; 20; 24; 28; 40; 80] /\
  field_offsets 0 sa_Params_fields = field_offsets 0 Params_fields /\
  field_offsets 0 SQRingOffset_fields = [0; 4; 8; 12; 16; 20; 24; 28; 32] /\
  field_offsets 0 SqOffset_fields = field_offsets 0 SQRingOffset_fields /\
  take 7 (field_offsets 0 CQRingOffset_fields) = [0; 4; 8; 12; 16; 20; 24] /\
  take 6 (field_offsets 0 CqOffset_fields) = [0; 4; 8; 12; 16; 20] /\
  sizeof (TStruct sa_Params_fields) = 120 /\ sizeof (TStruct Params_fields) = 128.
Proof. vm_compute. done. Qed.

(** ** MmapRing *)

(** What the standalone program does not store. *)
Definition no_ptr (s : SQMap) : SQMap :=
  mkSQMap (sm_Size s) 0 (sm_Head s) (sm_Tail s) (sm_Mask s) (sm_Flags s) (sm_Dropped s)
    (sm_Entries s) (sm_Array s).
Definition no_flags (c : CQMap) : CQMap :=
  mkCQMap (cm_Size c) (cm_ptr c) (cm_Head c) (cm_Tail c) (cm_Mask c) (cm_Overflow c) 0 (cm_Entries c).

(** The next of the three calls, with the constants of the library. *)
Ltac sa_call :=
  eapply runs_bind; [by apply runs_act|];
  try change sa_uint32Size with uint32Size; try change sa_SqRingOffset with SqRingOffset;
  try change sa_sqeSize with sqeSize; try change sa_SqeRingOffset with SqeRingOffset;
  try change sa_cqeSize with cqeSize; try change sa_CqRingOffset with CqRingOffset;
  cbn [m_hist set_m_hist].
Ltac sa_call_ok H := sa_call; rewrite H; cbn [negb Z.eqb].
Ltac sa_call_fails H := sa_call; rewrite (proj2 (Z.eqb_neq _ _) H); cbn [negb].

Section Mmap.
Context {K : Kernel}.
Implicit Types (m : Mem) (p : Params).

Lemma runs_sa_MmapRing fd p m :
  singleMmap p = false ->
  sys_errno (mmap1 m fd p).2 = 0 -> sys_errno (mmap2 m fd p).2 = 0 -> sys_errno (mmap3 m fd p).2 = 0 ->
  runs (sa_MmapRing fd p zeroSQMap zeroCQMap) m
    (no_ptr (sq_map p (ring_sizes p).1 (sys_r1 (mmap1 m fd p).2) (sys_r1 (mmap2 m fd p).2)),
     no_flags (cq_map p (ring_sizes p).2 (cq_addr m fd p) 0), None)
    (set_m_hist (mmap_calls m fd p ++ m_hist m) m).
Proof.
  intros Hs H1 H2 H3. unfold sa_MmapRing, cq_addr, mmap_calls. rewrite Hs.
  unfold mmap3, mmap2, mmap1, ring_sizes in *. rewrite Hs in *. cbn [fst snd] in *.
  sa_call_ok H1. sa_call_ok H2. sa_call_ok H3.
  eapply runs_eq; [apply runs_ret|done|by destruct m].
Qed.
End Mmap.

(** C30. The two versions of [MmapRing] agree on a ring with two mappings that
    succeed: they make the same three calls and find every part of the rings at
    the same address and with the same length; the standalone one stores neither
    [ptr] nor the flags of the completion queue.  They differ when only the second
    or the third mapping fails: the library still reports success, the standalone
    program the error. *)
Theorem MmapRing_agrees {K : Kernel} (fd : Z) (p : Params) (m : Mem)
    (Hs : singleMmap p = false) (H1 : sys_errno (mmap1 m fd p).2 = 0) :
  exists sq cq m', runs (MmapRing fd p zeroSQMap zeroCQMap) m (sq, cq, None) m' /\
    (sys_errno (mmap2 m fd p).2 = 0 -> sys_errno (mmap3 m fd p).2 = 0 ->
      runs (sa_MmapRing fd p zeroSQMap zeroCQMap) m (no_ptr sq, no_flags cq, None) m') /\
    (sys_errno (mmap2 m fd p).2 <> 0 -> exists sq' cq' m'',
      runs (sa_MmapRing fd p zeroSQMap zeroCQMap) m
        (sq', cq', Some (Errno (sys_errno (mmap2 m fd p).2))) m'') /\
    (sys_errno (mmap2 m fd p).2 = 0 -> sys_errno (mmap3 m fd p).2 <> 0 -> exists sq' cq',
      runs (sa_MmapRing fd p zeroSQMap zeroCQMap) m
        (sq', cq', Some (Errno (sys_errno (mmap3 m fd p).2))) m').
Proof.
  eexists _, _, _. split; [by apply runs_MmapRing|]. split_and!.
  - intros H2 H3. by apply runs_sa_MmapRing.
  - intros H2. unfold sa_MmapRing, mmap2, mmap1, ring_sizes in *. rewrite Hs in *. cbn [fst snd] in *.
    eexists _, _, _. sa_call_ok H1. sa_call_fails H2. apply runs_ret.
  - intros H2 H3. unfold sa_MmapRing, mmap_calls. rewrite Hs.
    unfold mmap3, mmap2, mmap1, ring_sizes in *. rewrite Hs in *. cbn [fst snd] in *.
    eexists _, _. sa_call_ok H1. sa_call_ok H2. sa_call_fails H3.
    eapply runs_eq; [apply runs_ret|done|by destruct m].
Qed.

(** The second mapping fails. *)
Definition second_fails_kernel : Kernel := {|
  k_answer := fun _ c =>
    match c with
    | SysMmap _ _ _ _ _ offset => mkSysRes 4096 (if offset =? SqeRingOffset then 12 else 0)
    | _ => mkSysRes 0 0
    end;
  k_params := fun _ _ p => p;
  k_file := fun _ _ st => (mkSysRes 0 0, st);
  k_enter := fun _ _ _ _ st => mkView 0 0 0 0 0 0 [] st
|}.

Lemma MmapRing_agrees_witness :
  let K := second_fails_kernel in
  exists sq cq m' sq' cq' m'',
    runs (MmapRing 5 sample_params zeroSQMap zeroCQMap) sample_mem (sq, cq, None) m' /\
    runs (sa_MmapRing 5 sample_params zeroSQMap zeroCQMap) sample_mem (sq', cq', Some (Errno 12)) m''.
Proof.
  intros K. destruct (MmapRing_agrees (K := second_fails_kernel) 5 sample_params sample_mem)
    as (sq & cq & m' & H1 & _ & H2 & _); [reflexivity|reflexivity|].
  destruct H2 as (sq' & cq' & m'' & H2); [vm_compute; discriminate|].
  exists sq, cq, m', sq', cq', m''. split; [exact H1|exact H2].
Defined.

(** ** main *)

Section Main.
Context {K : Kernel} (lim : history -> nat) (HK : serves lim K) (Hlim : forall h, (7 <= lim h)%nat).
Context (alloc : Store -> Z -> Z).
(** The allocator returns a new address, as long as there are few buffers. *)
Context (Halloc : forall st k, (size (st_bufs st) <= 4)%nat ->
  is_u64 (alloc st k) /\ st_bufs st !! alloc st k = None).
Context (ringFd tfd : Z) (Htfd : 0 <= tfd < 2 ^ 31).
Implicit Types (m : Mem) (q : SubmitQueue) (c : CompletionQueue).

(** After [j] rounds, with the file written and the original in the buffer [a0]. *)
Record sa_state (j a0 : Z) (m : Mem) : Prop := {
  ss_sq : exists q, m_sq m = Some q /\ sq_wf q /\ 2 <= len (sq_Entries q) /\ sq_Head q = j /\ sq_Tail q = j;
  ss_cq : exists c, m_cq m = Some c /\ cq_wf c /\ 2 <= len (cq_Entries c) /\ cq_Head c = j /\ cq_Tail c = j;
  ss_file : st_files (m_store m) !! tfd = Some sa_content;
  ss_buf : st_bufs (m_store m) !! a0 = Some sa_content;
  ss_size : Z.of_nat (size (st_bufs (m_store m))) <= j + 1
}.

(** The entry a round fills in. *)
Definition sa_entry (j a : Z) (e : SubmitEntry_t) : SubmitEntry_t :=
  mkSQE Read (sqe_Flags e) (sqe_Ioprio e) (i32 tfd) (7 * j) (u64 a) 7 (sqe_UFlags e) (u64 (j + 1)) (sqe_Anon0 e).

Definition sa_submitted (j a : Z) q : SubmitQueue :=
  set_sq_Tail (u32 (sq_Tail q + 1)) (set_sq_Array (<[Z.to_nat j := j]> (sq_Array q))
    (set_sq_Entries (alter (sa_entry j a) (Z.to_nat j) (sq_Entries q)) q)).

(** What the kernel does with it. *)
Lemma sa_served j a q c st e :
  sq_wf q -> 0 <= j < len (sq_Entries q) -> sq_Head q = j -> sq_Tail q = j ->
  slice_get (sq_Entries q) j = Some e -> 0 <= j <= 1 -> is_u64 a -> st_files st !! tfd = Some sa_content -> st_bufs st !! a = Some (replicate 7 0) ->
  forall L, (7 <= L)%nat ->
  serve_view L (sa_submitted j a q) c st =
  mkView (j + 1) (sq_Flags q) (sq_Dropped q) (cq_Tail c + 1) (cq_Overflow c) (cq_Flags c)
    [(cq_tail_pos c, mkCQE (j + 1) 7 0)]
    (set_st_bufs (<[a := take 7 (drop (Z.to_nat (7 * j)) sa_content)]> (st_bufs st)) st).
Proof.
  intros Hwf Hj Hh Ht He Hj1 Ha Hf Hb L HL. unfold serve_view, sq_head_pos. cbn. rewrite Hh, Ht.
  rewrite uwrap_id, (proj2 (Z.eqb_neq j (j + 1))) by (unfold is_uint; lia).
  rewrite sq_pos_mod, Z.mod_small by done.
  rewrite slice_get_insert_eq by (rewrite (sqwf_array q Hwf); done). cbn.
  rewrite (slice_get_alter_eq _ _ e) by done. cbn.
  unfold read_file. rewrite swrap_id by (unfold is_sint; lia). rewrite Hf, uwrap_id, Hb by done.
  unfold read_at. rewrite Nat.min_l by (change (Z.to_nat 7) with 7%nat; lia). change (Z.to_nat 7) with 7%nat.
  assert (j = 0 \/ j = 1) as [-> | ->] by lia; done.
Qed.

Lemma runs_sa_Enter m q c :
  m_sq m = Some q -> m_cq m = Some c ->
  let call := SysEnter (u64 ringFd) (u64 1) (u64 1) (u64 sa_EnterGetEvents) in
  runs (sa_Enter ringFd 1 1 sa_EnterGetEvents) m (1, None)
    (set_m_hist ((call, mkSysRes 1 0) :: m_hist m) (apply_view (serve_view (lim (m_hist m)) q c (m_store m)) m)).
Proof.
  intros Hq Hc call. unfold sa_Enter, syscall_enter. fold call.
  eapply runs_bind; [eapply runs_bind; [by apply runs_store|]; by apply runs_act|]. cbn beta.
  unfold call. change (u64 1) with 1. rewrite (sv_answer lim K HK). change (sys_errno (mkSysRes 1 0)) with 0. cbn [Z.eqb negb].
  eapply runs_eq; [apply runs_ret|done|].
  unfold m_sq, m_cq in *. cbn. rewrite Hq, Hc, (sv_enter lim K HK).
  replace (m_in_enter m + 1 - 1) with (m_in_enter m) by lia. by destruct m as [[] ? ? ? ? ? ? ? ?].
Qed.

(** The search finds the one completion. *)
Lemma runs_sa_search j a offset ex m c bs res :
  m_cq m = Some c -> slice_get (cq_Entries c) j = Some (mkCQE (j + 1) res 0) -> 0 <= j <= 1 ->
  st_bufs (m_store m) !! a = Some bs -> len bs = 7 ->
  runs (sa_search 1 j j (mkSlice a 7 7) offset ex) m (u64 (offset + u64 res), ex ++ bs)
    (put_cq (set_cq_Head (u32 (cq_Head c + 1)) c) m).
Proof.
  intros Hc He Hj Hb Hl. cbn [sa_search].
  eapply runs_bind; [by eapply runs_cq_entry|]. cbn [cqe_UserData].
  rewrite (uwrap_id 64) by (unfold is_uint; lia). rewrite Z.eqb_refl.
  eapply runs_bind.
  - eapply runs_bind; [apply runs_try_load; cbn; by rewrite Hb|].
    eapply runs_bind; [by apply runs_cq_store|].
    eapply runs_bind; [by eapply runs_cq_entry|]. apply runs_ret.
  - cbn beta iota. eapply runs_eq; [apply runs_ret| |done]. cbn [cqe_Res]. do 2 f_equal.
    apply take_ge. unfold len in Hl. lia.
Qed.

(** The part of a round that fills in an entry and makes it visible. *)
Lemma runs_sa_fill j a (k : prog Mem (error + Z * list Z)) m q v m' :
  m_sq m = Some q -> sq_wf q -> 0 <= j <= 1 -> 2 <= len (sq_Entries q) -> sq_Head q = j -> sq_Tail q = j ->
  runs k (put_sq (sa_submitted j a q) m) v m' ->
  runs (sqTail ← sq_load sq_Tail; mask ← sq_load sq_Mask;
    let sqIdx := Z.land sqTail mask in
    sqIdx .=(set_sqe_Opcode) Read;;
    sqIdx .=(set_sqe_Fd) (i32 tfd);;
    sqIdx .=(set_sqe_Offset) (7 * j);;
    sqIdx .=(set_sqe_Len) (u32 7);;
    sqIdx .=(set_sqe_UserData) (u64 (j + 1));;
    a ← elem0 (mkSlice a 7 7); sqIdx .=(set_sqe_Addr) (u64 a);;
    head ← sq_load sq_Head; mask ← sq_load sq_Mask;
    sq_store_array sqIdx (Z.land head mask);;
    sq_store (fun q => set_sq_Tail (u32 (sq_Tail q + 1)) q);;
    _ ← sq_load sq_Head; _ ← sq_load sq_Tail; _ ← sq_first_two; k) m v m'.
Proof.
  intros Hq Hwf Hj Hlen Hh Ht Hk. destruct (slice_get_in (sq_Entries q) j) as [e He]; [lia|].
  assert (Z.land j (sq_Mask q) = j) as Hland by (rewrite sq_pos_mod, Z.mod_small; [done|lia|done]).
  do 2 (eapply runs_bind; [by eapply runs_sq_load|]). cbn zeta. rewrite Ht, Hland.
  assert (claimed j m) as Hcl by (exists q, e; done).
  eapply runs_bind; [by apply runs_update|].
  do 4 (eapply runs_bind; [apply runs_update; repeat apply claimed_put_entry; done|]; rewrite put_entry_put_entry).
  eapply runs_bind; [apply runs_ret|]. cbn [sl_Data].
  eapply runs_bind; [apply runs_update; repeat apply claimed_put_entry; done|]. rewrite put_entry_put_entry.
  unfold put_entry. rewrite Hq. set (q1 := set_sq_Entries _ q).
  do 2 (eapply runs_bind; [by eapply (runs_sq_load _ _ q1)|]). cbn [sq_Head sq_Mask q1 set_sq_Entries]. rewrite Hh, Hland.
  eapply runs_bind; [apply (runs_sq_store_array _ q1); [done|cbn; rewrite (sqwf_array q Hwf); lia]|].
  eapply runs_bind; [by eapply runs_sq_store|]. rewrite !put_sq_put.
  match goal with |- context [put_sq ?x m] => set (q3 := x) end.
  do 2 (eapply runs_bind; [by eapply (runs_sq_load _ _ q3)|]).
  eapply runs_bind; [apply runs_try_load; cbn|].
  - rewrite len_alter, (proj2 (Z.leb_le _ _)) by lia. reflexivity.
  - exact Hk.
Qed.

Lemma cq_posted c e v :
  cq_wf c -> v_cqTail v = cq_Tail c + 1 -> v_posts v = [(cq_tail_pos c, e)] -> 2 <= len (cq_Entries c) ->
  cq_Head c = cq_Tail c -> 0 <= cq_Tail c <= 1 ->
  let c' := view_cq v c in
  cq_wf c' /\ cq_Head c' = cq_Head c /\ cq_Tail c' = cq_Tail c + 1 /\
  len (cq_Entries c') = len (cq_Entries c) /\ slice_get (cq_Entries c') (cq_Tail c) = Some e.
Proof.
  intros Hwf Ht Hp Hl Hht Hr c'. unfold c', view_cq. rewrite Ht, Hp. cbn.
  assert (cq_tail_pos c = cq_Tail c) as Epos.
  { unfold cq_tail_pos. rewrite cq_pos_mod, Z.mod_small; [done|lia|done]. }
  unfold post. cbn. rewrite Epos, slice_set_in by lia.
  rewrite uwrap_id by (unfold is_uint; lia). destruct Hwf as [H1 H2 H3 H4].
  split_and!; [split; cbn; rewrite ?len_insert; try done; unfold is_uint; lia|done|done|apply len_insert|].
  apply slice_get_insert_eq. lia.
Qed.

(** The one completion is collected. *)
Lemma runs_sa_collect j a ex bs m c ex' :
  m_cq m = Some c -> cq_wf c -> cq_Head c = j -> cq_Tail c = j + 1 -> 2 <= len (cq_Entries c) -> 0 <= j <= 1 ->
  slice_get (cq_Entries c) j = Some (mkCQE (j + 1) 7 0) ->
  st_bufs (m_store m) !! a = Some bs -> len bs = 7 -> ex ++ bs = ex' ->
  runs (sa_collect j (mkSlice a 7 7) (7 * j) ex) m (inr (7 * (j + 1), ex'))
    (put_cq (set_cq_Head (u32 (cq_Head c + 1)) c) m).
Proof.
  intros Hc Hw Hh Ht Hl Hj He Hb Hbs <-. unfold sa_collect.
  do 2 (eapply runs_bind; [by eapply runs_cq_load|]). rewrite Hh, Ht, (proj2 (Z.eqb_neq j (j + 1))) by lia.
  do 2 (eapply runs_bind; [by eapply runs_cq_load|]).
  eapply runs_bind; [apply runs_try_load; rewrite Hc; cbn [mbind option_bind];
    rewrite (proj2 (Z.leb_le _ _)) by lia; reflexivity|].
  eapply runs_bind; [by eapply runs_cq_load|]. cbn zeta.
  rewrite (cq_pos_mod c j Hw), Z.mod_small by lia. replace (Z.to_nat (j + 1 - j)) with 1%nat by lia.
  eapply runs_bind; [by eapply (runs_sa_search j a _ _ m c bs 7)|].
  eapply runs_eq; [apply runs_ret| |by rewrite Hh]. rewrite !uwrap_id by (rewrite ?uwrap_id; unfold is_uint; lia).
  do 2 f_equal. lia.
Qed.

Lemma runs_sa_round j a0 m :
  0 <= j <= 1 -> sa_state j a0 m ->
  exists m', runs (sa_round alloc ringFd tfd j (7 * j) (take (Z.to_nat (7 * j)) sa_content)) m
      (inr (7 * (j + 1), take (Z.to_nat (7 * (j + 1))) sa_content)) m' /\
    sa_state (j + 1) a0 m'.
Proof.
  intros Hj [(q & Hq & Hqwf & Hql & Hqh & Hqt) (c & Hc & Hcwf & Hcl & Hch & Hct) Hf Hb Hsz].
  destruct (Halloc (m_store m) 7) as [Ha Hfresh]; [lia|]. set (a := alloc (m_store m) 7) in *.
  set (m1 := set_m_store (set_st_bufs (<[a := replicate 7 0]> (st_bufs (m_store m))) (m_store m)) m).
  destruct (slice_get_in (sq_Entries q) j) as [e He]; [lia|].
  set (bs := take 7 (drop (Z.to_nat (7 * j)) sa_content)).
  assert (len bs = 7 /\ take (Z.to_nat (7 * j)) sa_content ++ bs = take (Z.to_nat (7 * (j + 1))) sa_content)
    as [Hbs Hcat] by (assert (j = 0 \/ j = 1) as [E|E] by lia; unfold bs; rewrite E; done).
  set (q1 := sa_submitted j a q). set (m2 := put_sq q1 m1).
  pose proof (runs_sa_Enter m2 q1 c eq_refl Hc) as Henter. cbn zeta in Henter.
  unfold q1 in Henter. rewrite (sa_served j a q c (m_store m2) e) in Henter;
    [|done|lia|done|done|done|done|done|done|cbn; apply lookup_insert_eq|apply Hlim].
  set (v := mkView _ _ _ _ _ _ _ _) in Henter.
  destruct (cq_posted c (mkCQE (j + 1) 7 0) v Hcwf eq_refl eq_refl Hcl) as (Hw' & Hh' & Ht' & Hl' & Hget); [lia..|].
  set (c' := view_cq v c) in *. rewrite Hct in *. rewrite Hch in Hh'.
  set (m3 := set_m_hist _ (apply_view v m2)) in Henter.
  assert (m_cq m3 = Some c') as Hc3 by (unfold m_cq in *; cbn; by rewrite Hc).
  exists (put_cq (set_cq_Head (u32 (cq_Head c' + 1)) c') m3). split.
  - unfold sa_round. eapply runs_bind; [by apply (runs_act _ m (mkSlice a 7 7) m1)|].
    apply (runs_sa_fill j a _ m1 q); [done|done|done|done|done|done|]. fold q1. fold m2.
    eapply runs_bind; [exact Henter|]. cbn beta iota. cbn [Z.eqb negb].
    apply (runs_sa_collect j a _ bs m3 c'); [done|done|done|done|lia|done|done|cbn; apply lookup_insert_eq|done|done].
  - split.
    + eexists. split; [done|]. split_and!; cbn.
      * apply (sq_wf_update q); cbn; autorewrite with slices; auto with slices; unfold is_uint; try lia.
        all: apply uwrap_range; lia.
      * by autorewrite with slices.
      * rewrite uwrap_id; [done|unfold is_uint; lia].
      * rewrite Hqt, uwrap_id; [done|unfold is_uint; lia].
    + eexists. split; [done|]. rewrite Hh', uwrap_id by (unfold is_uint; lia). split_and!;
        [|change (2 <= len (cq_Entries c')); by rewrite Hl'|done|exact Ht'].
      destruct Hw'. split; try done. cbn. unfold is_uint. lia.
    + done.
    + cbn. rewrite !lookup_insert_ne; [done|intros E; by rewrite E, Hb in Hfresh..].
    + cbn. rewrite insert_insert_eq, map_size_insert_None by done. lia.
Qed.
End Main.

(** ** The whole program *)

(** The temporary file is created empty, and the calls succeed; the mappings are at
    addresses that depend on the offset only. *)
Record sa_kernel (K : Kernel) (lim : history -> nat) (tmpName : string) (tfd ringFd : Z) (p : Params)
    (at_ : Z -> Z) : Prop := {
  sk_serves : serves lim K;
  sk_lim : forall h, (7 <= lim h)%nat;
  sk_open : forall h st, k_file h (SysOpen tmpName 194 384) st = (mkSysRes tfd 0, open_file tfd [] st);
  sk_seek : forall h fd, sys_errno (k_answer h (SysSeek fd 0 0)) = 0;
  sk_setup : forall h, k_answer h (SysSetup 8 zeroParams) = mkSysRes ringFd 0;
  sk_params : forall h, k_params h 8 zeroParams = p;
  sk_mmap : forall h length fd offset, k_answer h (SysMmap 0 length mmap_prot mmap_flags fd offset) = mkSysRes (at_ offset) 0;
  sk_tfd : 0 <= tfd < 2 ^ 31;
  sk_ok : params_ok p;
  sk_flags : p_Flags p = 0;
  sk_two : 2 <= p_SqEntries p /\ 2 <= p_CqEntries p
}.

Section Program.
Context {K : Kernel} (lim : history -> nat) (tmpName : string) (tfd ringFd : Z) (p : Params) (at_ : Z -> Z).
Context (HK : sa_kernel K lim tmpName tfd ringFd p at_).
Context (rd : Z -> Z) (rd_sqe : Z -> SubmitEntry_t) (rd_cqe : Z -> CompletionEntry).
Context (Hmap : mapped_ok rd p (u64 (at_ SqRingOffset)) (u64 (at_ CqRingOffset))).
Context (Hzero : zeroed rd rd_cqe p (u64 (at_ SqRingOffset)) (u64 (at_ CqRingOffset))).

(** The rings are empty and both queues have two entries. *)
Lemma runs_sa_ring m :
  exists m', runs (sa_ring rd rd_sqe rd_cqe ringFd p) m None m' /\ m_store m' = m_store m /\
    (exists q, m_sq m' = Some q /\ sq_wf q /\ 2 <= len (sq_Entries q) /\ sq_Head q = 0 /\ sq_Tail q = 0) /\
    (exists c, m_cq m' = Some c /\ cq_wf c /\ 2 <= len (cq_Entries c) /\ cq_Head c = 0 /\ cq_Tail c = 0).
Proof.
  assert (singleMmap p = false) as Hs by (unfold singleMmap; by rewrite (sk_flags _ _ _ _ _ _ _ HK)).
  assert (forall h length fd offset, sys_errno (k_answer h (SysMmap 0 length mmap_prot mmap_flags fd offset)) = 0) as He.
  { intros. by rewrite (sk_mmap _ _ _ _ _ _ _ HK). }
  pose proof (runs_sa_MmapRing ringFd p m Hs (He _ _ _ _) (He _ _ _ _) (He _ _ _ _)) as Hrun.
  unfold cq_addr in Hrun. rewrite Hs in Hrun. unfold mmap1, mmap2, mmap3 in Hrun. cbn [snd] in Hrun.
  rewrite !(sk_mmap _ _ _ _ _ _ _ HK) in Hrun. unfold sys_r1 in Hrun. cbn [raw_r1] in Hrun.
  destruct (attach_wf rd rd_sqe rd_cqe p (ring_sizes p).1 (ring_sizes p).2 (u64 (at_ SqRingOffset))
    (u64 (at_ SqeRingOffset)) (u64 (at_ CqRingOffset)) 0 (sk_ok _ _ _ _ _ _ _ HK) Hmap) as (Hq & Hql & Hc & Hcl).
  destruct (sk_two _ _ _ _ _ _ _ HK) as [H1 H2].
  eexists. split; [|split; [|split]].
  - unfold sa_ring. eapply runs_bind; [exact Hrun|]. cbn beta iota.
    eapply runs_bind; [by apply runs_store|]. apply runs_ret.
  - done.
  - eexists. split; [done|]. split_and!; [by destruct Hq|rewrite <- Hql in H1; exact H1|apply Hzero|apply Hzero].
  - eexists. split; [done|]. split_and!; [by destruct Hc|rewrite <- Hcl in H2; exact H2|apply Hzero|apply Hzero].
Qed.

Context (alloc : Store -> Z -> Z).
Context (Halloc : forall st k, (size (st_bufs st) <= 4)%nat ->
  is_u64 (alloc st k) /\ st_bufs st !! alloc st k = None).

(** The two rounds. *)
Lemma runs_sa_rounds a0 m :
  sa_state tfd 0 a0 m ->
  exists m', runs (sa_rounds alloc 2 ringFd tfd 0 0 []) m (inr sa_content) m' /\ sa_state tfd 2 a0 m'.
Proof.
  intros Hm. pose proof (sk_serves _ _ _ _ _ _ _ HK) as HS. pose proof (sk_lim _ _ _ _ _ _ _ HK) as HL.
  pose proof (sk_tfd _ _ _ _ _ _ _ HK) as Ht.
  destruct (runs_sa_round lim HS HL alloc Halloc ringFd tfd Ht 0 a0 m) as (m1 & H1 & Hm1); [lia|done|].
  destruct (runs_sa_round lim HS HL alloc Halloc ringFd tfd Ht 1 a0 m1) as (m2 & H2 & Hm2); [lia|done|].
  exists m2. split; [|done]. cbn [sa_rounds].
  eapply runs_bind; [exact H1|]. cbn beta iota. eapply runs_bind; [exact H2|]. apply runs_ret.
Qed.

(** The temporary file with the contents, before the ring is made. *)
Lemma runs_sa_write fuel a b m :
  st_files (m_store m) !! tfd = Some [] -> st_pos (m_store m) !! tfd = Some 0 ->
  st_bufs (m_store m) !! a = Some b -> is_u64 a -> 0 < len b <= maxRW ->
  exists m', runs (os_Write (S fuel) tfd (mkSlice a (len b) (len b)) 0) m (len b, None) m' /\
    st_files (m_store m') !! tfd = Some b /\ st_bufs (m_store m') = st_bufs (m_store m).
Proof.
  intros Hf Hp Hb Ha Hl. pose proof (sk_serves _ _ _ _ _ _ _ HK) as HS. unfold maxRW in Hl.
  eexists. split.
  - cbn [os_Write sl_Len sl_Data]. rewrite Z.add_0_r, Z.sub_0_r, Z.min_l, !uwrap_id
      by (done || (unfold is_uint, maxRW in *; lia)).
    eapply runs_bind; [apply runs_act; rewrite (sv_write lim K HS); unfold file_call, write_file;
      rewrite Hf, Hb, Hp; cbn [default id fst snd];
      rewrite take_ge, (proj2 (Z.ltb_ge (len b) 0)) by (unfold len in *; lia); reflexivity|].
    unfold sys_errno, sys_r1. cbn [raw_errno raw_r1]. change (u64 0 =? 0) with true. cbn [negb].
    rewrite uwrap_id, swrap_id by (unfold is_uint, is_sint; lia). rewrite Z.eqb_refl. apply runs_ret.
  - cbn. split; [|done]. rewrite lookup_insert_eq. f_equal. by apply (splice_end []).
Qed.
End Program.

(** C32. [main] of the standalone program ends without [log.Fatal]: it reads back
    through the ring, in two requests of seven bytes, exactly the fourteen bytes it
    wrote to the temporary file, and removes the file.  This holds for a kernel
    that serves requests and reads as much of a small file as is asked for, on a
    new ring with room for two requests, and any allocator that returns new
    addresses. *)
Theorem sa_main_reads_back {K : Kernel} (lim : history -> nat) (tmpName : string) (tfd ringFd : Z)
    (p : Params) (at_ : Z -> Z) (rd : Z -> Z) (rd_sqe : Z -> SubmitEntry_t)
    (rd_cqe : Z -> CompletionEntry) (alloc : Store -> Z -> Z) (fuel : nat) (m : Mem)
    (HK : sa_kernel K lim tmpName tfd ringFd p at_) (Hfd : 0 <= ringFd < 2 ^ 31)
    (Hmap : mapped_ok rd p (u64 (at_ SqRingOffset)) (u64 (at_ CqRingOffset)))
    (Hzero : zeroed rd rd_cqe p (u64 (at_ SqRingOffset)) (u64 (at_ CqRingOffset)))
    (Halloc : forall st k, (size (st_bufs st) <= 4)%nat ->
      is_u64 (alloc st k) /\ st_bufs st !! alloc st k = None)
    (Hbufs : st_bufs (m_store m) = ∅) :
  exists m', runs (sa_main alloc rd rd_sqe rd_cqe tmpName (S fuel)) m None m' /\
    st_files (m_store m') !! tfd = Some sa_content /\
    (fst <$> head (m_hist m')) = Some (SysUnlink tmpName).
Proof.
  pose proof (sk_tfd _ _ _ _ _ _ _ HK) as Ht.
  set (m1 := set_m_hist ((SysOpen tmpName 194 384, mkSysRes tfd 0) :: m_hist m)
    (set_m_store (open_file tfd [] (m_store m)) m)).
  destruct (Halloc (m_store m1) (len sa_content)) as [Ha _]; [cbn; rewrite Hbufs, map_size_empty; lia|].
  set (a := alloc (m_store m1) (len sa_content)) in *.
  set (m2 := set_m_store (set_st_bufs (<[a := sa_content]> (st_bufs (m_store m1))) (m_store m1)) m1).
  destruct (runs_sa_write lim tmpName tfd ringFd p at_ HK fuel a sa_content m2) as (m3 & H3 & Hf3 & Hb3);
    [cbn; apply lookup_insert_eq|cbn; apply lookup_insert_eq|cbn; apply lookup_insert_eq|done|vm_compute; done|].
  set (seek := SysSeek tfd 0 0). set (m4 := set_m_hist ((seek, k_answer (m_hist m3) seek) :: m_hist m3) m3).
  set (m5 := set_m_hist ((SysSetup (u64 8) zeroParams, mkSysRes ringFd 0) :: m_hist m4) m4).
  destruct (runs_sa_ring lim tmpName tfd ringFd p at_ HK rd rd_sqe rd_cqe Hmap Hzero m5)
    as (m6 & H6 & Hst6 & Hq6 & Hc6).
  destruct (runs_sa_rounds lim tmpName tfd ringFd p at_ HK alloc Halloc a m6) as (m7 & H7 & Hm7).
  { split; [done|done|by rewrite Hst6| |]; rewrite Hst6; cbn; rewrite Hb3; cbn; rewrite Hbufs.
    - apply lookup_insert_eq.
    - rewrite map_size_insert_None by done. done. }
  eexists. split; [|split].
  - unfold sa_main, TempFile.
    eapply runs_bind; [by apply runs_os_OpenFile; [apply HK|]|]. cbn beta iota.
    eapply runs_bind; [by apply (runs_act _ m1 (mkSlice a (len sa_content) (len sa_content)) m2)|].
    eapply runs_bind; [exact H3|]. cbn beta iota.
    eapply runs_bind; [eapply runs_bind; [by apply (runs_act _ m3 _ m4)|]; apply runs_ret|].
    rewrite (sk_seek _ _ _ _ _ _ _ HK). cbn [Z.eqb].
    eapply runs_bind; [unfold sa_Setup; eapply runs_bind; [by apply runs_act|]|].
    { rewrite (sk_setup _ _ _ _ _ _ _ HK). change (sys_errno (mkSysRes ringFd 0) =? 0) with true. cbn [negb].
      rewrite (sk_params _ _ _ _ _ _ _ HK). apply runs_ret. }
    unfold sys_r1. cbn [raw_r1]. rewrite uwrap_id, swrap_id by (unfold is_uint, is_sint; lia). cbn beta iota.
    eapply runs_bind; [exact H6|]. cbn beta iota. eapply runs_bind; [exact H7|]. cbn beta iota.
    eapply runs_bind; [apply runs_try_load; cbn; rewrite (ss_buf _ _ _ _ Hm7); reflexivity|].
    rewrite bool_decide_true by (by rewrite take_ge).
    eapply runs_bind; [by apply runs_act|]. apply runs_ret.
  - cbn. apply Hm7.
  - done.
Qed.

(** ** Witness *)

(** An allocator with five places. *)
Definition places : list Z := [65536; 131072; 196608; 262144; 327680].
Definition first_free (st : Store) (k : Z) : Z :=
  match list_find (fun a => st_bufs st !! a = None) places with Some (_, a) => a | None => 0 end.

Lemma first_free_ok st k :
  (size (st_bufs st) <= 4)%nat -> is_u64 (first_free st k) /\ st_bufs st !! first_free st k = None.
Proof.
  intros Hs. unfold first_free. destruct (list_find _ _) as [[i a]|] eqn:E.
  - apply list_find_Some in E as (Ha & Hn & _). split; [|done].
    revert Hn. pattern a. eapply Forall_lookup_1; [|exact Ha].
    repeat constructor; unfold is_uint; lia.
  - exfalso. apply list_find_None in E.
    assert (list_to_set places ⊆ dom (st_bufs st)) as Hsub.
    { intros a Ha%elem_of_list_to_set. rewrite Forall_forall in E. specialize (E a Ha).
      apply elem_of_dom. destruct (st_bufs st !! a); [eauto|done]. }
    apply subseteq_size in Hsub. rewrite size_dom, size_list_to_set in Hsub; [cbn in Hsub; lia|].
    apply (bool_decide_unpack _). vm_compute. exact I.
Qed.

Definition sa_params : Params :=
  mkParams 8 16 0 0 0 0 0 [0; 0; 0]
    (mkSQOff 0 64 256 264 276 272 320 0 0) (mkCQOff 128 192 260 268 284 320 280 [0; 0]).
Definition sa_rd (a : Z) : Z :=
  if a =? 2 ^ 24 + 256 then 7 else if a =? 2 ^ 26 + 260 then 15 else 0.
Definition sa_at (offset : Z) : Z :=
  if offset =? SqRingOffset then 2 ^ 24 else if offset =? SqeRingOffset then 2 ^ 25 else 2 ^ 26.
Definition standalone_kernel : Kernel := {|
  k_answer := fun _ c =>
    match c with
    | SysSetup _ _ => mkSysRes 5 0
    | SysEnter _ _ _ _ => mkSysRes 1 0
    | SysMmap _ _ _ _ _ offset => mkSysRes (sa_at offset) 0
    | _ => mkSysRes 0 0
    end;
  k_params := fun _ _ _ => sa_params;
  k_file := fun h c st =>
    match c with
    | SysOpen _ _ _ => (mkSysRes 9 0, open_file 9 [] st)
    | _ => file_call 16 c st
    end;
  k_enter := fun _ _ q c st =>
    match q, c with
    | Some q, Some c => serve_view 16 q c st
    | _, _ => mkView 0 0 0 0 0 0 [] st
    end
|}.

Lemma sa_main_reads_back_witness :
  let K := standalone_kernel in
  exists m', runs (sa_main first_free sa_rd (fun _ => zeroSQE) (fun _ => mkCQE 0 0 0) "example1" 1) sample_mem None m' /\
    st_files (m_store m') !! 9 = Some sa_content /\
    (fst <$> head (m_hist m')) = Some (SysUnlink "example1").
Proof.
  intros K. apply (sa_main_reads_back (K := standalone_kernel) (fun _ => 16%nat) "example1" 9 5 sa_params sa_at
    sa_rd (fun _ => zeroSQE) (fun _ => mkCQE 0 0 0) first_free 0 sample_mem).
  - split; try done; try lia; try (intros; lia).
    + split; try done; intros; lia.
    + split; try (vm_compute; (discriminate || reflexivity)); [exists 3|exists 4]; split; (lia || done).
  - lia.
  - split; [vm_compute; reflexivity|vm_compute; reflexivity|].
    intros a. unfold sa_rd, is_uint. destruct (a =? _); [lia|]. destruct (a =? _); lia.
  - split; try (vm_compute; reflexivity).
  - apply first_free_ok.
  - reflexivity.
Defined.
