(* ===== verification/Bulk.v ===== *)
(** * Sending to many sockets (examples/bulk-socket)

    [send] encodes a message, prepares one entry per socket and enters the ring
    once; [sendMessage] does so again and again.  The encoder of the events is a
    parameter. *)

From stdpp Require Import base list gmap strings relations.
From Stdlib Require Import ZArith Lia.
From S2P Require Import Prelude Prog Consts Types Machine Samples Submission SubmissionSpec Ops.
From S2P Require Import OpsSpec Files.

(** ** The wire format *)

(** The digits of a number to a base of at most sixteen, and [%x] of a nonnegative
    [int]: at most sixteen digits. *)
Definition digit_char (d : Z) : Z := if d <? 10 then 48 + d else 87 + d.
Fixpoint base_digits (b : Z) (k : nat) (n : Z) (acc : list Z) : list Z :=
  match k with
  | O => acc
  | S k =>
      let acc := digit_char (n mod b) :: acc in
      if n / b =? 0 then acc else base_digits b k (n / b) acc
  end.
Definition hex (n : Z) : list Z := base_digits 16 16 n [].

Definition crlf : list Z := [13; 10].

(** The chunk that carries the event [sdata]. *)
Definition wire (sdata : list Z) : list Z := hex (len sdata) ++ crlf ++ sdata ++ crlf.

Section Bulk.
Context {K : Kernel} (fuel : nat).
(** The allocator, and [gsse.Encode]: what it writes for a kind and the data of an
    event, and its error. *)
Context (alloc : Store -> Z -> Z) (Encode : string -> list Z -> list Z * err).

(** The entry of one socket. *)
Definition bulk_entry (addr length fd : Z) : prog Mem unit :=
  '(e, commit) ← Ring_SubmitEntry fuel;
  match e with
  | None => Panic nil_msg
  | Some e =>
      e .=(set_sqe_Opcode) WriteFixed;;
      e .=(set_sqe_Fd) fd;;
      e .=(set_sqe_Addr) addr;;
      e .=(set_sqe_Len) length;;
      commit
  end.

Fixpoint bulk_loop (addr length : Z) (fds : list Z) : prog Mem unit :=
  match fds with
  | [] => Ret tt
  | fd :: fds => bulk_entry addr length fd;; bulk_loop addr length fds
  end.

(** [send] from the encoded message on. *)
Definition bulk_send (rawData : slice) (fds : list Z) : prog Mem (Z * err) :=
  a ← elem0 rawData;
  bulk_loop (u64 a) (u32 (sl_Len rawData)) fds;;
  Ring_Enter fuel (u64 (len fds)) (u64 (len fds)) EnterGetEvents.

Definition send (fds : list Z) (data : list Z) : prog Mem err :=
  let '(sdata, e) := Encode "message" data in
  match e with
  | Some e => Ret (Some e)
  | None =>
      rawData ← new_bytes alloc (wire sdata);
      '(_, e) ← bulk_send rawData fds;
      Ret e
  end.

(** [sendMessage]: it ends with an error only.  [fds i] are the sockets that the
    other goroutines have added when the round [i] begins. *)
Fixpoint sendMessage (rounds i : nat) (fds : nat -> list Z) (message : list Z) : prog Mem err :=
  match rounds with
  | O => Starve
  | S rounds =>
      e ← send (fds i) message;
      match e with
      | Some e => Ret (Some e)
      | None => sendMessage rounds (S i) fds message
      end
  end.
End Bulk.

(** The handler of the endpoint adds the descriptor of the connection. *)
Definition add_fd (fds : list Z) (fd : Z) : list Z := fds ++ [i32 fd].

(** What one iteration makes of the entry. *)
Definition bulk_fill (addr length fd : Z) (e : SubmitEntry_t) : SubmitEntry_t :=
  set_sqe_Len length (set_sqe_Addr addr (set_sqe_Fd fd (set_sqe_Opcode WriteFixed e))).

Section BulkRuns.
Context {K : Kernel} (fuel : nat) (addr length : Z).
Implicit Types (m : Mem) (q : SubmitQueue).

Lemma runs_bulk_entry fd m q :
  m_sq m = Some q -> sq_open q ->
  runs (bulk_entry (S fuel) addr length fd) m tt
    (add_claim (sq_tail_pos q) (put_sq (sq_submit (bulk_fill addr length fd) q) m)).
Proof.
  intros Hm Ho. pose proof (sqo_wf q Ho) as Hwf.
  pose proof (runs_submit m q fuel (bulk_fill addr length fd) Hm Ho) as Hs.
  pose proof (runs_SubmitEntry m q fuel Hm Hwf (sqo_entered q Ho)) as He.
  pose proof (runs_bind_inv _ _ _ _ _ _ _ Hs He) as Hrest. cbn beta iota in Hrest.
  unfold bulk_entry. eapply runs_bind; [exact He|]. cbn beta iota.
  set (m1 := add_claim _ (put_sq (sq_claim q) m)) in *.
  assert (claimed (sq_tail_pos q) m1) as Hcl.
  { destruct (slice_get_in (sq_Entries q) (sq_tail_pos q)) as [x Hx]; [auto with slices|].
    eexists _, _. split; [done|]. by apply slice_get_alter_eq. }
  pose proof (runs_bind_inv _ _ _ _ _ _ _ Hrest (runs_update _ _ _ Hcl)) as Hcommit.
  eapply runs_bind; [by apply runs_update|].
  do 3 (eapply runs_bind; [apply runs_update; repeat apply claimed_put_entry; done|]; rewrite put_entry_put_entry).
  exact Hcommit.
Qed.

(** The loop is a batch of submissions; the files and buffers are not touched. *)
Lemma runs_bulk_loop fds : forall m q,
  m_sq m = Some q -> sq_open q -> len fds <= len (sq_Entries q) ->
  exists m' q', runs (bulk_loop (S fuel) addr length fds) m tt m' /\
    runs (submit_all (S fuel) (bulk_fill addr length <$> fds)) m tt m' /\
    m_sq m' = Some q' /\ sq_open q' /\ m_store m' = m_store m.
Proof.
  induction fds as [|fd fds IH]; intros m q Hm Ho Hlen.
  - exists m, q. split_and!; try done; apply runs_ret.
  - assert (len (fd :: fds) = len fds + 1) as Hc by (unfold len; cbn; lia).
    destruct (IH (add_claim (sq_tail_pos q) (put_sq (sq_submit (bulk_fill addr length fd) q) m))
      (sq_submit (bulk_fill addr length fd) q)) as (m' & q' & H1 & H2 & H3);
      [done|by apply sq_submit_open|cbn; autorewrite with slices; lia|].
    exists m', q'. split_and!; [..|apply H3|apply H3|apply H3]; cbn; eapply runs_bind;
      [by apply runs_bulk_entry|done|by apply runs_submit|done].
Qed.
End BulkRuns.


(** ** What a client reads *)

Definition undigit (b c : Z) : option Z :=
  d ← (if (48 <=? c) && (c <=? 57) then Some (c - 48)
       else if (97 <=? c) && (c <=? 102) then Some (c - 87)
       else None);
  if d <? b then Some d else None.

(** The number before the first byte that is no digit. *)
Fixpoint number (b v : Z) (s : list Z) : Z * list Z :=
  match s with
  | [] => (v, [])
  | c :: s' => match undigit b c with Some d => number b (b * v + d) s' | None => (v, s) end
  end.

(** A chunk of the HTTP chunked transfer coding (RFC 7230, 4.1), without
    extensions: its data and what follows it. *)
Definition read_chunk (s : list Z) : option (list Z * list Z) :=
  match number 16 0 s with
  | (n, 13 :: 10 :: s) =>
      if len s <? n then None
      else match drop (Z.to_nat n) s with
           | 13 :: 10 :: rest => Some (take (Z.to_nat n) s, rest)
           | _ => None
           end
  | _ => None
  end.

(** The next [k] chunks. *)
Fixpoint read_chunks (k : nat) (s : list Z) : option (list (list Z) * list Z) :=
  match k with
  | O => Some ([], s)
  | S k => '(e, s) ← read_chunk s; '(es, s) ← read_chunks k s; Some (e :: es, s)
  end.

Section Digits.
Context (b : Z) (Hb : 1 < b <= 16).

Lemma undigit_digit d : 0 <= d < b -> undigit b (digit_char d) = Some d.
Proof.
  intros H. unfold undigit, digit_char. destruct (Z.ltb_spec d 10).
  - rewrite !(proj2 (Z.leb_le _ _)) by lia. cbn. rewrite (proj2 (Z.ltb_lt _ _)) by lia. f_equal. lia.
  - rewrite (proj2 (Z.leb_le 48 _)), (proj2 (Z.leb_gt _ 57)) by lia. cbn [andb].
    rewrite !(proj2 (Z.leb_le _ _)) by lia. cbn. rewrite (proj2 (Z.ltb_lt _ _)) by lia. f_equal. lia.
Qed.

(** The digits of [n] are read as [n], after the value [v]. *)
Lemma number_digits k : forall n acc, 0 <= n < b ^ Z.of_nat k -> (0 < k)%nat ->
  exists j, 0 <= j /\ forall v, number b v (base_digits b k n acc) = number b (v * b ^ j + n) acc.
Proof.
  induction k as [|k IH]; intros n acc Hn Hk; [lia|]. cbn [base_digits].
  pose proof (Z.mod_pos_bound n b ltac:(lia)) as Hm. pose proof (Z.div_mod n b ltac:(lia)) as Hd.
  destruct (Z.eqb_spec (n / b) 0) as [E|E].
  - exists 1. split; [lia|]. intros v. cbn [number]. rewrite undigit_digit by done. f_equal. lia.
  - assert (0 <= n / b < b ^ Z.of_nat k) as Hq.
    { rewrite Nat2Z.inj_succ, Z.pow_succ_r in Hn by lia. split; [apply Z.div_pos; lia|].
      apply Z.div_lt_upper_bound; lia. }
    destruct (IH (n / b) (digit_char (n mod b) :: acc)) as (j & Hj & H); [done| |].
    { destruct k; [|lia]. cbn in Hq. lia. }
    exists (j + 1). split; [lia|]. intros v. rewrite H. cbn [number]. rewrite undigit_digit by done.
    f_equal. rewrite Z.pow_add_r by lia. lia.
Qed.

Lemma digits_app k : forall n acc t, base_digits b k n acc ++ t = base_digits b k n (acc ++ t).
Proof.
  induction k as [|k IH]; intros x acc t; [done|]. cbn [base_digits]. destruct (_ =? 0); [done|]. apply IH.
Qed.

(** A number is read back up to a byte that is no digit. *)
Lemma read_number k n c s :
  0 <= n < b ^ Z.of_nat k -> (0 < k)%nat -> undigit b c = None ->
  number b 0 (base_digits b k n [] ++ c :: s) = (n, c :: s).
Proof.
  intros Hn Hk Hc. rewrite digits_app. destruct (number_digits k n ([] ++ c :: s)) as (j & Hj & ->); [done..|].
  cbn [app number]. by rewrite Hc.
Qed.
End Digits.

Lemma read_wire sdata rest : len sdata < 2 ^ 63 -> read_chunk (wire sdata ++ rest) = Some (sdata, rest).
Proof.
  intros Hl. pose proof (len_nonneg sdata). unfold read_chunk, wire, crlf.
  rewrite <- !app_assoc. cbn [app]. unfold hex. rewrite read_number by (lia || done).
  rewrite (proj2 (Z.ltb_ge _ _)) by (unfold len; rewrite !length_app; lia).
  unfold len. rewrite Nat2Z.id. rewrite drop_app_length, take_app_length. done.
Qed.

(** What [send] puts on the wire is a chunk of the HTTP transfer coding: a client
    that reads chunks gets the events of a sequence of messages one by one, and
    what follows them on the connection. *)
Lemma read_wires (events : list (list Z)) (rest : list Z) :
  Forall (fun e => len e < 2 ^ 63) events ->
  read_chunks (length events) (concat (wire <$> events) ++ rest) = Some (events, rest).
Proof.
  induction 1 as [|e es He _ IH]; [done|]. cbn [length read_chunks fmap list_fmap concat].
  rewrite <- app_assoc, read_wire by done. cbn [mbind option_bind]. cbn in IH. by rewrite IH.
Qed.

Example wire_sample :
  concat (wire <$> [[100; 97; 116; 97]; []; replicate 300 65]) =
    [52; 13; 10; 100; 97; 116; 97; 13; 10] ++ [48; 13; 10; 13; 10] ++
    [49; 50; 99; 13; 10] ++ replicate 300 65 ++ [13; 10].
Proof. vm_compute. reflexivity. Qed.

(** ** The whole of send *)

(** [send] puts the encoded event, as a chunk, into a buffer and prepares the
    entries of all sockets before it enters the ring: at that moment the kernel
    is handed the chunk for the first socket once per socket, and nothing for the
    others, and sees as many entries.  The result is that of the one call of
    io_uring_enter. *)
Theorem send_first_only {K : Kernel} (fuel : nat) (alloc : Store -> Z -> Z) (Encode : string -> list Z -> list Z * err)
    (fd : Z) (fds data sdata : list Z) (m : Mem) (q : SubmitQueue)
    (Henc : Encode "message"%string data = (sdata, None)) (Hsd : len sdata < 2 ^ 63)
    (Halloc : forall st k, is_u64 (alloc st k))
    (Hm : m_sq m = Some q) (Hd : sq_drained q) (Hlen : len (fd :: fds) < len (sq_Entries q)) :
  let n := length (fd :: fds) in
  exists a anon m1 q1 m2,
    m_sq m1 = Some q1 /\ Z.of_nat n <= sq_count q1 /\ st_bufs (m_store m1) !! a = Some (wire sdata) /\
    read_chunk (wire sdata) = Some (sdata, []) /\
    runs (kernel_takes n) m1
      (replicate n (mkSQE WriteFixed 0 0 fd 0 a (u32 (len (wire sdata))) 0 0 anon)) m2 /\
    let nz := u64 (Z.of_nat n) in
    runs (send (S fuel) alloc Encode (fd :: fds) data) m
      (enter_result (k_answer (m_hist m1) (enter_call m1 q1 nz nz EnterGetEvents))).2
      (entered_mem m1 q1 nz nz EnterGetEvents).
Proof.
  intros n. set (a := alloc (m_store m) (len (wire sdata))).
  set (m0 := set_m_store (set_st_bufs (<[a := wire sdata]> (st_bufs (m_store m))) (m_store m)) m).
  pose proof (Halloc (m_store m) (len (wire sdata)) : is_u64 a) as Ha.
  destruct (runs_bulk_loop fuel a (u32 (len (wire sdata))) (fd :: fds) m0 q Hm (proj1 Hd) ltac:(lia))
    as (m1 & q1 & H1 & H2 & Hq1 & Ho1 & Hst).
  destruct (runs_batch fuel (bulk_fill a (u32 (len (wire sdata))) fd)
    (bulk_fill a (u32 (len (wire sdata))) <$> fds) m0 q Hm Hd)
    as (anon & m1' & m2 & H3 & H4); [unfold len in *; cbn in *; rewrite length_fmap; lia|].
  destruct (runs_det _ _ _ _ _ _ H2 H3) as [_ <-].
  destruct (submit_all_tail fuel (bulk_fill a (u32 (len (wire sdata))) <$> fds) (bulk_fill a (u32 (len (wire sdata))) fd)
    m0 q Hm (proj1 Hd)) as (m1' & q1' & H5 & Hq1' & Hh & Ht).
  destruct (runs_det _ _ _ _ _ _ H2 H5) as [_ <-]. rewrite Hq1 in Hq1'. injection Hq1' as <-.
  exists a, anon, m1, q1, m2. split_and!.
  - done.
  - apply (count_short q); [done|done| |unfold n, len in *; lia].
    rewrite Ht. unfold n, len. rewrite length_fmap. cbn [length]. do 3 f_equal. lia.
  - rewrite Hst. apply lookup_insert_eq.
  - rewrite <- (app_nil_r (wire sdata)). by apply read_wire.
  - cbn in H4 |- *. by rewrite length_fmap in H4.
  - cbn zeta. change (Z.of_nat n) with (len (fd :: fds)). unfold send. rewrite Henc. eapply runs_bind; [by apply runs_act|]. fold a m0.
    assert (0 < len (wire sdata)) as Hw by (unfold wire, len; rewrite !length_app; cbn; lia).
    eapply runs_bind.
    + unfold bulk_send, elem0. cbn [sl_Len sl_Data]. rewrite (proj2 (Z.ltb_lt _ _) Hw).
      eapply runs_bind; [apply runs_ret|]. rewrite (uwrap_id 64 a Ha). eapply runs_bind; [exact H1|].
      apply runs_Ring_Enter; [done|apply Ho1].
    + destruct (enter_result _). apply runs_ret.
Qed.

(** A failed encoding ends [send], and [sendMessage], without a change. *)
Theorem send_encode_error {K : Kernel} (fuel : nat) (alloc : Store -> Z -> Z)
    (Encode : string -> list Z -> list Z * err) (fds : nat -> list Z) (message : list Z) (rounds i : nat)
    (m : Mem) (e : error) (Henc : (Encode "message"%string message).2 = Some e) :
  runs (sendMessage fuel alloc Encode (S rounds) i fds message) m (Some e) m.
Proof.
  cbn [sendMessage]. unfold send. destruct (Encode _ _) as [sdata o]. cbn in Henc. subst o.
  eapply runs_bind; apply runs_ret.
Qed.

Lemma send_first_only_witness :
  let K := still_kernel 3 0 in
  let Encode := fun (kind : string) (data : list Z) => (data, None) : list Z * err in
  exists a anon m1 q1 m2,
    m_sq m1 = Some q1 /\ 3 <= sq_count q1 /\ st_bufs (m_store m1) !! a = Some (wire [104; 105]) /\
    read_chunk (wire [104; 105]) = Some ([104; 105], []) /\
    runs (kernel_takes 3) m1 (replicate 3 (mkSQE WriteFixed 0 0 11 0 a 7 0 0 anon)) m2 /\
    runs (send 1 (fun _ _ => 65536) Encode [11; 12; 13] [104; 105]) sample_mem None
      (entered_mem m1 q1 3 3 EnterGetEvents).
Proof.
  intros K Encode.
  apply (send_first_only (K := still_kernel 3 0) 0 (fun _ _ => 65536) Encode 11 [12; 13] [104; 105] [104; 105]
    sample_mem sample_sq).
  - reflexivity.
  - vm_compute. reflexivity.
  - intros. unfold is_uint. lia.
  - reflexivity.
  - split; [apply sample_sq_open|reflexivity].
  - vm_compute. reflexivity.
Defined.
