(* ===== verification/BulkMain.v ===== *)
(** * The program around send (examples/bulk-socket)

    The message as JSON, [main] with the goroutines it starts, and the check every
    client makes of the events it receives.  The package functions of encoding/json
    and fmt are modelled for what the program marshals; the HTTP router, the
    encoder of the events and the client that reads them are parameters. *)

From stdpp Require Import base list gmap strings relations.
From Stdlib Require Import ZArith Lia.
From S2P Require Import Prelude Prog Consts Types Machine Samples Submission SubmissionSpec Ops.
From S2P Require Import OpsSpec Files Ledger Setup SetupSpec Bulk.

(** ** The message *)

Record msg := mkMsg { msg_ID : Z; msg_Author : list Z; msg_Content : list Z }.

(** The composite literal of [main]. *)
Definition sample_msg : msg := mkMsg 112 (bytes_of "Sample User") (bytes_of "Sample message 123").

(** An [int] in decimal: at most nineteen digits. *)
Definition decimal (n : Z) : list Z :=
  if n <? 0 then 45 :: base_digits 10 19 (- n) [] else base_digits 10 19 n [].

(** A byte of a JSON string of ASCII characters: quotes and backslashes are escaped, line ends and
    tabs by name, the other control characters and the characters special in HTML
    by number. *)
Definition json_byte (c : Z) : list Z :=
  if (c =? 34) || (c =? 92) then [92; c]
  else if c =? 10 then [92; 110]
  else if c =? 13 then [92; 114]
  else if c =? 9 then [92; 116]
  else if (c <? 32) || (c =? 60) || (c =? 62) || (c =? 38) then
    [92; 117; 48; 48; digit_char (c / 16); digit_char (c mod 16)]
  else [c].
Definition json_string (s : list Z) : list Z := [34] ++ (s ≫= json_byte) ++ [34].

(** What comes before the value of a member. *)
Definition json_member (sep : Z) (name : string) : list Z :=
  sep :: json_string (bytes_of name) ++ [58].

(** [json.Marshal(msg)]. *)
Definition Marshal (m : msg) : list Z :=
  json_member 123 "ID" ++ decimal (msg_ID m) ++
  json_member 44 "Author" ++ json_string (msg_Author m) ++
  json_member 44 "Content" ++ json_string (msg_Content m) ++ [125].

Example Marshal_sample :
  Marshal sample_msg = [123; 34; 73; 68; 34; 58; 49; 49; 50; 44; 34; 65; 117; 116; 104; 111; 114; 34; 58; 34]
    ++ bytes_of "Sample User" ++ [34; 44; 34; 67; 111; 110; 116; 101; 110; 116; 34; 58; 34]
    ++ bytes_of "Sample message 123" ++ [34; 125].
Proof. vm_compute. reflexivity. Qed.

(** ** Reading JSON *)







(** ** Marshalling is read back *)




















(** ** The clients *)

(** [backOff.NextBackOff]: no further attempt. *)
Definition NextBackOff : Z := -1.

(** How a client ends the process: with an event that is not the message, or with
    the error of its subscription. *)
Inductive fatal :=
| BadEvent (expected got : list Z)
| SubscribeError (e : error).

(** The handler of the events: the comparison of the strings. *)
Definition on_event (message data : list Z) : option fatal :=
  if decide (message = data) then None else Some (BadEvent message data).

(** The first event that ends the process. *)
Fixpoint on_events (message : list Z) (events : list (list Z)) : option fatal :=
  match events with
  | [] => None
  | data :: events =>
      match on_event message data with Some f => Some f | None => on_events message events end
  end.

(** [spawnClient]: [Subscribe] is the client library, a function of the address
    and of the answer of the reconnect strategy; it hands the data of the events
    to the handler and returns an error. *)
Definition spawnClient (Subscribe : list Z -> Z -> list (list Z) * err) (message addr : list Z) : option fatal :=
  let '(events, e) := Subscribe addr NextBackOff in
  match on_events message events with
  | Some f => Some f
  | None => SubscribeError <$> e
  end.

(** ** main *)

Inductive goroutine := GSendMessage | GServe | GClient (addr : list Z).

(** [fmt.Sprintf("http://localhost:%d/listen", port)]. *)
Definition bulk_addr (port : Z) : list Z :=
  bytes_of "http://localhost:" ++ decimal port ++ bytes_of "/listen".

(** [Fd] of an [os.File]: all ones for a nil file. *)
Definition file_Fd (f : option Z) : Z := match f with Some fd => fd | None => 2 ^ 64 - 1 end.

(** The handler of the endpoint, given what [Hijack] and [File] return: a connection
    that is no TCP connection, or none, panics; the other errors are dropped.  The
    header of the response goes through the router. *)
Definition listen_handler (fds : list Z) (nc : option (option Z)) : string + list Z :=
  match nc with
  | None => inl "interface conversion"%string
  | Some sf => inr (add_fd fds (file_Fd sf))
  end.

Section Main.
Context {K : Kernel} (rd : Z -> Z) (rd_sqe : Z -> SubmitEntry_t) (rd_cqe : Z -> CompletionEntry).

(** [main] up to [select {}]: the message and the goroutines it has started.  The
    listener is given by the port of [net.Listen] or its error; the error of
    [New] is dropped. *)
Definition bulk_main (listen : Z + error) : prog Mem (list Z * list goroutine) :=
  let message := Marshal sample_msg in
  _ ← New rd rd_sqe rd_cqe 1024 (Some zeroParams) [];
  let started := [GSendMessage] in
  match listen with
  | inr _ => Panic "net.Listen"
  | inl port =>
      let addr := bulk_addr port in
      let started := started ++ [GServe] in
      Ret (message, started ++ replicate 10 (GClient addr))
  end.
End Main.

(** A connection whose file cannot be duplicated is sent to as descriptor -1. *)
Lemma listen_handler_no_file fds : listen_handler fds (Some None) = inr (fds ++ [-1]).
Proof. reflexivity. Qed.

(** ** The events that reach a client *)








(** ** Witness: events of two lines and an empty line *)

Definition sse_encode (kind : string) (data : list Z) : list Z * err :=
  (bytes_of "event:" ++ bytes_of kind ++ 10 :: bytes_of "data:" ++ data ++ [10; 10], None).






(** ** Without a ring *)

Section NoRing.
Context {K : Kernel} (fuel : nat).

Lemma run_sq_load_nil {A} (f : SubmitQueue -> A) n m :
  m_sq m = None -> run quiet (sq_load f) n m = Panicked nil_msg m.
Proof.
  intros Hq. unfold sq_load, try_load, try_act. cbv beta iota delta [mbind prog_mbind prog_bind act run quiet].
  by rewrite Hq.
Qed.

(** Both the claim of an entry and [Enter] dereference the queue of the ring. *)
Lemma bulk_send_nil a l fds m n :
  m_sq m = None -> 0 < sl_Len (mkSlice a l l) ->
  run quiet (bulk_send (S fuel) (mkSlice a l l) fds) n m = Panicked nil_msg m.
Proof.
  intros Hq Hl. unfold bulk_send, elem0. rewrite (proj2 (Z.ltb_lt _ _) Hl).
  rewrite run_bind. cbn [run]. rewrite run_bind. destruct fds as [|fd fds].
  - cbn [bulk_loop run]. unfold Ring_Enter, SubmitQueue_NeedWakeup. rewrite !run_bind.
    by rewrite run_sq_load_nil.
  - cbn [bulk_loop]. rewrite run_bind. unfold bulk_entry. rewrite run_bind.
    cbn [Ring_SubmitEntry]. rewrite run_bind.
    by rewrite run_sq_load_nil.
Qed.

Lemma sendMessage_nil alloc Encode rounds i fds message m :
  m_sq m = None -> (Encode "message"%string message).2 = None ->
  exists m', run quiet (sendMessage (S fuel) alloc Encode (S rounds) i fds message) 0 m = Panicked nil_msg m'.
Proof.
  intros Hq He. cbn [sendMessage]. rewrite run_bind. unfold send.
  destruct (Encode _ _) as [sdata e]. cbn in He. subst e.
  assert (exists a m', runs (new_bytes alloc (wire sdata)) m (mkSlice a (len (wire sdata)) (len (wire sdata))) m' /\
    m_sq m' = m_sq m) as (a & m' & Hnew & Hq') by (eexists _, _; split; [by apply runs_act|done]).
  destruct (Hnew 0%nat) as [n E]. exists m'. rewrite run_bind, E, run_bind, bulk_send_nil; [done|congruence|].
  cbn. unfold wire, len. rewrite !length_app. cbn. lia.
Qed.
End NoRing.

(** [main] drops the error of [New]: when io_uring_setup fails it starts all
    its goroutines all the same, and the first round of [sendMessage] ends the
    program with a nil pointer panic, with or without sockets.  An error of the
    listener does end [main]. *)
Theorem bulk_main_no_ring (K : Kernel) (fuel : nat) (rd : Z -> Z) (rd_sqe : Z -> SubmitEntry_t)
    (rd_cqe : Z -> CompletionEntry) (alloc : Store -> Z -> Z) (Encode : string -> list Z -> list Z * err)
    (port : Z) (m : Mem)
    (Hr : sys_errno (k_answer (m_hist m) (SysSetup 1024 zeroParams)) <> 0) (Hm : m_sq m = None)
    (Henc : (Encode "message"%string (Marshal sample_msg)).2 = None) :
  exists m1, runs (bulk_main rd rd_sqe rd_cqe (inl port)) m
      (Marshal sample_msg, GSendMessage :: GServe :: replicate 10 (GClient (bulk_addr port))) m1 /\
    (forall rounds i fds, exists m2,
       run quiet (sendMessage (S fuel) alloc Encode (S rounds) i fds (Marshal sample_msg)) 0 m1 =
         Panicked nil_msg m2) /\
    forall e, exists m2, run quiet (bulk_main rd rd_sqe rd_cqe (inr e)) 0 m = Panicked "net.Listen" m2.
Proof.
  pose proof (runs_New_fails rd rd_sqe rd_cqe 1024 zeroParams [] m Hr) as Hn.
  eexists. split_and!.
  - unfold bulk_main. eapply runs_bind; [exact Hn|]. apply runs_ret.
  - intros rounds i fds. by apply sendMessage_nil.
  - intros e. destruct (Hn 0%nat) as [n E]. unfold bulk_main. rewrite run_bind, E. by eexists.
Qed.

(** A process without a ring, and a kernel without io_uring. *)
Definition no_ring_mem : Mem := upd_ring (set_r_sq None) sample_mem.

Lemma bulk_main_no_ring_witness :
  let K := still_kernel 0 38 in
  exists m1, runs (bulk_main sample_rd (fun _ => zeroSQE) (fun _ => mkCQE 0 0 0) (inl 8080)) no_ring_mem
      (Marshal sample_msg, GSendMessage :: GServe ::
         replicate 10 (GClient (bytes_of "http://localhost:8080/listen"))) m1 /\
    (exists m2, run quiet (sendMessage 1 (fun _ _ => 65536) sse_encode 1 0 (fun _ => []) (Marshal sample_msg)) 0 m1 =
       Panicked nil_msg m2) /\
    exists m2, run quiet (bulk_main sample_rd (fun _ => zeroSQE) (fun _ => mkCQE 0 0 0) (inr (Errno 13))) 0
       no_ring_mem = Panicked "net.Listen" m2.
Proof.
  intros K. assert (He : sys_errno (mkSysRes 0 38) <> 0) by (vm_compute; discriminate).
  destruct (bulk_main_no_ring (still_kernel 0 38) 0 sample_rd (fun _ => zeroSQE) (fun _ => mkCQE 0 0 0)
              (fun _ _ => 65536) sse_encode 8080 no_ring_mem He eq_refl eq_refl) as (m1 & H1 & H2 & H3).
  exists m1. split; [exact H1|]. split; [exact (H2 0%nat 0%nat (fun _ => []))|exact (H3 (Errno 13))].
Defined.
