(* ===== verification/Bug9.v ===== *)
(** * The program of issue 9 (tests/bug-9.go)

    It writes four megabytes at an offset of a file, through a ring. *)

From stdpp Require Import base list gmap strings relations.
From Stdlib Require Import ZArith Lia.
From S2P Require Import Prelude Prog Consts Types Machine Samples Submission SubmissionSpec Ops.
From S2P Require Import OpsSpec Files Completer FileIO FileIOSpec Setup SetupSpec Rely CompleterRely RingFile Cp CpMain.

Section Bug9.
Context {K : Kernel} (alloc : Store -> Z -> Z) (fuel : nat).
Context (rd : Z -> Z) (rd_sqe : Z -> SubmitEntry_t) (rd_cqe : Z -> CompletionEntry).

(** [main] from [os.OpenFile] on. *)
Definition bug9_write : prog Mem err :=
  '(f, e) ← os_OpenFile "test" O_RDWR 493;
  match e with
  | Some e => Ret (Some e)
  | None =>
      '(rw, e) ← Ring_FileReadWriter fuel f;
      match e, rw with
      | Some e, _ => Ret (Some e)
      | None, None => Panic nil_msg
      | None, Some rw =>
          buf ← make_bytes alloc (4 * 1024 * 1024);
          '(_, e) ← rw_WriteAt rw buf 4096;
          Ret e
      end
  end.

Definition bug9_main : prog Mem err :=
  e ← New rd rd_sqe rd_cqe 1024 (Some iouring_params) [];
  match e with
  | Some e => Ret (Some e)
  | None => bug9_write
  end.
End Bug9.

Section Bug9Spec.
Context {K : Kernel} (lim : history -> nat) (HK : serves lim K).
Context (alloc : Store -> Z -> Z) (Halloc : forall st k, is_u64 (alloc st k)).
Context (tfd : Z) (content : list Z) (Htfd : 0 <= tfd < 2 ^ 31).
Context (Hopen : forall h st, k_file h (SysOpen "test" O_RDWR 493) st = (mkSysRes tfd 0, open_file tfd content st)).
Context (Hseek : forall h fd, k_answer h (SysSeek fd 0 0) = mkSysRes 0 0).

Lemma wp_bug9_write n keeps_up fuel T st cells idx m :
  at_rest n T st cells idx m -> idx < 2 ^ 62 -> r_fileReg (m_ring m) = None ->
  wp n keeps_up (bug9_write alloc (S fuel)) (fun v T' m' => v = None /\
    st_files (m_store m') !! tfd = Some (splice content 4096 (replicate (Z.to_nat 4194304) 0))) T m.
Proof.
  intros Hat Hidx Hreg. apply (wp_open_rw n keeps_up (S fuel) "test" O_RDWR 493 tfd content
    (fun rw => buf ← make_bytes alloc (4 * 1024 * 1024); '(_, e) ← rw_WriteAt rw buf 4096; Ret e) _ T st cells idx);
    [exact Hopen|done|done|done|done|].
  intros a1 m1 Hat1. change (4 * 1024 * 1024) with 4194304. set (zeros := replicate (Z.to_nat 4194304) 0) in *.
  eapply (wp_bytes_rest _ _ _ zeros (fun st => mkSlice (alloc st 4194304) 4194304 4194304));
    [apply blind_make_bytes|intros m'; by apply runs_act|exact Hat1|cbn beta; intros m2 Hat2].
  set (a := alloc _ _) in *. pose proof (Halloc _ _ : is_u64 a) as Ha.
  eapply (wp_bind _ _ _ _ (fun v T' m' => snd v = None /\
    st_files (m_store m') !! tfd = Some (splice content 4096 zeros))).
  2: { cbn beta. intros [? e] T' m' [Hv Hm']. cbn in Hv. by subst. }
  eapply (wp_fio_WriteAt lim HK n keeps_up fuel _ _ 4096 _ T _ _ idx 0 content zeros).
  - exact Hat2.
  - lia.
  - apply lookup_insert_eq.
  - lia.
  - lia.
  - cbn [sl_Len]. lia.
  - cbn. apply lookup_insert_eq.
  - cbn [sl_Data]. rewrite uwrap_id by done. apply lookup_insert_eq.
  - cbn [sl_Len fio_fd]. intros m' ([_ _ Hst' _ _] & _). split; [done|].
    rewrite Hst', take_ge by (unfold zeros; rewrite length_replicate; done). apply lookup_insert_eq.
Qed.
End Bug9Spec.

(** The program of issue 9: with a kernel that serves requests, a ring of [New]
    and a completer that keeps up, [main] ends without an error and the four
    megabytes of zeros are in the file from offset 4096 on, whatever the file held
    (a shorter file is padded, a longer one keeps its other bytes). *)
Theorem bug9_main_writes {K : Kernel} (lim : history -> nat) (alloc : Store -> Z -> Z)
    (rd : Z -> Z) (rd_sqe : Z -> SubmitEntry_t) (rd_cqe : Z -> CompletionEntry)
    (tfd : Z) (content : list Z) (fuel : nat) (p' : Params) (fd : Z) (m m1 : Mem) (r : SysRes)
    (HK : serves lim K) (Htfd : 0 <= tfd < 2 ^ 31)
    (Hopen : forall h st, k_file h (SysOpen "test" O_RDWR 493) st = (mkSysRes tfd 0, open_file tfd content st))
    (Hseek : forall h fd, k_answer h (SysSeek fd 0 0) = mkSysRes 0 0)
    (Halloc : forall st k, is_u64 (alloc st k))
    (Hset : setup_ok rd 1024 iouring_params p' fd m m1 r)
    (Hzero : zeroed rd rd_cqe p' (sys_r1 (mmap1 m1 fd p').2) (cq_addr m1 fd p'))
    (Hsq : 2 <= p_SqEntries p') (Hentries : 515 <= p_CqEntries p') :
  exists i, forall env, (forall i T m, rely (p_CqEntries p') true T m (env i m)) ->
    exists m' i', run (starts_at i env) (bug9_main alloc (S fuel) rd rd_sqe rd_cqe) 0 m = Done None m' i' /\
      st_files (m_store m') !! tfd = Some (splice content 4096 (replicate (Z.to_nat 4194304) 0)).
Proof.
  destruct (run_new_then rd rd_sqe rd_cqe 1024 iouring_params p' fd m m1 r (bug9_write alloc (S fuel))
    (fun v T m => v = None /\
      st_files (m_store m) !! tfd = Some (splice content 4096 (replicate (Z.to_nat 4194304) 0))) Hset) as [i Hi].
  - pose proof (new_at_rest rd rd_sqe rd_cqe 1024 _ p' fd m m1 r Hset Hzero Hsq Hentries).
    by eapply (wp_bug9_write lim HK).
  - exists i. intros env Henv. destruct (Hi env Henv) as (v & T & m' & i' & Hrun & -> & Hf). eauto.
Qed.

Lemma bug9_main_writes_witness :
  let K := cp_kernel in
  exists i m' i', run (starts_at i (fun _ => drain))
      (bug9_main (fun _ _ => 65536) 1 cp_rd (fun _ => zeroSQE) (fun _ => mkCQE 0 0 0)) 0 sample_mem = Done None m' i' /\
    st_files (m_store m') !! 8 = Some (splice [] 4096 (replicate (Z.to_nat 4194304) 0)).
Proof.
  intros K.
  destruct (bug9_main_writes (K := cp_kernel) cp_lim (fun _ _ => 65536) cp_rd (fun _ => zeroSQE)
    (fun _ => mkCQE 0 0 0) 8 [] 0 cp_params 5 sample_mem (cp_mem 1024) (mkSysRes 5 0) cp_serves) as [i Hi];
    [lia|done|done|by intros; unfold is_uint; lia|apply cp_setup|apply cp_zeroed|vm_compute; done..|].
  exists i. apply Hi. intros j T m. apply drain_rely.
Defined.
