(* ===== verification/Hello.v ===== *)
(** * Writing a greeting (examples/write)

    The program opens a file, writes through a ring file and closes.  Its last
    statement calls [Ring.Close] without the descriptor that it takes, so the
    program does not compile; the model ends before that statement. *)

From stdpp Require Import base list gmap strings relations.
From Stdlib Require Import ZArith Lia.
From S2P Require Import Prelude Prog Consts Types Machine Samples Submission SubmissionSpec Ops.
From S2P Require Import OpsSpec Files Completer FileIO FileIOSpec Setup SetupSpec Rely CompleterRely RingFile Cp CpMain.

Section Hello.
Context {K : Kernel} (alloc : Store -> Z -> Z) (fuel : nat).
Context (rd : Z -> Z) (rd_sqe : Z -> SubmitEntry_t) (rd_cqe : Z -> CompletionEntry).

Definition hello_flags : Z := Z.lor O_RDWR (Z.lor O_CREATE O_TRUNC).
Definition greeting : list Z := bytes_of "hello io_uring!".

(** [main] from [os.OpenFile] on. *)
Definition hello_write : prog Mem err :=
  '(f, e) ← os_OpenFile "hello.txt" hello_flags 493;
  match e with
  | Some e => Ret (Some e)
  | None =>
      '(rw, e) ← Ring_FileReadWriter fuel f;
      match e, rw with
      | Some e, _ => Ret (Some e)
      | None, None => Panic nil_msg
      | None, Some rw =>
          b ← new_bytes alloc greeting;
          '(_, e) ← rw_Write rw b;
          Ret e
      end
  end.

Definition hello_main : prog Mem err :=
  e ← New rd rd_sqe rd_cqe 1024 (Some iouring_params) [];
  match e with
  | Some e => Ret (Some e)
  | None => hello_write
  end.
End Hello.

Section HelloSpec.
Context {K : Kernel} (lim : history -> nat) (HK : serves lim K).
Context (alloc : Store -> Z -> Z) (Halloc : forall st k, is_u64 (alloc st k)).
Context (tfd : Z) (Htfd : 0 <= tfd < 2 ^ 31).
Context (Hopen : forall h st, k_file h (SysOpen "hello.txt" hello_flags 493) st = (mkSysRes tfd 0, open_file tfd [] st)).
Context (Hseek : forall h fd, k_answer h (SysSeek fd 0 0) = mkSysRes 0 0).

Lemma wp_hello_write n keeps_up fuel T st cells idx m :
  at_rest n T st cells idx m -> idx < 2 ^ 62 -> r_fileReg (m_ring m) = None ->
  wp n keeps_up (hello_write alloc (S fuel))
    (fun v T' m' => v = None /\ st_files (m_store m') !! tfd = Some greeting) T m.
Proof.
  intros Hat Hidx Hreg. apply (wp_open_rw n keeps_up (S fuel) "hello.txt" hello_flags 493 tfd []
    (fun rw => b ← new_bytes alloc greeting; '(_, e) ← rw_Write rw b; Ret e) _ T st cells idx);
    [exact Hopen|done|done|done|done|].
  intros a1 m1 Hat1.
  eapply (wp_bytes_rest _ _ _ greeting (fun st => mkSlice (alloc st (len greeting)) (len greeting) (len greeting)));
    [apply blind_new_bytes|intros m'; by apply runs_act|exact Hat1|cbn beta; intros m2 Hat2].
  set (a := alloc _ _) in *. pose proof (Halloc _ _ : is_u64 a) as Ha.
  eapply (wp_bind _ _ _ _ (fun v T' m' => snd v = None /\ st_files (m_store m') !! tfd = Some greeting)).
  2: { cbn beta. intros [? e] T' m' [Hv Hm']. cbn in Hv. by subst. }
  eapply (wp_fio_Write lim HK n keeps_up fuel _ _ _ T _ _ idx 0 [] greeting).
  - exact Hat2.
  - lia.
  - apply lookup_insert_eq.
  - lia.
  - by vm_compute.
  - cbn. apply lookup_insert_eq.
  - cbn [sl_Data]. rewrite uwrap_id by done. apply lookup_insert_eq.
  - cbn [sl_Len fio_fd]. intros m' ([_ _ Hst' _ _] & _). split; [done|]. rewrite Hst'. apply lookup_insert_eq.
Qed.
End HelloSpec.

(** The program writes the greeting: with a kernel that serves requests, a ring of
    [New] and a completer that keeps up, it reaches its last statement without an
    error and the file holds the greeting and nothing else. *)
Theorem hello_main_writes {K : Kernel} (lim : history -> nat) (alloc : Store -> Z -> Z)
    (rd : Z -> Z) (rd_sqe : Z -> SubmitEntry_t) (rd_cqe : Z -> CompletionEntry)
    (tfd : Z) (fuel : nat) (p' : Params) (fd : Z) (m m1 : Mem) (r : SysRes)
    (HK : serves lim K) (Htfd : 0 <= tfd < 2 ^ 31)
    (Hopen : forall h st, k_file h (SysOpen "hello.txt" hello_flags 493) st = (mkSysRes tfd 0, open_file tfd [] st))
    (Hseek : forall h fd, k_answer h (SysSeek fd 0 0) = mkSysRes 0 0)
    (Halloc : forall st k, is_u64 (alloc st k))
    (Hset : setup_ok rd 1024 iouring_params p' fd m m1 r)
    (Hzero : zeroed rd rd_cqe p' (sys_r1 (mmap1 m1 fd p').2) (cq_addr m1 fd p'))
    (Hsq : 2 <= p_SqEntries p') (Hentries : 515 <= p_CqEntries p') :
  exists i, forall env, (forall i T m, rely (p_CqEntries p') true T m (env i m)) ->
    exists m' i', run (starts_at i env) (hello_main alloc (S fuel) rd rd_sqe rd_cqe) 0 m = Done None m' i' /\
      st_files (m_store m') !! tfd = Some greeting.
Proof.
  destruct (run_new_then rd rd_sqe rd_cqe 1024 iouring_params p' fd m m1 r (hello_write alloc (S fuel))
    (fun v T m => v = None /\ st_files (m_store m) !! tfd = Some greeting) Hset) as [i Hi].
  - pose proof (new_at_rest rd rd_sqe rd_cqe 1024 _ p' fd m m1 r Hset Hzero Hsq Hentries).
    by eapply (wp_hello_write lim HK).
  - exists i. intros env Henv. destruct (Hi env Henv) as (v & T & m' & i' & Hrun & -> & Hf). eauto.
Qed.

Lemma hello_main_writes_witness :
  let K := cp_kernel in
  exists i m' i', run (starts_at i (fun _ => drain))
      (hello_main (fun _ _ => 65536) 1 cp_rd (fun _ => zeroSQE) (fun _ => mkCQE 0 0 0)) 0 sample_mem = Done None m' i' /\
    st_files (m_store m') !! 8 = Some greeting.
Proof.
  intros K.
  destruct (hello_main_writes (K := cp_kernel) cp_lim (fun _ _ => 65536) cp_rd (fun _ => zeroSQE)
    (fun _ => mkCQE 0 0 0) 8 0 cp_params 5 sample_mem (cp_mem 1024) (mkSysRes 5 0) cp_serves) as [i Hi];
    [lia|done|done|by intros; unfold is_uint; lia|apply cp_setup|apply cp_zeroed|vm_compute; done..|].
  exists i. apply Hi. intros j T m. apply drain_rely.
Defined.
