(* ===== verification/Conn.v ===== *)
(** * Network connections (ring_conn.go)

    [ringConn], a connection whose reads and writes go through the ring; its
    record is in Machine.v. *)

From stdpp Require Import base list gmap strings.
From Stdlib Require Import ZArith Lia Ascii String.
From S2P Require Import Prelude Prog Consts Types Machine Submission Ops Completion FileIO.
Open Scope Z_scope.

(** ** ringConn *)

(** The capacity of [stop], made by [onListen]. *)
Definition stopCap : Z := 2.

(** [c.stop <- struct{}{}]. *)
Fixpoint stop_send (fuel : nat) (c : ringConn) : prog Mem unit :=
  match fuel with
  | O => Starve
  | S fuel =>
      sent ← try_act nil_msg (fun m => n ← m_cells m !! rc_stop c;
        if n <? stopCap then Some (true, set_m_cells (<[rc_stop c := n + 1]> (m_cells m)) m)
        else Some (false, m));
      if (sent : bool) then Ret tt else stop_send fuel c
  end.

(** [<-c.stop]. *)
Fixpoint stop_recv (fuel : nat) (c : ringConn) : prog Mem unit :=
  match fuel with
  | O => Starve
  | S fuel =>
      got ← try_act nil_msg (fun m => n ← m_cells m !! rc_stop c;
        if 0 <? n then Some (true, set_m_cells (<[rc_stop c := n - 1]> (m_cells m)) m)
        else Some (false, m));
      if (got : bool) then Ret tt else stop_recv fuel c
  end.

Definition ETIMEDOUT : error := Errno 110.

(** A context: whether [ctx.Done()] is ready.  [context.Background()] never is. *)
Definition Context_t : Type := prog Mem bool.
Definition Background : Context_t := Ret false.

Section Conn.
Context `{K : Kernel} (fuel : nat).
Implicit Types (c : ringConn).

(** The loop of [ringConn.getCqe]: an error other than [ErrEntryNotFound] tries
    again. *)
Fixpoint conn_find (tries : nat) (ctx : Context_t) (reqID : Z) : prog Mem (Z * err) :=
  match tries with
  | O => Starve
  | S tries =>
      cancelled ← ctx;
      if (cancelled : bool) then Ret (0, Some ETIMEDOUT)
      else
        '(cqe, e) ← EntryBy reqID;
        match e with
        | Some e =>
            if bool_decide (e <> ErrEntryNotFound) then conn_find tries ctx reqID
            else Ret (0, Some e)
        | None =>
            match cqe with
            | None => Panic nil_msg
            | Some i =>
                x ← cq_entry i;
                let res := cqe_Res x in
                if res <? 0 then Ret (0, Some (Errno (u64 (- res)))) else Ret (res, None)
            end
        end
  end.

(** [ringConn.getCqe]. *)
Definition conn_getCqe c (ctx : Context_t) (reqID : Z) : prog Mem (Z * err) :=
  '(_, e) ← Ring_Enter fuel 1024 1 EnterGetEvents;
  match e with
  | Some e => Ret (0, Some e)
  | None => stop_send fuel c;; conn_find fuel ctx reqID
  end.

(** A claimed entry: a nil entry would be dereferenced. *)
Definition with_entry {A} (f : Z -> prog Mem unit -> prog Mem A) : prog Mem A :=
  '(sqe, commit) ← Ring_SubmitEntry fuel;
  match sqe with
  | None => Panic nil_msg
  | Some i => f i commit
  end.

(** [ringConn.rePoll]. *)
Definition conn_rePoll c : prog Mem unit :=
  id ← Ring_ID;
  with_entry (fun sqe commit =>
    sqe .=(set_sqe_Opcode) PollAdd;;
    sqe .=(set_sqe_Fd) (i32 (rc_fd c));;
    sqe .=(set_sqe_UFlags) (i32 POLLIN);;
    sqe .=(set_sqe_UserData) id;;
    commit);;
  _ ← Ring_Enter fuel 1024 1 EnterGetEvents;
  Ret tt.

(** [ringConn.run]: the select has one case, so it is the receive. *)
Definition conn_run c : prog Mem unit :=
  stop_recv fuel c;;
  id ← Ring_ID;
  with_entry (fun sqe commit =>
    sqe .=(set_sqe_Opcode) PollRemove;;
    sqe .=(set_sqe_Fd) (i32 (rc_fd c));;
    sqe .=(set_sqe_UserData) id;;
    commit);;
  _ ← conn_getCqe c Background id;
  Ret tt.

(** [ringConn.Read]. *)
Definition conn_Read c (b : slice) : prog Mem (Z * err) :=
  conn_rePoll c;;
  '(sqe, commit) ← Ring_SubmitEntry fuel;
  match sqe with
  | None => Ret (0, Some (ErrMsg "ring unavailable"))
  | Some i =>
      i .=(set_sqe_Opcode) ReadFixed;;
      i .=(set_sqe_Fd) (i32 (rc_fd c));;
      i .=(set_sqe_Len) (u32 (sl_Len b));;
      i .=(set_sqe_Flags) 0;;
      a ← elem0 b; i .=(set_sqe_Addr) (u64 a);;
      reqID ← Ring_ID; i .=(set_sqe_UserData) reqID;;
      commit;;
      conn_getCqe c Background reqID
  end.

(** [ringConn.Write]. *)
Definition conn_Write c (b : slice) : prog Mem (Z * err) :=
  '(sqe, commit) ← Ring_SubmitEntry fuel;
  match sqe with
  | None => Ret (0, Some (ErrMsg "ring unavailable"))
  | Some i =>
      i .=(set_sqe_Opcode) WriteFixed;;
      i .=(set_sqe_Fd) (i32 (rc_fd c));;
      i .=(set_sqe_Len) (u32 (sl_Len b));;
      a ← elem0 b; i .=(set_sqe_Addr) (u64 a);;
      reqID ← Ring_ID; i .=(set_sqe_UserData) reqID;;
      commit;;
      conn_getCqe c Background reqID
  end.

(** [ringConn.Close]. *)
Definition conn_Close c : prog Mem err :=
  stop_send fuel c;;
  r ← syscall (SysClose (u64 (rc_fd c)));
  Ret (if sys_errno r =? 0 then None else Some (Errno (sys_errno r))).

(** [ringConn.LocalAddr], [RemoteAddr]. *)
Definition conn_LocalAddr c : addr := rc_laddr c.
Definition conn_RemoteAddr c : addr := rc_raddr c.

(** The deadlines are stored, and nothing reads them. *)
Definition conn_SetDeadline c (t : Z) : prog Mem err := cell_store (rc_deadline c) t;; Ret None.
Definition conn_SetReadDeadline c (t : Z) : prog Mem err :=
  cell_store (rc_readDeadline c) t;; Ret None.
Definition conn_SetWriteDeadline c (t : Z) : prog Mem err :=
  cell_store (rc_writeDeadline c) t;; Ret None.
End Conn.
