(* ===== verification/ConnSpec.v ===== *)
(** * Correctness of connections

    What a connection's wait for its completion returns, and when it blocks. *)

From stdpp Require Import base list gmap strings.
From Stdlib Require Import ZArith Lia.
From S2P Require Import Prelude Prog Consts Types Machine Samples Submission SubmissionSpec.
From S2P Require Import Ops OpsSpec Completion CompletionSpec SearchSpec FileIO Conn.
Open Scope Z_scope.

(** ** Reads and writes of a connection *)

(** The entry of a write, and of a read, on top of a reset one. *)
Definition conn_fill (op : Opcode) (c : ringConn) (b : slice) (id : Z) (e : SubmitEntry_t) : SubmitEntry_t :=
  set_sqe_UserData id (set_sqe_Addr (u64 (sl_Data b)) (set_sqe_Len (u32 (sl_Len b))
    (set_sqe_Fd (i32 (rc_fd c)) (set_sqe_Opcode op e)))).

(** The memory after the entry is published. *)
Definition conn_submitted (op : Opcode) (c : ringConn) (b : slice) (m : Mem) (q : SubmitQueue) : Mem :=
  bump (add_claim (sq_tail_pos q) (put_sq (sq_submit (conn_fill op c b (next_id m)) q) m)).

(** What the caller gets for a completion. *)
Definition conn_result (res : Z) : Z * err :=
  if res <? 0 then (0, Some (Errno (u64 (- res)))) else (res, None).

Section Connection.
Context `{K : Kernel} (fuel : nat).
Implicit Types (m : Mem) (q : SubmitQueue) (cq : CompletionQueue) (c : ringConn).

(** An entry that is claimed, filled in and published is submitted. *)
Lemma runs_with_entry (f : Z -> prog Mem unit -> prog Mem unit) g m q :
  m_sq m = Some q -> sq_open q ->
  (forall i commit m m', claimed i m -> runs commit (put_entry i g m) tt m' ->
     runs (f i commit) m tt m') ->
  runs (with_entry (S fuel) f) m tt (add_claim (sq_tail_pos q) (put_sq (sq_submit g q) m)).
Proof.
  intros Hm Ho Hf. pose proof (sqo_wf q Ho) as Hwf. destruct Ho as [_ He Hw].
  pose proof (sq_tail_pos_range q Hwf) as Hpos.
  destruct (slice_get_in (sq_Entries q) (sq_tail_pos q)) as [e Hget]; [done|].
  set (m1 := add_claim (sq_tail_pos q) (put_sq (sq_claim q) m)).
  set (q2 := set_sq_Entries (alter g (Z.to_nat (sq_tail_pos q)) (sq_Entries (sq_claim q))) (sq_claim q)).
  unfold with_entry. eapply runs_bind; [by apply runs_SubmitEntry|]. cbn beta iota. fold m1.
  apply Hf; [eexists _, _; split; [done|by apply slice_get_alter_eq]|].
  change (put_entry (sq_tail_pos q) g m1) with (put_sq q2 m1).
  eapply runs_eq; [apply (runs_ready _ q2); [done| |cbn; by autorewrite with slices|]|done|].
  - apply (sq_wf_update q); cbn; autorewrite with slices; auto with slices.
  - cbn. rewrite uwrap_id by (unfold is_uint; lia). lia.
  - unfold m1, q2. destruct m as [[] ? ? ? ? ? ? ? ?], q. unfold add_claim, put_sq, sq_submit, sq_publish.
    cbn in *. rewrite (uwrap_id 32 (_ + 1)) by (unfold is_uint; lia).
    by rewrite Z.add_simpl_r, uwrap_id by (unfold is_uint; lia).
Qed.

Lemma runs_claim_commit g m q :
  m_sq m = Some q -> sq_open q ->
  exists commit m1, runs (Ring_SubmitEntry (S fuel)) m (Some (sq_tail_pos q), commit) m1 /\
    claimed (sq_tail_pos q) m1 /\ next_id m1 = next_id m /\
    runs commit (put_entry (sq_tail_pos q) g (bump m1)) tt
      (bump (add_claim (sq_tail_pos q) (put_sq (sq_submit g q) m))).
Proof.
  intros Hm Ho. pose proof (sqo_wf q Ho) as Hwf. destruct Ho as [_ He Hw].
  pose proof (sq_tail_pos_range q Hwf) as Hpos.
  destruct (slice_get_in (sq_Entries q) (sq_tail_pos q)) as [e Hget]; [done|].
  set (m1 := add_claim (sq_tail_pos q) (put_sq (sq_claim q) m)).
  set (q2 := set_sq_Entries (alter g (Z.to_nat (sq_tail_pos q)) (sq_Entries (sq_claim q))) (sq_claim q)).
  eexists _, m1. split_and!; [by apply runs_SubmitEntry| |done|].
  { eexists _, _. split; [done|by apply slice_get_alter_eq]. }
  change (put_entry (sq_tail_pos q) g (bump m1)) with (put_sq q2 (bump m1)).
  eapply runs_eq; [apply (runs_ready _ q2); [done| |cbn; by autorewrite with slices|]|done|].
  - apply (sq_wf_update q); cbn; autorewrite with slices; auto with slices.
  - cbn. rewrite uwrap_id by (unfold is_uint; lia). lia.
  - unfold m1, q2. destruct m as [[] ? ? ? ? ? ? ? ?], q. unfold bump, add_claim, put_sq, sq_submit, sq_publish.
    cbn in *. rewrite (uwrap_id 32 (_ + 1)) by (unfold is_uint; lia).
    by rewrite Z.add_simpl_r, uwrap_id by (unfold is_uint; lia).
Qed.

Lemma runs_ID m : runs Ring_ID m (next_id m) (bump m).
Proof. by apply runs_act. Qed.

(** A write up to the wait for its completion. *)
Lemma runs_conn_Write c b m q r m' :
  m_sq m = Some q -> sq_open q -> 0 < sl_Len b ->
  runs (conn_getCqe (S fuel) c Background (next_id m)) (conn_submitted WriteFixed c b m q) r m' ->
  runs (conn_Write (S fuel) c b) m r m'.
Proof.
  intros Hm Ho Hb Hget.
  destruct (runs_claim_commit (conn_fill WriteFixed c b (next_id m)) m q Hm Ho)
    as (commit & m1 & Hs & Hcl & Hid & Hc).
  unfold conn_Write. eapply runs_bind; [exact Hs|]. cbn beta iota.
  do 3 (eapply runs_bind; [by apply runs_update; repeat apply claimed_put_entry|]).
  unfold elem0. rewrite (proj2 (Z.ltb_lt _ _) Hb). eapply runs_bind; [apply runs_ret|].
  eapply runs_bind; [by apply runs_update; repeat apply claimed_put_entry|].
  eapply runs_bind; [apply runs_ID|].
  rewrite !put_entry_put_entry, next_id_put_entry, bump_put_entry, Hid.
  eapply runs_bind; [by apply runs_update, claimed_put_entry, claimed_bump|].
  rewrite put_entry_put_entry. eapply runs_bind; [exact Hc|exact Hget].
Qed.

(** The wait, after the call to io_uring_enter. *)
Lemma runs_conn_getCqe c ctx id m q cq n :
  m_sq m = Some q -> sq_entered q = 0 ->
  sys_errno (k_answer (m_hist m) (enter_call m q 1024 1 EnterGetEvents)) = 0 ->
  m_cq (entered_mem m q 1024 1 EnterGetEvents) = Some cq -> cq_wf cq ->
  m_cells m !! rc_stop c = Some n -> n < stopCap -> (forall m', runs ctx m' false m') ->
  exists m', m_cells m' = <[rc_stop c := n + 1]> (m_cells m) /\
    match EntryBy_ref id cq with
    | Some (_, i) => forall e, slice_get (cq_Entries cq) i = Some e ->
        runs (conn_getCqe (S fuel) c ctx id) m (conn_result (cqe_Res e)) m'
    | None => runs (conn_getCqe (S fuel) c ctx id) m (0, Some ErrEntryNotFound) m'
    end.
Proof.
  intros Hm He Ha Hcq Hwf Hn Hlt Hctx.
  set (m1 := entered_mem m q 1024 1 EnterGetEvents) in *.
  set (m2 := set_m_cells (<[rc_stop c := n + 1]> (m_cells m1)) m1).
  assert (forall r m', runs (conn_find (S fuel) ctx id) m2 r m' ->
    runs (conn_getCqe (S fuel) c ctx id) m r m') as Hpre.
  { intros r m' H. eapply runs_bind; [by apply runs_Ring_Enter|]. unfold enter_result. rewrite Ha.
    cbn [Z.eqb]. cbn beta iota. fold m1. eapply runs_bind; [|exact H].
    cbn [stop_send]. eapply runs_bind; [apply runs_try_act|].
    - change (m_cells m1) with (m_cells m). rewrite Hn. cbn. by rewrite (proj2 (Z.ltb_lt _ _) Hlt).
    - apply runs_ret. }
  pose proof (runs_EntryBy id m2 cq Hcq Hwf) as Hby. cbn zeta in Hby.
  destruct (EntryBy_ref id cq) as [[start i]|] eqn:E; cbn [snd fmap option_fmap option_map] in Hby.
  - exists (put_cq (matched cq start i) m2). split; [done|]. intros e Hi. apply Hpre.
    eapply runs_bind; [apply Hctx|]. cbn beta iota. eapply runs_bind; [exact Hby|]. cbn beta iota.
    eapply runs_bind; [eapply runs_cq_entry; [done|by apply slice_get_alter_eq]|].
    cbn zeta. unfold conn_result. change (cqe_Res (set_cqe_Flags ?x e)) with (cqe_Res e).
    destruct (cqe_Res e <? 0); apply runs_ret.
  - exists m2. split; [done|]. apply Hpre.
    eapply runs_bind; [apply Hctx|]. cbn beta iota. eapply runs_bind; [exact Hby|]. cbn beta iota.
    rewrite bool_decide_false by naive_solver. apply runs_ret.
Qed.

(** Nobody receives: the send on a full channel does not return. *)
Lemma stop_send_full c env k m :
  (forall n m, m_cells m !! rc_stop c = Some stopCap -> m_cells (env n m) !! rc_stop c = Some stopCap) ->
  m_cells m !! rc_stop c = Some stopCap ->
  forall n, exists m', run env (stop_send k c) n m = Starved m'.
Proof.
  intros Henv. revert m. induction k as [|k IH]; intros m Hm n; [by exists m|].
  cbn [stop_send]. rewrite run_bind, run_try_act, (Henv n m Hm). cbn. by apply IH, Henv.
Qed.
End Connection.

(** [ringConn.Write] on a quiet ring submits one entry with the descriptor, the
    buffer and a fresh identifier, and enters the kernel once.  If the
    completion is pending then, the call returns its result, a negative one as
    the error number; if no completion of the identifier is there, it gives up
    at once with [ErrEntryNotFound].  Either way it leaves one more message in
    the stop channel. *)
Theorem conn_Write_result (K : Kernel) (fuel : nat) (c : ringConn) (b : slice) (m : Mem)
    (q : SubmitQueue) (cq : CompletionQueue) (n : Z)
    (Hm : m_sq m = Some q) (Ho : sq_open q) (Hb : 0 < sl_Len b)
    (Hn : m_cells m !! rc_stop c = Some n) (Hlt : n < stopCap) :
  let id := next_id m in
  let m1 := conn_submitted WriteFixed c b m q in
  let q1 := sq_submit (conn_fill WriteFixed c b id) q in
  sys_errno (k_answer (m_hist m) (enter_call m1 q1 1024 1 EnterGetEvents)) = 0 ->
  m_cq (entered_mem m1 q1 1024 1 EnterGetEvents) = Some cq -> cq_wf cq -> cq_room cq ->
  exists m', m_cells m' = <[rc_stop c := n + 1]> (m_cells m) /\
    (forall e, e ∈ pending cq -> cqe_UserData e = id ->
      (forall e', e' ∈ cq_Entries cq -> cqe_UserData e' = id -> cqe_Res e' = cqe_Res e) ->
      runs (conn_Write (S fuel) c b) m (conn_result (cqe_Res e)) m') /\
    ((forall e, e ∈ cq_Entries cq -> cqe_UserData e <> id) ->
      runs (conn_Write (S fuel) c b) m (0, Some ErrEntryNotFound) m').
Proof.
  intros id m1 q1 Ha Hcq Hwf Hroom.
  destruct (runs_conn_getCqe fuel c Background id m1 q1 cq n) as (m' & Hc & Hrun);
    [done|by apply (sq_submit_open q)|done|done|done|done|done|by intros; apply runs_ret|].
  exists m'. split_and!; [done|..].
  - intros e He Hid Hres. apply (runs_conn_Write fuel c b m q); [done..|]. fold m1 id.
    destruct (EntryBy_ref_pending id cq e Hwf Hroom He Hid) as [[start i] E]. rewrite E in Hrun.
    apply EntryBy_ref_Some in E as (_ & _ & e' & Hi & Hid'); [|done].
    rewrite <- (Hres e'); [by apply Hrun| |done].
    apply slice_get_Some in Hi as [_ Hi]. by eapply list_elem_of_lookup_2.
  - intros Hno. apply (runs_conn_Write fuel c b m q); [done..|]. fold m1 id.
    destruct (EntryBy_ref id cq) as [[start i]|] eqn:E; [|done]. exfalso.
    apply EntryBy_ref_Some in E as (_ & _ & e' & Hi & Hid'); [|done].
    apply slice_get_Some in Hi as [_ Hi]. apply (Hno e'); [by eapply list_elem_of_lookup_2|done].
Qed.

Definition sample_addr : addr := mkAddr "tcp" "localhost:80".
Definition sample_conn : ringConn := mkConn 6 sample_addr sample_addr 1 2 3 4.
Definition sample_slice : slice := mkSlice 4096 10 10.

(** A kernel that posts the completion of the first request. *)
Definition answering_kernel : Kernel := {|
  k_answer := fun _ _ => mkSysRes 1 0;
  k_params := fun _ _ p => p;
  k_file := fun _ _ st => (mkSysRes 0 0, st);
  k_enter := fun _ _ _ _ st => mkView 1 0 0 1 0 0 [(0, mkCQE 1 (-11) 0)] st
|}.

Lemma conn_Write_result_witness :
  let K := answering_kernel in
  let m := set_m_cells {[1%nat := 0]} sample_mem in
  exists m', m_cells m' = {[1%nat := 1]} /\
    runs (conn_Write 1 sample_conn sample_slice) m (0, Some (Errno 11)) m'.
Proof.
  intros K m.
  destruct (conn_Write_result K 0 sample_conn sample_slice m sample_sq
    (set_cq_Tail 1 (set_cq_Entries (mkCQE 1 (-11) 0 :: replicate 7 (mkCQE 0 0 0)) sample_cq)) 0)
    as (m' & Hc & H & _).
  - done.
  - apply sample_sq_open.
  - done.
  - done.
  - done.
  - done.
  - reflexivity.
  - split; try done. exists 3. split; [lia|done].
  - vm_compute. done.
  - exists m'. split; [by rewrite Hc|]. apply (H (mkCQE 1 (-11) 0)).
    + apply list_elem_of_here.
    + done.
    + intros e' He'. cbn in He'. set_solver.
Defined.

(** A connection's third message has nowhere to go: with the stop channel full,
    which two reads or writes bring about, every further wait for a completion
    blocks after it entered the kernel, whether or not its completion is there.
    However long it runs without a receiver it does not return. *)
Theorem conn_getCqe_blocks (K : Kernel) (c : ringConn) (ctx : Context_t) (id : Z) (m : Mem)
    (q : SubmitQueue)
    (Hm : m_sq m = Some q) (He : sq_entered q = 0)
    (Ha : sys_errno (k_answer (m_hist m) (enter_call m q 1024 1 EnterGetEvents)) = 0)
    (Hfull : m_cells m !! rc_stop c = Some stopCap) :
  forall fuel, exists m', exec (conn_getCqe (S fuel) c ctx id) m = Starved m'.
Proof.
  intros fuel. destruct (runs_Ring_Enter fuel 1024 1 EnterGetEvents m q Hm He 0%nat) as [n1 E].
  unfold exec, conn_getCqe. rewrite run_bind, E. unfold enter_result. rewrite Ha. cbn [Z.eqb]. cbn beta iota.
  destruct (stop_send_full c quiet (S fuel) (entered_mem m q 1024 1 EnterGetEvents)
    ltac:(by intros) Hfull n1) as [m' E']. exists m'. by rewrite run_bind, E'.
Qed.

Lemma conn_getCqe_blocks_witness :
  let K := answering_kernel in
  let m := set_m_cells {[1%nat := 2]} sample_mem in
  exists m', exec (conn_getCqe 1000 sample_conn Background 1) m = Starved m'.
Proof. intros K m. by apply (conn_getCqe_blocks K sample_conn Background 1 m sample_sq). Defined.
