(* ===== verification/ConnPool.v ===== *)
(** * A connection among goroutines

    Any number of goroutines read and write on one connection while its own
    goroutine runs and everybody else changes the rest of the memory.  Every call
    puts a message into the channel [stop], which has room for two, and only one
    is ever taken out: so at most three calls succeed in the life of a
    connection, in whatever order the goroutines are scheduled. *)

From stdpp Require Import base list gmap strings relations.
From Stdlib Require Import ZArith Lia.
From S2P Require Import Prelude Prog Consts Types Machine Samples Submission Ops Completion.
From S2P Require Import FileIO Ledger Conn ConnSpec.
Open Scope Z_scope.

(** ** The pool *)

(** Calls on the connection, its goroutine, and the memory. *)
Record cpool := mkPool {
  cp_calls : list (prog Mem (Z * err)); cp_run : prog Mem unit; cp_mem : Mem
}.

(** The messages in the channel. *)
Definition stops (c : ringConn) (m : Mem) : Z := default 0 (m_cells m !! rc_stop c).

(** A call or the goroutine of the connection moves, or the rest of the program
    and the kernel do anything that leaves the channel alone. *)
Inductive cpstep (c : ringConn) : cpool -> cpool -> Prop :=
| cpstep_call i ps run X f k x m m' :
    ps !! i = Some (Step X f k) -> f m = (x, m') ->
    cpstep c (mkPool ps run m) (mkPool (<[i := k x]> ps) run m')
| cpstep_run ps X f k x m m' :
    f m = (x, m') -> cpstep c (mkPool ps (Step X f k) m) (mkPool ps (k x) m')
| cpstep_other ps run m m' :
    stops c m' = stops c m -> cpstep c (mkPool ps run m) (mkPool ps run m').

(** A call of the connection. *)
Definition conn_call {K : Kernel} (fuel : nat) (c : ringConn) (p : prog Mem (Z * err)) : Prop :=
  exists b, p = conn_Read fuel c b \/ p = conn_Write fuel c b.

(** The call returned without an error. *)
Definition succeeded (p : prog Mem (Z * err)) : bool :=
  match p with Ret (_, None) => true | _ => false end.

(** ** The ledgers *)

#[global] Instance stops_aside c : Aside (stops c).
Proof. split; intros; by destruct m as [[]]. Qed.
#[global] Instance stops_aside_reqs c : AsideReqs (stops c).
Proof. by intros r []. Qed.

Definition at_most_cap (n : Z) : Prop := n <= stopCap.
(** A call has put in a message or not; the goroutine has taken out at most one. *)
Definition puts_in (t : Z) : Prop := 0 <= t.
Definition takes_one (t : Z) : Prop := -1 <= t.
(** A call that succeeds has put in its message. *)
Definition call_done (r : Z * err) (t : Z) : Prop := snd r = None -> 1 <= t.

(** A claimed entry is filled in by a program that keeps the measure. *)
Lemma kept_with_entry {T} (mu : Mem -> T) `{!Aside mu} fuel (f : Z -> prog Mem unit -> prog Mem unit) :
  (forall i commit, keeps mu commit (fun _ => True) -> keeps mu (f i commit) (fun _ => True)) ->
  keeps mu (with_entry fuel f) (fun _ => True).
Proof.
  intros Hf. unfold with_entry. eapply keeps_bind; [apply keeps_SubmitEntry, _|].
  intros [[i|] commit] Hc; [by apply Hf|done].
Qed.

Section Ledgers.
Context {K : Kernel} (fuel : nat) (c : ringConn).

Abbreviation kept p := (keeps (stops c) p (fun _ => True)).

Lemma tracks_stop_send V t k :
  V t -> V (t + 1) ->
  tracks (stops c) at_most_cap V t (stop_send k c) (fun _ t' => t' = t + 1).
Proof.
  intros Hv Hv'. induction k as [|k IH]; [by split|]. cbn [stop_send]. split; [done|].
  intros m Hm. unfold stops in *.
  destruct (m_cells m !! rc_stop c) as [n|] eqn:E; cbn; [|rewrite E; split; [done|split; [|done]]].
  - destruct (Z.ltb_spec n stopCap); cbn; rewrite ?lookup_insert_eq; cbn in *.
    + split; [unfold at_most_cap; lia|]. replace (t + (n + 1 - n)) with (t + 1) by lia. by split.
    + rewrite E. cbn. split; [done|]. by rewrite Z.sub_diag, Z.add_0_r.
  - by rewrite Z.sub_diag, Z.add_0_r.
Qed.

Lemma tracks_stop_recv V t k :
  V t -> V (t - 1) ->
  tracks (stops c) at_most_cap V t (stop_recv k c) (fun _ t' => t' = t - 1).
Proof.
  intros Hv Hv'. induction k as [|k IH]; [by split|]. cbn [stop_recv]. split; [done|].
  intros m Hm. unfold stops in *.
  destruct (m_cells m !! rc_stop c) as [n|] eqn:E; cbn; [|rewrite E; split; [done|split; [|done]]].
  - destruct (Z.ltb_spec 0 n); cbn; rewrite ?lookup_insert_eq; cbn in *.
    + split; [unfold at_most_cap in *; lia|]. replace (t + (n - 1 - n)) with (t - 1) by lia. by split.
    + rewrite E. cbn. split; [done|]. by rewrite Z.sub_diag, Z.add_0_r.
  - by rewrite Z.sub_diag, Z.add_0_r.
Qed.

Lemma kept_conn_find tries id : kept (conn_find tries Background id).
Proof. induction tries; cbn [conn_find Background]; kept_steps. Qed.

(** The wait sends once if it gets past the kernel. *)
Lemma tracks_getCqe (V : Z -> Prop) t id :
  V t -> V (t + 1) ->
  tracks (stops c) at_most_cap V t (conn_getCqe fuel c Background id)
    (fun r t' => (snd r <> None /\ t' = t) \/ t' = t + 1).
Proof.
  intros Hv Hv'. unfold conn_getCqe.
  eapply tracks_keeps_bind; [done|apply kept_Ring_Enter, _|intros [n [e|]] _].
  { apply tracks_ret; [done|by left]. }
  eapply tracks_bind; [by apply tracks_stop_send|]. intros _ ? Hv1 ->.
  eapply tracks_mono; [apply (keeps_tracks _ _ _ _ _ (fun _ => True) Hv1), kept_conn_find|].
  intros r t' [-> _]. by right.
Qed.

(** A claimed entry is filled in and published without touching the channel. *)
Lemma tracks_SubmitEntry {A} V t (k : option Z * prog Mem unit -> prog Mem A) Q :
  V t -> (forall sqe commit, kept commit -> tracks (stops c) at_most_cap V t (k (sqe, commit)) Q) ->
  tracks (stops c) at_most_cap V t (Ring_SubmitEntry fuel ≫= k) Q.
Proof.
  intros Hv Hk. eapply tracks_keeps_bind; [done|apply keeps_SubmitEntry, _|].
  intros [sqe commit] Hc. by apply Hk.
Qed.

Lemma kept_elem0 b : kept (elem0 b).
Proof. unfold elem0. by destruct (_ <? _). Qed.
Hint Resolve kept_elem0 kept_ID kept_sq_update_entry : kept.

Lemma kept_rePoll : kept (conn_rePoll fuel c).
Proof.
  unfold conn_rePoll. apply kept_bind; [eauto with kept|intros id].
  apply kept_bind; [apply (kept_with_entry _); intros; kept_steps|intros _]. kept_steps.
Qed.

(** The entry of a call, then the wait. *)
Lemma tracks_after_fill (V : Z -> Prop) t (commit : prog Mem unit) id :
  V t -> V (t + 1) -> kept commit ->
  tracks (stops c) at_most_cap V t (commit;; conn_getCqe fuel c Background id)
    (fun r t' => (snd r <> None /\ t' = t) \/ t' = t + 1).
Proof.
  intros Hv Hv' Hc. eapply tracks_keeps_bind; [done|exact Hc|intros _ _]. by apply tracks_getCqe.
Qed.

Ltac fill :=
  repeat (eapply tracks_keeps_bind;
    [done|first [apply kept_sq_update_entry, _|apply kept_ID, _|apply kept_elem0]|intros ? _]).

Lemma tracks_call p :
  conn_call fuel c p -> tracks (stops c) at_most_cap puts_in 0 p call_done.
Proof.
  assert (puts_in 0) as H0 by done. assert (puts_in (0 + 1)) as H1 by done.
  intros [b [->| ->]]; unfold conn_Read, conn_Write;
    [eapply tracks_keeps_bind; [done|apply kept_rePoll|intros _ _]|];
    (apply tracks_SubmitEntry; [done|]; intros [i|] commit Hc; [|by apply tracks_ret]);
    fill; (eapply tracks_mono; [by apply tracks_after_fill|]);
    intros r t [[Hr ->]| ->] Hnone; done.
Qed.

Lemma tracks_run : tracks (stops c) at_most_cap takes_one 0 (conn_run fuel c) (fun _ _ => True).
Proof.
  assert (takes_one 0) as H0 by done. assert (takes_one (0 - 1)) as H1 by done.
  unfold conn_run. eapply tracks_bind; [by apply tracks_stop_recv|]. intros _ ? _ ->.
  eapply tracks_keeps_bind; [done|eauto with kept|intros id _].
  eapply tracks_keeps_bind; [done|apply (kept_with_entry _); intros; kept_steps|intros _ _].
  eapply tracks_bind; [by apply tracks_getCqe|]. intros r t Ht _. by apply tracks_ret.
Qed.
End Ledgers.

(** ** The invariant *)

Record balanced (c : ringConn) (s : cpool) (ts : list Z) (t : Z) : Prop := {
  bal_calls : Forall2 (fun p t => tracks (stops c) at_most_cap puts_in t p call_done) (cp_calls s) ts;
  bal_run : tracks (stops c) at_most_cap takes_one t (cp_run s) (fun _ _ => True);
  bal_cap : at_most_cap (stops c (cp_mem s));
  bal_sum : sum ts + t = stops c (cp_mem s)
}.

Section Invariant.
Context (c : ringConn).

Lemma balanced_step s s' ts t :
  cpstep c s s' -> balanced c s ts t -> exists ts' t', balanced c s' ts' t'.
Proof.
  destruct 1 as [i ps run X f k x m m' Hi E|ps X f k x m m' E|ps run m m' E];
    intros [Hc Hr Hcap Hs]; cbn in *.
  - destruct (Forall2_lookup_l _ _ _ _ _ Hc Hi) as (ti & Hti & _ & Hp).
    destruct (Hp m Hcap) as [Hcap' Hp']. rewrite E in Hcap', Hp'. cbn in *.
    exists (<[i := ti + (stops c m' - stops c m)]> ts), t.
    split; cbn; [by apply Forall2_insert|done|done|]. rewrite (sum_insert _ _ ti) by done. lia.
  - destruct Hr as [_ Hr]. destruct (Hr m Hcap) as [Hcap' Hr']. rewrite E in Hcap', Hr'. cbn in *.
    exists ts, (t + (stops c m' - stops c m)). split; cbn; [done|done|done|lia].
  - exists ts, t. split; cbn; [done|done|by rewrite E|by rewrite E].
Qed.

Lemma balanced_steps s s' ts t :
  rtc (cpstep c) s s' -> balanced c s ts t -> exists ts' t', balanced c s' ts' t'.
Proof.
  intros Hs. revert ts t. induction Hs as [|? ? ? H1 _ IH]; intros ts t H; [eauto|].
  destruct (balanced_step _ _ _ _ H1 H) as (? & ? & H'). eauto.
Qed.

(** Every successful call has a message on its ledger. *)
Lemma succeeded_sum ps ts :
  Forall2 (fun p t => tracks (stops c) at_most_cap puts_in t p call_done) ps ts ->
  len (filter succeeded ps) <= sum ts.
Proof.
  unfold len, sum. induction 1 as [|p t ps ts Hp _ IH]; [done|].
  pose proof (tracks_valid _ _ _ _ _ _ Hp) as Hv. unfold puts_in in Hv.
  rewrite filter_cons. cbn [foldr]. case_decide as Hd; cbn [length]; [|lia].
  destruct p as [[n [e|]]| | |]; try done. destruct Hp as [_ Hp].
  specialize (Hp eq_refl). lia.
Qed.
End Invariant.

(** C36. At most three reads and writes of a connection ever succeed.  However many
    goroutines call [Read] and [Write] on it, and however they, the goroutine of
    the connection, the rest of the program and the kernel are interleaved: the
    channel [stop] has room for two messages, every successful call has put one
    in, and the goroutine of the connection takes out one.  The others fail,
    panic, or wait for ever. *)
Theorem conn_three_calls {K : Kernel} (fuel : nat) (c : ringConn) (ps : list (prog Mem (Z * err)))
    (m : Mem) (s : cpool)
    (Hps : Forall (conn_call fuel c) ps) (Hm : m_cells m !! rc_stop c = Some 0)
    (Hs : rtc (cpstep c) (mkPool ps (conn_run fuel c) m) s) :
  len (filter succeeded (cp_calls s)) <= 3.
Proof.
  assert (stops c m = 0) as H0 by (unfold stops; by rewrite Hm).
  assert (balanced c (mkPool ps (conn_run fuel c) m) (replicate (length ps) 0) 0) as Hb.
  { split; cbn; [|apply tracks_run|unfold at_most_cap; rewrite H0; done|by rewrite sum_zeros].
    apply Forall2_same_length_lookup_2; [by rewrite length_replicate|].
    intros i p t Hp [-> _]%lookup_replicate. apply (tracks_call fuel).
    by eapply Forall_lookup_1 in Hps. }
  destruct (balanced_steps c _ _ _ _ Hs Hb) as (ts & t & [Hc Hr Hcap Hsum]).
  pose proof (succeeded_sum c _ _ Hc). pose proof (tracks_valid _ _ _ _ _ _ Hr) as Hv.
  unfold takes_one, at_most_cap, stopCap in *. lia.
Qed.

(** A call that is scheduled alone. *)
Lemma cpool_runs c i ps run (p : prog Mem (Z * err)) m a m' :
  ps !! i = Some p -> runs p m a m' ->
  rtc (cpstep c) (mkPool ps run m) (mkPool (<[i := Ret a]> ps) run m').
Proof.
  intros Hi Hr. destruct (Hr 0%nat) as [n' H]. clear Hr. revert H.
  generalize 0%nat as n. revert ps m Hi.
  induction p as [b|X f k IH|s|]; intros ps m Hi n H; cbn in H; try done.
  - injection H as -> -> <-. by rewrite list_insert_id.
  - unfold quiet in H at 1. destruct (f m) as [x m1] eqn:E.
    eapply rtc_l; [by eapply cpstep_call|].
    rewrite <- (list_insert_insert_eq ps i (Ret a) (k x)).
    apply (IH x _ _) with (n := S n); [|done].
    apply list_lookup_insert_eq. by eapply lookup_lt_Some.
Qed.

(** A kernel that posts the completions of the first two requests. *)
Definition two_answers_kernel : Kernel := {|
  k_answer := fun _ _ => mkSysRes 1 0;
  k_params := fun _ _ p => p;
  k_file := fun _ _ st => (mkSysRes 0 0, st);
  k_enter := fun _ _ _ _ st => mkView 1 0 0 2 0 0 [(0, mkCQE 1 10 0); (1, mkCQE 2 10 0)] st
|}.

(** Two of three writes succeed. *)
Lemma conn_three_calls_witness :
  let K := two_answers_kernel in
  let write := conn_Write 1 sample_conn sample_slice in
  exists m', let s := mkPool [Ret (10, None); Ret (10, None); write] (conn_run 1 sample_conn) m' in
    rtc (cpstep sample_conn)
      (mkPool [write; write; write] (conn_run 1 sample_conn) (set_m_cells {[1%nat := 0]} sample_mem)) s /\
    len (filter succeeded (cp_calls s)) = 2 /\ len (filter succeeded (cp_calls s)) <= 3.
Proof.
  intros K write. set (m := set_m_cells {[1%nat := 0]} sample_mem).
  assert (runs write m (10, None) (mem_after write m)) as H1 by (apply exec_runs; vm_compute; done).
  set (m1 := mem_after write m) in *.
  assert (runs write m1 (10, None) (mem_after write m1)) as H2 by (apply exec_runs; vm_compute; done).
  exists (mem_after write m1). cbn zeta.
  assert (rtc (cpstep sample_conn) (mkPool [write; write; write] (conn_run 1 sample_conn) m)
    (mkPool [Ret (10, None); Ret (10, None); write] (conn_run 1 sample_conn) (mem_after write m1)))
    as Hs.
  { etrans; [by apply (cpool_runs _ 0 [write; write; write] _ write)|].
    by apply (cpool_runs _ 1 [Ret (10, None); write; write] _ write). }
  split_and!; [done|done|].
  apply (conn_three_calls 1 sample_conn [write; write; write] m); [|done|done].
  repeat constructor; exists sample_slice; by right.
Defined.
