(* ===== verification/Listener.v ===== *)
(** * The listener (conn.go)

    Its poll request, the walk over the completion queue, the acceptance of
    connections, and [SockoptListener] that opens the socket. *)

From stdpp Require Import base list gmap strings pretty.
From Stdlib Require Import ZArith Lia Ascii String.
From S2P Require Import Prelude Prog Consts Types Machine Submission Ops FileIO Conn.
Open Scope Z_scope.

(** ** The listener *)

Record connInfo := mkInfo { ci_fd : Z; ci_id : Z }.

(** [ringListener]: the debug flag, the file, the address, whether there is an
    error handler, and where the closed flag of [stop] and the channel [newConn]
    are kept. *)
Record ringListener := mkListener {
  l_fd : Z; l_a : addr; l_debug : bool; l_errHandler : bool; l_stop : nat; l_newConn : nat
}.

(** [addr.Network] and [addr.String]; [ringListener.Addr] and [Fd] of a listener
    that has its file. *)
Definition addr_Network (a : addr) : string := addr_net a.
Definition addr_String (a : addr) : string := addr_s a.
Definition listener_Addr (l : ringListener) : addr := l_a l.
Definition listener_Fd (l : ringListener) : Z := l_fd l.

(** The capacity of [newConn]. *)
Definition newConnCap : Z := 1024.

(** [l.newConn <- &rc]: waits while the channel is full. *)
Fixpoint newConn_send (fuel : nat) (l : ringListener) (rc : ringConn) : prog Mem unit :=
  match fuel with
  | O => Starve
  | S fuel =>
      sent ← try_act nil_msg (fun m => rcs ← m_conns m !! l_newConn l;
        if len rcs <? newConnCap
        then Some (true, set_m_conns (<[l_newConn l := rcs ++ [rc]]> (m_conns m)) m)
        else Some (false, m));
      if (sent : bool) then Ret tt else newConn_send fuel l rc
  end.

(** [<-l.newConn]: waits while it is empty. *)
Fixpoint newConn_recv (fuel : nat) (l : ringListener) : prog Mem ringConn :=
  match fuel with
  | O => Starve
  | S fuel =>
      got ← try_act nil_msg (fun m => rcs ← m_conns m !! l_newConn l;
        match rcs with
        | rc :: rcs => Some (Some rc, set_m_conns (<[l_newConn l := rcs]> (m_conns m)) m)
        | [] => Some (None, m)
        end);
      match (got : option ringConn) with
      | Some rc => Ret rc
      | None => newConn_recv fuel l
      end
  end.

(** A new cell with the given contents. *)
Definition new_cell (v : Z) : prog Mem nat :=
  act (fun m => let a := fresh (dom (m_cells m)) in (a, set_m_cells (<[a := v]> (m_cells m)) m)).

(** A new channel of connections. *)
Definition new_conns : prog Mem nat :=
  act (fun m => let a := fresh (dom (m_conns m)) in (a, set_m_conns (<[a := []]> (m_conns m)) m)).

(** [fmt.Sprintf("%s", b)] of an array of bytes is the string of these bytes. *)
Definition bytes_string (b : list Z) : string :=
  foldr (fun x s => String (ascii_of_nat (Z.to_nat (u8 x))) s) EmptyString b.

(** The printed form of a socket address, as [onListen] makes it. *)
Definition sockaddr_string (sa : Sockaddr) : string :=
  match sa with
  | SockaddrInet4 port ip | SockaddrInet6 port ip => bytes_string ip +:+ ":" +:+ pretty port
  | SockaddrUnix name => name
  end.

Section Listener.
(** The address of the peer that accept returns after a history of calls. *)
Context (peer : history -> Sockaddr).
Context `{K : Kernel} (fuel : nat).
Implicit Types (l : ringListener) (conns : gmap Z connInfo).

(** The poll request of a listening or accepted socket. *)
Definition poll_entry (fd id sqe : Z) (commit : prog Mem unit) : prog Mem unit :=
  sqe .=(set_sqe_Opcode) PollAdd;;
  sqe .=(set_sqe_Fd) (i32 fd);;
  sqe .=(set_sqe_UFlags) (i32 POLLIN);;
  sqe .=(set_sqe_UserData) id;;
  commit.

(** [ringListener.onListen]: the connection it accepts, whose goroutine the caller
    of this program starts.  [newConnInfo.id] is the zero value.  The fields that
    nothing reads and the text of the panic are left out. *)
Definition onListen l (cInfo : connInfo) : prog Mem ringConn :=
  stop ← new_cell 0;
  d1 ← new_cell 0; d2 ← new_cell 0; d3 ← new_cell 0;
  sa ← load (fun m => peer (m_hist m));
  r ← syscall (SysAccept4 (u64 (ci_fd cInfo)) 2048);
  if negb (sys_errno r =? 0) then Panic "accept4"
  else
    let newFd := i64 (sys_r1 r) in
    let rc := mkConn newFd (l_a l) (mkAddr (addr_net (l_a l)) (sockaddr_string sa)) stop d1 d2 d3 in
    with_entry fuel (poll_entry newFd 0);;
    with_entry fuel (poll_entry (ci_fd cInfo) (u64 (ci_fd cInfo)));;
    newConn_send fuel l rc;;
    Ret rc.

(** Either loop of [walkCq], for [k] iterations from [i] on: the connection whose
    completion was found, after the completion is marked and the head moved. *)
Fixpoint walk_loop conns (k : nat) (i seenIdx : Z) (seenEnd : bool) : prog Mem (option connInfo) :=
  match k with
  | O => Ret None
  | S k =>
      cqe ← cq_entry i;
      let seen := (Z.land (cqe_Flags cqe) CqSeenFlag =? CqSeenFlag) || CompletionEntry_IsZero cqe in
      let '(seenIdx, seenEnd) := if seen && negb seenEnd then (i, seenEnd) else (seenIdx, true) in
      match conns !! cqe_UserData cqe with
      | None => walk_loop conns k (u32 (i + 1)) seenIdx seenEnd
      | Some cInfo =>
          cq_update_entry i (fun e => set_cqe_Flags (Z.lor (cqe_Flags e) CqSeenFlag) e);;
          head ← cq_load cq_Head;
          (if head <? seenIdx then _ ← cq_cas cq_Head set_cq_Head head seenIdx; Ret tt else Ret tt);;
          Ret (Some cInfo)
      end
  end.

(** The debug output slices the first nine entries of both queues. *)
Definition walk_debug l : prog Mem unit :=
  if l_debug l then
    n ← sq_load (fun q => len (sq_Entries q));
    k ← cq_load (fun c => len (cq_Entries c));
    if (n <? 9) || (k <? 9) then Panic index_msg else Ret tt
  else Ret tt.

(** [ringListener.walkCq]. *)
Definition walkCq l conns : prog Mem (option ringConn) :=
  head ← cq_load cq_Head;
  tail ← cq_load cq_Tail;
  mask ← cq_load cq_Mask;
  let h := Z.land head mask in
  let t := Z.land tail mask in
  if h =? t then Ret None
  else
    walk_debug l;;
    r ← walk_loop conns (Z.to_nat (t + 1 - h)) h h false;
    match r with
    | Some cInfo => rc ← onListen l cInfo; Ret (Some rc)
    | None =>
        tail ← cq_load cq_Tail;
        mask ← cq_load cq_Mask;
        r ← walk_loop conns (Z.to_nat (Z.land tail mask + 1)) 0 0 false;
        match r with
        | Some cInfo => rc ← onListen l cInfo; Ret (Some rc)
        | None => Ret None
        end
    end.

(** [ringListener.run] up to its loop: the first poll request and the map. *)
Definition listener_start l : prog Mem (gmap Z connInfo) :=
  id ← Ring_ID;
  let fd := l_fd l in
  with_entry fuel (poll_entry fd id);;
  Ret {[id := mkInfo fd id]}.

(** One iteration of the loop after the test of [stop]. *)
Definition listener_round l conns : prog Mem (option ringConn) :=
  '(_, e) ← Ring_Enter fuel 1024 1 EnterGetEvents;
  match e with
  | Some e =>
      (if l_errHandler l then store (fun m => set_m_errs (e :: m_errs m) m) else Ret tt);;
      Ret None
  | None => walkCq l conns
  end.

(** [ringListener.run] for a number of rounds; the connections it accepted. *)
Fixpoint listener_loop (rounds : nat) l conns : prog Mem (list ringConn) :=
  match rounds with
  | O => Starve
  | S rounds =>
      stopped ← cell_load (l_stop l);
      if negb (stopped =? 0) then Ret []
      else
        rc ← listener_round l conns;
        rcs ← listener_loop rounds l conns;
        Ret (match rc with Some rc => rc :: rcs | None => rcs end)
  end.
Definition listener_run (rounds : nat) l : prog Mem (list ringConn) :=
  conns ← listener_start l; listener_loop rounds l conns.

(** [ringListener.Close]: closing a closed channel panics. *)
Definition listener_Close l : prog Mem err :=
  closed ← try_act nil_msg (fun m => v ← m_cells m !! l_stop l;
    Some (negb (v =? 0), set_m_cells (<[l_stop l := 1]> (m_cells m)) m));
  if (closed : bool) then Panic "close of closed channel"
  else
    r ← syscall (SysClose (u64 (l_fd l)));
    Ret (if sys_errno r =? 0 then None else Some (Errno (sys_errno r))).

(** [ringListener.Accept]. *)
Definition listener_Accept l : prog Mem (ringConn * err) :=
  rc ← newConn_recv fuel l; Ret (rc, None).
End Listener.

(** ** SockoptListener *)

(** [strings.Replace(s, "\n", "", -1)]. *)
Fixpoint strip_newlines (s : string) : string :=
  match s with
  | EmptyString => EmptyString
  | String a s => if Ascii.eqb a "010"%char then strip_newlines s else String a (strip_newlines s)
  end.

Definition digit (a : ascii) : option Z :=
  let n := Z.of_nat (nat_of_ascii a) in
  if (48 <=? n) && (n <=? 57) then Some (n - 48) else None.

Fixpoint digits (acc : Z) (s : string) : option Z :=
  match s with
  | EmptyString => Some acc
  | String a s => match digit a with Some d => digits (10 * acc + d) s | None => None end
  end.

(** [strconv.Atoi]: an optional sign and at least one digit, within an [int]. *)
Definition Atoi (s : string) : option Z :=
  let number neg s :=
    match s with
    | EmptyString => None
    | _ => n ← digits 0 s;
           let n := if (neg : bool) then - n else n in
           if (- 2 ^ 63 <=? n) && (n <? 2 ^ 63) then Some n else None
    end in
  match s with
  | String "-"%char s => number true s
  | String "+"%char s => number false s
  | _ => number false s
  end.

Definition fastopen_msg : string := "set /proc/sys/net/ipv4/tcp_fastopen to 3".

(** [copy] into an array of [n] bytes. *)
Definition copy_ip (n : nat) (ip : list Z) : list Z := take n (ip ++ replicate n 0).

(** Constants of package syscall. *)
Definition AF_UNIX : Z := 1.
Definition AF_INET : Z := 2.
Definition AF_INET6 : Z := 10.
Definition SOCK_STREAM : Z := 1.
Definition SOCK_DGRAM : Z := 2.
Definition SOL_SOCKET : Z := 1.
Definition SOL_TCP : Z := 6.
Definition SOMAXCONN : Z := 128.

(** What package net resolves an address to: [net.TCPAddr] or [net.UDPAddr]. *)
Record netAddr := mkNetAddr {
  na_IP : list Z; na_Port : Z; na_Network : string; na_String : string
}.

Section SockoptListener.
(** The file system and the resolver: the contents of a file; the address of a
    network and an address. *)
Context (read_file : string -> string + error).
Context (resolve : string -> string -> option netAddr).
Context `{K : Kernel}.

(** [FastOpenAllowed]; the text of a conversion error is not modelled. *)
Definition FastOpenAllowed : err :=
  match read_file "/proc/sys/net/ipv4/tcp_fack" with
  | inr e => Some e
  | inl b =>
      match Atoi (strip_newlines b) with
      | None => Some (ErrMsg "strconv.Atoi")
      | Some allowed => if negb (allowed =? 3) then Some (ErrMsg fastopen_msg) else None
      end
  end.

(** A call that returns an error. *)
Definition sys_err (c : Syscall) : prog Mem err :=
  r ← syscall c; Ret (if sys_errno r =? 0 then None else Some (Errno (sys_errno r))).

(** [syscall.Socket]: -1 on failure. *)
Definition Socket (domain typ : Z) : prog Mem (Z * err) :=
  r ← syscall (SysSocket domain typ 0);
  if sys_errno r =? 0 then Ret (i64 (sys_r1 r), None) else Ret (-1, Some (Errno (sys_errno r))).

(** What the switch on the network does: an error return, or the descriptor, the
    error variable after it, the address to bind and the address of the
    listener, which the case of udp and udp4 does not set. *)
Definition open_socket (network address : string) : prog Mem (error + Z * err * Sockaddr * addr) :=
  let inet domain typ (mk : Z -> list Z -> Sockaddr) n (set_a : bool) :=
    '(fd, e) ← Socket domain typ;
    match e with
    | Some _ => Ret (inl (ErrMsg "could not open socket"))
    | None =>
        match resolve network address with
        | None => Ret (inl (ErrMsg "could not open socket"))
        | Some na =>
            Ret (inr (fd, None, mk (na_Port na) (copy_ip n (na_IP na)),
              if set_a then mkAddr (na_Network na) (na_String na) else mkAddr network EmptyString))
        end
    end in
  if bool_decide (network = "tcp" \/ network = "tcp4") then
    inet AF_INET SOCK_STREAM SockaddrInet4 4%nat true
  else if bool_decide (network = "tcp6") then inet AF_INET6 SOCK_STREAM SockaddrInet6 16%nat true
  else if bool_decide (network = "unix") then
    '(fd, e) ← Socket AF_UNIX SOCK_STREAM;
    Ret (inr (fd, e, SockaddrUnix address, mkAddr network EmptyString))
  else if bool_decide (network = "udp" \/ network = "udp4") then
    inet AF_INET SOCK_DGRAM SockaddrInet4 4%nat false
  else if bool_decide (network = "udp6") then inet AF_INET SOCK_DGRAM SockaddrInet6 16%nat true
  else Ret (inl (ErrMsg ("unknown network family: " ++ network))).

(** [syscall.Close(fd)], the result ignored, and the error returned. *)
Definition close_with (fd : Z) (e : error) : prog Mem err :=
  _ ← syscall (SysClose (u64 fd)); Ret (Some e).

(** The loop over the socket options. *)
Fixpoint set_sockopts (fd : Z) (sockopts : list Z) : prog Mem err :=
  match sockopts with
  | [] => Ret None
  | sockopt :: sockopts =>
      if sockopt =? SOReuseport then
        e ← sys_err (SysSetsockoptInt fd SOL_SOCKET sockopt 1);
        match e with Some e => close_with fd e | None => set_sockopts fd sockopts end
      else if sockopt =? TCPFastopen then
        match FastOpenAllowed with
        | Some e => Ret (Some e)
        | None =>
            e ← sys_err (SysSetsockoptInt fd SOL_TCP sockopt 1);
            match e with Some e => close_with fd e | None => set_sockopts fd sockopts end
        end
      else set_sockopts fd sockopts
  end.

(** [Ring.SockoptListener]: the listener, whose goroutine the caller of this
    program starts; or an error. *)
Definition SockoptListener (network address : string) (errHandler : bool) (sockopts : list Z)
  : prog Mem (error + ringListener) :=
  stop ← new_cell 0;
  newConn ← new_conns;
  r ← open_socket network address;
  match r with
  | inl e => Ret (inl e)
  | inr (fd, Some e, _, _) => _ ← close_with fd e; Ret (inl e)
  | inr (fd, None, sockAddr, a) =>
      e ← set_sockopts fd sockopts;
      match e with
      | Some e => Ret (inl e)
      | None =>
          e ← sys_err (SysBind fd sockAddr);
          match e with
          | Some e => _ ← close_with fd e; Ret (inl e)
          | None =>
              e ← sys_err (SysListen fd SOMAXCONN);
              match e with
              | Some e => _ ← close_with fd e; Ret (inl e)
              | None =>
                  debug ← ring_load r_debug;
                  Ret (inr (mkListener fd a debug errHandler stop newConn))
              end
          end
      end
  end.
End SockoptListener.
