(* ===== verification/ListenerSpec.v ===== *)
(** * Correctness of the listener

    What the walk of the listener finds, marks and acknowledges; the polls it
    arms; the order in which connections are accepted; and the calls with which
    a listening socket is opened. *)

From stdpp Require Import base list gmap strings.
From Stdlib Require Import ZArith Lia.
From S2P Require Import Prelude Prog Consts Types Machine Samples Submission SubmissionSpec.
From S2P Require Import Ops OpsSpec Completion CompletionSpec SearchSpec FileIO Conn ConnSpec Listener.
Open Scope Z_scope.

(** ** The walk over the completion queue *)

(** The completion was handled, or there never was one. *)
Definition walked (e : CompletionEntry) : bool :=
  (Z.land (cqe_Flags e) CqSeenFlag =? CqSeenFlag) || CompletionEntry_IsZero e.

(** No completion of [i .. i + k - 1] belongs to a connection. *)
Definition no_match (conns : gmap Z connInfo) (es : list CompletionEntry) (i : Z) (k : nat) : Prop :=
  forall j e, i <= j < i + Z.of_nat k -> slice_get es j = Some e -> conns !! cqe_UserData e = None.

(** [j] is the first completion of [i .. i + k - 1] that belongs to one. *)
Record first_match (conns : gmap Z connInfo) (es : list CompletionEntry) (i : Z) (k : nat)
    (j : Z) (x : connInfo) : Prop := {
  fm_range : i <= j < i + Z.of_nat k;
  fm_found : exists e, slice_get es j = Some e /\ conns !! cqe_UserData e = Some x;
  fm_first : forall j' e, i <= j' < j -> slice_get es j' = Some e -> conns !! cqe_UserData e = None
}.

(** Every completion from [start] to [j], both included, was handled. *)
Definition all_walked (es : list CompletionEntry) (start j : Z) : Prop :=
  forall x e, start <= x <= j -> slice_get es x = Some e -> walked e = true.

(** The queue after the walk took the completion [j]. *)
Definition mark (j : Z) (c : CompletionQueue) : CompletionQueue :=
  set_cq_Entries
    (alter (fun e => set_cqe_Flags (Z.lor (cqe_Flags e) CqSeenFlag) e) (Z.to_nat j) (cq_Entries c)) c.

(** The head after a walk from [start] that took [j]. *)
Definition head_moved (c : CompletionQueue) (start j head' : Z) : Prop :=
  head' = cq_Head c \/
  (cq_Head c < head' <= j /\ start < head' /\ all_walked (cq_Entries c) start head').

(** What the walk knows before it looks at [i]. *)
Record walk_inv (es : list CompletionEntry) (start i seenIdx : Z) (seenEnd : bool) : Prop := {
  wi_range : start <= seenIdx /\ (seenIdx = start \/ seenIdx < i);
  wi_seen : seenIdx = start \/ all_walked es start seenIdx;
  wi_all : seenEnd = false -> all_walked es start (i - 1)
}.

Section Walk.
Context (conns : gmap Z connInfo).
Implicit Types (m : Mem) (c : CompletionQueue).

Lemma walk_inv_step es start i e seenIdx seenEnd :
  slice_get es i = Some e -> start <= i -> walk_inv es start i seenIdx seenEnd ->
  let '(seenIdx', seenEnd') :=
    if walked e && negb seenEnd then (i, seenEnd) else (seenIdx, true) in
  walk_inv es start (i + 1) seenIdx' seenEnd' /\ seenIdx' <= i.
Proof.
  intros He Hi [Hr Hs Ha]. destruct (walked e) eqn:Ew, seenEnd; cbn [andb negb];
    try (split; [split; [lia|done|done]|lia]).
  assert (all_walked es start i) as Hall.
  { intros x e' Hx Hx'. destruct (decide (x = i)) as [->|]; [by simplify_eq|].
    apply (Ha eq_refl x e'); [lia|done]. }
  split; [|lia]. split; [lia|by right|]. intros _. by replace (i + 1 - 1) with i by lia.
Qed.

Lemma runs_cq_cas_ok old new m c :
  m_cq m = Some c -> cq_Head c = old ->
  runs (cq_cas cq_Head set_cq_Head old new) m true (put_cq (set_cq_Head new c) m).
Proof. intros H <-. apply runs_try_act. rewrite H. cbn. by rewrite Z.eqb_refl. Qed.

(** The variables of the walk after it looked at [i]. *)
Definition walk_vars (e : CompletionEntry) (i seenIdx : Z) (seenEnd : bool) : Z * bool :=
  if walked e && negb seenEnd then (i, seenEnd) else (seenIdx, true).

Lemma runs_walk_next k i e seenIdx seenEnd m c r m' :
  m_cq m = Some c -> 0 <= i < len (cq_Entries c) -> len (cq_Entries c) <= 2 ^ 31 ->
  slice_get (cq_Entries c) i = Some e -> conns !! cqe_UserData e = None ->
  let '(s, b) := walk_vars e i seenIdx seenEnd in
  runs (walk_loop conns k (i + 1) s b) m r m' ->
  runs (walk_loop conns (S k) i seenIdx seenEnd) m r m'.
Proof.
  intros Hm Hi Hn He Ex. destruct (walk_vars e i seenIdx seenEnd) as [s b] eqn:Eb. intros Hr.
  eapply runs_bind; [by eapply runs_cq_entry|]. cbn beta zeta.
  unfold walk_vars, walked in Eb. rewrite Eb, Ex.
  by rewrite (uwrap_id 32 (i + 1)) by (unfold is_uint; lia).
Qed.

Lemma runs_walk_take k i e seenIdx seenEnd m c x :
  m_cq m = Some c -> slice_get (cq_Entries c) i = Some e ->
  conns !! cqe_UserData e = Some x ->
  let s := fst (walk_vars e i seenIdx seenEnd) in
  let head' := if cq_Head c <? s then s else cq_Head c in
  runs (walk_loop conns (S k) i seenIdx seenEnd) m (Some x) (put_cq (set_cq_Head head' (mark i c)) m).
Proof.
  intros Hm He Ex. destruct (walk_vars e i seenIdx seenEnd) as [s b] eqn:Eb. cbn [fst].
  eapply runs_bind; [by eapply runs_cq_entry|]. cbn beta zeta.
  unfold walk_vars, walked in Eb. rewrite Eb, Ex.
  eapply runs_bind; [by eapply runs_cq_update_entry|]. eapply runs_bind; [by apply runs_cq_load|].
  change (cq_Head (set_cq_Entries ?y c)) with (cq_Head c). destruct (cq_Head c <? s).
  - eapply runs_bind; [eapply runs_bind; [by eapply runs_cq_cas_ok|apply runs_ret]|].
    eapply runs_eq; [apply runs_ret|done|]. by destruct m as [[]].
  - eapply runs_bind; [apply runs_ret|]. eapply runs_eq; [apply runs_ret|done|].
    unfold mark. by destruct c.
Qed.

(** A loop of the walk finds the first completion of a connection and marks it;
    it moves the head only over completions that were handled. *)
Lemma runs_walk_loop start k : forall i seenIdx seenEnd m c,
  m_cq m = Some c -> cq_wf c -> 0 <= start <= cq_Head c -> start <= i ->
  i + Z.of_nat k <= len (cq_Entries c) -> walk_inv (cq_Entries c) start i seenIdx seenEnd ->
  (no_match conns (cq_Entries c) i k /\ runs (walk_loop conns k i seenIdx seenEnd) m None m) \/
  exists j x head', first_match conns (cq_Entries c) i k j x /\ head_moved c start j head' /\
    runs (walk_loop conns k i seenIdx seenEnd) m (Some x) (put_cq (set_cq_Head head' (mark j c)) m).
Proof.
  induction k as [|k IH]; intros i seenIdx seenEnd m c Hm Hwf Hs Hi Hk Hinv.
  { left. split; [intros j e Hj; lia|apply runs_ret]. }
  destruct (slice_get_in (cq_Entries c) i) as [e He]; [lia|].
  pose proof (pow2_size_u32 _ (cqwf_pow2 c Hwf)) as Hn.
  pose proof (walk_inv_step _ start i e seenIdx seenEnd He Hi Hinv) as Hstep.
  fold (walk_vars e i seenIdx seenEnd) in Hstep.
  destruct (conns !! cqe_UserData e) as [x|] eqn:Ex.
  - right. pose proof (runs_walk_take k i e seenIdx seenEnd m c x Hm He Ex) as Hrun.
    destruct (walk_vars e i seenIdx seenEnd) as [s b]. cbn zeta in Hrun. cbn [fst] in Hrun.
    destruct Hstep as [[Hr Hw _] Hle]. eexists i, x, _. split_and!; [|..|exact Hrun].
    + split; [lia|by exists e|]. intros j' e' Hj'. lia.
    + unfold head_moved. destruct (Z.ltb_spec (cq_Head c) s) as [Hlt|]; [|by left].
      right. split_and!; [lia|lia|lia|]. destruct Hw as [->|Hw]; [lia|done].
  - pose proof (fun r m' => runs_walk_next k i e seenIdx seenEnd m c r m' Hm) as Hnext.
    destruct (walk_vars e i seenIdx seenEnd) as [s b].
    destruct (IH (i + 1) s b m c) as [[Hno Hrun]|(j & x & head' & [Hj Hf Hb] & Hh & Hrun)];
      [done|done|done|lia|lia|apply Hstep|left|right].
    + split; [|apply Hnext; auto; lia]. intros j e' Hj He'.
      destruct (decide (j = i)) as [->|]; [by simplify_eq|]. apply (Hno j e'); [lia|done].
    + exists j, x, head'. split_and!; [|done|apply Hnext; auto; lia].
      split; [lia|done|]. intros j' e' Hj' He'.
      destruct (decide (j' = i)) as [->|]; [by simplify_eq|]. apply (Hb j' e'); [lia|done].
Qed.
End Walk.

(** What [walkCq] takes: the first completion of a connection from the head to the
    tail, both included; or, when there is none, from position 0 to the tail.
    When the window wraps around the first range is empty. *)
Inductive walk_finds (conns : gmap Z connInfo) (c : CompletionQueue) : Z -> Z -> connInfo -> Prop :=
| finds_straight j x :
    first_match conns (cq_Entries c) (cq_head_pos c)
      (Z.to_nat (cq_tail_pos c + 1 - cq_head_pos c)) j x ->
    walk_finds conns c (cq_head_pos c) j x
| finds_low j x :
    no_match conns (cq_Entries c) (cq_head_pos c)
      (Z.to_nat (cq_tail_pos c + 1 - cq_head_pos c)) ->
    first_match conns (cq_Entries c) 0 (Z.to_nat (cq_tail_pos c + 1)) j x ->
    walk_finds conns c 0 j x.

(** The debug output finds the entries it prints. *)
Definition debug_ok (l : ringListener) (q : SubmitQueue) (c : CompletionQueue) : Prop :=
  l_debug l = true -> 9 <= len (sq_Entries q) /\ 9 <= len (cq_Entries c).

(** The poll request. *)
Definition poll_fill (fd id : Z) (e : SubmitEntry_t) : SubmitEntry_t :=
  set_sqe_UserData id (set_sqe_UFlags (i32 POLLIN) (set_sqe_Fd (i32 fd) (set_sqe_Opcode PollAdd e))).

(** The call with which the walk accepts. *)
Definition accept_call (x : connInfo) : Syscall := SysAccept4 (u64 (ci_fd x)) 2048.

(** The queue with the polls of the new and of the listening socket. *)
Definition rearmed (newFd : Z) (x : connInfo) (q : SubmitQueue) : SubmitQueue :=
  sq_submit (poll_fill (ci_fd x) (u64 (ci_fd x))) (sq_submit (poll_fill newFd 0) q).

(** The connection that is made of an accepted socket. *)
Record accepted {K : Kernel} (peer : history -> Sockaddr) (l : ringListener) (x : connInfo)
    (m : Mem) (rc : ringConn) : Prop := {
  acc_fd : rc_fd rc = i64 (sys_r1 (k_answer (m_hist m) (accept_call x)));
  acc_laddr : rc_laddr rc = l_a l;
  acc_raddr : rc_raddr rc = mkAddr (addr_net (l_a l)) (sockaddr_string (peer (m_hist m)))
}.

Section Listen.
Context (peer : history -> Sockaddr) `{K : Kernel} (fuel : nat).
Implicit Types (m : Mem) (c : CompletionQueue) (q : SubmitQueue) (l : ringListener).

Lemma runs_poll_entry fd id i commit m m' :
  claimed i m -> runs commit (put_entry i (poll_fill fd id) m) tt m' ->
  runs (poll_entry fd id i commit) m tt m'.
Proof.
  intros Hi H. unfold poll_entry.
  do 4 (eapply runs_bind; [by apply runs_update; repeat apply claimed_put_entry|]).
  by rewrite !put_entry_put_entry.
Qed.

Lemma runs_poll fd id m q :
  m_sq m = Some q -> sq_open q ->
  runs (with_entry (S fuel) (poll_entry fd id)) m tt
    (add_claim (sq_tail_pos q) (put_sq (sq_submit (poll_fill fd id) q) m)).
Proof. intros Hm Ho. apply runs_with_entry; [done|done|]. intros. by apply runs_poll_entry. Qed.

Lemma runs_newConn_send l rc rcs m :
  m_conns m !! l_newConn l = Some rcs -> len rcs < newConnCap ->
  runs (newConn_send (S fuel) l rc) m tt
    (set_m_conns (<[l_newConn l := rcs ++ [rc]]> (m_conns m)) m).
Proof.
  intros Hm Hlt. cbn [newConn_send]. eapply runs_bind.
  - apply runs_try_act. rewrite Hm. cbn. by rewrite (proj2 (Z.ltb_lt _ _) Hlt).
  - apply runs_ret.
Qed.

Lemma runs_newConn_recv l rc rcs m :
  m_conns m !! l_newConn l = Some (rc :: rcs) ->
  runs (newConn_recv (S fuel) l) m rc (set_m_conns (<[l_newConn l := rcs]> (m_conns m)) m).
Proof.
  intros Hm. cbn [newConn_recv]. eapply runs_bind.
  - apply runs_try_act. by rewrite Hm.
  - apply runs_ret.
Qed.

Lemma runs_onListen l x rcs m q :
  m_sq m = Some q -> sq_open q -> m_conns m !! l_newConn l = Some rcs -> len rcs < newConnCap ->
  let r := k_answer (m_hist m) (accept_call x) in
  sys_errno r = 0 ->
  exists rc m', runs (onListen peer (S fuel) l x) m rc m' /\ accepted peer l x m rc /\
    m_sq m' = Some (rearmed (i64 (sys_r1 r)) x q) /\ m_cq m' = m_cq m /\
    m_conns m' !! l_newConn l = Some (rcs ++ [rc]) /\ m_hist m' = (accept_call x, r) :: m_hist m.
Proof.
  intros Hm Ho Hn Hlt r Hr. unfold onListen. eexists _, _. split.
  { do 4 (eapply runs_bind; [by apply runs_act|]; cbn beta).
    eapply runs_bind; [by apply runs_load|].
    eapply runs_bind; [by apply runs_act|]. cbn beta zeta. fold (accept_call x).
    change (m_hist (set_m_cells _ _)) with (m_hist m). fold r. rewrite Hr. cbn [negb Z.eqb].
    eapply runs_bind; [apply (runs_poll _ _ _ q); done|].
    eapply runs_bind; [by apply runs_poll; [|apply sq_submit_open]|].
    eapply runs_bind; [by apply (runs_newConn_send l _ rcs)|apply runs_ret]. }
  split_and!; [done|done|done|cbn; apply lookup_insert_eq|done].
Qed.

Lemma runs_walk_debug l m q c :
  m_sq m = Some q -> m_cq m = Some c -> debug_ok l q c -> runs (walk_debug l) m tt m.
Proof.
  intros Hq Hc Hd. unfold walk_debug. destruct (l_debug l) eqn:E; [|apply runs_ret].
  destruct (Hd E). eapply runs_bind; [by apply runs_sq_load|].
  eapply runs_bind; [by apply runs_cq_load|]. cbn beta.
  rewrite (proj2 (Z.ltb_ge (len (sq_Entries q)) 9)), (proj2 (Z.ltb_ge _ _)) by lia. apply runs_ret.
Qed.

Lemma walk_inv_start es start : walk_inv es start start start false.
Proof. split; [lia|by left|]. intros _ x e Hx. lia. Qed.

Lemma first_match_det conns es i k j x j' x' :
  first_match conns es i k j x -> first_match conns es i k j' x' -> j = j' /\ x = x'.
Proof.
  intros [Hj (e & He & Hx) Hf] [Hj' (e' & He' & Hx') Hf'].
  destruct (Z.lt_trichotomy j j') as [H|[->|H]].
  - specialize (Hf' j e). rewrite Hf' in Hx by (done || lia). done.
  - by simplify_eq.
  - specialize (Hf j' e'). rewrite Hf in Hx' by (done || lia). done.
Qed.

Lemma no_first_match conns es i k j x : no_match conns es i k -> ~ first_match conns es i k j x.
Proof. intros Hno [Hj (e & He & Hx) _]. by rewrite (Hno j e) in Hx. Qed.

(** The two loops on a well-formed queue. *)
Lemma runs_first_walk conns m c :
  m_cq m = Some c -> cq_wf c ->
  let h := cq_head_pos c in
  let k := Z.to_nat (cq_tail_pos c + 1 - h) in
  (no_match conns (cq_Entries c) h k /\ runs (walk_loop conns k h h false) m None m) \/
  exists j x head', first_match conns (cq_Entries c) h k j x /\ head_moved c h j head' /\
    runs (walk_loop conns k h h false) m (Some x) (put_cq (set_cq_Head head' (mark j c)) m).
Proof.
  intros Hm Hwf h k. pose proof (cq_head_pos_range c Hwf). pose proof (cq_tail_pos_range c Hwf).
  apply runs_walk_loop; [done|done| |lia|unfold k, h; lia|apply walk_inv_start].
  pose proof (cqwf_head c Hwf) as [? ?]. unfold h in *. split; [lia|].
  unfold cq_head_pos. rewrite (cqwf_mask c Hwf), land_mask by apply Hwf.
  apply Z.mod_le; [lia|]. destruct (cqwf_pow2 c Hwf) as (? & ? & ->). lia.
Qed.

Lemma runs_second_walk conns m c :
  m_cq m = Some c -> cq_wf c ->
  let k := Z.to_nat (cq_tail_pos c + 1) in
  (no_match conns (cq_Entries c) 0 k /\ runs (walk_loop conns k 0 0 false) m None m) \/
  exists j x head', first_match conns (cq_Entries c) 0 k j x /\ head_moved c 0 j head' /\
    runs (walk_loop conns k 0 0 false) m (Some x) (put_cq (set_cq_Head head' (mark j c)) m).
Proof.
  intros Hm Hwf k. pose proof (cq_tail_pos_range c Hwf). pose proof (cqwf_head c Hwf) as [? ?].
  apply runs_walk_loop; [done|done|lia|lia|unfold k; lia|apply walk_inv_start].
Qed.

(** A walk that finds a completion accepts a connection. *)
Lemma runs_walkCq l conns m q c rcs start j x :
  m_sq m = Some q -> sq_open q -> m_cq m = Some c -> cq_wf c -> debug_ok l q c ->
  cq_head_pos c <> cq_tail_pos c -> walk_finds conns c start j x ->
  m_conns m !! l_newConn l = Some rcs -> len rcs < newConnCap ->
  let r := k_answer (m_hist m) (accept_call x) in
  sys_errno r = 0 ->
  exists rc head' m', runs (walkCq peer (S fuel) l conns) m (Some rc) m' /\
    accepted peer l x m rc /\ head_moved c start j head' /\
    m_cq m' = Some (set_cq_Head head' (mark j c)) /\
    m_sq m' = Some (rearmed (i64 (sys_r1 r)) x q) /\
    m_conns m' !! l_newConn l = Some (rcs ++ [rc]) /\ m_hist m' = (accept_call x, r) :: m_hist m.
Proof.
  intros Hq Ho Hc Hwf Hd Hne Hf Hn Hlt r Hr.
  assert (forall head', exists rc m', runs (rc ← onListen peer (S fuel) l x; Ret (Some rc))
      (put_cq (set_cq_Head head' (mark j c)) m) (Some rc) m' /\ accepted peer l x m rc /\
      m_cq m' = Some (set_cq_Head head' (mark j c)) /\ m_sq m' = Some (rearmed (i64 (sys_r1 r)) x q) /\
      m_conns m' !! l_newConn l = Some (rcs ++ [rc]) /\ m_hist m' = (accept_call x, r) :: m_hist m) as Hl.
  { intros head'. destruct (runs_onListen l x rcs (put_cq (set_cq_Head head' (mark j c)) m) q)
      as (rc & m' & Hrun & [? ? ?] & ? & ? & ? & ?); [done..|].
    exists rc, m'. split_and!; [|by split|done..]. eapply runs_bind; [exact Hrun|apply runs_ret]. }
  unfold walkCq.
  destruct Hf as [j x Hf|j x Hno Hf];
    (destruct (runs_first_walk conns m c Hc Hwf) as [[Hno' Hw]|(j1 & x1 & head' & Hf' & Hh & Hw)];
     [try (by apply no_first_match in Hf)|try (by apply no_first_match in Hf')]).
  - destruct (first_match_det _ _ _ _ _ _ _ _ Hf Hf') as [<- <-].
    destruct (Hl head') as (rc & m' & Hrun & Hrest). exists rc, head', m'. split; [|naive_solver].
    do 3 (eapply runs_bind; [by apply runs_cq_load|]). cbn zeta. fold (cq_head_pos c) (cq_tail_pos c).
    rewrite (proj2 (Z.eqb_neq _ _) Hne). eapply runs_bind; [by eapply runs_walk_debug|].
    eapply runs_bind; [exact Hw|exact Hrun].
  - destruct (runs_second_walk conns m c Hc Hwf) as [[Hno2 _]|(j2 & x2 & head' & Hf2 & Hh & Hw2)];
      [by apply no_first_match in Hf|].
    destruct (first_match_det _ _ _ _ _ _ _ _ Hf Hf2) as [<- <-].
    destruct (Hl head') as (rc & m' & Hrun & Hrest). exists rc, head', m'. split; [|naive_solver].
    do 3 (eapply runs_bind; [by apply runs_cq_load|]). cbn zeta. fold (cq_head_pos c) (cq_tail_pos c).
    rewrite (proj2 (Z.eqb_neq _ _) Hne). eapply runs_bind; [by eapply runs_walk_debug|].
    eapply runs_bind; [exact Hw|]. cbn beta iota.
    do 2 (eapply runs_bind; [by apply runs_cq_load|]). fold (cq_tail_pos c).
    eapply runs_bind; [exact Hw2|exact Hrun].
Qed.

(** A walk that finds none changes nothing. *)
Lemma runs_walkCq_none l conns m q c :
  m_sq m = Some q -> m_cq m = Some c -> cq_wf c -> debug_ok l q c ->
  (forall start j x, ~ walk_finds conns c start j x) ->
  runs (walkCq peer (S fuel) l conns) m None m.
Proof.
  intros Hq Hc Hwf Hd Hno. unfold walkCq.
  do 3 (eapply runs_bind; [by apply runs_cq_load|]). cbn zeta. fold (cq_head_pos c) (cq_tail_pos c).
  destruct (_ =? _); [apply runs_ret|]. eapply runs_bind; [by eapply runs_walk_debug|].
  destruct (runs_first_walk conns m c Hc Hwf) as [[Hn1 Hw]|(? & ? & ? & Hf & _)];
    [|by edestruct Hno; apply finds_straight].
  destruct (runs_second_walk conns m c Hc Hwf) as [[Hn2 Hw2]|(? & ? & ? & Hf & _)];
    [|by edestruct Hno; apply finds_low].
  eapply runs_bind; [exact Hw|]. cbn beta iota.
  do 2 (eapply runs_bind; [by apply runs_cq_load|]). fold (cq_tail_pos c).
  eapply runs_bind; [exact Hw2|apply runs_ret].
Qed.
End Listen.

(** [walkCq] again and again, with nothing in between. *)
Fixpoint walks (peer : history -> Sockaddr) `{K : Kernel} (fuel n : nat) (l : ringListener) (conns : gmap Z connInfo)
  : prog Mem (list ringConn) :=
  match n with
  | O => Ret []
  | S n =>
      rc ← walkCq peer fuel l conns;
      rcs ← walks peer fuel n l conns;
      Ret (match rc with Some rc => rc :: rcs | None => rcs end)
  end.

(** [Accept] again and again. *)
Fixpoint accepts (fuel n : nat) (l : ringListener) : prog Mem (list ringConn) :=
  match n with
  | O => Ret []
  | S n =>
      '(rc, _) ← listener_Accept fuel l;
      rcs ← accepts fuel n l;
      Ret (rc :: rcs)
  end.

Section Repeat.
Context (peer : history -> Sockaddr) `{K : Kernel} (fuel : nat) (conns : gmap Z connInfo).
Implicit Types (m : Mem) (c : CompletionQueue) (q : SubmitQueue) (l : ringListener).

(** A completion at [j] in a window that does not wrap, with nothing found
    before it. *)
Record listening l m c j x : Prop := {
  ls_sq : exists q, m_sq m = Some q /\ sq_open q /\ debug_ok l q c;
  ls_cq : m_cq m = Some c;
  ls_wf : cq_wf c;
  ls_tail : j < cq_tail_pos c;
  ls_found : first_match conns (cq_Entries c) (cq_head_pos c)
    (Z.to_nat (cq_tail_pos c + 1 - cq_head_pos c)) j x
}.

Lemma mark_lookup c j y e :
  slice_get (cq_Entries (mark j c)) y = Some e ->
  exists e', slice_get (cq_Entries c) y = Some e' /\ cqe_UserData e' = cqe_UserData e.
Proof.
  unfold slice_get, mark. cbn. case_bool_decide; [|done].
  destruct (decide (Z.to_nat y = Z.to_nat j)) as [->|Hne].
  - rewrite list_lookup_alter_eq. destruct (cq_Entries c !! _) as [e'|]; [|done].
    intros [= <-]. by exists e'.
  - rewrite list_lookup_alter_ne by done. intros Hy. by exists e.
Qed.

Lemma mark_found c j e :
  slice_get (cq_Entries c) j = Some e ->
  exists e', slice_get (cq_Entries (mark j c)) j = Some e' /\ cqe_UserData e' = cqe_UserData e.
Proof. intros H. eexists. split; [by apply slice_get_alter_eq|done]. Qed.

(** The completion is still found after it was handled. *)
Lemma listening_again l m c j x q' m' head' :
  listening l m c j x -> head_moved c (cq_head_pos c) j head' ->
  m_cq m' = Some (set_cq_Head head' (mark j c)) ->
  m_sq m' = Some q' -> sq_open q' -> debug_ok l q' c ->
  listening l m' (set_cq_Head head' (mark j c)) j x.
Proof.
  intros [_ Hc Hwf Ht [Hj (e & He & Hx) Hf]] Hh Hc' Hq' Ho Hd.
  pose proof (cq_head_pos_range c Hwf) as Hhp. pose proof (cq_tail_pos_range c Hwf) as Htp.
  pose proof (cqwf_head c Hwf) as Hu. pose proof (pow2_size_u32 _ (cqwf_pow2 c Hwf)) as Hn.
  set (c' := set_cq_Head head' (mark j c)) in *.
  assert (len (cq_Entries c') = len (cq_Entries c)) as Hlen by (cbn; by autorewrite with slices).
  assert (is_u32 head' /\ cq_head_pos c <= cq_head_pos c' <= j) as [Hu' Hpos].
  { destruct Hh as [->|(Hlt & Hs & _)]; [split; [done|]; change (cq_head_pos c') with (cq_head_pos c); lia|].
    assert (cq_head_pos c' = head') as ->; [|split; [destruct Hu; split|]; lia].
    unfold cq_head_pos. cbn. rewrite (cqwf_mask c Hwf), land_mask by apply Hwf.
    apply Z.mod_small. lia. }
  split; [exists q'; split_and!; [done|done|]|done|..].
  - intros Hb. rewrite Hlen. by apply Hd.
  - split; [rewrite Hlen; apply Hwf|rewrite Hlen; apply Hwf|done|apply Hwf].
  - done.
  - change (cq_tail_pos c') with (cq_tail_pos c). split; [lia|..].
    + destruct (mark_found c j e He) as (e' & He' & Hu''). exists e'. by rewrite Hu''.
    + intros j' e' Hj' (e1 & H1 & <-)%mark_lookup. apply (Hf j'); [lia|done].
Qed.

Lemma runs_walks l x j n : forall m c rcs,
  listening l m c j x ->
  (forall h, sys_errno (k_answer h (accept_call x)) = 0) ->
  m_conns m !! l_newConn l = Some rcs -> len rcs + Z.of_nat n <= newConnCap ->
  exists rcs' m', runs (walks peer (S fuel) n l conns) m rcs' m' /\ length rcs' = n /\
    m_conns m' !! l_newConn l = Some (rcs ++ rcs') /\ exists c', listening l m' c' j x.
Proof.
  induction n as [|n IH]; intros m c rcs Hl Ha Hk Hcap.
  { exists [], m. split_and!; [apply runs_ret|done|by rewrite app_nil_r|by exists c]. }
  pose proof Hl as [(q & Hq & Ho & Hd) Hc Hwf Ht Hf].
  destruct (runs_walkCq peer fuel l conns m q c rcs (cq_head_pos c) j x)
    as (rc & head' & m1 & Hrun & _ & Hh & Hc1 & Hq1 & Hk1 & _);
    [done|done|done|done|done| |by apply finds_straight|done|lia|done|].
  { destruct Hf as [Hj _ _]. lia. }
  destruct (IH m1 (set_cq_Head head' (mark j c)) (rcs ++ [rc])) as (rcs' & m' & Hrun' & Hlen & Hk' & Hl').
  - eapply listening_again; [exact Hl|done|exact Hc1|exact Hq1|by do 2 apply sq_submit_open|].
    intros Hb. cbn. autorewrite with slices. by apply Hd.
  - done.
  - done.
  - unfold len in *. rewrite length_app. cbn. lia.
  - exists (rc :: rcs'), m'. split_and!; [|cbn; by rewrite Hlen| |done].
    + eapply runs_bind; [exact Hrun|]. eapply runs_bind; [exact Hrun'|apply runs_ret].
    + by rewrite Hk', <- app_assoc.
Qed.

Lemma runs_accepts l rcs : forall rest m,
  m_conns m !! l_newConn l = Some (rcs ++ rest) ->
  exists m', runs (accepts (S fuel) (length rcs) l) m rcs m' /\
    m_conns m' !! l_newConn l = Some rest.
Proof.
  induction rcs as [|rc rcs IH]; intros rest m Hm; [exists m; split; [apply runs_ret|done]|].
  pose proof (runs_newConn_recv fuel l rc (rcs ++ rest) m Hm) as Hr.
  destruct (IH rest (set_m_conns (<[l_newConn l := rcs ++ rest]> (m_conns m)) m)) as (m' & Hrun & Hm').
  { apply lookup_insert_eq. }
  exists m'. split; [|done]. cbn [accepts length].
  eapply runs_bind; [eapply runs_bind; [exact Hr|apply runs_ret]|]. cbn beta iota.
  eapply runs_bind; [exact Hrun|apply runs_ret].
Qed.
End Repeat.

(** C34. [walkCq] on a non-empty queue with a completion of a connection takes the
    first one, from the head to the tail and only when there is none from
    position 0 to the tail.  It accepts one connection with the descriptor the
    kernel answers, marks that completion and no other, arms a poll for the new
    and one for the listening socket, and hands the connection over.  The head
    stays where it is or moves up to the completion taken, and only over
    completions that carry the mark or are zero.  Without such a completion nothing
    changes. *)
Theorem walkCq_accepts (peer : history -> Sockaddr) (K : Kernel) (fuel : nat) (l : ringListener) (conns : gmap Z connInfo)
    (m : Mem) (q : SubmitQueue) (c : CompletionQueue) (rcs : list ringConn)
    (Hq : m_sq m = Some q) (Ho : sq_open q) (Hc : m_cq m = Some c) (Hwf : cq_wf c)
    (Hd : debug_ok l q c) (Hne : cq_head_pos c <> cq_tail_pos c)
    (Hn : m_conns m !! l_newConn l = Some rcs) (Hcap : len rcs < newConnCap) :
  (forall start j x, walk_finds conns c start j x ->
    let r := k_answer (m_hist m) (accept_call x) in
    sys_errno r = 0 ->
    exists rc head' m', runs (walkCq peer (S fuel) l conns) m (Some rc) m' /\
      accepted peer l x m rc /\ head_moved c start j head' /\
      m_cq m' = Some (set_cq_Head head' (mark j c)) /\
      m_sq m' = Some (rearmed (i64 (sys_r1 r)) x q) /\
      m_conns m' !! l_newConn l = Some (rcs ++ [rc]) /\ m_hist m' = (accept_call x, r) :: m_hist m) /\
  ((forall start j x, ~ walk_finds conns c start j x) -> runs (walkCq peer (S fuel) l conns) m None m).
Proof. split; [intros; by eapply runs_walkCq|intros; by eapply runs_walkCq_none]. Qed.

(** Two handled completions, one of another request, then the one of the
    listener's poll. *)
Definition listen_cq : CompletionQueue :=
  mkCQ 192 0 4 7 0 0
    [mkCQE 7 1 CqSeenFlag; mkCQE 8 1 CqSeenFlag; mkCQE 9 1 0; mkCQE 1 1 0; mkCQE 0 0 0; mkCQE 0 0 0;
     mkCQE 0 0 0; mkCQE 0 0 0] 8192.

Definition listen_mem : Mem := put_cq listen_cq (set_m_conns {[1%nat := []]} sample_mem).
Definition listen_conns : gmap Z connInfo := {[1 := mkInfo 3 1]}.
Definition sample_listener : ringListener := mkListener 3 sample_addr false false 0 1.
Definition sample_peer (h : history) : Sockaddr := SockaddrInet4 80 [49; 50; 51; 52].

Lemma listen_wf : cq_wf listen_cq.
Proof. split; try done. exists 3. split; [lia|done]. Qed.

Lemma listen_first : first_match listen_conns (cq_Entries listen_cq) 0 5 3 (mkInfo 3 1).
Proof.
  split; [lia|by eexists|]. intros j e Hj [_ He]%slice_get_Some.
  assert (j = 0 \/ j = 1 \/ j = 2) as [->|[->| ->]] by lia; by injection He as <-.
Qed.

Lemma walkCq_accepts_witness :
  let K := still_kernel 6 0 in
  exists rc head' m', runs (walkCq sample_peer 1 sample_listener listen_conns) listen_mem (Some rc) m' /\
    accepted sample_peer sample_listener (mkInfo 3 1) listen_mem rc /\ head_moved listen_cq 0 3 head' /\
    m_cq m' = Some (set_cq_Head head' (mark 3 listen_cq)) /\
    m_sq m' = Some (rearmed 6 (mkInfo 3 1) sample_sq) /\
    m_conns m' !! 1%nat = Some [rc] /\
    m_hist m' = [(accept_call (mkInfo 3 1), mkSysRes 6 0)].
Proof.
  intros K. apply (walkCq_accepts sample_peer K 0 sample_listener listen_conns listen_mem sample_sq listen_cq [])
    with (x := mkInfo 3 1); try done.
  - apply sample_sq_open.
  - apply listen_wf.
  - apply (finds_straight _ listen_cq), listen_first.
Defined.

(** A handled completion is found again: the walk does not look at the mark
    and the head does not pass the completion it took.  So each of any number of
    further walks accepts a connection from the one poll completion, as long as
    accept succeeds and the channel has room; the listener accepts by blocking
    in accept, not by its polls.  [Accept] returns these connections in the order
    in which they were accepted. *)
Theorem walkCq_repeats (peer : history -> Sockaddr) (K : Kernel) (fuel n : nat) (l : ringListener) (conns : gmap Z connInfo)
    (m : Mem) (c : CompletionQueue) (j : Z) (x : connInfo)
    (Hl : listening conns l m c j x)
    (Ha : forall h, sys_errno (k_answer h (accept_call x)) = 0)
    (Hk : m_conns m !! l_newConn l = Some []) (Hcap : Z.of_nat n <= newConnCap) :
  exists rcs m' m'', runs (walks peer (S fuel) n l conns) m rcs m' /\ length rcs = n /\
    (exists c', listening conns l m' c' j x) /\
    runs (accepts (S fuel) n l) m' rcs m'' /\ m_conns m'' !! l_newConn l = Some [].
Proof.
  destruct (runs_walks peer fuel conns l x j n m c []) as (rcs & m' & Hrun & Hlen & Hm' & Hl'); [done..|].
  destruct (runs_accepts fuel l rcs [] m') as (m'' & Hacc & Hm''); [by rewrite app_nil_r|].
  rewrite Hlen in Hacc. by exists rcs, m', m''.
Qed.

Lemma walkCq_repeats_witness :
  let K := still_kernel 6 0 in
  exists rcs m' m'', runs (walks sample_peer 1 1000 sample_listener listen_conns) listen_mem rcs m' /\
    length rcs = 1000%nat /\
    (exists c', listening listen_conns sample_listener m' c' 3 (mkInfo 3 1)) /\
    runs (accepts 1 1000 sample_listener) m' rcs m'' /\ m_conns m'' !! 1%nat = Some [].
Proof.
  intros K.
  apply (walkCq_repeats sample_peer K 0 1000 sample_listener listen_conns listen_mem listen_cq 3 (mkInfo 3 1)).
  - split; [|done|apply listen_wf|reflexivity|apply listen_first].
    exists sample_sq. split_and!; [done|apply sample_sq_open|done].
  - done.
  - done.
  - done.
Defined.

Section Rearm.
Implicit Types (q : SubmitQueue) (f : SubmitEntry_t -> SubmitEntry_t).

Lemma sq_submit_entry f q e :
  slice_get (sq_Entries q) (sq_tail_pos q) = Some e ->
  slice_get (sq_Entries (sq_submit f q)) (sq_tail_pos q) = Some (f (SubmitEntry_Reset e)).
Proof. intros H. cbn. by do 2 apply slice_get_alter_eq. Qed.

Lemma sq_submit_other f q i :
  0 <= i -> 0 <= sq_tail_pos q -> i <> sq_tail_pos q ->
  slice_get (sq_Entries (sq_submit f q)) i = slice_get (sq_Entries q) i.
Proof.
  intros Hi Ht Hne. cbn. unfold slice_get. rewrite bool_decide_true by done.
  rewrite !list_lookup_alter_ne by lia. done.
Qed.

Lemma next_pos_ne q f :
  sq_open q -> 1 < len (sq_Entries q) -> sq_tail_pos q <> sq_tail_pos (sq_submit f q).
Proof.
  intros Ho Hn. rewrite sq_submit_tail_pos by done.
  pose proof (sq_tail_pos_range q (sqo_wf q Ho)) as Hr.
  destruct (decide (sq_tail_pos q + 1 = len (sq_Entries q))) as [E|].
  - rewrite E, Z.mod_same by lia. lia.
  - rewrite Z.mod_small by lia. lia.
Qed.

(** The two polls are in the queue. *)
Lemma rearmed_entries newFd x q :
  sq_open q -> 1 < len (sq_Entries q) ->
  exists e1 e2,
    slice_get (sq_Entries (rearmed newFd x q)) (sq_tail_pos q) = Some (poll_fill newFd 0 e1) /\
    slice_get (sq_Entries (rearmed newFd x q)) (sq_tail_pos (sq_submit (poll_fill newFd 0) q)) =
      Some (poll_fill (ci_fd x) (u64 (ci_fd x)) e2).
Proof.
  intros Ho Hn. pose proof (sq_submit_open q (poll_fill newFd 0) Ho) as Ho'.
  pose proof (sq_tail_pos_range q (sqo_wf q Ho)) as Hr.
  pose proof (sq_tail_pos_range _ (sqo_wf _ Ho')) as Hr'.
  destruct (slice_get_in _ _ Hr) as [e1 H1]. destruct (slice_get_in _ _ Hr') as [e2 H2].
  exists (SubmitEntry_Reset e1), (SubmitEntry_Reset e2). unfold rearmed. split.
  - rewrite sq_submit_other by (lia || by apply next_pos_ne). by apply sq_submit_entry.
  - by apply sq_submit_entry.
Qed.

Lemma no_user_data conns c :
  Forall (fun e => conns !! cqe_UserData e = None) (cq_Entries c) ->
  forall start j x, ~ walk_finds conns c start j x.
Proof.
  intros H start j x Hf.
  assert (exists e, slice_get (cq_Entries c) j = Some e /\ conns !! cqe_UserData e = Some x)
    as (e & [_ He]%slice_get_Some & Hx) by by destruct Hf as [? ? []|? ? _ []].
  rewrite Forall_lookup in H. by rewrite (H _ _ He) in Hx.
Qed.
End Rearm.

(** The poll that [onListen] arms again is lost: it carries the descriptor of
    the listening socket as user data, and the poll of the new connection
    carries 0, while the map of the listener has the identifier of the first
    poll.  A queue with only completions of the two polls is walked without
    accepting anything, whenever the descriptor differs from the identifier. *)
Theorem rearmed_poll_lost (peer : history -> Sockaddr) (K : Kernel) (fuel : nat) (l : ringListener) (fd id : Z)
    (m : Mem) (q : SubmitQueue) (rcs : list ringConn)
    (Hq : m_sq m = Some q) (Ho : sq_open q) (Hlen : 1 < len (sq_Entries q))
    (Hn : m_conns m !! l_newConn l = Some rcs) (Hcap : len rcs < newConnCap)
    (Ha : sys_errno (k_answer (m_hist m) (accept_call (mkInfo fd id))) = 0)
    (Hid : id <> 0) (Hfd : id <> u64 fd) (Hdebug : l_debug l = false) :
  exists rc m' q' i1 i2 e1 e2, runs (onListen peer (S fuel) l (mkInfo fd id)) m rc m' /\
    m_sq m' = Some q' /\
    slice_get (sq_Entries q') i1 = Some e1 /\ sqe_Opcode e1 = PollAdd /\ sqe_Fd e1 = i32 (rc_fd rc) /\
    slice_get (sq_Entries q') i2 = Some e2 /\ sqe_Opcode e2 = PollAdd /\ sqe_Fd e2 = i32 fd /\
    forall c, cq_wf c ->
      Forall (fun e => cqe_UserData e = sqe_UserData e1 \/ cqe_UserData e = sqe_UserData e2)
        (cq_Entries c) ->
      runs (walkCq peer (S fuel) l {[id := mkInfo fd id]}) (put_cq c m') None (put_cq c m').
Proof.
  destruct (runs_onListen peer fuel l (mkInfo fd id) rcs m q Hq Ho Hn Hcap Ha)
    as (rc & m' & Hrun & [Hrc _ _] & Hq' & _).
  set (newFd := i64 _) in Hrc, Hq'.
  destruct (rearmed_entries newFd (mkInfo fd id) q Ho Hlen) as (e1 & e2 & H1 & H2).
  eexists rc, m', _, _, _, _, _. split_and!; [done|done|exact H1|done|cbn; by rewrite Hrc|
    exact H2|done|done|].
  intros c Hwf Hc. eapply runs_walkCq_none; [done|done|done|by intros [=]; congruence|].
  apply no_user_data. eapply Forall_impl; [exact Hc|]. cbn. intros e [->| ->];
    by apply lookup_singleton_ne.
Qed.

Lemma rearmed_poll_lost_witness :
  let K := still_kernel 6 0 in
  let l := sample_listener in
  exists rc m' q' i1 i2 e1 e2, runs (onListen sample_peer 1 l (mkInfo 3 1)) listen_mem rc m' /\
    m_sq m' = Some q' /\
    slice_get (sq_Entries q') i1 = Some e1 /\ sqe_Opcode e1 = PollAdd /\ sqe_Fd e1 = i32 (rc_fd rc) /\
    slice_get (sq_Entries q') i2 = Some e2 /\ sqe_Opcode e2 = PollAdd /\ sqe_Fd e2 = i32 3 /\
    forall c, cq_wf c ->
      Forall (fun e => cqe_UserData e = sqe_UserData e1 \/ cqe_UserData e = sqe_UserData e2)
        (cq_Entries c) ->
      runs (walkCq sample_peer 1 l {[1 := mkInfo 3 1]}) (put_cq c m') None (put_cq c m').
Proof.
  intros K l. apply (rearmed_poll_lost sample_peer K 0 l 3 1 listen_mem sample_sq []); try done.
  apply sample_sq_open.
Defined.

(** ** Opening a listening socket *)

(** The calls of the socket options; other options are ignored. *)
Definition opt_call (fd opt : Z) : option Syscall :=
  if opt =? SOReuseport then Some (SysSetsockoptInt fd SOL_SOCKET opt 1)
  else if opt =? TCPFastopen then Some (SysSetsockoptInt fd SOL_TCP opt 1)
  else None.
Definition opt_calls (fd : Z) (sockopts : list Z) : list Syscall := omap (opt_call fd) sockopts.

(** The calls made so far, the last one first. *)
Definition calls (m : Mem) : list Syscall := fst <$> m_hist m.

Section Sockopt.
Context (read_file : string -> string + error).
Context (resolve : string -> string -> option netAddr).
Context `{K : Kernel}.
Implicit Types (m : Mem).

Definition called (c : Syscall) m : Mem := set_m_hist ((c, k_answer (m_hist m) c) :: m_hist m) m.

Lemma runs_sys_err c m :
  runs (sys_err c) m
    (let e := sys_errno (k_answer (m_hist m) c) in if e =? 0 then None else Some (Errno e))
    (called c m).
Proof. eapply runs_bind; [by apply runs_act|apply runs_ret]. Qed.

Lemma runs_sys_ok c m : sys_errno (k_answer (m_hist m) c) = 0 -> runs (sys_err c) m None (called c m).
Proof. intros H. eapply runs_eq; [apply runs_sys_err| |done]. cbn. by rewrite H. Qed.

(** The options are set one after the other. *)
Lemma runs_set_sockopts fd opts :
  (forall h lv o, sys_errno (k_answer h (SysSetsockoptInt fd lv o 1)) = 0) ->
  TCPFastopen ∉ opts \/ FastOpenAllowed read_file = None ->
  forall m, exists m', runs (set_sockopts read_file fd opts) m None m' /\
    calls m' = rev (opt_calls fd opts) ++ calls m /\
    m_cells m' = m_cells m /\ m_conns m' = m_conns m /\ m_ring m' = m_ring m.
Proof.
  intros Hok. induction opts as [|o opts IH]; intros Hf m.
  { exists m. split; [apply runs_ret|done]. }
  assert (TCPFastopen ∉ opts \/ FastOpenAllowed read_file = None) as Hf' by set_solver.
  cbn [set_sockopts opt_calls omap list_omap]. unfold opt_call at 1.
  destruct (Z.eqb_spec o SOReuseport) as [->|Hn1].
  { destruct (IH Hf' (called (SysSetsockoptInt fd SOL_SOCKET SOReuseport 1) m)) as (m' & Hr & Hc & ? & ? & ?).
    exists m'. split; [eapply runs_bind; [by apply runs_sys_ok|exact Hr]|].
    cbn [rev]. rewrite <- app_assoc. done. }
  destruct (Z.eqb_spec o TCPFastopen) as [->|Hn2]; [|by apply IH].
  destruct Hf as [Hf| ->]; [set_solver|].
  destruct (IH Hf' (called (SysSetsockoptInt fd SOL_TCP TCPFastopen 1) m)) as (m' & Hr & Hc & ? & ? & ?).
  exists m'. split; [eapply runs_bind; [by apply runs_sys_ok|exact Hr]|].
  cbn [rev]. rewrite <- app_assoc. done.
Qed.

Lemma runs_Socket domain typ m :
  let s := SysSocket domain typ 0 in
  let r := k_answer (m_hist m) s in
  runs (Socket domain typ) m
    (if sys_errno r =? 0 then (i64 (sys_r1 r), None) else (-1, Some (Errno (sys_errno r))))
    (called s m).
Proof.
  intros s r. eapply runs_bind; [by apply runs_act|]. cbn beta. fold s r.
  destruct (sys_errno r =? 0); apply runs_ret.
Qed.

(** The socket calls of the networks with an address, whether the address is an
    IPv6 one, and whether the listener is told the resolved address. *)
Definition inet_network (network : string) (domain typ : Z) (v6 known : bool) : Prop :=
  In (network, domain, typ, v6, known)
    [("tcp", AF_INET, SOCK_STREAM, false, true); ("tcp4", AF_INET, SOCK_STREAM, false, true);
     ("tcp6", AF_INET6, SOCK_STREAM, true, true); ("udp", AF_INET, SOCK_DGRAM, false, false);
     ("udp4", AF_INET, SOCK_DGRAM, false, false); ("udp6", AF_INET, SOCK_DGRAM, true, true)]%string.

(** The address that is bound: the first bytes of the resolved one, as many as the
    family has, with zeros if there are fewer; and the address of the listener. *)
Definition truncated_addr (v6 : bool) (na : netAddr) : Sockaddr :=
  if v6 then SockaddrInet6 (na_Port na) (copy_ip 16 (na_IP na))
  else SockaddrInet4 (na_Port na) (copy_ip 4 (na_IP na)).
Definition listen_addr (network : string) (known : bool) (na : netAddr) : addr :=
  if known then mkAddr (na_Network na) (na_String na) else mkAddr network EmptyString.

Lemma runs_open_socket network domain typ v6 known address m :
  inet_network network domain typ v6 known ->
  let s := SysSocket domain typ 0 in
  let r := k_answer (m_hist m) s in
  runs (open_socket resolve network address) m
    (if sys_errno r =? 0 then
       match resolve network address with
       | Some na => inr (i64 (sys_r1 r), None, truncated_addr v6 na, listen_addr network known na)
       | None => inl (ErrMsg "could not open socket")
       end
     else inl (ErrMsg "could not open socket"))
    (called s m).
Proof.
  intros Hn s r.
  repeat (destruct Hn as [[= <- <- <- <- <-]|Hn]); [..|done];
    unfold open_socket; repeat (rewrite bool_decide_true by naive_solver || rewrite bool_decide_false by naive_solver);
    (eapply runs_bind; [apply runs_Socket|]); fold s r;
    destruct (sys_errno r =? 0); try apply runs_ret; cbn beta iota;
    destruct (resolve _ address) as [na|]; apply runs_ret.
Qed.

(** The socket calls of a network and an address, the address that is bound and the
    one the listener is told. *)
Inductive listens_on : string -> string -> Z -> Z -> Sockaddr -> addr -> Prop :=
| listens_inet network address domain typ v6 known na :
    inet_network network domain typ v6 known -> resolve network address = Some na ->
    listens_on network address domain typ (truncated_addr v6 na) (listen_addr network known na)
| listens_unix address :
    listens_on "unix" address AF_UNIX SOCK_STREAM (SockaddrUnix address) (mkAddr "unix" EmptyString).

Lemma runs_open_ok network address domain typ sa a m :
  listens_on network address domain typ sa a ->
  let s := SysSocket domain typ 0 in
  let r := k_answer (m_hist m) s in
  sys_errno r = 0 ->
  runs (open_socket resolve network address) m (inr (i64 (sys_r1 r), None, sa, a)) (called s m).
Proof.
  intros [net adr dom ty v6 known na Hn Hr|adr] s r Hs.
  - eapply runs_eq; [by apply (runs_open_socket net dom ty v6 known adr m Hn)| |done].
    cbn zeta. fold s r. by rewrite Hs, Hr.
  - unfold open_socket. rewrite !bool_decide_false, bool_decide_true by naive_solver.
    eapply runs_bind; [apply runs_Socket|]. fold s r. rewrite Hs. apply runs_ret.
Qed.

(** The bytes of an IP address in a socket address of its family. *)
Definition ip_size (sa : Sockaddr) : nat :=
  match sa with SockaddrInet4 _ _ => 4 | SockaddrInet6 _ _ => 16 | SockaddrUnix _ => 0 end.

(** The socket address of the resolved one. *)
Definition names (sa : Sockaddr) (na : netAddr) : Prop :=
  match sa with
  | SockaddrInet4 port ip | SockaddrInet6 port ip => port = na_Port na /\ ip = na_IP na
  | SockaddrUnix _ => False
  end.

(** The 16-byte form of an IPv4 address. *)
Definition v4_mapped (ip : list Z) : list Z := replicate 10 0 ++ [255; 255] ++ ip.

Lemma copy_ip_whole n ip : length ip = n -> copy_ip n ip = ip.
Proof. intros <-. apply take_app_length. Qed.

Lemma truncated_names v6 na : length (na_IP na) = ip_size (truncated_addr v6 na) -> names (truncated_addr v6 na) na.
Proof. destruct v6; cbn; intros H; (split; [done|by apply copy_ip_whole]). Qed.

Lemma truncated_any v6 na ip :
  na_IP na = v4_mapped ip -> ip_size (truncated_addr v6 na) = 4%nat ->
  truncated_addr v6 na = SockaddrInet4 (na_Port na) [0; 0; 0; 0].
Proof. destruct v6; [done|]. cbn. by intros ->. Qed.

(** The two channels of the listener are made before anything else. *)
Definition made_channels (l : ringListener) m : Prop :=
  m_cells m !! l_stop l = Some 0 /\ m_conns m !! l_newConn l = Some [].

(** The calls up to the last option, for a socket and an address that are found. *)
Lemma runs_listener_calls network domain typ address sa ad errHandler opts m :
  let s := SysSocket domain typ 0 in
  let fd := i64 (sys_r1 (k_answer (m_hist m) s)) in
  listens_on network address domain typ sa ad ->
  sys_errno (k_answer (m_hist m) s) = 0 ->
  (forall h lv o, sys_errno (k_answer h (SysSetsockoptInt fd lv o 1)) = 0) ->
  TCPFastopen ∉ opts \/ FastOpenAllowed read_file = None ->
  exists a b m1, calls m1 = rev (opt_calls fd opts) ++ s :: calls m /\ m_ring m1 = m_ring m /\
    made_channels (mkListener fd ad false errHandler a b) m1 /\
    forall r m', runs (e ← sys_err (SysBind fd sa);
        match e with
        | Some e => _ ← close_with fd e; Ret (inl e)
        | None =>
            e ← sys_err (SysListen fd SOMAXCONN);
            match e with
            | Some e => _ ← close_with fd e; Ret (inl e)
            | None =>
                debug ← ring_load r_debug;
                Ret (inr (mkListener fd ad debug errHandler a b))
            end
        end) m1 r m' ->
      runs (SockoptListener read_file resolve network address errHandler opts) m r m'.
Proof.
  intros s fd Hn Hs Hok Hf. set (a := fresh (dom (m_cells m))).
  set (m1 := set_m_cells (<[a := 0]> (m_cells m)) m).
  set (b := fresh (dom (m_conns m1))). set (m2 := set_m_conns (<[b := []]> (m_conns m1)) m1).
  destruct (runs_set_sockopts fd opts Hok Hf (called s m2)) as (m3 & Hrun & Hc & Hce & Hco & Hri).
  exists a, b, m3. split_and!; [done|done| |].
  - unfold made_channels. rewrite Hce, Hco. cbn. by rewrite !lookup_insert_eq.
  - intros r m' Hrest. do 2 (eapply runs_bind; [by apply runs_act|]).
    eapply runs_bind; [by apply (runs_open_ok network address domain typ sa ad m2 Hn)|].
    change (m_hist m2) with (m_hist m). fold s fd. cbn beta iota.
    eapply runs_bind; [exact Hrun|exact Hrest].
Qed.

(** All the calls succeed. *)
Lemma runs_listener_ok network domain typ address sa ad errHandler opts m :
  let s := SysSocket domain typ 0 in
  let fd := i64 (sys_r1 (k_answer (m_hist m) s)) in
  listens_on network address domain typ sa ad ->
  (forall h c, sys_errno (k_answer h c) = 0) ->
  TCPFastopen ∉ opts \/ FastOpenAllowed read_file = None ->
  exists l m', runs (SockoptListener read_file resolve network address errHandler opts) m (inr l) m' /\
    l_fd l = fd /\ l_a l = ad /\ l_debug l = r_debug (m_ring m) /\
    l_errHandler l = errHandler /\ made_channels l m' /\ m_ring m' = m_ring m /\
    calls m' = SysListen fd SOMAXCONN :: SysBind fd sa ::
               rev (opt_calls fd opts) ++ s :: calls m.
Proof.
  intros s fd Hn Hok Hf.
  destruct (runs_listener_calls network domain typ address sa ad errHandler opts m)
    as (a & b & m1 & Hc & Hri & Hch & Hrun); [done..|].
  eexists _, _. split.
  { apply Hrun. eapply runs_bind; [by apply runs_sys_ok|]. cbn beta iota.
    eapply runs_bind; [by apply runs_sys_ok|]. cbn beta iota.
    eapply runs_bind; [by apply runs_load|apply runs_ret]. }
  split_and!; [done|done|by cbn; rewrite Hri|done|done|exact Hri|]. unfold fd, s. by rewrite <- Hc.
Qed.
End Sockopt.

(** C35. When every call succeeds, [SockoptListener] on any of the networks it knows
    opens a socket of the family, sets the options it knows in the order given,
    binds and listens, in this order and nothing else.  The listener has the
    descriptor of the socket, the debug flag of the ring, an open stop channel and
    an empty channel of connections.  The address that is bound is the path on
    "unix"; on the other networks it has the resolved port and the first 4 or 16
    bytes of the resolved IP address: it is the resolved address when that has as
    many bytes as the family, and 0.0.0.0, all interfaces, when it is an IPv4
    address in the 16-byte form of package net. *)
Theorem SockoptListener_opens (K : Kernel) (read_file : string -> string + error)
    (resolve : string -> string -> option netAddr)
    (network address : string) (domain typ : Z) (sa : Sockaddr) (ad : addr) (errHandler : bool) (opts : list Z) (m : Mem)
    (Hn : listens_on resolve network address domain typ sa ad)
    (Hok : forall h c, sys_errno (k_answer h c) = 0)
    (Hf : TCPFastopen ∉ opts \/ FastOpenAllowed read_file = None) :
  let s := SysSocket domain typ 0 in
  let fd := i64 (sys_r1 (k_answer (m_hist m) s)) in
  (exists l m', runs (SockoptListener read_file resolve network address errHandler opts) m (inr l) m' /\
    l_fd l = fd /\ l_a l = ad /\ l_debug l = r_debug (m_ring m) /\ l_errHandler l = errHandler /\
    made_channels l m' /\
    calls m' = SysListen fd SOMAXCONN :: SysBind fd sa :: rev (opt_calls fd opts) ++ s :: calls m) /\
  (network = "unix"%string -> sa = SockaddrUnix address) /\
  (network <> "unix"%string -> exists na, resolve network address = Some na /\
    (length (na_IP na) = ip_size sa -> names sa na) /\
    (forall ip, na_IP na = v4_mapped ip -> ip_size sa = 4%nat -> sa = SockaddrInet4 (na_Port na) [0; 0; 0; 0])).
Proof.
  intros s fd. split_and!.
  - destruct (runs_listener_ok read_file resolve network domain typ address sa ad errHandler opts m)
      as (l & m' & Hl & H1 & H2 & H3 & H4 & H5 & _ & H6); [done..|].
    exists l, m'. by split_and!.
  - intros ->. inversion Hn as [? ? ? ? ? ? ? Hin|]; [|done]. cbn in Hin. naive_solver.
  - intros Hne. destruct Hn as [net adr dom ty v6 known na Hn Hr|]; [|done].
    exists na. split_and!; [done|apply truncated_names|intros ip; apply truncated_any].
Qed.

Definition localhost : netAddr := mkNetAddr [127; 0; 0; 1] 80 "tcp" "127.0.0.1:80".
Definition sample_resolve (network address : string) : option netAddr :=
  if bool_decide (address = "127.0.0.1:80"%string) then Some localhost else None.
Definition sample_file (path : string) : string + error := inl "3"%string.

Lemma SockoptListener_opens_witness :
  let K := still_kernel 6 0 in
  (exists l m', runs (SockoptListener sample_file sample_resolve "tcp" "127.0.0.1:80" false
      [SOReuseport; 99; TCPFastopen]) sample_mem (inr l) m' /\
    l_fd l = 6 /\ l_a l = mkAddr "tcp" "127.0.0.1:80" /\ l_debug l = false /\ l_errHandler l = false /\ made_channels l m' /\
    calls m' = [SysListen 6 128; SysBind 6 (SockaddrInet4 80 [127; 0; 0; 1]);
                SysSetsockoptInt 6 6 23 1; SysSetsockoptInt 6 1 15 1; SysSocket 2 1 0]) /\
  exists l m', runs (SockoptListener sample_file sample_resolve "unix" "/tmp/s" false []) sample_mem (inr l) m' /\
    calls m' = [SysListen 6 128; SysBind 6 (SockaddrUnix "/tmp/s"); SysSocket 1 1 0].
Proof.
  intros K. split.
  - apply (SockoptListener_opens K sample_file sample_resolve "tcp" "127.0.0.1:80"
      AF_INET SOCK_STREAM (SockaddrInet4 80 [127; 0; 0; 1]) (mkAddr "tcp" "127.0.0.1:80") false
      [SOReuseport; 99; TCPFastopen] sample_mem); [|done|by right].
    apply (listens_inet sample_resolve "tcp" "127.0.0.1:80" AF_INET SOCK_STREAM false true localhost); [by left|done].
  - destruct (SockoptListener_opens K sample_file sample_resolve "unix" "/tmp/s" AF_UNIX SOCK_STREAM
      (SockaddrUnix "/tmp/s") (mkAddr "unix" EmptyString) false [] sample_mem) as [(l & m' & H1 & _ & _ & _ & _ & _ & H2) _];
      [constructor|done|by left; set_solver|].
    by exists l, m'.
Defined.

(** C40. On the networks with an IP address: when bind or listen fails after the socket and its options succeeded,
    [SockoptListener] returns the error number and closes the descriptor as its
    last call.  When the address does not resolve, or a fast open option is
    the first one and not allowed, it returns an error and the descriptor stays open:
    no close is among the calls. *)
Theorem SockoptListener_errors (K : Kernel) (read_file : string -> string + error)
    (resolve : string -> string -> option netAddr)
    (network address : string) (domain typ : Z) (v6 known errHandler : bool) (m : Mem)
    (Hn : inet_network network domain typ v6 known)
    (Hs : forall h, sys_errno (k_answer h (SysSocket domain typ 0)) = 0) :
  let s := SysSocket domain typ 0 in
  let fd := i64 (sys_r1 (k_answer (m_hist m) s)) in
  (forall na opts, resolve network address = Some na ->
    (forall h lv o, sys_errno (k_answer h (SysSetsockoptInt fd lv o 1)) = 0) ->
    TCPFastopen ∉ opts \/ FastOpenAllowed read_file = None ->
    let bind := SysBind fd (truncated_addr v6 na) in
    let listen := SysListen fd SOMAXCONN in
    let before := rev (opt_calls fd opts) ++ s :: calls m in
    forall e, e <> 0 ->
    ((forall h, sys_errno (k_answer h bind) = e) ->
     exists m', runs (SockoptListener read_file resolve network address errHandler opts) m
         (inl (Errno e)) m' /\ calls m' = SysClose (u64 fd) :: bind :: before) /\
    ((forall h, sys_errno (k_answer h bind) = 0) -> (forall h, sys_errno (k_answer h listen) = e) ->
     exists m', runs (SockoptListener read_file resolve network address errHandler opts) m
         (inl (Errno e)) m' /\ calls m' = SysClose (u64 fd) :: listen :: bind :: before)) /\
  (resolve network address = None -> forall opts,
    exists e m', runs (SockoptListener read_file resolve network address errHandler opts) m (inl e) m' /\
      calls m' = s :: calls m) /\
  (forall na e opts, resolve network address = Some na ->
    FastOpenAllowed read_file = Some e ->
    exists m', runs (SockoptListener read_file resolve network address errHandler (TCPFastopen :: opts)) m
        (inl e) m' /\ calls m' = s :: calls m).
Proof.
  intros s fd. split_and!.
  - intros na opts Hr Hok Hf bind listen before e He.
    destruct (runs_listener_calls read_file resolve network domain typ address (truncated_addr v6 na)
      (listen_addr network known na) errHandler opts m) as (a & b & m1 & Hc & _ & _ & Hrun);
      [by apply listens_inet|apply Hs|done|done|].
    unfold bind, listen, before. fold s fd in Hc, Hrun. rewrite <- Hc. split.
    + intros Hb. eexists. split; [apply Hrun; eapply runs_bind; [apply runs_sys_err|]|].
      * cbn zeta. rewrite Hb, (proj2 (Z.eqb_neq e 0) He). cbn beta iota.
        eapply runs_bind; [eapply runs_bind; [by apply runs_act|apply runs_ret]|apply runs_ret].
      * reflexivity.
    + intros Hb Hl. eexists. split; [apply Hrun; eapply runs_bind; [by apply runs_sys_ok|]|].
      * cbn beta iota. eapply runs_bind; [apply runs_sys_err|]. cbn zeta.
        rewrite Hl, (proj2 (Z.eqb_neq e 0) He). cbn beta iota.
        eapply runs_bind; [eapply runs_bind; [by apply runs_act|apply runs_ret]|apply runs_ret].
      * reflexivity.
  - intros Hr opts. eexists _, _. split.
    { do 2 (eapply runs_bind; [by apply runs_act|]).
      eapply runs_bind; [by eapply runs_open_socket|]. rewrite Hs, Hr. cbn [Z.eqb]. apply runs_ret. }
    reflexivity.
  - intros na e opts Hr Hf. eexists. split.
    { do 2 (eapply runs_bind; [by apply runs_act|]).
      eapply runs_bind; [by eapply runs_open_socket|]. rewrite Hs, Hr. cbn [Z.eqb].
      eapply runs_bind; [cbn [set_sockopts]; rewrite Hf; apply runs_ret|apply runs_ret]. }
    reflexivity.
Qed.

(** A kernel that fails the calls to bind with EADDRINUSE. *)
Definition bind_fails_kernel : Kernel := {|
  k_answer := fun _ c => match c with SysBind _ _ => mkSysRes (-1) 98 | _ => mkSysRes 6 0 end;
  k_params := fun _ _ p => p;
  k_file := fun _ _ st => (mkSysRes 0 0, st);
  k_enter := fun _ _ _ _ st => mkView 0 0 0 0 0 0 [] st
|}.

Lemma SockoptListener_errors_witness :
  let K := bind_fails_kernel in
  (exists m', runs (SockoptListener sample_file sample_resolve "udp" "127.0.0.1:80" false [15]) sample_mem
       (inl (Errno 98)) m' /\
     calls m' = [SysClose 6; SysBind 6 (SockaddrInet4 80 [127; 0; 0; 1]);
                 SysSetsockoptInt 6 1 15 1; SysSocket 2 2 0]) /\
  exists e m', runs (SockoptListener sample_file sample_resolve "udp" "nowhere" false [15]) sample_mem
       (inl e) m' /\ calls m' = [SysSocket 2 2 0].
Proof.
  intros K.
  assert (inet_network "udp" AF_INET SOCK_DGRAM false false) as Hn by (do 3 right; by left).
  split.
  - destruct (SockoptListener_errors K sample_file sample_resolve "udp" "127.0.0.1:80"
      AF_INET SOCK_DGRAM false false false sample_mem Hn (fun _ => eq_refl)) as [H _].
    apply (H localhost [15]); try done. by right.
  - by apply (SockoptListener_errors K sample_file sample_resolve "udp" "nowhere"
      AF_INET SOCK_DGRAM false false false sample_mem Hn (fun _ => eq_refl)).
Defined.
