(* ===== verification/Accepting.v ===== *)
(** * The listener among goroutines

    The goroutine of a listener, any number of calls of [Accept], and the rest of
    the program.  Connections travel from the answers of accept4 through the
    channel to the callers: in order, none lost and none twice. *)

From stdpp Require Import base list gmap strings relations.
From Stdlib Require Import ZArith Lia.
From S2P Require Import Prelude Prog Consts Types Machine Samples Submission Ops Completion FileIO Ledger.
From S2P Require Import Conn Listener ListenerSpec ConnPool.
Open Scope Z_scope.

(** ** The pool *)

(** The descriptors that accept4 returned for the socket [fd], the first one first. *)
Fixpoint accept4s (fd : Z) (h : history) : list Z :=
  match h with
  | [] => []
  | (c, r) :: h =>
      accept4s fd h ++
      match c with
      | SysAccept4 s _ => if (s =? u64 fd) && (sys_errno r =? 0) then [i64 (sys_r1 r)] else []
      | _ => []
      end
  end.

(** What the rest of the program leaves alone: the channel and the socket. *)
Definition intake (l : ringListener) (m : Mem) : option (list ringConn) * list Z :=
  (m_conns m !! l_newConn l, accept4s (l_fd l) (m_hist m)).

#[global] Instance intake_aside l : Aside (intake l).
Proof.
  split; intros; unfold intake; try (by destruct m as [[]]). cbn. by rewrite app_nil_r.
Qed.

(** The calls of [Accept], the goroutine of the listener, and the memory. *)
Definition apool : Type := list (prog Mem (ringConn * err)) * prog Mem (list ringConn) * Mem.

Inductive apstep (l : ringListener) : apool -> apool -> Prop :=
| apstep_call i ps run X f k x m m' :
    ps !! i = Some (Step X f k) -> f m = (x, m') -> apstep l (ps, run, m) (<[i := k x]> ps, run, m')
| apstep_run ps X f k x m m' :
    f m = (x, m') -> apstep l (ps, Step X f k, m) (ps, k x, m')
| apstep_other ps run m m' :
    intake l m' = intake l m -> apstep l (ps, run, m) (ps, run, m').

(** ** A logic for the goroutine *)

Section Flows.
Context (l : ringListener).

(** The goroutine has sent [sent] and accepted [pend] besides.  An action accepts
    [new] and sends [more], in order; the channel is never over its capacity. *)
Fixpoint flows {A} (sent pend : list Z) (p : prog Mem A) (Q : A -> list Z -> list Z -> Prop) : Prop :=
  (length pend <= 1)%nat /\
  match p with
  | Ret a => Q a sent pend
  | Step X f k => forall m q, m_conns m !! l_newConn l = Some q -> len q <= newConnCap ->
      exists more new pend',
        intake l (snd (f m)) = (Some (q ++ more), accept4s (l_fd l) (m_hist m) ++ new) /\
        len (q ++ more) <= newConnCap /\ (rc_fd <$> more) ++ pend' = pend ++ new /\
        flows (sent ++ (rc_fd <$> more)) pend' (k (fst (f m))) Q
  | _ => True
  end.

Lemma flows_mono {A} sent pend (p : prog Mem A) (Q R : A -> list Z -> list Z -> Prop) :
  flows sent pend p Q -> (forall a s t, Q a s t -> R a s t) -> flows sent pend p R.
Proof.
  intros Hp HQ. revert sent pend Hp. induction p as [a|X f k IH|s|]; intros sent pend [Hl Hp]; cbn in *; auto.
  split; [done|]. intros m q Hq Hc. destruct (Hp m q Hq Hc) as (more & new & pend' & H1 & H2 & H3 & H4).
  exists more, new, pend'. auto.
Qed.

Lemma flows_bind {A B} sent pend (p : prog Mem A) (k : A -> prog Mem B) Q R :
  flows sent pend p Q -> (forall a s t, (length t <= 1)%nat -> Q a s t -> flows s t (k a) R) ->
  flows sent pend (p ≫= k) R.
Proof.
  intros Hp HQ. revert sent pend Hp.
  induction p as [a|X f g IH|s|]; intros sent pend [Hl Hp]; [by apply HQ| |done|done].
  split; [done|]. intros m q Hq Hc. destruct (Hp m q Hq Hc) as (more & new & pend' & H1 & H2 & H3 & H4).
  exists more, new, pend'. split_and!; [done|done|done|]. by apply IH.
Qed.

Lemma flows_ret {A} sent pend (a : A) (Q : A -> list Z -> list Z -> Prop) :
  (length pend <= 1)%nat -> Q a sent pend -> flows sent pend (Ret a) Q.
Proof. by split. Qed.

(** What does not touch the channel or accept leaves all as it is. *)
Lemma keeps_flows_bind {A B} sent pend (p : prog Mem A) (k : A -> prog Mem B) Q R :
  (length pend <= 1)%nat -> keeps (intake l) p Q -> (forall a, Q a -> flows sent pend (k a) R) ->
  flows sent pend (p ≫= k) R.
Proof.
  intros Hl Hp Hk. induction p as [a|X f g IH|s|]; [by apply Hk| |done|done].
  split; [done|]. intros m q Hq Hc. destruct (Hp m) as [E Hg]. exists [], [], pend.
  rewrite !app_nil_r. split_and!; [|done|done|by apply IH].
  cbn in E. rewrite E. unfold intake. by rewrite Hq.
Qed.

Section Kernel.
Context (peer : history -> Sockaddr) {K : Kernel} (fuel : nat).

(** A successful accept4 is pending until it is sent. *)
Lemma flows_accept sent x :
  ci_fd x = l_fd l ->
  flows sent [] (syscall (SysAccept4 (u64 (ci_fd x)) 2048)) (fun r s t =>
    s = sent /\ t = if sys_errno r =? 0 then [i64 (sys_r1 r)] else []).
Proof.
  intros ->. split; [cbn; lia|]. intros m q Hq Hc. set (r := k_answer (m_hist m) (SysAccept4 (u64 (l_fd l)) 2048)).
  exists [], (if sys_errno r =? 0 then [i64 (sys_r1 r)] else []), (if sys_errno r =? 0 then [i64 (sys_r1 r)] else []).
  rewrite !app_nil_r. split_and!; [|done|done|].
  - unfold intake. cbn. rewrite Hq, Z.eqb_refl. done.
  - cbn. fold r. split; [by destruct (_ =? _); cbn; lia|done].
Qed.

(** A send waits for room. *)
Lemma flows_send sent rc k :
  flows sent [rc_fd rc] (newConn_send k l rc) (fun _ s t => s = sent ++ [rc_fd rc] /\ t = []).
Proof.
  induction k as [|k IH]; [by split|]. cbn [newConn_send]. split; [done|]. intros m q Hq Hc.
  cbn. rewrite Hq. cbn. destruct (Z.ltb_spec (len q) newConnCap) as [Hlt|Hge]; cbn.
  - exists [rc], [], []. rewrite app_nil_r. split_and!; [|rewrite len_app; change (len [rc]) with 1; lia|done|by split; [cbn; lia|]].
    unfold intake. cbn. by rewrite lookup_insert_eq.
  - exists [], [], [rc_fd rc]. cbn. rewrite !app_nil_r. split_and!; [|done|done|exact IH].
    unfold intake. by rewrite Hq.
Qed.

Abbreviation kept p := (keeps (intake l) p (fun _ => True)).

Lemma kept_new_cell v : kept (new_cell v).
Proof. by apply keeps_act. Qed.

Lemma kept_poll fd id : kept (with_entry fuel (poll_entry fd id)).
Proof. apply (kept_with_entry _). intros i commit Hc. unfold poll_entry. kept_steps. Qed.

Lemma keeps_walk_loop conns k :
  (forall u x, conns !! u = Some x -> ci_fd x = l_fd l) ->
  forall i seenIdx seenEnd, keeps (intake l) (walk_loop conns k i seenIdx seenEnd)
    (fun r => forall x, r = Some x -> ci_fd x = l_fd l).
Proof.
  intros Hconns. induction k as [|k IH]; intros i seenIdx seenEnd; cbn [walk_loop]; [by intros x|].
  eapply keeps_bind; [eauto with kept|intros e _]. cbn zeta.
  destruct (if _ && _ then _ else _) as [s' b'].
  destruct (conns !! cqe_UserData e) as [x|] eqn:Ex; [|apply IH].
  eapply keeps_bind; [eauto with kept|intros _ _]. eapply keeps_bind; [eauto with kept|intros h _].
  eapply (keeps_bind _ _ _ (fun _ => True)); [kept_steps|intros _ _].
  intros ? [= <-]. by eapply Hconns.
Qed.

(** What the goroutine does with a connection: it is accepted and then sent. *)
Definition handed_on {A} (fds : A -> list Z) (sent : list Z) (a : A) (s t : list Z) : Prop :=
  s = sent ++ fds a /\ t = [].
Definition conn_fds (r : option ringConn) : list Z := from_option (fun rc => [rc_fd rc]) [] r.

Lemma flows_onListen sent x :
  ci_fd x = l_fd l -> flows sent [] (onListen peer fuel l x) (handed_on (fun rc => [rc_fd rc]) sent).
Proof.
  intros Hx. unfold onListen.
  do 4 (eapply keeps_flows_bind; [cbn; lia|apply kept_new_cell|intros ? _]).
  eapply keeps_flows_bind; [cbn; lia|apply keeps_load|intros sa _].
  eapply flows_bind; [by apply flows_accept|]. intros r s t Ht [-> ->].
  destruct (sys_errno r =? 0); [|done]. cbn [negb].
  do 2 (eapply keeps_flows_bind; [cbn; lia|apply kept_poll|intros _ _]).
  eapply flows_bind; [apply (flows_send sent (mkConn _ _ _ _ _ _ _))|].
  intros _ s t' ? [-> ->]. by split.
Qed.

Lemma flows_walkCq sent conns :
  (forall u x, conns !! u = Some x -> ci_fd x = l_fd l) ->
  flows sent [] (walkCq peer fuel l conns) (handed_on conn_fds sent).
Proof.
  intros Hconns.
  assert (forall x, ci_fd x = l_fd l ->
    flows sent [] (rc ← onListen peer fuel l x; Ret (Some rc)) (handed_on conn_fds sent)) as Hlisten.
  { intros x Hx. eapply flows_bind; [by apply flows_onListen|]. intros rc s t ? [-> ->]. by split. }
  assert (flows sent [] (Ret None) (handed_on conn_fds sent)) as Hnone.
  { apply flows_ret; [cbn; lia|]. by split; [rewrite app_nil_r|]. }
  unfold walkCq. do 3 (eapply keeps_flows_bind; [cbn; lia|eauto with kept|intros ? _]). cbn zeta.
  destruct (_ =? _); [exact Hnone|].
  eapply keeps_flows_bind; [cbn; lia|unfold walk_debug; kept_steps|intros _ _].
  eapply keeps_flows_bind; [cbn; lia|by apply keeps_walk_loop|]. intros [x|] Hx; [by apply Hlisten, Hx|].
  do 2 (eapply keeps_flows_bind; [cbn; lia|eauto with kept|intros ? _]).
  eapply keeps_flows_bind; [cbn; lia|by apply keeps_walk_loop|]. intros [x'|] Hx'; [by apply Hlisten, Hx'|done].
Qed.

Lemma flows_round sent conns :
  (forall u x, conns !! u = Some x -> ci_fd x = l_fd l) ->
  flows sent [] (listener_round peer fuel l conns) (handed_on conn_fds sent).
Proof.
  intros Hconns. unfold listener_round.
  eapply keeps_flows_bind; [cbn; lia|eauto with kept|intros [n [e|]] _]; [|by apply flows_walkCq].
  eapply (keeps_flows_bind _ _ _ _ (fun _ => True)); [cbn; lia| |intros _ _; apply flows_ret; [cbn; lia|by split; [rewrite app_nil_r|]]].
  destruct (l_errHandler l); [|done]. apply keeps_store. intros m. apply aside_errs.
Qed.

Lemma flows_loop rounds conns :
  (forall u x, conns !! u = Some x -> ci_fd x = l_fd l) ->
  forall sent, flows sent [] (listener_loop peer fuel rounds l conns) (handed_on (fmap rc_fd) sent).
Proof.
  intros Hconns. induction rounds as [|rounds IH]; intros sent; cbn [listener_loop]; [by split; [cbn; lia|]|].
  eapply keeps_flows_bind; [cbn; lia|apply keeps_try_load|intros v _].
  destruct (negb _); [apply flows_ret; [cbn; lia|by split; [rewrite app_nil_r|]]|].
  eapply flows_bind; [by apply flows_round|]. intros rc s t ? [-> ->].
  eapply flows_bind; [apply IH|]. intros rcs s t ? [-> ->]. apply flows_ret; [cbn; lia|].
  split; [|done]. destruct rc; cbn; by rewrite <- !app_assoc.
Qed.

Lemma flows_run rounds : flows [] [] (listener_run peer fuel rounds l) (handed_on (fmap rc_fd) []).
Proof.
  unfold listener_run.
  eapply (keeps_flows_bind _ _ _ _ (fun conns => forall u x, conns !! u = Some x -> ci_fd x = l_fd l));
    [cbn; lia| |intros conns Hconns; by apply flows_loop].
  unfold listener_start. eapply keeps_bind; [eauto with kept|intros id _]. cbn zeta.
  eapply keeps_bind; [apply kept_poll|intros _ _]. by intros u x [<- <-]%lookup_singleton_Some.
Qed.
End Kernel.

(** ** The calls of [Accept] *)

(** The descriptor that a call returned. *)
Definition received (p : prog Mem (ringConn * err)) : option Z :=
  match p with Ret (rc, None) => Some (rc_fd rc) | _ => None end.

Lemma omap_received ps : forall i p p',
  ps !! i = Some p -> received p = None ->
  omap received (<[i := p']> ps) ≡ₚ omap received ps ++ option_list (received p').
Proof.
  induction ps as [|a ps IH]; intros [|i] p p' Hi Hp; simplify_eq/=.
  - rewrite Hp. destruct (received p'); cbn; [apply Permutation_cons_append|by rewrite app_nil_r].
  - destruct (received a); cbn; by rewrite (IH i p p' Hi Hp).
Qed.

(** A call waits or has returned a connection. *)
Definition accepting (p : prog Mem (ringConn * err)) : Prop :=
  (exists k, p = listener_Accept k l) \/ (exists rc, p = Ret (rc, None)).

Lemma accepting_good p :
  accepting p -> match p with Ret (_, e) => e = None | Panic _ => False | _ => True end.
Proof. by intros [[[|k] ->]|[rc ->]]. Qed.

(** An action of a call looks in vain, or takes the first connection. *)
Lemma accepting_step p m q :
  accepting p -> m_conns m !! l_newConn l = Some q ->
  match p with
  | Step X f k => accepting (k (fst (f m))) /\
      exists q', intake l (snd (f m)) = (Some q', accept4s (l_fd l) (m_hist m)) /\
        rc_fd <$> q = option_list (received (k (fst (f m)))) ++ (rc_fd <$> q') /\ len q' <= len q
  | _ => True
  end.
Proof.
  intros [[[|n] ->]|[rc ->]] Hq; [done| |done].
  unfold listener_Accept. cbn [newConn_recv]. cbv beta iota delta [mbind prog_mbind prog_bind try_act].
  cbn [fst snd]. rewrite Hq. destruct q as [|rc q]; cbn [option_bind fst snd].
  - split; [left; by exists n|]. exists []. split_and!; [unfold intake; by rewrite Hq| |done].
    destruct n; reflexivity.
  - split; [right; by exists rc|]. exists q. unfold intake. cbn. rewrite lookup_insert_eq.
    split_and!; [done|done|unfold len; cbn; lia].
Qed.

(** ** The invariant *)

(** [acc0] were accepted before; [taken] have been received. *)
Definition conveyed (acc0 : list Z) (s : apool) : Prop :=
  let '(ps, run, m) := s in
  exists taken q pend,
    m_conns m !! l_newConn l = Some q /\ len q <= newConnCap /\
    accept4s (l_fd l) (m_hist m) = acc0 ++ taken ++ (rc_fd <$> q) ++ pend /\
    taken ≡ₚ omap received ps /\ Forall accepting ps /\
    flows (taken ++ (rc_fd <$> q)) pend run (handed_on (fmap rc_fd) []).

Lemma conveyed_step acc0 s s' : apstep l s s' -> conveyed acc0 s -> conveyed acc0 s'.
Proof.
  intros [i ps run X f k x m m' Hi Hf|ps X f k x m m' Hf|ps run m m' He]
    (taken & q & pend & Hq & Hc & Ha & Hp & Hps & Hfl).
  - pose proof (Forall_lookup_1 _ _ _ _ Hps Hi) as Hacc.
    destruct (accepting_step _ m q Hacc Hq) as (Hacc' & q' & Hm & Hqq & Hlen). rewrite Hf in *. cbn in *.
    injection Hm as Hq' Ha'. exists (taken ++ option_list (received (k x))), q', pend.
    rewrite Ha', Ha. rewrite Hqq in *. rewrite <- !app_assoc in *. split_and!; [done|lia|done| |by apply Forall_insert|done].
    rewrite omap_received, Hp by done. done.
  - destruct Hfl as [Hl Hfl]. destruct (Hfl m q Hq Hc) as (more & new & pend' & Hm & Hc' & Hpend & Hfl').
    rewrite Hf in *. cbn in *. injection Hm as Hq' Ha'. exists taken, (q ++ more), pend'.
    rewrite fmap_app, <- !app_assoc in *. split_and!; [done|done| |done|done|done].
    rewrite Ha', Ha, Hpend, <- !app_assoc. done.
  - injection He as Hq' Ha'. exists taken, q, pend. rewrite Hq', Ha'. done.
Qed.

Lemma conveyed_steps acc0 s s' : rtc (apstep l) s s' -> conveyed acc0 s -> conveyed acc0 s'.
Proof. induction 1; eauto using conveyed_step. Qed.
End Flows.

(** C33. Every connection is handed over once, in order.  A listener's goroutine, any
    number of calls of [Accept] and a program that leaves the channel and the
    socket alone: in every interleaving, what accept4 returned for the socket is,
    in this order, what the calls have received (in whatever order they came),
    what waits in the channel, and at most one connection that is on its way there.
    The channel never holds more than its capacity; a call neither panics nor
    returns an error; and when the goroutine ends, nothing is on its way and its
    connections are those received and waiting. *)
Theorem accept_once (peer : history -> Sockaddr) {K : Kernel} (fuel rounds : nat) (fuels : list nat)
    (l : ringListener) (m m' : Mem) (ps : list (prog Mem (ringConn * err))) (run : prog Mem (list ringConn))
    (Hq : m_conns m !! l_newConn l = Some [])
    (Hsteps : rtc (apstep l) ((fun k => listener_Accept k l) <$> fuels, listener_run peer fuel rounds l, m) (ps, run, m')) :
  exists taken q pend,
    m_conns m' !! l_newConn l = Some q /\ len q <= newConnCap /\ (length pend <= 1)%nat /\
    accept4s (l_fd l) (m_hist m') = accept4s (l_fd l) (m_hist m) ++ taken ++ (rc_fd <$> q) ++ pend /\
    taken ≡ₚ omap received ps /\
    Forall (fun p => match p with Ret (_, e) => e = None | Panic _ => False | _ => True end) ps /\
    forall rcs, run = Ret rcs -> pend = [] /\ rc_fd <$> rcs = taken ++ (rc_fd <$> q).
Proof.
  apply (conveyed_steps l (accept4s (l_fd l) (m_hist m))) in Hsteps.
  - destruct Hsteps as (taken & q & pend & Hq' & Hc & Ha & Hp & Hps & Hfl). exists taken, q, pend.
    split_and!; [done|done|by destruct run; destruct Hfl|done|done| |].
    + eapply Forall_impl; [exact Hps|]. apply accepting_good.
    + intros rcs ->. destruct Hfl as [_ [Hs ->]]. done.
  - exists [], [], []. split_and!; [done|done|by rewrite app_nil_r| | |apply flows_run].
    + clear. induction fuels as [|[|k] fuels IH]; [done|exact IH|exact IH].
    + apply Forall_fmap, Forall_true. intros k. left. by exists k.
Qed.

(** ** Witness *)

(** A schedule: an action of the goroutine, of a call, or the flag of [Close]. *)
Inductive amove := AGo | ACall (i : nat) | AStop.

Definition amove_step (l : ringListener) (v : amove) (s : apool) : apool :=
  let '(ps, run, m) := s in
  match v with
  | AGo => match run with Step X f k => let '(x, m') := f m in (ps, k x, m') | _ => s end
  | ACall i =>
      match ps !! i with
      | Some (Step X f k) => let '(x, m') := f m in (<[i := k x]> ps, run, m')
      | _ => s
      end
  | AStop => (ps, run, set_m_cells (<[l_stop l := 1]> (m_cells m)) m)
  end.

Lemma amove_steps l vs : forall s, rtc (apstep l) s (foldl (fun s v => amove_step l v s) s vs).
Proof.
  induction vs as [|v vs IH]; intros s; [done|]. cbn [foldl]. etransitivity; [|apply IH].
  destruct s as [[ps run] m]. destruct v as [|i|]; cbn [amove_step].
  - destruct run as [a|X f k|msg|]; [done| |done|done].
    destruct (f m) as [x m'] eqn:E. by apply rtc_once, apstep_run.
  - destruct (ps !! i) as [[a|X f k|msg|]|] eqn:E; [done| |done..].
    destruct (f m) as [x m'] eqn:E'. by apply rtc_once, (apstep_call _ i _ _ X f k).
  - by apply rtc_once, apstep_other.
Qed.

Definition accept_mem : Mem := set_m_cells {[0%nat := 0]} listen_mem.
Definition accept_start : apool :=
  ((fun k => listener_Accept k sample_listener) <$> [2%nat; 2%nat],
   @listener_run sample_peer (still_kernel 6 0) 1 3 sample_listener, accept_mem).
(** The goroutine accepts twice; a call receives; the listener is closed, and the
    goroutine ends. *)
Definition accept_end : apool :=
  foldl (fun s v => amove_step sample_listener v s) accept_start
    (replicate 80 AGo ++ [ACall 1%nat; AStop] ++ replicate 100 AGo).

Lemma accept_received : omap received accept_end.1.1 = [6].
Proof. vm_compute. reflexivity. Qed.

Lemma accept_ended : exists rcs, accept_end.1.2 = Ret rcs /\ rc_fd <$> rcs = [6; 6].
Proof. vm_compute. by eexists. Qed.

Lemma accept_reaches s : s = accept_end -> rtc (apstep sample_listener) accept_start (s.1.1, s.1.2, s.2).
Proof. intros Hs. replace (s.1.1, s.1.2, s.2) with s by (by destruct s as [[]]). subst s. apply amove_steps. Qed.

Lemma accept_once_witness :
  let l := sample_listener in
  exists ps (run : prog Mem (list ringConn)) (m' : Mem), omap received ps = [6] /\ (exists rcs, run = Ret rcs /\ rc_fd <$> rcs = [6; 6]) /\
  exists taken q pend,
    m_conns m' !! l_newConn l = Some q /\ len q <= newConnCap /\ (length pend <= 1)%nat /\
    accept4s (l_fd l) (m_hist m') = accept4s (l_fd l) (m_hist accept_mem) ++ taken ++ (rc_fd <$> q) ++ pend /\
    taken ≡ₚ omap received ps /\
    Forall (fun p => match p with Ret (_, e) => e = None | Panic _ => False | _ => True end) ps /\
    forall rcs, run = Ret rcs -> pend = [] /\ rc_fd <$> rcs = taken ++ (rc_fd <$> q).
Proof.
  intros l. exists accept_end.1.1, accept_end.1.2, accept_end.2.
  split; [exact accept_received|]. split; [exact accept_ended|].
  exact (accept_once sample_peer (K := still_kernel 6 0) 1 3 [2%nat; 2%nat] l accept_mem
    _ _ _ eq_refl (accept_reaches accept_end eq_refl)).
Defined.
