(* ===== verification/Net.v ===== *)
(** * The HTTP server of the examples (examples/net/main.go)

    [main] makes a ring with an error handler, opens a listener on it and hands
    the listener to an HTTP server for its handler; the server is a parameter. *)

From stdpp Require Import base list gmap strings pretty.
From Stdlib Require Import ZArith Lia.
From S2P Require Import Prelude Prog Consts Types Machine Samples Submission SubmissionSpec Ops Setup SetupSpec.
From S2P Require Import Files Cp CpMain Conn Listener ListenerSpec.
Open Scope Z_scope.

(** ** The handler *)

(** A response as its writer has it, without the headers. *)
Record response := mkResponse { w_status : option Z; w_body : list Z }.

(** The status is that of the first [WriteHeader], or of the first [Write]. *)
Definition WriteHeader (code : Z) (w : response) : response :=
  match w_status w with Some _ => w | None => mkResponse (Some code) (w_body w) end.
Definition response_Write (bs : list Z) (w : response) : response :=
  let w := WriteHeader 200 w in mkResponse (w_status w) (w_body w ++ bs).
Definition NotFound (w : response) : response :=
  response_Write (bytes_of "404 page not found" ++ [10]) (WriteHeader 404 w).

Definition net_handler (path : string) (w : response) : response :=
  if negb (String.eqb path "/") then NotFound w
  else response_Write (bytes_of "hello io_uring!" ++ [10]) w.

(** The root is greeted, everything else is not found. *)
Lemma net_handler_spec path :
  let w := net_handler path (mkResponse None []) in
  if bool_decide (path = "/"%string)
  then w_status w = Some 200 /\ w_body w = bytes_of "hello io_uring!" ++ [10]
  else w_status w = Some 404 /\ w_body w = bytes_of "404 page not found" ++ [10].
Proof.
  unfold net_handler. destruct (String.eqb_spec path "/") as [->|Hne]; cbn.
  - by rewrite bool_decide_true.
  - by rewrite bool_decide_false.
Qed.

(** ** [main] *)

Section Net.
Context {K : Kernel} (rd : Z -> Z) (rd_sqe : Z -> SubmitEntry_t) (rd_cqe : Z -> CompletionEntry).
Context (read_file : string -> string + error) (resolve : string -> string -> option netAddr).

(** The options, with the value of the flag [debug]. *)
Definition net_ops (debug : bool) : list RingOption :=
  let ops := [WithEnterErrHandler true] in
  if debug then ops ++ [WithDebug] else ops.

(** [fmt.Sprintf] of [":%d"]. *)
Definition net_address (port : Z) : string := ":" +:+ pretty port.

(** [main] up to the server: the listener, or the error of [log.Fatal]. *)
Definition net_listen (debug : bool) (port : Z) : prog Mem (error + ringListener) :=
  e ← New rd rd_sqe rd_cqe 8192 (Some iouring_params) (net_ops debug);
  match e with
  | Some e => Ret (inl e)
  | None => SockoptListener read_file resolve "tcp" (net_address port) true [SOReuseport]
  end.

(** [main]: [Serve] of a server for the handler, and the deferred [Close] of the
    listener, which [log.Fatal] does not run. *)
Definition net_main (Serve : (string -> response -> response) -> ringListener -> prog Mem err) (debug : bool) (port : Z) : prog Mem err :=
  r ← net_listen debug port;
  match r with
  | inl e => Ret (Some e)
  | inr l =>
      e ← Serve net_handler l;
      match e with
      | Some e => Ret (Some e)
      | None => _ ← listener_Close l; Ret None
      end
  end.
End Net.

Section NetRuns.
Context {K : Kernel}.

Lemma runs_net_ops debug m :
  runs (apply_options (net_ops debug)) m None
    (upd_ring (fun r => (if debug then set_r_debug true else id) (set_r_enterErrHandler true r)) m).
Proof.
  destruct debug; cbn; eapply runs_bind; try (eapply runs_bind; [by apply runs_store|apply runs_ret]); cbn.
  - eapply runs_bind; [eapply runs_bind; [by apply runs_store|apply runs_ret]|].
    eapply runs_eq; [apply runs_ret|done|by destruct m].
  - eapply runs_eq; [apply runs_ret|done|by destruct m].
Qed.
End NetRuns.

(** The server of the example is listening when [http.Serve] starts: with a
    kernel that sets up the ring as documented and whose calls succeed, [main]
    creates a ring with well-formed queues and the error handler and then opens a
    TCP socket, allows other processes to share the port, binds the resolved
    port and the first four bytes of the resolved IP address, and listens.  The listener has its socket, the debug flag of the
    command line and an error handler.  [main] is then the server: as [Serve]
    returns with an error only, [main] ends with it and the listener stays open. *)
Theorem net_listens {K : Kernel} (rd : Z -> Z) (rd_sqe : Z -> SubmitEntry_t) (rd_cqe : Z -> CompletionEntry)
    (read_file : string -> string + error) (resolve : string -> string -> option netAddr)
    (debug : bool) (port : Z) (na : netAddr) (p' : Params) (fd : Z) (m m1 : Mem) (r : SysRes)
    (Hset : setup_ok rd 8192 iouring_params p' fd m m1 r)
    (Hr : resolve "tcp"%string (net_address port) = Some na)
    (Hok : forall h c, sys_errno (k_answer h c) = 0) :
  exists l m' q c, runs (net_listen rd rd_sqe rd_cqe read_file resolve debug port) m (inr l) m' /\
    l_a l = mkAddr (na_Network na) (na_String na) /\ l_debug l = debug /\ l_errHandler l = true /\
    made_channels l m' /\ r_fd (m_ring m') = fd /\ r_enterErrHandler (m_ring m') = true /\
    m_sq m' = Some q /\ sq_wf q /\ len (sq_Entries q) = p_SqEntries p' /\
    m_cq m' = Some c /\ cq_wf c /\ len (cq_Entries c) = p_CqEntries p' /\
    calls m' = [SysListen (l_fd l) SOMAXCONN; SysBind (l_fd l) (truncated_addr false na);
                SysSetsockoptInt (l_fd l) SOL_SOCKET SOReuseport 1; SysSocket AF_INET SOCK_STREAM 0] ++
               (mmap_calls m1 fd p').*1 ++ SysSetup 8192 iouring_params :: calls m /\
    forall Serve e m'', runs (Serve net_handler l) m' (Some e) m'' ->
      runs (net_main rd rd_sqe rd_cqe read_file resolve Serve debug port) m (Some e) m''.
Proof.
  destruct (new_queues rd rd_sqe rd_cqe 8192 _ p' fd m m1 r Hset) as (H1 & H2 & H3 & H4).
  pose proof (runs_New rd rd_sqe rd_cqe 8192 _ p' fd m m1 r Hset _ _ _ (runs_net_ops debug _)) as Hnew.
  set (m2 := upd_ring _ _) in Hnew.
  destruct (runs_listener_ok read_file resolve "tcp" AF_INET SOCK_STREAM (net_address port) (truncated_addr false na)
    (mkAddr (na_Network na) (na_String na)) true [SOReuseport] m2)
    as (l & m' & Hl & Hfd & Ha & Hd & He & Hch & Hri & Hc); [|done|by left; set_solver|].
  { apply (listens_inet resolve "tcp" (net_address port) AF_INET SOCK_STREAM false true na); [by left|done]. }
  exists l, m', (new_sq rd rd_sqe p' fd m1), (new_cq rd rd_cqe p' fd m1).
  assert (runs (net_listen rd rd_sqe rd_cqe read_file resolve debug port) m (inr l) m') as Hrun.
  { eapply runs_bind; [exact Hnew|]. exact Hl. }
  unfold m_sq, m_cq. rewrite Hri. split_and!; try done.
  - rewrite Hd. by destruct debug.
  - by destruct debug.
  - by destruct debug.
  - by destruct debug.
  - by destruct debug.
  - rewrite Hfd, Hc. unfold calls at 1. cbn. rewrite fmap_app. by rewrite (su_mem _ _ _ _ _ _ _ _ Hset).
  - intros Serve e m'' Hs. eapply runs_bind; [exact Hrun|]. eapply runs_bind; [exact Hs|]. apply runs_ret.
Qed.

Definition net_resolve (network address : string) : option netAddr :=
  if bool_decide (address = ":9999"%string) then Some (mkNetAddr [] 9999 "tcp" ":9999") else None.

Lemma net_listens_witness :
  let K := cp_kernel in
  exists l m' q c,
    runs (net_listen cp_rd (fun _ => zeroSQE) (fun _ => mkCQE 0 0 0) sample_file net_resolve true 9999)
      sample_mem (inr l) m' /\
    l_a l = mkAddr "tcp" ":9999" /\ l_debug l = true /\ l_errHandler l = true /\
    made_channels l m' /\ r_fd (m_ring m') = 5 /\ r_enterErrHandler (m_ring m') = true /\
    m_sq m' = Some q /\ sq_wf q /\ len (sq_Entries q) = 4096 /\
    m_cq m' = Some c /\ cq_wf c /\ len (cq_Entries c) = 8192 /\
    calls m' = [SysListen (l_fd l) SOMAXCONN; SysBind (l_fd l) (SockaddrInet4 9999 [0; 0; 0; 0]);
                SysSetsockoptInt (l_fd l) SOL_SOCKET SOReuseport 1; SysSocket AF_INET SOCK_STREAM 0] ++
               (mmap_calls (cp_mem 8192) 5 cp_params).*1 ++ [SysSetup 8192 iouring_params] /\
    forall Serve e m'', runs (Serve net_handler l) m' (Some e) m'' ->
      runs (net_main cp_rd (fun _ => zeroSQE) (fun _ => mkCQE 0 0 0) sample_file net_resolve Serve true 9999)
        sample_mem (Some e) m''.
Proof.
  intros K. apply (net_listens (K := cp_kernel) cp_rd (fun _ => zeroSQE) (fun _ => mkCQE 0 0 0) sample_file
    net_resolve true 9999 (mkNetAddr [] 9999 "tcp" ":9999") cp_params 5 sample_mem (cp_mem 8192) (mkSysRes 5 0)).
  - apply cp_setup.
  - vm_compute. reflexivity.
  - by intros h [].
Defined.
